(** * A shallow embedding of the web-poker-rpg rules engine

    The TypeScript engine (hand ranking and evaluation, the pot ledger, the
    action-order rules, the table/seat model and the hand life-cycle state
    machine) is transcribed into executable Rocq definitions, and the
    properties stated about it are proved over those definitions.

    Conventions.
    - JavaScript numbers are IEEE 754 binary64.  Card values and counters
      are small integers and are modelled as [Z] or [nat].  Chip amounts are
      modelled as [Z] too: that is the engine on integer amounts, on which
      the additions, subtractions and comparisons of binary64 are exact (up
      to 2^53).  The code does not keep amounts integral, though (the AI
      sizes its bets as [potSize * 0.66] and [callAmount * 2.5]), and the
      layering of [PotManager.collectBets] is sensitive to rounding.  The pot
      ledger is therefore transcribed a second time, generically in the
      number operations ([Ledger]), and read on integers and on binary64
      itself ([JsNumber.integers], [JsNumber.doubles]).
    - A JavaScript [Map<string, _>] is an association list in insertion order
      with pairwise distinct keys; a [Set<string>] is a duplicate-free list in
      insertion order.
    - A method that may [throw] returns a [Result]; a method that mutates an
      object returns the new object.  *)

From Stdlib Require Import PrimFloat String ZArith Lia Bool Arith PeanoNat List Sorted
  Permutation.
Import ListNotations.
Open Scope Z_scope.

(* ================================================================== *)
(** * Definitions *)
(* ================================================================== *)

(** ** Thrown errors *)

(** The states of [engine/GameState.ts]. *)
Inductive GameState : Type :=
| WaitingForPlayers
| ReadyToStart
| PostingBlinds
| DealingHoleCards
| PreflopBetting
| DealingFlop
| FlopBetting
| DealingTurn
| TurnBetting
| DealingRiver
| RiverBetting
| Showdown
| HandComplete
| GameOver.

(** Player status of [models/Player.ts]. *)
Inductive PlayerStatus : Type :=
| Active | Folded | AllIn | SittingOut | Eliminated.

(** One constructor per [throw new Error(...)] site that the embedded code can
    reach; the arguments are the values interpolated into the message. *)
Inductive Error : Type :=
| ContributionMustBePositive                       (* Pot.addContribution *)
| InvalidStateTransition (from to : GameState)     (* HandManager.setState *)
| CannotStartHandFromState (s : GameState)         (* HandManager.startHand *)
| NeedTwoPlayersToStartHand                        (* HandManager.startHand *)
| CannotDetermineBlindPlayers                      (* HandManager.postBlinds *)
| CannotBet (s : PlayerStatus)                     (* Player.bet *)
| CannotBetAfterBetting                            (* Player.bet *)
| CannotRemoveNonPositiveChips                     (* Player.removeChips *)
| CannotAddNonPositiveChips                        (* Player.addChips *)
| ExpectedFiveCards (got : nat)                    (* HandEvaluator.evaluateHand *)
| ExpectedSevenCards (got : nat)                   (* evaluateBest7CardHand *)
| CannotDealFromEmptyDeck                          (* Deck.dealCard *)
| CannotDealCount (count remaining : nat)          (* Deck.dealCards *)
| NeedTwoPlayersToDeal                             (* Dealer.dealHoleCards *)
| NullBestHand                                     (* use of a null [bestHand!] *)
| CannotFold (s : PlayerStatus)                    (* Player.fold *)
| CannotCheck (s : PlayerStatus)                   (* Player.check *)
| CannotCall (s : PlayerStatus)                    (* Player.call *)
| CannotRaise (s : PlayerStatus)                   (* Player.raise *)
| CannotGoAllIn (s : PlayerStatus)                 (* Player.allIn *)
| InvalidSeatPosition (position : Z)               (* Table.seatPlayer *)
| SeatOccupied (position : Z)                      (* Table.seatPlayer *)
| UndefinedSeat                                    (* TypeError: a seat that does not exist *)
| InvalidButtonPosition (position : Z)             (* Table.setButtonPosition *)
| NoOccupiedSeats                                  (* Table.moveButton *)
| PlayerNotFound (playerId : string)               (* BettingRoundTracker.recordAction *)
| CannotBecomeReadyFrom (s : GameState)            (* HandManager.setReadyToStart *)
| NeedTwoPlayersToBeReady                          (* HandManager.setReadyToStart *)
| CannotPerformShowdownFrom (s : GameState)        (* HandManager.performShowdown *)
| CannotPrepareNextHandFrom (s : GameState)        (* HandManager.prepareNextHand *)
| InsufficientCards (playerId : string).           (* Dealer.determineWinners *)

Inductive Result (A : Type) : Type :=
| Ok (a : A)
| Throw (e : Error).
Arguments Ok {A} a.
Arguments Throw {A} e.

Definition bind {A B : Type} (r : Result A) (k : A -> Result B) : Result B :=
  match r with
  | Ok a => k a
  | Throw e => Throw e
  end.

Notation "x <- e ;; k" := (bind e (fun x => k))
  (at level 61, e at next level, right associativity).

(** ** JavaScript [Map<string, V>] and [Set<string>] *)

Module JsMap.
Definition t (V : Type) : Type := list (string * V).

Section Ops.
Context {V : Type}.

Fixpoint get (m : t V) (k : string) : option V :=
  match m with
  | [] => None
  | (k', v) :: rest => if String.eqb k' k then Some v else get rest k
  end.

(** [Map.prototype.set]: an existing key keeps its place, a new key is
    appended. *)
Fixpoint set (m : t V) (k : string) (v : V) : t V :=
  match m with
  | [] => [(k, v)]
  | (k', v') :: rest =>
      if String.eqb k' k then (k', v) :: rest else (k', v') :: set rest k v
  end.

(** [m.get(k) ?? d] *)
Definition getOr (m : t V) (k : string) (d : V) : V :=
  match get m k with
  | Some v => v
  | None => d
  end.

Definition keys (m : t V) : list string := map fst m.
Definition values (m : t V) : list V := map snd m.
Definition size (m : t V) : nat := length m.
End Ops.
End JsMap.

Module JsSet.
Definition t : Type := list string.

Definition has (s : t) (k : string) : bool :=
  existsb (String.eqb k) s.

Definition add (s : t) (k : string) : t :=
  if has s k then s else s ++ [k].

Definition delete (s : t) (k : string) : t :=
  filter (fun k' => negb (String.eqb k k')) s.

(** [new Set(iterable)] *)
Definition of_list (l : list string) : t := fold_left add l [].
End JsSet.

(** [[...new Set(xs)]] on numbers: duplicates dropped, first occurrences kept
    in order. *)
Definition uniqZ (xs : list Z) : list Z :=
  fold_left (fun acc x => if existsb (Z.eqb x) acc then acc else acc ++ [x]) xs [].

(** [Array.prototype.sort] with the comparator [(a, b) => a - b]. *)
Fixpoint insert_asc (x : Z) (l : list Z) : list Z :=
  match l with
  | [] => [x]
  | y :: r => if x <=? y then x :: l else y :: insert_asc x r
  end.

Definition sort_asc (l : list Z) : list Z := fold_right insert_asc [] l.

Definition sumZ (l : list Z) : Z := fold_left Z.add l 0.

(** ** [Pot] (engine/BettingStructure.ts) *)

Module Pot.
Record t : Type := mk {
  contributions : JsMap.t Z;
  eligiblePlayerIds : JsSet.t
}.

(** [new Pot(eligiblePlayers)] *)
Definition new (eligiblePlayers : list string) : t :=
  {| contributions := []; eligiblePlayerIds := JsSet.of_list eligiblePlayers |}.

Definition addContribution (p : t) (playerId : string) (amount : Z) : Result t :=
  if amount <=? 0 then Throw ContributionMustBePositive
  else
    let currentAmount :=
      JsMap.getOr (contributions p) playerId 0 in
    let contributions' := JsMap.set (contributions p) playerId (currentAmount + amount) in
    let eligible' :=
      if negb (JsSet.has (eligiblePlayerIds p) playerId)
      then JsSet.add (eligiblePlayerIds p) playerId
      else eligiblePlayerIds p in
    Ok {| contributions := contributions'; eligiblePlayerIds := eligible' |}.

Definition total (p : t) : Z := sumZ (JsMap.values (contributions p)).

Definition getPlayerContribution (p : t) (playerId : string) : Z :=
  JsMap.getOr (contributions p) playerId 0.

Definition isPlayerEligible (p : t) (playerId : string) : bool :=
  JsSet.has (eligiblePlayerIds p) playerId.

Definition getEligiblePlayers (p : t) : list string := eligiblePlayerIds p.

Definition removePlayerEligibility (p : t) (playerId : string) : t :=
  {| contributions := contributions p;
     eligiblePlayerIds := JsSet.delete (eligiblePlayerIds p) playerId |}.
End Pot.

(** The pots that the methods of the class can produce. *)
Inductive PotBuilt : Pot.t -> Prop :=
| built_new : forall eligiblePlayers, PotBuilt (Pot.new eligiblePlayers)
| built_add : forall p playerId amount p',
    PotBuilt p -> Pot.addContribution p playerId amount = Ok p' -> PotBuilt p'
| built_remove : forall p playerId,
    PotBuilt p -> PotBuilt (Pot.removePlayerEligibility p playerId).

(** ** [PotManager] (engine/BettingStructure.ts) *)

(** [Pot] and [PotManager] on integer amounts.  The same code with the number
    operations left open is [Ledger] below; lemma [ledger_on_integers] shows
    that this module is that code taken at the integers. *)
Module PotManager.
Record t : Type := mk {
  mainPot : Pot.t;
  sidePots : list Pot.t
}.

(** The constructor, and [reset]. *)
Definition new : t := {| mainPot := Pot.new []; sidePots := [] |}.

(** The body of the inner [for (const playerId of contributingPlayers)]
    loop: the player pays [contributionAmount] into the layer and the same
    amount is taken off what they still have to contribute.  The non-null
    assertion on [remainingContributions.get] holds because the ids come
    from that map's own entries. *)
Definition collectOne (contributionAmount : Z)
    (st : Pot.t * JsMap.t Z) (playerId : string) : Result (Pot.t * JsMap.t Z) :=
  let '(pot, remainingContributions) := st in
  pot' <- Pot.addContribution pot playerId contributionAmount ;;
  let remaining :=
    JsMap.getOr remainingContributions playerId 0 in
  Ok (pot', JsMap.set remainingContributions playerId (remaining - contributionAmount)).

Fixpoint collectContributions (contributionAmount : Z)
    (contributingPlayers : list string) (st : Pot.t * JsMap.t Z)
    : Result (Pot.t * JsMap.t Z) :=
  match contributingPlayers with
  | [] => Ok st
  | playerId :: rest =>
      st' <- collectOne contributionAmount st playerId ;;
      collectContributions contributionAmount rest st'
  end.

(** One iteration of the [for (let i = 0; ...)] loop over the bet levels,
    with [contributionAmount = currentLevel - previousLevel]. *)
Definition collectLevel (foldedPlayers : JsSet.t) (contributionAmount : Z)
    (st : JsMap.t Z * t) : Result (JsMap.t Z * t) :=
  let '(remainingContributions, pm) := st in
  let contributingPlayers :=
    map fst (filter (fun e => contributionAmount <=? snd e) remainingContributions) in
  match contributingPlayers with
  | [] => Ok st                                  (* continue *)
  | _ :: _ =>
      let eligiblePlayers :=
        filter (fun id => negb (JsSet.has foldedPlayers id)) contributingPlayers in
      let pot := Pot.new eligiblePlayers in
      r <- collectContributions contributionAmount contributingPlayers
             (pot, remainingContributions) ;;
      let '(pot1, remaining') := r in
      let pot2 := fold_left Pot.removePlayerEligibility foldedPlayers pot1 in
      if Pot.total (mainPot pm) =? 0
      then Ok (remaining', {| mainPot := pot2; sidePots := sidePots pm |})
      else Ok (remaining', {| mainPot := mainPot pm; sidePots := sidePots pm ++ [pot2] |})
  end.

(** The level loop.  The source indexes [uniqueBetAmounts[i - 1]] for the
    previous level (0 when [i = 0]); here the previous level is carried. *)
Fixpoint collectLevels (foldedPlayers : JsSet.t) (previousLevel : Z)
    (levels : list Z) (st : JsMap.t Z * t) : Result (JsMap.t Z * t) :=
  match levels with
  | [] => Ok st
  | currentLevel :: rest =>
      st' <- collectLevel foldedPlayers (currentLevel - previousLevel) st ;;
      collectLevels foldedPlayers currentLevel rest st'
  end.

Definition collectBets (pm : t) (playerBets : JsMap.t Z)
    (allInPlayers foldedPlayers : JsSet.t) : Result t :=
  if (JsMap.size playerBets =? 0)%nat then Ok pm
  else
    let uniqueBetAmounts :=
      sort_asc (uniqZ (filter (fun amt => 0 <? amt) (JsMap.values playerBets))) in
    match uniqueBetAmounts with
    | [] => Ok pm
    | _ :: _ =>
        r <- collectLevels foldedPlayers 0 uniqueBetAmounts (playerBets, pm) ;;
        Ok (snd r)
    end.

(** The successive [collectBets] calls of one hand (one per street), each
    with its own contribution map, all-in set and folded set. *)
Fixpoint collectBetsSeq (pm : t)
    (calls : list (JsMap.t Z * JsSet.t * JsSet.t)) : Result t :=
  match calls with
  | [] => Ok pm
  | (playerBets, allInPlayers, foldedPlayers) :: rest =>
      pm' <- collectBets pm playerBets allInPlayers foldedPlayers ;;
      collectBetsSeq pm' rest
  end.

(** [distributeSinglePot]; [winners] is the list of winner ids.  The loop
    over [eligibleWinners] credits index 0 with the remainder. *)
Fixpoint creditWinners (amountPerWinner remainder : Z) (i : nat)
    (eligibleWinners : list string) (winnings : JsMap.t Z) : JsMap.t Z :=
  match eligibleWinners with
  | [] => winnings
  | winner :: rest =>
      let currentWinnings :=
        JsMap.getOr winnings winner 0 in
      let amount :=
        if (i =? 0)%nat then amountPerWinner + remainder else amountPerWinner in
      creditWinners amountPerWinner remainder (S i) rest
        (JsMap.set winnings winner (currentWinnings + amount))
  end.

Definition distributeSinglePot (pot : Pot.t) (winners : list string)
    (winnings : JsMap.t Z) : JsMap.t Z :=
  if Pot.total pot =? 0 then winnings
  else
    let eligibleWinners := filter (Pot.isPlayerEligible pot) winners in
    match eligibleWinners with
    | [] => winnings
    | _ :: _ =>
        let n := Z.of_nat (length eligibleWinners) in
        (* Math.floor(total / n) and total % n *)
        let amountPerWinner := Pot.total pot / n in
        let remainder := Z.rem (Pot.total pot) n in
        creditWinners amountPerWinner remainder 0 eligibleWinners winnings
    end.

Definition distributePots (pm : t) (winners : list string) : JsMap.t Z :=
  let winnings := distributeSinglePot (mainPot pm) winners [] in
  fold_left (fun w sidePot => distributeSinglePot sidePot winners w)
    (sidePots pm) winnings.

Definition getTotalPotAmount (pm : t) : Z :=
  fold_left (fun total sidePot => total + Pot.total sidePot)
    (sidePots pm) (Pot.total (mainPot pm)).

Definition getSidePotCount (pm : t) : nat := length (sidePots pm).

(** [reset()] *)
Definition reset : t := {| mainPot := Pot.new []; sidePots := [] |}.
End PotManager.

(** ** JavaScript numbers *)

(** The operations that the pot ledger applies to chip amounts.  [eqb] is
    [===], [ltb] is [<] and [leb] is [<=]; [a > b] is read [ltb b a] and
    [a >= b] is read [leb b a]. *)
Module JsNumber.
Record ops (N : Type) : Type := mkOps {
  zero : N;
  add : N -> N -> N;
  sub : N -> N -> N;
  eqb : N -> N -> bool;
  ltb : N -> N -> bool;
  leb : N -> N -> bool
}.
Arguments zero {N} _.
Arguments add {N} _ _ _.
Arguments sub {N} _ _ _.
Arguments eqb {N} _ _ _.
Arguments ltb {N} _ _ _.
Arguments leb {N} _ _ _.

(** Integer amounts: binary64 is exact on them up to 2^53. *)
Definition integers : ops Z :=
  {| zero := 0; add := Z.add; sub := Z.sub; eqb := Z.eqb; ltb := Z.ltb; leb := Z.leb |}.

(** JavaScript numbers as they are: binary64 with round-to-nearest-even. *)
Definition doubles : ops float :=
  {| zero := PrimFloat.zero; add := PrimFloat.add; sub := PrimFloat.sub;
     eqb := PrimFloat.eqb; ltb := PrimFloat.ltb; leb := PrimFloat.leb |}.
End JsNumber.

(** ** [Pot] and [PotManager.collectBets] on any numbers *)

(** The same code as [Pot] and [PotManager] above, line by line, with the
    number operations left open. *)
Module Ledger.
Section OnNumbers.
Context {N : Type} (num : JsNumber.ops N).

(** [[...new Set(xs)]].  A Set compares by SameValueZero, which is [===] on
    the amounts that reach it (those with [amt > 0], so not NaN). *)
Definition uniq (xs : list N) : list N :=
  fold_left (fun acc x => if existsb (JsNumber.eqb num x) acc then acc else acc ++ [x])
    xs [].

(** [sort((a, b) => a - b)]: [x] goes before [y] when [x - y <= 0]. *)
Fixpoint insert_asc (x : N) (l : list N) : list N :=
  match l with
  | [] => [x]
  | y :: r =>
      if JsNumber.leb num (JsNumber.sub num x y) (JsNumber.zero num)
      then x :: l else y :: insert_asc x r
  end.

Definition sort_asc (l : list N) : list N := fold_right insert_asc [] l.

(** [class Pot] *)
Record pot : Type := mkPot {
  contributions : JsMap.t N;
  eligiblePlayerIds : JsSet.t
}.

Definition newPot (eligiblePlayers : list string) : pot :=
  {| contributions := []; eligiblePlayerIds := JsSet.of_list eligiblePlayers |}.

Definition addContribution (p : pot) (playerId : string) (amount : N) : Result pot :=
  if JsNumber.leb num amount (JsNumber.zero num) then Throw ContributionMustBePositive
  else
    let currentAmount := JsMap.getOr (contributions p) playerId (JsNumber.zero num) in
    let contributions' :=
      JsMap.set (contributions p) playerId (JsNumber.add num currentAmount amount) in
    let eligible' :=
      if negb (JsSet.has (eligiblePlayerIds p) playerId)
      then JsSet.add (eligiblePlayerIds p) playerId
      else eligiblePlayerIds p in
    Ok {| contributions := contributions'; eligiblePlayerIds := eligible' |}.

(** [get total()]: [let sum = 0; for (...) sum += amount]. *)
Definition total (p : pot) : N :=
  fold_left (JsNumber.add num) (JsMap.values (contributions p)) (JsNumber.zero num).

Definition removePlayerEligibility (p : pot) (playerId : string) : pot :=
  {| contributions := contributions p;
     eligiblePlayerIds := JsSet.delete (eligiblePlayerIds p) playerId |}.

(** [class PotManager] *)
Record manager : Type := mkManager {
  mainPot : pot;
  sidePots : list pot
}.

Definition new : manager := {| mainPot := newPot []; sidePots := [] |}.

Definition collectOne (contributionAmount : N)
    (st : pot * JsMap.t N) (playerId : string) : Result (pot * JsMap.t N) :=
  let '(pot, remainingContributions) := st in
  pot' <- addContribution pot playerId contributionAmount ;;
  let remaining := JsMap.getOr remainingContributions playerId (JsNumber.zero num) in
  Ok (pot', JsMap.set remainingContributions playerId
              (JsNumber.sub num remaining contributionAmount)).

Fixpoint collectContributions (contributionAmount : N)
    (contributingPlayers : list string) (st : pot * JsMap.t N)
    : Result (pot * JsMap.t N) :=
  match contributingPlayers with
  | [] => Ok st
  | playerId :: rest =>
      st' <- collectOne contributionAmount st playerId ;;
      collectContributions contributionAmount rest st'
  end.

(** One bet level; the test is [remaining >= contributionAmount]. *)
Definition collectLevel (foldedPlayers : JsSet.t) (contributionAmount : N)
    (st : JsMap.t N * manager) : Result (JsMap.t N * manager) :=
  let '(remainingContributions, pm) := st in
  let contributingPlayers :=
    map fst (filter (fun e => JsNumber.leb num contributionAmount (snd e))
               remainingContributions) in
  match contributingPlayers with
  | [] => Ok st                                  (* continue *)
  | _ :: _ =>
      let eligiblePlayers :=
        filter (fun id => negb (JsSet.has foldedPlayers id)) contributingPlayers in
      let pot := newPot eligiblePlayers in
      r <- collectContributions contributionAmount contributingPlayers
             (pot, remainingContributions) ;;
      let '(pot1, remaining') := r in
      let pot2 := fold_left removePlayerEligibility foldedPlayers pot1 in
      if JsNumber.eqb num (total (mainPot pm)) (JsNumber.zero num)
      then Ok (remaining', {| mainPot := pot2; sidePots := sidePots pm |})
      else Ok (remaining', {| mainPot := mainPot pm; sidePots := sidePots pm ++ [pot2] |})
  end.

Fixpoint collectLevels (foldedPlayers : JsSet.t) (previousLevel : N)
    (levels : list N) (st : JsMap.t N * manager) : Result (JsMap.t N * manager) :=
  match levels with
  | [] => Ok st
  | currentLevel :: rest =>
      st' <- collectLevel foldedPlayers (JsNumber.sub num currentLevel previousLevel) st ;;
      collectLevels foldedPlayers currentLevel rest st'
  end.

Definition collectBets (pm : manager) (playerBets : JsMap.t N)
    (allInPlayers foldedPlayers : JsSet.t) : Result manager :=
  if (JsMap.size playerBets =? 0)%nat then Ok pm
  else
    let uniqueBetAmounts :=
      sort_asc (uniq (filter (fun amt => JsNumber.ltb num (JsNumber.zero num) amt)
                        (JsMap.values playerBets))) in
    match uniqueBetAmounts with
    | [] => Ok pm
    | _ :: _ =>
        r <- collectLevels foldedPlayers (JsNumber.zero num) uniqueBetAmounts
               (playerBets, pm) ;;
        Ok (snd r)
    end.

(** [getTotalPotAmount()] *)
Definition getTotalPotAmount (pm : manager) : N :=
  fold_left (fun sum sidePot => JsNumber.add num sum (total sidePot))
    (sidePots pm) (total (mainPot pm)).
End OnNumbers.

(** The integer ledger [Pot] / [PotManager] seen as a ledger on numbers. *)
Definition ofPot (p : Pot.t) : pot (N := Z) :=
  {| contributions := Pot.contributions p;
     eligiblePlayerIds := Pot.eligiblePlayerIds p |}.

Definition ofManager (pm : PotManager.t) : manager (N := Z) :=
  {| mainPot := ofPot (PotManager.mainPot pm);
     sidePots := map ofPot (PotManager.sidePots pm) |}.
End Ledger.

(** [f] applied to the value a method returns; a throw stays a throw. *)
Definition mapResult {A B : Type} (f : A -> B) (r : Result A) : Result B :=
  match r with
  | Ok a => Ok (f a)
  | Throw e => Throw e
  end.

(** ** Cards (models/Card.ts) *)

Inductive Suit : Type := Spades | Hearts | Diamonds | Clubs.

Inductive Rank : Type :=
| Two | Three | Four | Five | Six | Seven | Eight | Nine | Ten
| Jack | Queen | King | Ace.

(** [RANK_VALUES] *)
Definition RANK_VALUES (r : Rank) : Z :=
  match r with
  | Two => 2 | Three => 3 | Four => 4 | Five => 5 | Six => 6 | Seven => 7
  | Eight => 8 | Nine => 9 | Ten => 10 | Jack => 11 | Queen => 12
  | King => 13 | Ace => 14
  end.

Definition suit_eqb (a b : Suit) : bool :=
  match a, b with
  | Spades, Spades | Hearts, Hearts | Diamonds, Diamonds | Clubs, Clubs => true
  | _, _ => false
  end.

Module Card.
Record t : Type := mk { rank : Rank; suit : Suit }.
Definition value (c : t) : Z := RANK_VALUES (rank c).
End Card.

(** ** [HandRanking] (engine/HandRanking.ts) *)

Inductive HandRank : Type :=
| HighCard | Pair | TwoPair | ThreeOfAKind | Straight | Flush
| FullHouse | FourOfAKind | StraightFlush | RoyalFlush.

(** The numeric values of the [HandRank] enum. *)
Definition handRankValue (r : HandRank) : Z :=
  match r with
  | HighCard => 0 | Pair => 1 | TwoPair => 2 | ThreeOfAKind => 3
  | Straight => 4 | Flush => 5 | FullHouse => 6 | FourOfAKind => 7
  | StraightFlush => 8 | RoyalFlush => 9
  end.

Module HandRanking.
Record t : Type := mk {
  rank : HandRank;
  cards : list Card.t;
  primaryValue : Z;
  secondaryValue : Z;
  kickers : list Z
}.

(** The kicker loop [for (let i = ...; i < Math.max(...); i++)], with [n]
    iterations left; [kickers[i] ?? 0] is [nth i kickers 0]. *)
Fixpoint compareKickers (n i : nat) (thisKickers otherKickers : list Z) : Z :=
  match n with
  | O => 0
  | S n' =>
      let thisKicker := nth i thisKickers 0 in
      let otherKicker := nth i otherKickers 0 in
      if negb (thisKicker =? otherKicker) then thisKicker - otherKicker
      else compareKickers n' (S i) thisKickers otherKickers
  end.

Definition compareTo (this other : t) : Z :=
  if negb (handRankValue (rank this) =? handRankValue (rank other))
  then handRankValue (rank this) - handRankValue (rank other)
  else if negb (primaryValue this =? primaryValue other)
  then primaryValue this - primaryValue other
  else if negb (secondaryValue this =? secondaryValue other)
  then secondaryValue this - secondaryValue other
  else compareKickers (Nat.max (length (kickers this)) (length (kickers other))) 0
         (kickers this) (kickers other).

(** What [compareTo] reads of a ranking: everything but the cards. *)
Definition comparedFields (h : t) : HandRank * Z * Z * list Z :=
  (rank h, primaryValue h, secondaryValue h, kickers h).
End HandRanking.

(** ** [HandEvaluator] (engine/HandEvaluator.ts) *)

Module HandEvaluator.
(** [[...cards].sort((a, b) => b.value - a.value)]: the sort is stable, so
    cards of equal value keep their relative order. *)
Fixpoint insertCardDesc (x : Card.t) (l : list Card.t) : list Card.t :=
  match l with
  | [] => [x]
  | y :: r =>
      if Card.value y <=? Card.value x then x :: l else y :: insertCardDesc x r
  end.

Definition sortCardsDesc (l : list Card.t) : list Card.t :=
  fold_right insertCardDesc [] l.

(** [.sort((a, b) => b - a)] on numbers. *)
Fixpoint insert_desc (x : Z) (l : list Z) : list Z :=
  match l with
  | [] => [x]
  | y :: r => if y <=? x then x :: l else y :: insert_desc x r
  end.

Definition sort_desc (l : list Z) : list Z := fold_right insert_desc [] l.

(** [groupByRank]: a [Map<number, Card[]>] in insertion order. *)
Fixpoint groupGet (g : list (Z * list Card.t)) (k : Z) : option (list Card.t) :=
  match g with
  | [] => None
  | (k', cs) :: rest => if k' =? k then Some cs else groupGet rest k
  end.

Fixpoint groupSet (g : list (Z * list Card.t)) (k : Z) (cs : list Card.t)
    : list (Z * list Card.t) :=
  match g with
  | [] => [(k, cs)]
  | (k', cs') :: rest =>
      if k' =? k then (k', cs) :: rest else (k', cs') :: groupSet rest k cs
  end.

Definition groupByRank (cards : list Card.t) : list (Z * list Card.t) :=
  fold_left
    (fun groups card =>
       let existing :=
         match groupGet groups (Card.value card) with
         | Some cs => cs
         | None => []
         end in
       groupSet groups (Card.value card) (existing ++ [card]))
    cards [].

Definition isFlush (cards : list Card.t) : bool :=
  match cards with
  | [] => true
  | first :: _ => forallb (fun card => suit_eqb (Card.suit card) (Card.suit first)) cards
  end.

(** [values.every((val, i) => i === 0 || val === values[i - 1] - 1)] *)
Fixpoint consecutiveAfter (prev : Z) (l : list Z) : bool :=
  match l with
  | [] => true
  | val :: r => (val =? prev - 1) && consecutiveAfter val r
  end.

Definition isConsecutive (values : list Z) : bool :=
  match values with
  | [] => true
  | v :: r => consecutiveAfter v r
  end.

Definition getStraightHighCard (cards : list Card.t) : option Z :=
  let values := sort_desc (uniqZ (map Card.value cards)) in
  if negb (length values =? 5)%nat then None
  else if isConsecutive values then Some (nth 0 values 0)
  else if (nth 0 values 0 =? 14) && (nth 1 values 0 =? 5) && (nth 2 values 0 =? 4)
          && (nth 3 values 0 =? 3) && (nth 4 values 0 =? 2)
  then Some 5
  else None.

Definition checkStraightFlush (cards : list Card.t) : option HandRanking.t :=
  let flush := isFlush cards in
  match getStraightHighCard cards with
  | Some straight =>
      if flush then Some (HandRanking.mk StraightFlush cards straight 0 []) else None
  | None => None
  end.

Definition checkRoyalFlush (cards : list Card.t) : option HandRanking.t :=
  match checkStraightFlush cards with
  | Some straightFlush =>
      if HandRanking.primaryValue straightFlush =? 14
      then Some (HandRanking.mk RoyalFlush cards 14 0 [])
      else None
  | None => None
  end.

(** [cards.find((c) => c.value !== rank)?.value ?? 0] *)
Definition firstValueWhere (f : Card.t -> bool) (cards : list Card.t) : Z :=
  match find f cards with
  | Some c => Card.value c
  | None => 0
  end.

Definition checkFourOfAKind (cards : list Card.t) : option HandRanking.t :=
  match find (fun g => (length (snd g) =? 4)%nat) (groupByRank cards) with
  | Some (rank, _) =>
      let kicker := firstValueWhere (fun c => negb (Card.value c =? rank)) cards in
      Some (HandRanking.mk FourOfAKind cards rank 0 [kicker])
  | None => None
  end.

Definition checkFullHouse (cards : list Card.t) : option HandRanking.t :=
  let '(threeRank, pairRank) :=
    fold_left
      (fun (acc : option Z * option Z) g =>
         if (length (snd g) =? 3)%nat then (Some (fst g), snd acc)
         else if (length (snd g) =? 2)%nat then (fst acc, Some (fst g))
         else acc)
      (groupByRank cards) (None, None) in
  match threeRank, pairRank with
  | Some three, Some two => Some (HandRanking.mk FullHouse cards three two [])
  | _, _ => None
  end.

Definition checkFlush (cards : list Card.t) : option HandRanking.t :=
  if isFlush cards then
    let values := sort_desc (map Card.value cards) in
    Some (HandRanking.mk Flush cards (nth 0 values 0) 0 (tl values))
  else None.

Definition checkStraight (cards : list Card.t) : option HandRanking.t :=
  match getStraightHighCard cards with
  | Some highCard => Some (HandRanking.mk Straight cards highCard 0 [])
  | None => None
  end.

Definition otherValuesDesc (rank : Z) (cards : list Card.t) : list Z :=
  sort_desc (map Card.value (filter (fun c => negb (Card.value c =? rank)) cards)).

Definition checkThreeOfAKind (cards : list Card.t) : option HandRanking.t :=
  match find (fun g => (length (snd g) =? 3)%nat) (groupByRank cards) with
  | Some (rank, _) =>
      Some (HandRanking.mk ThreeOfAKind cards rank 0 (otherValuesDesc rank cards))
  | None => None
  end.

Definition checkTwoPair (cards : list Card.t) : option HandRanking.t :=
  let pairs :=
    map fst (filter (fun g => (length (snd g) =? 2)%nat) (groupByRank cards)) in
  if (length pairs =? 2)%nat then
    let sorted := sort_desc pairs in
    let kicker :=
      firstValueWhere (fun c => negb (existsb (Z.eqb (Card.value c)) sorted)) cards in
    Some (HandRanking.mk TwoPair cards (nth 0 sorted 0) (nth 1 sorted 0) [kicker])
  else None.

Definition checkPair (cards : list Card.t) : option HandRanking.t :=
  match find (fun g => (length (snd g) =? 2)%nat) (groupByRank cards) with
  | Some (rank, _) =>
      Some (HandRanking.mk Pair cards rank 0 (otherValuesDesc rank cards))
  | None => None
  end.

Definition checkHighCard (cards : list Card.t) : HandRanking.t :=
  let values := sort_desc (map Card.value cards) in
  HandRanking.mk HighCard cards (nth 0 values 0) 0 (tl values).

(** [a ?? b] on check results. *)
Definition orElse (a : option HandRanking.t) (b : HandRanking.t) : HandRanking.t :=
  match a with
  | Some h => h
  | None => b
  end.

Definition evaluateHand (cards : list Card.t) : Result HandRanking.t :=
  if negb (length cards =? 5)%nat then Throw (ExpectedFiveCards (length cards))
  else
    let sortedCards := sortCardsDesc cards in
    Ok (orElse (checkRoyalFlush sortedCards)
       (orElse (checkStraightFlush sortedCards)
       (orElse (checkFourOfAKind sortedCards)
       (orElse (checkFullHouse sortedCards)
       (orElse (checkFlush sortedCards)
       (orElse (checkStraight sortedCards)
       (orElse (checkThreeOfAKind sortedCards)
       (orElse (checkTwoPair sortedCards)
       (orElse (checkPair sortedCards)
               (checkHighCard sortedCards)))))))))).

(** [get5CardCombinations]: the five nested index loops enumerate the
    5-element sub-lists in lexicographic index order. *)
Fixpoint combinations (k : nat) (cards : list Card.t) : list (list Card.t) :=
  match k with
  | O => [[]]
  | S k' =>
      match cards with
      | [] => []
      | c :: rest => map (cons c) (combinations k' rest) ++ combinations k rest
      end
  end.

Definition get5CardCombinations (cards : list Card.t) : list (list Card.t) :=
  combinations 5 cards.

Fixpoint bestOf (combos : list (list Card.t)) (bestHand : option HandRanking.t)
    : Result (option HandRanking.t) :=
  match combos with
  | [] => Ok bestHand
  | combo :: rest =>
      hand <- evaluateHand combo ;;
      match bestHand with
      | None => bestOf rest (Some hand)
      | Some best =>
          if 0 <? HandRanking.compareTo hand best
          then bestOf rest (Some hand)
          else bestOf rest bestHand
      end
  end.

(** [return bestHand!]: with seven cards there are 21 combinations, so
    [bestHand] is never null there. *)
Definition evaluateBest7CardHand (cards : list Card.t) : Result HandRanking.t :=
  if negb (length cards =? 7)%nat then Throw (ExpectedSevenCards (length cards))
  else
    best <- bestOf (get5CardCombinations cards) None ;;
    match best with
    | Some h => Ok h
    | None => Throw NullBestHand
    end.

(** The value of a group of [groupByRank] and the number of its cards. *)
Definition groupShape (g : Z * list Card.t) : Z * nat := (fst g, length (snd g)).
End HandEvaluator.

(** ** Methods that mutate an object and may throw *)

(** The object after a call is part of the outcome also when the call throws:
    whatever was mutated before the [throw] stays mutated. *)
Inductive Outcome (S A : Type) : Type :=
| Returns (a : A) (s : S)
| Throws (e : Error) (s : S).
Arguments Returns {S A} a s.
Arguments Throws {S A} e s.

Definition andThen {S A B : Type} (m : S -> Outcome S A) (k : A -> S -> Outcome S B)
    : S -> Outcome S B :=
  fun s =>
    match m s with
    | Returns a s' => k a s'
    | Throws e s' => Throws e s'
    end.

Notation "x <~ m ;; k" := (andThen m (fun x => k))
  (at level 61, m at next level, right associativity).

Definition finalState {S A : Type} (o : Outcome S A) : S :=
  match o with
  | Returns _ s => s
  | Throws _ s => s
  end.

(** ** [Player] (models/Player.ts) *)

Inductive PlayerAction : Type :=
| ActFold | ActCheck | ActCall | ActBet | ActRaise | ActAllIn.

Definition status_eqb (a b : PlayerStatus) : bool :=
  match a, b with
  | Active, Active | Folded, Folded | AllIn, AllIn
  | SittingOut, SittingOut | Eliminated, Eliminated => true
  | _, _ => false
  end.

Module Player.
(** The display name is left out; nothing in the engine reads it. *)
Record t : Type := mk {
  id : string;
  holeCards : list Card.t;
  chipCount : Z;
  currentBet : Z;
  status : PlayerStatus;
  lastAction : option PlayerAction
}.

(** [new Player(id, name, initialChips)] *)
Definition new (id : string) (initialChips : Z) : t :=
  mk id [] initialChips 0 Active None.

Definition chips (p : t) : Z := chipCount p.
Definition currentBetAmount (p : t) : Z := currentBet p.
Definition playerStatus (p : t) : PlayerStatus := status p.
Definition isActive (p : t) : bool := status_eqb (status p) Active.
Definition hasFolded (p : t) : bool := status_eqb (status p) Folded.
Definition isAllIn (p : t) : bool := status_eqb (status p) AllIn.
Definition isEliminated (p : t) : bool :=
  (chips p =? 0) || status_eqb (status p) Eliminated.

Definition addChips (p : t) (amount : Z) : Result t :=
  if amount <=? 0 then Throw CannotAddNonPositiveChips
  else
    let chipCount' := chipCount p + amount in
    let status' :=
      if status_eqb (status p) Eliminated && (0 <? chipCount')
      then Active else status p in
    Ok (mk (id p) (holeCards p) chipCount' (currentBet p) status' (lastAction p)).

(** Returns the amount actually removed and the player. *)
Definition removeChips (p : t) (amount : Z) : Result (Z * t) :=
  if amount <=? 0 then Throw CannotRemoveNonPositiveChips
  else
    let actualAmount := Z.min amount (chips p) in
    Ok (actualAmount,
        mk (id p) (holeCards p) (chipCount p - actualAmount) (currentBet p)
           (status p) (lastAction p)).

Definition receiveCards (p : t) (cards : list Card.t) : t :=
  mk (id p) cards (chipCount p) (currentBet p) (status p) (lastAction p).

Definition getHoleCards (p : t) : list Card.t :=
  if status_eqb (status p) Folded || status_eqb (status p) SittingOut
  then [] else holeCards p.

Definition bet (p : t) (amount : Z) : Result (Z * t) :=
  if negb (status_eqb (status p) Active) then Throw (CannotBet (status p))
  else if 0 <? currentBet p then Throw CannotBetAfterBetting
  else
    r <- removeChips p amount ;;
    let '(actualAmount, p1) := r in
    if chips p1 =? 0
    then Ok (actualAmount,
             mk (id p1) (holeCards p1) (chipCount p1) actualAmount AllIn (Some ActAllIn))
    else Ok (actualAmount,
             mk (id p1) (holeCards p1) (chipCount p1) actualAmount (status p1)
                (Some ActBet)).

Definition resetBet (p : t) : t :=
  mk (id p) (holeCards p) (chipCount p) 0 (status p) None.

Definition resetForNewHand (p : t) : t :=
  let status' :=
    if status_eqb (status p) Folded || status_eqb (status p) AllIn
    then (if 0 <? chips p then Active else Eliminated)
    else status p in
  mk (id p) [] (chipCount p) 0 status' None.

Definition clearCards (p : t) : t :=
  mk (id p) [] (chipCount p) (currentBet p) (status p) (lastAction p).

Definition fold (p : t) : Result t :=
  if negb (status_eqb (status p) Active) then Throw (CannotFold (status p))
  else Ok (mk (id p) [] (chipCount p) (currentBet p) Folded (Some ActFold)).

Definition check (p : t) : Result t :=
  if negb (status_eqb (status p) Active) then Throw (CannotCheck (status p))
  else Ok (mk (id p) (holeCards p) (chipCount p) (currentBet p) (status p) (Some ActCheck)).

(** The shared tail of [call] and [raise]: take [target - currentBet] off the
    stack (as much as there is), add what was taken to the bet, and go all-in
    when the stack is empty. *)
Definition putIn (p : t) (target : Z) (action : PlayerAction) : Result (Z * t) :=
  let amountNeeded := target - currentBet p in
  r <- removeChips p amountNeeded ;;
  let '(actualAmount, p1) := r in
  let currentBet' := currentBet p1 + actualAmount in
  if chips p1 =? 0
  then Ok (actualAmount,
           mk (id p1) (holeCards p1) (chipCount p1) currentBet' AllIn (Some ActAllIn))
  else Ok (actualAmount,
           mk (id p1) (holeCards p1) (chipCount p1) currentBet' (status p1) (Some action)).

(** [call(betAmount)]: [betAmount] is the total bet to match. *)
Definition call (p : t) (betAmount : Z) : Result (Z * t) :=
  if negb (status_eqb (status p) Active) then Throw (CannotCall (status p))
  else putIn p betAmount ActCall.

(** [raise(raiseAmount)]: [raiseAmount] is the new total bet. *)
Definition raise (p : t) (raiseAmount : Z) : Result (Z * t) :=
  if negb (status_eqb (status p) Active) then Throw (CannotRaise (status p))
  else putIn p raiseAmount ActRaise.

Definition allIn (p : t) : Result (Z * t) :=
  if negb (status_eqb (status p) Active) then Throw (CannotGoAllIn (status p))
  else
    let amount := chips p in
    r <- removeChips p amount ;;
    let '(_, p1) := r in
    Ok (amount,
        mk (id p1) (holeCards p1) (chipCount p1) (currentBet p1 + amount) AllIn
           (Some ActAllIn)).

Definition sitOut (p : t) : t :=
  mk (id p) [] (chipCount p) (currentBet p) SittingOut (lastAction p).

Definition sitIn (p : t) : t :=
  if 0 <? chips p
  then mk (id p) (holeCards p) (chipCount p) (currentBet p) Active (lastAction p)
  else p.
End Player.

(** ** [Table] (models/Table.ts) *)

Module Table.
Record TableConfig : Type := mkConfig {
  maxSeats : nat;
  smallBlind : Z;
  bigBlind : Z
}.

(** A [Seat] is [{position, player, isEmpty}]; [position] is the index of
    the seat, and [seatPlayer]/[removePlayer] keep [isEmpty] equal to
    [player === null], so a seat is an optional player. *)
Record t : Type := mk {
  seats : list (option Player.t);
  buttonPosition : nat;
  communityCards : list Card.t;
  config : TableConfig
}.

(** [new Table(config)] *)
Definition new (cfg : TableConfig) : t :=
  mk (repeat None (maxSeats cfg)) 0 [] cfg.

Fixpoint setNth {A : Type} (l : list A) (i : nat) (x : A) : list A :=
  match l, i with
  | [], _ => []
  | _ :: r, O => x :: r
  | y :: r, S i' => y :: setNth r i' x
  end.

(** Writes through the reference to the player object held by a seat. *)
Definition setPlayerAtSeat (tb : t) (position : nat) (p : Player.t) : t :=
  mk (setNth (seats tb) position (Some p)) (buttonPosition tb)
     (communityCards tb) (config tb).

(** [this.seats[position]?.player ?? null] *)
Definition getPlayerAtSeat (tb : t) (position : nat) : option Player.t :=
  match nth_error (seats tb) position with
  | Some (Some p) => Some p
  | _ => None
  end.

(** The occupied seats with their indices, in seat order. *)
Fixpoint occupiedFrom (i : nat) (l : list (option Player.t)) : list (nat * Player.t) :=
  match l with
  | [] => []
  | Some p :: r => (i, p) :: occupiedFrom (S i) r
  | None :: r => occupiedFrom (S i) r
  end.

Definition occupied (tb : t) : list (nat * Player.t) := occupiedFrom 0 (seats tb).

Definition getPlayers (tb : t) : list Player.t := map snd (occupied tb).

Definition activeStatus (p : Player.t) : bool :=
  status_eqb (Player.playerStatus p) Active || status_eqb (Player.playerStatus p) AllIn.

Definition getActivePlayers (tb : t) : list Player.t :=
  filter activeStatus (getPlayers tb).

Definition playerCount (tb : t) : nat := length (occupied tb).

Definition getButtonPosition (tb : t) : nat := buttonPosition tb.

(** The condition of the blind-finding loops:
    [seats[position]?.isEmpty || seats[position]?.player?.playerStatus === SittingOut]. *)
Definition seatSkipped (tb : t) (position : nat) : bool :=
  match nth_error (seats tb) position with
  | Some None => true
  | Some (Some p) => status_eqb (Player.playerStatus p) SittingOut
  | None => false
  end.

(** [while (skipped(position) && attempts < maxSeats) { position = (position + 1) % maxSeats; attempts++ }];
    the loop runs at most [maxSeats] times, which is the bound [n]. *)
Fixpoint skipSeats (tb : t) (n position attempts : nat) : nat * nat :=
  match n with
  | O => (position, attempts)
  | S n' =>
      if seatSkipped tb position && (attempts <? maxSeats (config tb))%nat
      then skipSeats tb n' ((position + 1) mod maxSeats (config tb))%nat (attempts + 1)%nat
      else (position, attempts)
  end.

Definition nextPlayingSeatAfter (tb : t) (from : nat) : option nat :=
  let '(position, attempts) :=
    skipSeats tb (maxSeats (config tb))
      ((from + 1) mod maxSeats (config tb))%nat 0%nat in
  if (attempts <? maxSeats (config tb))%nat then Some position else None.

Definition getSmallBlindPosition (tb : t) : option nat :=
  if (playerCount tb <? 2)%nat then None
  else if (playerCount tb =? 2)%nat then Some (buttonPosition tb)
  else nextPlayingSeatAfter tb (buttonPosition tb).

Definition getBigBlindPosition (tb : t) : option nat :=
  if (playerCount tb <? 2)%nat then None
  else if (playerCount tb =? 2)%nat then nextPlayingSeatAfter tb (buttonPosition tb)
  else
    match getSmallBlindPosition tb with
    | None => None
    | Some sbPosition => nextPlayingSeatAfter tb sbPosition
    end.

Definition getSmallBlindPlayer (tb : t) : option Player.t :=
  match getSmallBlindPosition tb with
  | Some position => getPlayerAtSeat tb position
  | None => None
  end.

Definition getBigBlindPlayer (tb : t) : option Player.t :=
  match getBigBlindPosition tb with
  | Some position => getPlayerAtSeat tb position
  | None => None
  end.

Definition setCommunityCards (tb : t) (cards : list Card.t) : t :=
  mk (seats tb) (buttonPosition tb) cards (config tb).

Definition getCommunityCards (tb : t) : list Card.t := communityCards tb.

Definition resetForNewHand (tb : t) : t :=
  mk (map (option_map Player.resetForNewHand) (seats tb)) (buttonPosition tb) []
     (config tb).

(** [seatPlayer(player, seatPosition)] *)
Definition seatPlayer (tb : t) (player : Player.t) (seatPosition : Z) : Result t :=
  if (seatPosition <? 0) || (Z.of_nat (maxSeats (config tb)) <=? seatPosition)
  then Throw (InvalidSeatPosition seatPosition)
  else
    match nth_error (seats tb) (Z.to_nat seatPosition) with
    | None => Throw UndefinedSeat
    | Some (Some _) => Throw (SeatOccupied seatPosition)
    | Some None => Ok (setPlayerAtSeat tb (Z.to_nat seatPosition) player)
    end.

Definition seatHolds (playerId : string) (seat : option Player.t) : bool :=
  match seat with
  | Some p => String.eqb (Player.id p) playerId
  | None => false
  end.

(** Empties the first seat whose player has the id; [None] when there is none. *)
Fixpoint vacateFirst (playerId : string) (l : list (option Player.t))
    : option (list (option Player.t)) :=
  match l with
  | [] => None
  | seat :: rest =>
      if seatHolds playerId seat then Some (None :: rest)
      else
        match vacateFirst playerId rest with
        | Some rest' => Some (seat :: rest')
        | None => None
        end
  end.

(** [removePlayer(playerId)]: the boolean result and the table. *)
Definition removePlayer (tb : t) (playerId : string) : bool * t :=
  match vacateFirst playerId (seats tb) with
  | Some seats' => (true, mk seats' (buttonPosition tb) (communityCards tb) (config tb))
  | None => (false, tb)
  end.

(** [getPlayer(playerId)] *)
Definition getPlayer (tb : t) (playerId : string) : option Player.t :=
  match find (seatHolds playerId) (seats tb) with
  | Some seat => seat
  | None => None
  end.

Definition getNextEmptySeat (tb : t) : option nat :=
  (fix go (i : nat) (l : list (option Player.t)) : option nat :=
     match l with
     | [] => None
     | None :: _ => Some i
     | Some _ :: rest => go (S i) rest
     end) 0%nat (seats tb).

Definition setButtonPosition (tb : t) (position : Z) : Result t :=
  if (position <? 0) || (Z.of_nat (maxSeats (config tb)) <=? position)
  then Throw (InvalidButtonPosition position)
  else Ok (mk (seats tb) (Z.to_nat position) (communityCards tb) (config tb)).

(** [this.seats[position]?.isEmpty] *)
Definition seatIsEmpty (tb : t) (position : nat) : bool :=
  match nth_error (seats tb) position with
  | Some None => true
  | _ => false
  end.

(** The loop of [moveButton]:
    [while (seats[nextPosition]?.isEmpty && attempts < maxSeats) { nextPosition = (nextPosition + 1) % maxSeats; attempts++ }],
    which runs at most [maxSeats] times, the bound [n]. *)
Fixpoint skipEmptySeats (tb : t) (n nextPosition attempts : nat) : nat * nat :=
  match n with
  | O => (nextPosition, attempts)
  | S n' =>
      if seatIsEmpty tb nextPosition && (attempts <? maxSeats (config tb))%nat
      then skipEmptySeats tb n' ((nextPosition + 1) mod maxSeats (config tb))%nat
             (attempts + 1)%nat
      else (nextPosition, attempts)
  end.

Definition moveButton (tb : t) : Result t :=
  let '(nextPosition, attempts) :=
    skipEmptySeats tb (maxSeats (config tb))
      ((buttonPosition tb + 1) mod maxSeats (config tb))%nat 0%nat in
  if (maxSeats (config tb) <=? attempts)%nat then Throw NoOccupiedSeats
  else Ok (mk (seats tb) nextPosition (communityCards tb) (config tb)).

Definition clearCommunityCards (tb : t) : t :=
  mk (seats tb) (buttonPosition tb) [] (config tb).
End Table.

(** ** [Deck] (models/Deck.ts) *)

Module Deck.
(** [cards] is the array; its last element is the top of the deck. *)
Record t : Type := mk { cards : list Card.t; dealtCards : list Card.t }.

Definition allSuits : list Suit := [Spades; Hearts; Diamonds; Clubs].
Definition allRanks : list Rank :=
  [Two; Three; Four; Five; Six; Seven; Eight; Nine; Ten; Jack; Queen; King; Ace].

Definition reset : t :=
  mk (flat_map (fun suit => map (fun rank => Card.mk rank suit) allRanks) allSuits) [].

Definition swap (l : list Card.t) (i j : nat) : list Card.t :=
  match nth_error l i, nth_error l j with
  | Some ci, Some cj => Table.setNth (Table.setNth l i cj) j ci
  | _, _ => l
  end.

(** Fisher-Yates, [for (let i = length - 1; i > 0; i--)].  [draw i] stands
    for the value of [Math.floor(Math.random() * (i + 1))] drawn at index
    [i]; it is reduced into the range 0..i. *)
Fixpoint shuffleFrom (draw : nat -> nat) (i : nat) (l : list Card.t) : list Card.t :=
  match i with
  | O => l
  | S i' => shuffleFrom draw i' (swap l i (draw i mod (i + 1))%nat)
  end.

Definition shuffle (draw : nat -> nat) (d : t) : t :=
  mk (shuffleFrom draw (length (cards d) - 1) (cards d)) (dealtCards d).

Definition dealCard (d : t) : Outcome t Card.t :=
  match rev (cards d) with
  | [] => Throws CannotDealFromEmptyDeck d
  | card :: rest => Returns card (mk (rev rest) (dealtCards d ++ [card]))
  end.

Fixpoint dealLoop (count : nat) (dealt : list Card.t) (d : t) : Outcome t (list Card.t) :=
  match count with
  | O => Returns dealt d
  | S n =>
      match dealCard d with
      | Returns card d' => dealLoop n (dealt ++ [card]) d'
      | Throws e d' => Throws e d'
      end
  end.

Definition dealCards (count : nat) (d : t) : Outcome t (list Card.t) :=
  if (length (cards d) <? count)%nat
  then Throws (CannotDealCount count (length (cards d))) d
  else dealLoop count [] d.

Definition burnCard (d : t) : Outcome t unit :=
  match dealCard d with
  | Returns _ d' => Returns tt d'
  | Throws e d' => Throws e d'
  end.
End Deck.

(** ** [ActionOrderRules] (engine/ActionOrderRules.ts) *)

Inductive BettingStreet : Type :=
| StreetPreflop | StreetFlop | StreetTurn | StreetRiver.

Module ActionOrderRules.
Record ActionOrderResult : Type := mkResult {
  playerOrder : list string;
  startingBet : Z
}.

(** [allPlayers.findIndex(player => player.id === id)], -1 when absent. *)
Fixpoint findIndexFrom (i : Z) (allPlayers : list Player.t) (id : string) : Z :=
  match allPlayers with
  | [] => -1
  | player :: rest =>
      if String.eqb (Player.id player) id then i else findIndexFrom (i + 1) rest id
  end.

Definition activePositions (allPlayers activePlayers : list Player.t) : list Z :=
  filter (fun pos => negb (pos =? -1))
    (map (fun p => findIndexFrom 0 allPlayers (Player.id p)) activePlayers).

(** A position that may be [null]; in arithmetic [null] counts as 0. *)
Definition numberOf (pos : option nat) : Z :=
  match pos with
  | Some n => Z.of_nat n
  | None => 0
  end.

(** [(a - startPos + maxSeats) % maxSeats] *)
Definition distance (startPos : option nat) (maxSeats : nat) (a : Z) : Z :=
  Z.rem (a - numberOf startPos + Z.of_nat maxSeats) (Z.of_nat maxSeats).

Fixpoint insertByDistance (startPos : option nat) (maxSeats : nat)
    (x : Z) (l : list Z) : list Z :=
  match l with
  | [] => [x]
  | y :: r =>
      if distance startPos maxSeats x - distance startPos maxSeats y <=? 0
      then x :: l
      else y :: insertByDistance startPos maxSeats x r
  end.

(** [[...positions].sort((a, b) => distA - distB)] (a stable sort). *)
Definition sortByDistanceFromPosition (positions : list Z) (startPos : option nat)
    (maxSeats : nat) : list Z :=
  fold_right (insertByDistance startPos maxSeats) [] positions.

(** [orderedPositions.indexOf(pos) === 0] *)
Definition isFirst (orderedPositions : list Z) (pos : option nat) : bool :=
  match orderedPositions, pos with
  | first :: _, Some n => first =? Z.of_nat n
  | _, _ => false
  end.

(** [[...orderedPositions.slice(1), orderedPositions[0]]] *)
Definition rotateFirstToEnd (orderedPositions : list Z) : list Z :=
  match orderedPositions with
  | [] => []
  | first :: rest => rest ++ [first]
  end.

(** [orderedPositions.map(pos => allPlayers[pos]?.id).filter(id => id !== undefined)] *)
Definition idsAt (allPlayers : list Player.t) (orderedPositions : list Z) : list string :=
  flat_map
    (fun pos =>
       match nth_error allPlayers (Z.to_nat pos) with
       | Some p => [Player.id p]
       | None => []
       end)
    orderedPositions.

Definition getPreflopOrder (table : Table.t) (activePlayers : list Player.t)
    : ActionOrderResult :=
  let buttonPos := Table.getButtonPosition table in
  let bbPos := Table.getBigBlindPosition table in
  let bbPlayer := Table.getBigBlindPlayer table in
  let allPlayers := Table.getPlayers table in
  let maxSeats := Table.maxSeats (Table.config table) in
  let positions := activePositions allPlayers activePlayers in
  let orderedPositions :=
    if (length activePlayers =? 2)%nat
    then sortByDistanceFromPosition positions (Some buttonPos) maxSeats
    else
      let sorted := sortByDistanceFromPosition positions bbPos maxSeats in
      if isFirst sorted bbPos then rotateFirstToEnd sorted else sorted in
  {| playerOrder := idsAt allPlayers orderedPositions;
     startingBet :=
       match bbPlayer with
       | Some p => Player.currentBetAmount p
       | None => 0
       end |}.

Definition getPostFlopOrder (table : Table.t) (activePlayers : list Player.t)
    : ActionOrderResult :=
  let buttonPos := Table.getButtonPosition table in
  let allPlayers := Table.getPlayers table in
  let maxSeats := Table.maxSeats (Table.config table) in
  let positions := activePositions allPlayers activePlayers in
  let sorted := sortByDistanceFromPosition positions (Some buttonPos) maxSeats in
  let orderedPositions :=
    if isFirst sorted (Some buttonPos) && (1 <? length sorted)%nat
    then rotateFirstToEnd sorted else sorted in
  {| playerOrder := idsAt allPlayers orderedPositions; startingBet := 0 |}.

Definition getActionOrder (table : Table.t) (street : BettingStreet)
    : ActionOrderResult :=
  let activePlayers := Table.getActivePlayers table in
  match activePlayers with
  | [] => {| playerOrder := []; startingBet := 0 |}
  | _ :: _ =>
      match street with
      | StreetPreflop => getPreflopOrder table activePlayers
      | _ => getPostFlopOrder table activePlayers
      end
  end.
End ActionOrderRules.

(** ** [BettingRoundTracker] (engine/BettingStructure.ts): construction *)

Inductive BettingRound : Type :=
| RoundPreflop | RoundFlop | RoundTurn | RoundRiver | RoundShowdown.

Definition toStreet (round : BettingRound) : option BettingStreet :=
  match round with
  | RoundPreflop => Some StreetPreflop
  | RoundFlop => Some StreetFlop
  | RoundTurn => Some StreetTurn
  | RoundRiver => Some StreetRiver
  | RoundShowdown => None
  end.

Module BettingRoundTracker.
(** The tracker also holds a reference to the table; it is the hand
    manager's table and is read from there. *)
Record t : Type := mk {
  round : BettingRound;
  currentBetAmount : Z;
  lastRaiserPosition : Z;
  playerIdOrder : list string;
  currentActionIndex : nat;
  playersActed : JsSet.t
}.

(** The constructor, with [initializeActionOrder]. *)
Definition new (table : Table.t) (round : BettingRound) : t :=
  match toStreet round with
  | None => mk round 0 (-1) [] 0 []
  | Some street =>
      let orderResult := ActionOrderRules.getActionOrder table street in
      mk round (ActionOrderRules.startingBet orderResult) (-1)
         (ActionOrderRules.playerOrder orderResult) 0 []
  end.

Definition getCurrentBet (tr : t) : Z := currentBetAmount tr.

Definition getActionOrder (tr : t) : list string := playerIdOrder tr.

Definition advanceToNextPlayer (tr : t) : t :=
  mk (round tr) (currentBetAmount tr) (lastRaiserPosition tr) (playerIdOrder tr)
     (S (currentActionIndex tr)) (playersActed tr).

(** The loop of [findNextPlayerToAct] over the ids of the action order. *)
Fixpoint findNextIn (table : Table.t) (currentBetAmount : Z) (ids : list string)
    : option Player.t :=
  match ids with
  | [] => None
  | playerId :: rest =>
      match Table.getPlayer table playerId with
      | None => findNextIn table currentBetAmount rest
      | Some player =>
          if Player.hasFolded player || Player.isAllIn player
          then findNextIn table currentBetAmount rest
          else if Player.currentBetAmount player <? currentBetAmount then Some player
          else findNextIn table currentBetAmount rest
      end
  end.

Definition findNextPlayerToAct (table : Table.t) (tr : t) : option Player.t :=
  findNextIn table (currentBetAmount tr) (playerIdOrder tr).

(** [Array.prototype.indexOf]; [None] stands for -1. *)
Fixpoint indexOf (id : string) (l : list string) : option nat :=
  match l with
  | [] => None
  | x :: rest =>
      if String.eqb x id then Some 0%nat
      else match indexOf id rest with
           | Some i => Some (S i)
           | None => None
           end
  end.

(** The first block of [getCurrentPlayer]: once the index has run past the
    order, look for a player who still owes chips.  [inl] is a [return],
    [inr] goes on with the tracker.  When [indexOf] finds nothing the source
    leaves -1 in the index and returns null; the index here is a natural
    number and is left as it was (the id searched was read from the order
    itself, lemma [findNextIn_spec], so this does not happen). *)
Definition lookBack (table : Table.t) (tr : t) : (option Player.t * t) + t :=
  if (length (playerIdOrder tr) <=? currentActionIndex tr)%nat then
    match findNextPlayerToAct table tr with
    | None => inl (None, tr)
    | Some nextPlayer =>
        match indexOf (Player.id nextPlayer) (playerIdOrder tr) with
        | Some i =>
            inr (mk (round tr) (currentBetAmount tr) (lastRaiserPosition tr)
                   (playerIdOrder tr) i (playersActed tr))
        | None => inl (None, tr)
        end
    end
  else inr tr.

(** The player at the current index, unless one of the three tests of
    [getCurrentPlayer] skips them (not seated; folded or all-in; bet matched
    and already acted). *)
Definition playerInTurn (table : Table.t) (tr : t) : option Player.t :=
  match nth_error (playerIdOrder tr) (currentActionIndex tr) with
  | None => None
  | Some playerId =>
      match Table.getPlayer table playerId with
      | None => None
      | Some player =>
          if Player.hasFolded player || Player.isAllIn player then None
          else if (currentBetAmount tr <=? Player.currentBetAmount player)
                  && JsSet.has (playersActed tr) (Player.id player)
          then None
          else Some player
      end
  end.

(** [getCurrentPlayer]: each skip advances the index and calls the method
    again; [fuel] bounds the number of calls. *)
Fixpoint getCurrentPlayerFuel (fuel : nat) (table : Table.t) (tr : t)
    : option (option Player.t * t) :=
  match fuel with
  | O => None
  | S fuel' =>
      match lookBack table tr with
      | inl r => Some r
      | inr tr1 =>
          match playerInTurn table tr1 with
          | Some player => Some (Some player, tr1)
          | None => getCurrentPlayerFuel fuel' table (advanceToNextPlayer tr1)
          end
      end
  end.

Definition getCurrentPlayer (table : Table.t) (tr : t) : option (option Player.t * t) :=
  getCurrentPlayerFuel (S (length (playerIdOrder tr))) table tr.

(** [recordAction(playerId, raisedAmount?)] *)
Definition recordAction (table : Table.t) (tr : t) (playerId : string)
    (raisedAmount : option Z) : Result t :=
  match Table.getPlayer table playerId with
  | None => Throw (PlayerNotFound playerId)
  | Some _ =>
      let acted := JsSet.add (playersActed tr) playerId in
      let raised :=
        match raisedAmount with
        | Some amount => currentBetAmount tr <? amount
        | None => false
        end in
      let tr1 :=
        if raised
        then mk (round tr)
               (match raisedAmount with Some amount => amount | None => currentBetAmount tr end)
               (ActionOrderRules.findIndexFrom 0 (Table.getPlayers table) playerId)
               (playerIdOrder tr) (currentActionIndex tr) acted
        else mk (round tr) (currentBetAmount tr) (lastRaiserPosition tr)
               (playerIdOrder tr) (currentActionIndex tr) acted in
      Ok (advanceToNextPlayer tr1)
  end.

Definition canStillAct (p : Player.t) : bool :=
  negb (Player.hasFolded p || Player.isAllIn p).

(** [isRoundComplete] *)
Definition isRoundComplete (table : Table.t) (tr : t) : bool :=
  let activePlayers := Table.getActivePlayers table in
  let playersWhoCanAct :=
    filter (fun p => negb (Player.isAllIn p) && negb (Player.hasFolded p)) activePlayers in
  if (length playersWhoCanAct <=? 1)%nat then true
  else if existsb (fun player =>
                     canStillAct player
                     && (Player.currentBetAmount player <? currentBetAmount tr))
            activePlayers
  then false
  else if existsb (fun player =>
                     canStillAct player
                     && negb (JsSet.has (playersActed tr) (Player.id player)))
            activePlayers
  then false
  else true.

Definition getCallAmount (tr : t) (player : Player.t) : Z :=
  Z.max 0 (currentBetAmount tr - Player.currentBetAmount player).

Definition getMinRaise (table : Table.t) (tr : t) : Z :=
  currentBetAmount tr + Table.bigBlind (Table.config table).
End BettingRoundTracker.

(** ** [Dealer] (models/Dealer.ts) *)

Module Dealer.
(** The dealer holds its deck and a reference to the table. *)
Record t : Type := mk { deck : Deck.t; table : Table.t }.

Record WinnerResult : Type := mkWinner {
  seat : nat;                 (* the seat whose player object this is *)
  playerId : string;
  hand : HandRanking.t;
  amountWon : Z
}.

Definition new (table : Table.t) : t := mk Deck.reset table.

Definition prepareNewHand (draw : nat -> nat) (d : t) : t :=
  mk (Deck.shuffle draw Deck.reset) (Table.resetForNewHand (table d)).

(** One card to the player at [seat]:
    [player.receiveCards([...player.getHoleCards(), deck.dealCard()])]. *)
Definition dealTo (seat : nat) (d : t) : Outcome t unit :=
  match Deck.dealCard (deck d) with
  | Throws e deck' => Throws e (mk deck' (table d))
  | Returns card deck' =>
      match Table.getPlayerAtSeat (table d) seat with
      | Some player =>
          let player' :=
            Player.receiveCards player (Player.getHoleCards player ++ [card]) in
          Returns tt (mk deck' (Table.setPlayerAtSeat (table d) seat player'))
      | None => Returns tt (mk deck' (table d))
      end
  end.

Fixpoint dealRound (seats : list nat) (d : t) : Outcome t unit :=
  match seats with
  | [] => Returns tt d
  | seat :: rest => andThen (dealTo seat) (fun _ => dealRound rest) d
  end.

Definition dealHoleCards (d : t) : Outcome t unit :=
  let players :=
    filter (fun sp => Table.activeStatus (snd sp)) (Table.occupied (table d)) in
  if (length players <? 2)%nat then Throws NeedTwoPlayersToDeal d
  else
    andThen (dealRound (map fst players))
      (fun _ => dealRound (map fst players)) d.

(** [playerHands.sort((a, b) => b.hand.compareTo(a.hand))] (a stable sort). *)
Fixpoint insertByHand (x : nat * Player.t * HandRanking.t)
    (l : list (nat * Player.t * HandRanking.t)) : list (nat * Player.t * HandRanking.t) :=
  match l with
  | [] => [x]
  | y :: r =>
      if HandRanking.compareTo (snd y) (snd x) <=? 0 then x :: l
      else y :: insertByHand x r
  end.

Definition sortByHand (l : list (nat * Player.t * HandRanking.t))
    : list (nat * Player.t * HandRanking.t) :=
  fold_right insertByHand [] l.

Fixpoint evaluateAll (communityCards : list Card.t) (players : list (nat * Player.t))
    : Result (list (nat * Player.t * HandRanking.t)) :=
  match players with
  | [] => Ok []
  | (seat, player) :: rest =>
      let allCards := Player.getHoleCards player ++ communityCards in
      if (length allCards <? 5)%nat then Throw (InsufficientCards (Player.id player))
      else
        hand <- (if (length allCards =? 7)%nat
                 then HandEvaluator.evaluateBest7CardHand allCards
                 else HandEvaluator.evaluateHand (firstn 5 allCards)) ;;
        hands <- evaluateAll communityCards rest ;;
        Ok ((seat, player, hand) :: hands)
  end.

Definition determineWinners (tb : Table.t)
    : Result (list (nat * Player.t * HandRanking.t)) :=
  let players := filter (fun sp => negb (Player.hasFolded (snd sp))) (Table.occupied tb) in
  let communityCards := Table.getCommunityCards tb in
  match players with
  | [] => Ok []
  | [(seat, winner)] =>
      let holeCards := Player.getHoleCards winner in
      let allCards := holeCards ++ communityCards in
      if (5 <=? length allCards)%nat
      then
        dummyHand <- HandEvaluator.evaluateHand (firstn 5 allCards) ;;
        Ok [(seat, winner, dummyHand)]
      else Ok [(seat, winner, HandRanking.mk HighCard holeCards 0 0 [])]
  | _ =>
      playerHands <- evaluateAll communityCards players ;;
      match sortByHand playerHands with
      | [] => Ok []
      | (best :: _) as sortedHands =>
          Ok (filter (fun ph => HandRanking.compareTo (snd ph) (snd best) =? 0)
                sortedHands)
      end
  end.

(** The loop that awards chips and builds the results. *)
Fixpoint award (winnings : JsMap.t Z) (winners : list (nat * Player.t * HandRanking.t))
    (tb : Table.t) : Table.t * list WinnerResult :=
  match winners with
  | [] => (tb, [])
  | (seat, player, hand) :: rest =>
      let amount := JsMap.getOr winnings (Player.id player) 0 in
      if 0 <? amount then
        let tb1 :=
          match Table.getPlayerAtSeat tb seat with
          | Some current =>
              match Player.addChips current amount with
              | Ok current' => Table.setPlayerAtSeat tb seat current'
              | Throw _ => tb
              end
          | None => tb
          end in
        let '(tb2, results) := award winnings rest tb1 in
        (tb2, mkWinner seat (Player.id player) hand amount :: results)
      else award winnings rest tb
  end.

Definition distributePots (potManager : PotManager.t) (d : t)
    : Outcome t (list WinnerResult) :=
  match determineWinners (table d) with
  | Throw e => Throws e d
  | Ok [] => Returns [] d
  | Ok winners =>
      let winnersForPot := map (fun w => Player.id (snd (fst w))) winners in
      let winnings := PotManager.distributePots potManager winnersForPot in
      let '(tb, results) := award winnings winners (table d) in
      Returns results (mk (deck d) tb)
  end.

(** Runs a method of the deck. *)
Definition onDeck {A : Type} (m : Deck.t -> Outcome Deck.t A) (d : t) : Outcome t A :=
  match m (deck d) with
  | Returns a deck' => Returns a (mk deck' (table d))
  | Throws e deck' => Throws e (mk deck' (table d))
  end.

Definition burnCard (d : t) : Outcome t unit := onDeck Deck.burnCard d.

Definition dealFlop (d : t) : Outcome t (list Card.t) :=
  (_ <~ burnCard ;;
   flopCards <~ onDeck (Deck.dealCards 3) ;;
   fun d1 =>
     Returns flopCards (mk (deck d1) (Table.setCommunityCards (table d1) flopCards))) d.

Definition dealTurn (d : t) : Outcome t Card.t :=
  (_ <~ burnCard ;;
   turnCard <~ onDeck Deck.dealCard ;;
   fun d1 =>
     let existingCards := Table.getCommunityCards (table d1) in
     Returns turnCard
       (mk (deck d1) (Table.setCommunityCards (table d1) (existingCards ++ [turnCard])))) d.

Definition dealRiver (d : t) : Outcome t Card.t :=
  (_ <~ burnCard ;;
   riverCard <~ onDeck Deck.dealCard ;;
   fun d1 =>
     let existingCards := Table.getCommunityCards (table d1) in
     Returns riverCard
       (mk (deck d1) (Table.setCommunityCards (table d1) (existingCards ++ [riverCard])))) d.

Definition moveButton (d : t) : Outcome t unit :=
  match Table.moveButton (table d) with
  | Ok tb => Returns tt (mk (deck d) tb)
  | Throw e => Throws e d
  end.
End Dealer.

(** ** The state graph (engine/GameState.ts) *)

Scheme Equality for GameState.

(** [validTransitions[from]] *)
Definition validTransitions (from : GameState) : list GameState :=
  match from with
  | WaitingForPlayers => [ReadyToStart]
  | ReadyToStart => [PostingBlinds]
  | PostingBlinds => [DealingHoleCards]
  | DealingHoleCards => [PreflopBetting]
  | PreflopBetting => [DealingFlop; Showdown; HandComplete]
  | DealingFlop => [FlopBetting]
  | FlopBetting => [DealingTurn; Showdown; HandComplete]
  | DealingTurn => [TurnBetting]
  | TurnBetting => [DealingRiver; Showdown; HandComplete]
  | DealingRiver => [RiverBetting]
  | RiverBetting => [Showdown; HandComplete]
  | Showdown => [HandComplete]
  | HandComplete => [ReadyToStart; GameOver]
  | GameOver => []
  end.

Definition isValidTransition (from to : GameState) : bool :=
  existsb (GameState_beq to) (validTransitions from).

Definition isBettingState (state : GameState) : bool :=
  existsb (GameState_beq state) [PreflopBetting; FlopBetting; TurnBetting; RiverBetting].

(** The graph in the words of the specification: the linear path from
    WaitingForPlayers through Showdown to HandComplete; from every betting
    state also to Showdown and to HandComplete; from HandComplete to
    ReadyToStart or GameOver; nothing out of GameOver. *)
Definition specLinearPath : list GameState :=
  [WaitingForPlayers; ReadyToStart; PostingBlinds; DealingHoleCards; PreflopBetting;
   DealingFlop; FlopBetting; DealingTurn; TurnBetting; DealingRiver; RiverBetting;
   Showdown; HandComplete].

Fixpoint adjacentIn (path : list GameState) (from to : GameState) : bool :=
  match path with
  | a :: (b :: _) as rest =>
      (GameState_beq a from && GameState_beq b to) || adjacentIn rest from to
  | _ => false
  end.

Definition specBettingStates : list GameState :=
  [PreflopBetting; FlopBetting; TurnBetting; RiverBetting].

Definition specGraph (from to : GameState) : bool :=
  adjacentIn specLinearPath from to
  || (existsb (GameState_beq from) specBettingStates
      && (GameState_beq to Showdown || GameState_beq to HandComplete))
  || (GameState_beq from HandComplete
      && (GameState_beq to ReadyToStart || GameState_beq to GameOver)).

(** [getNextState] and [isDealingState] (engine/GameState.ts) *)
Definition getNextState (current : GameState) (allButOneFolded : bool) : GameState :=
  if allButOneFolded && isBettingState current then HandComplete
  else
    match current with
    | WaitingForPlayers => ReadyToStart
    | ReadyToStart => PostingBlinds
    | PostingBlinds => DealingHoleCards
    | DealingHoleCards => PreflopBetting
    | PreflopBetting => DealingFlop
    | DealingFlop => FlopBetting
    | FlopBetting => DealingTurn
    | DealingTurn => TurnBetting
    | TurnBetting => DealingRiver
    | DealingRiver => RiverBetting
    | RiverBetting => Showdown
    | Showdown => HandComplete
    | HandComplete => ReadyToStart
    | GameOver => GameOver
    end.

Definition isDealingState (state : GameState) : bool :=
  existsb (GameState_beq state) [DealingHoleCards; DealingFlop; DealingTurn; DealingRiver].

(** ** [HandManager] (engine/HandManager.ts) *)

Module HandManager.
(** [this.table] and [this.dealer.table] are one and the same object; it is
    kept once, inside the dealer. *)
Record t : Type := mk {
  dealer : Dealer.t;
  potManager : PotManager.t;
  currentState : GameState;
  handNumber : nat;
  bettingTracker : option BettingRoundTracker.t
}.

Definition table (hm : t) : Table.t := Dealer.table (dealer hm).

Definition new (tb : Table.t) : t :=
  mk (Dealer.new tb) PotManager.new WaitingForPlayers 0 None.

Definition getState (hm : t) : GameState := currentState hm.
Definition getHandNumber (hm : t) : nat := handNumber hm.

Definition setState (newState : GameState) (hm : t) : Outcome t unit :=
  if negb (isValidTransition (currentState hm) newState)
  then Throws (InvalidStateTransition (currentState hm) newState) hm
  else Returns tt
         (mk (dealer hm) (potManager hm) newState (handNumber hm) (bettingTracker hm)).

(** Runs a method of the dealer (which owns the deck and the table). *)
Definition onDealer {A : Type} (m : Dealer.t -> Outcome Dealer.t A) (hm : t)
    : Outcome t A :=
  let rebuild d :=
    mk d (potManager hm) (currentState hm) (handNumber hm) (bettingTracker hm) in
  match m (dealer hm) with
  | Returns a d => Returns a (rebuild d)
  | Throws e d => Throws e (rebuild d)
  end.

(** [player.bet(amount)] on the player object held by [seat]. *)
Definition betAtSeat (seat : nat) (amount : Z) (tb : Table.t) : Outcome Table.t unit :=
  match Table.getPlayerAtSeat tb seat with
  | None => Returns tt tb
  | Some player =>
      match Player.bet player amount with
      | Ok (_, player') => Returns tt (Table.setPlayerAtSeat tb seat player')
      | Throw e => Throws e tb
      end
  end.

(** [postBlinds], on the table.  [bbPlayer.chips] is read after the small
    blind has been posted. *)
Definition postBlinds (tb : Table.t) : Outcome Table.t unit :=
  match Table.getSmallBlindPosition tb, Table.getBigBlindPosition tb with
  | Some sbPos, Some bbPos =>
      match Table.getPlayerAtSeat tb sbPos, Table.getPlayerAtSeat tb bbPos with
      | Some sbPlayer, Some _ =>
          let sbAmount :=
            Z.min (Player.chips sbPlayer) (Table.smallBlind (Table.config tb)) in
          andThen (betAtSeat sbPos sbAmount)
            (fun _ tb1 =>
               match Table.getPlayerAtSeat tb1 bbPos with
               | Some bbPlayer =>
                   let bbAmount :=
                     Z.min (Player.chips bbPlayer) (Table.bigBlind (Table.config tb1)) in
                   betAtSeat bbPos bbAmount tb1
               | None => Returns tt tb1
               end)
            tb
      | _, _ => Throws CannotDetermineBlindPlayers tb
      end
  | _, _ => Throws CannotDetermineBlindPlayers tb
  end.

Definition onTable {A : Type} (m : Table.t -> Outcome Table.t A) (d : Dealer.t)
    : Outcome Dealer.t A :=
  match m (Dealer.table d) with
  | Returns a tb => Returns a (Dealer.mk (Dealer.deck d) tb)
  | Throws e tb => Throws e (Dealer.mk (Dealer.deck d) tb)
  end.

(** [startHand]; [draw] supplies the random draws of the shuffle. *)
Definition startHand (draw : nat -> nat) (hm : t) : Outcome t unit :=
  if negb (GameState_beq (currentState hm) ReadyToStart)
  then Throws (CannotStartHandFromState (currentState hm)) hm
  else
    (* this.handNumber++ *)
    let hm1 :=
      mk (dealer hm) (potManager hm) (currentState hm) (S (handNumber hm))
         (bettingTracker hm) in
    (* this.dealer.prepareNewHand() *)
    let hm2 :=
      mk (Dealer.prepareNewHand draw (dealer hm1)) (potManager hm1) (currentState hm1)
         (handNumber hm1) (bettingTracker hm1) in
    let playerCount := length (Table.getActivePlayers (table hm2)) in
    if (playerCount <? 2)%nat then Throws NeedTwoPlayersToStartHand hm2
    else
      (_ <~ setState PostingBlinds ;;
       _ <~ onDealer (onTable postBlinds) ;;
       _ <~ setState DealingHoleCards ;;
       _ <~ onDealer Dealer.dealHoleCards ;;
       _ <~ setState PreflopBetting ;;
       fun hm3 =>
         Returns tt
           (mk (dealer hm3) (potManager hm3) (currentState hm3) (handNumber hm3)
              (Some (BettingRoundTracker.new (table hm3) RoundPreflop))))
        hm2.

Record HandResult : Type := mkHandResult {
  winners : list Dealer.WinnerResult;
  totalPot : Z;
  resultHandNumber : nat
}.

Definition setReadyToStart (hm : t) : Outcome t unit :=
  if GameState_beq (currentState hm) ReadyToStart then Returns tt hm
  else if negb (GameState_beq (currentState hm) WaitingForPlayers)
  then Throws (CannotBecomeReadyFrom (currentState hm)) hm
  else
    let playerCount := length (Table.getActivePlayers (table hm)) in
    if (playerCount <? 2)%nat then Throws NeedTwoPlayersToBeReady hm
    else setState ReadyToStart hm.

(** The Map and the two Sets that [collectBets] builds from the players. *)
Definition playerBetsOf (players : list Player.t) : JsMap.t Z :=
  fold_left (fun m player => JsMap.set m (Player.id player) (Player.currentBetAmount player))
    players [].

Definition allInPlayersOf (players : list Player.t) : JsSet.t :=
  fold_left (fun s player => if Player.isAllIn player then JsSet.add s (Player.id player) else s)
    players [].

Definition foldedPlayersOf (players : list Player.t) : JsSet.t :=
  fold_left (fun s player => if Player.hasFolded player then JsSet.add s (Player.id player) else s)
    players [].

(** [collectBets].  [PotManager.collectBets] never throws (lemma
    [collectBets_never_throws]), so no half-built pots are kept for that
    case. *)
Definition collectBets (hm : t) : Outcome t unit :=
  let players := Table.getPlayers (table hm) in
  match PotManager.collectBets (potManager hm) (playerBetsOf players)
          (allInPlayersOf players) (foldedPlayersOf players) with
  | Throw e => Throws e hm
  | Ok potManager' =>
      (* for (const player of players) player.resetBet() *)
      let tb := table hm in
      let tb' :=
        Table.mk (map (option_map Player.resetBet) (Table.seats tb))
          (Table.buttonPosition tb) (Table.communityCards tb) (Table.config tb) in
      Returns tt
        (mk (Dealer.mk (Dealer.deck (dealer hm)) tb') potManager' (currentState hm)
           (handNumber hm) (bettingTracker hm))
  end.

Definition discard {A : Type} (m : t -> Outcome t A) : t -> Outcome t unit :=
  fun hm =>
    match m hm with
    | Returns _ hm' => Returns tt hm'
    | Throws e hm' => Throws e hm'
    end.

Definition when (b : bool) (m : t -> Outcome t unit) : t -> Outcome t unit :=
  fun hm => if b then m hm else Returns tt hm.

(** [dealRemainingCards]: the number of community cards is read once. *)
Definition dealRemainingCards (hm : t) : Outcome t unit :=
  let communityCards := length (Table.getCommunityCards (table hm)) in
  (_ <~ when (communityCards <? 3)%nat (discard (onDealer Dealer.dealFlop)) ;;
   _ <~ when (communityCards <? 4)%nat (discard (onDealer Dealer.dealTurn)) ;;
   when (communityCards <? 5)%nat (discard (onDealer Dealer.dealRiver))) hm.

Definition setBettingTracker (tracker : t -> option BettingRoundTracker.t)
    : t -> Outcome t unit :=
  fun hm =>
    Returns tt
      (mk (dealer hm) (potManager hm) (currentState hm) (handNumber hm) (tracker hm)).

Definition completeBettingRound (hm : t) : Outcome t unit :=
  (_ <~ collectBets ;;
   fun hm1 =>
     let activePlayers := Table.getActivePlayers (table hm1) in
     if (length activePlayers <=? 1)%nat then setState HandComplete hm1
     else
       let playersNotAllIn := filter (fun p => negb (Player.isAllIn p)) activePlayers in
       if (length playersNotAllIn =? 0)%nat
          || ((length playersNotAllIn =? 1)%nat && (1 <? length activePlayers)%nat)
       then (_ <~ dealRemainingCards ;; setState Showdown) hm1
       else
         let nextState := getNextState (currentState hm1) false in
         (_ <~ setState nextState ;;
          match nextState with
          | DealingFlop =>
              _ <~ discard (onDealer Dealer.dealFlop) ;;
              _ <~ setState FlopBetting ;;
              setBettingTracker
                (fun hm2 => Some (BettingRoundTracker.new (table hm2) RoundFlop))
          | DealingTurn =>
              _ <~ discard (onDealer Dealer.dealTurn) ;;
              _ <~ setState TurnBetting ;;
              setBettingTracker
                (fun hm2 => Some (BettingRoundTracker.new (table hm2) RoundTurn))
          | DealingRiver =>
              _ <~ discard (onDealer Dealer.dealRiver) ;;
              _ <~ setState RiverBetting ;;
              setBettingTracker
                (fun hm2 => Some (BettingRoundTracker.new (table hm2) RoundRiver))
          | Showdown => setBettingTracker (fun _ => None)
          | _ => fun hm2 => Returns tt hm2
          end) hm1) hm.

Definition performShowdown (hm : t) : Outcome t HandResult :=
  if negb (GameState_beq (currentState hm) Showdown)
     && negb (GameState_beq (currentState hm) HandComplete)
  then Throws (CannotPerformShowdownFrom (currentState hm)) hm
  else
    let totalPot := PotManager.getTotalPotAmount (potManager hm) in
    (winners <~ onDealer (Dealer.distributePots (potManager hm)) ;;
     _ <~ (fun hm1 =>
             if negb (GameState_beq (currentState hm1) HandComplete)
             then setState HandComplete hm1
             else Returns tt hm1) ;;
     fun hm2 => Returns (mkHandResult winners totalPot (handNumber hm2)) hm2) hm.

(** The loop of [prepareNextHand] that removes the eliminated players; the
    list of players is the one read before the first removal. *)
Definition removeEliminated (players : list Player.t) (tb : Table.t) : Table.t :=
  fold_left
    (fun tb player =>
       if Player.isEliminated player then snd (Table.removePlayer tb (Player.id player))
       else tb)
    players tb.

Definition prepareNextHand (hm : t) : Outcome t unit :=
  if negb (GameState_beq (currentState hm) HandComplete)
  then Throws (CannotPrepareNextHandFrom (currentState hm)) hm
  else
    (_ <~ onDealer Dealer.moveButton ;;
     fun hm1 =>
       let players := Table.getPlayers (table hm1) in
       let tb := removeEliminated players (table hm1) in
       let hm2 :=
         mk (Dealer.mk (Dealer.deck (dealer hm1)) tb) PotManager.reset (currentState hm1)
            (handNumber hm1) (bettingTracker hm1) in
       let remainingPlayers := length (Table.getPlayers (table hm2)) in
       if (remainingPlayers <? 2)%nat then setState GameOver hm2
       else setState ReadyToStart hm2) hm.

Definition isGameOver (hm : t) : bool :=
  GameState_beq (currentState hm) GameOver
  || (length (Table.getPlayers (table hm)) <? 2)%nat.

Definition getGameWinner (hm : t) : option Player.t :=
  match Table.getPlayers (table hm) with
  | [winner] => Some winner
  | _ => None
  end.

Definition getCurrentPot (hm : t) : Z := PotManager.getTotalPotAmount (potManager hm).

Definition reset (hm : t) : t :=
  mk (Dealer.mk (Dealer.deck (dealer hm)) (Table.resetForNewHand (table hm)))
     PotManager.reset WaitingForPlayers 0 None.

Definition getCurrentBet (hm : t) : Z :=
  match bettingTracker hm with
  | Some tracker => BettingRoundTracker.getCurrentBet tracker
  | None => 0
  end.

Definition getCallAmount (hm : t) (player : Player.t) : Z :=
  match bettingTracker hm with
  | Some tracker => BettingRoundTracker.getCallAmount tracker player
  | None => 0
  end.

Definition getMinRaise (hm : t) : Z :=
  match bettingTracker hm with
  | Some tracker => BettingRoundTracker.getMinRaise (table hm) tracker
  | None => Table.bigBlind (Table.config (table hm))
  end.

Definition isBettingRoundComplete (hm : t) : bool :=
  match bettingTracker hm with
  | Some tracker => BettingRoundTracker.isRoundComplete (table hm) tracker
  | None => true
  end.

Inductive ActionName : Type :=
| NameFold | NameCheck | NameCall | NameBet | NameRaise.

(** [recordPlayerAction(playerId, action)] *)
Definition recordPlayerAction (playerId : string) (action : ActionName) (hm : t)
    : Outcome t unit :=
  match bettingTracker hm with
  | None => Returns tt hm
  | Some tracker =>
      let record raisedAmount :=
        match BettingRoundTracker.recordAction (table hm) tracker playerId raisedAmount with
        | Ok tracker' =>
            Returns tt
              (mk (dealer hm) (potManager hm) (currentState hm) (handNumber hm)
                 (Some tracker'))
        | Throw e => Throws e hm
        end in
      match action with
      | NameRaise | NameBet =>
          match Table.getPlayer (table hm) playerId with
          | Some player => record (Some (Player.currentBetAmount player))
          | None => Returns tt hm
          end
      | _ => record None
      end
  end.
End HandManager.

(** ** Invariants used in the proofs *)

(** What the winnings Map of [PotManager.distributePots] looks like while the
    pots are paid out to the winners [L]: distinct keys, all of them winners,
    no negative amount. *)
Definition winningsOk (L : list string) (w : JsMap.t Z) : Prop :=
  NoDup (JsMap.keys w)
  /\ (forall x, In x (JsMap.keys w) -> In x L)
  /\ (forall p, 0 <= JsMap.getOr w p 0).

(** Two player objects that the showdown cannot tell apart: same id, same
    hole cards, both folded or both not.  (Chips and the other statuses play
    no part in [Dealer.determineWinners].) *)
Definition sameHand (p q : Player.t) : Prop :=
  Player.id p = Player.id q
  /\ Player.getHoleCards p = Player.getHoleCards q
  /\ Player.hasFolded p = Player.hasFolded q.

Definition sameSeat (a b : option Player.t) : Prop :=
  match a, b with
  | Some p, Some q => sameHand p q
  | None, None => True
  | _, _ => False
  end.

Definition sameWinner (x y : nat * Player.t * HandRanking.t) : Prop :=
  fst (fst x) = fst (fst y) /\ sameHand (snd (fst x)) (snd (fst y)) /\ snd x = snd y.

(* ================================================================== *)
(** * Properties *)
(* ================================================================== *)

(** ** Sums and association lists *)

Lemma fold_add_acc (l : list Z) (a : Z) :
  fold_left Z.add l a = a + sumZ l.
Proof.
  unfold sumZ. revert a.
  induction l as [|x l IH]; intro a; simpl.
  - lia.
  - rewrite IH, (IH x). lia.
Qed.

Lemma sumZ_cons (x : Z) (l : list Z) : sumZ (x :: l) = x + sumZ l.
Proof. unfold sumZ at 1. simpl. rewrite fold_add_acc. reflexivity. Qed.

Lemma sumZ_app (l1 l2 : list Z) : sumZ (l1 ++ l2) = sumZ l1 + sumZ l2.
Proof.
  induction l1 as [|x l1 IH]; simpl.
  - reflexivity.
  - rewrite !sumZ_cons, IH. lia.
Qed.

Lemma sum_values_set (m : JsMap.t Z) (k : string) (v : Z) :
  sumZ (JsMap.values (JsMap.set m k v)) = sumZ (JsMap.values m) - JsMap.getOr m k 0 + v.
Proof.
  unfold JsMap.getOr, JsMap.values.
  induction m as [|[k' v'] m IH]; simpl.
  - rewrite sumZ_cons. unfold sumZ. simpl. lia.
  - destruct (String.eqb k' k); simpl.
    + rewrite !sumZ_cons. lia.
    + rewrite !sumZ_cons, IH. lia.
Qed.

Lemma has_add_same (s : JsSet.t) (k : string) : JsSet.has (JsSet.add s k) k = true.
Proof.
  unfold JsSet.add. destruct (JsSet.has s k) eqn:E; [exact E|].
  unfold JsSet.has. rewrite existsb_app. simpl.
  rewrite String.eqb_refl. apply orb_true_iff. right. reflexivity.
Qed.

(** ** The pot *)

Lemma addContribution_ok (p : Pot.t) (id : string) (a : Z) :
  0 < a ->
  exists p', Pot.addContribution p id a = Ok p'
             /\ Pot.total p' = Pot.total p + a
             /\ Pot.isPlayerEligible p' id = true.
Proof.
  intro Ha. unfold Pot.addContribution.
  destruct (Z.leb_spec a 0) as [Hle|_]; [lia|].
  eexists. split; [reflexivity|]. split.
  - unfold Pot.total. simpl.
    rewrite sum_values_set. lia.
  - unfold Pot.isPlayerEligible. simpl.
    destruct (JsSet.has (Pot.eligiblePlayerIds p) id) eqn:E; simpl.
    + exact E.
    + apply has_add_same.
Qed.

Lemma addContribution_inv (p p' : Pot.t) (id : string) (a : Z) :
  Pot.addContribution p id a = Ok p' -> 0 < a /\ Pot.total p' = Pot.total p + a.
Proof.
  intro H.
  destruct (Z.leb_spec a 0) as [Hle|Hpos].
  - unfold Pot.addContribution in H.
    destruct (Z.leb_spec a 0); [discriminate|lia].
  - split; [exact Hpos|].
    destruct (addContribution_ok p id a Hpos) as [q [E [T _]]].
    rewrite E in H. inversion H; subst. exact T.
Qed.

(** A pot never holds a negative total. *)
Lemma PotBuilt_total_nonneg (p : Pot.t) : PotBuilt p -> 0 <= Pot.total p.
Proof.
  induction 1 as [el | p id a p' _ IH Hadd | p id _ IH].
  - change (Pot.total (Pot.new el)) with 0. lia.
  - destruct (addContribution_inv _ _ _ _ Hadd). lia.
  - exact IH.
Qed.

Lemma removeEligibility_total (folded : list string) (p : Pot.t) :
  Pot.total (fold_left Pot.removePlayerEligibility folded p) = Pot.total p.
Proof.
  revert p. induction folded as [|f folded IH]; intro p; simpl.
  - reflexivity.
  - rewrite IH. reflexivity.
Qed.

(** ** Bet levels: distinct positive amounts in ascending order *)

Lemma uniqZ_acc_spec (xs acc : list Z) :
  NoDup acc ->
  let r := fold_left
             (fun acc x => if existsb (Z.eqb x) acc then acc else acc ++ [x]) xs acc in
  NoDup r /\ (forall x, In x r <-> In x acc \/ In x xs).
Proof.
  revert acc. induction xs as [|a xs IH]; intros acc Hnd; simpl.
  - split; [exact Hnd|]. intro x. tauto.
  - destruct (existsb (Z.eqb a) acc) eqn:E.
    + destruct (IH acc Hnd) as [H1 H2]. split; [exact H1|].
      intro x. rewrite H2.
      apply existsb_exists in E. destruct E as [y [Hy Hay]].
      apply Z.eqb_eq in Hay. subst y.
      split; [tauto|]. intros [H|[H|H]]; subst; tauto.
    + assert (Hna : ~ In a acc).
      { intro Hin. assert (existsb (Z.eqb a) acc = true) as C.
        { apply existsb_exists. exists a. split; [exact Hin|apply Z.eqb_refl]. }
        congruence. }
      assert (Hnd' : NoDup (acc ++ [a])).
      { apply NoDup_app; [exact Hnd | repeat constructor; intros [] | ].
        intros x Hx [Hx'|[]]. subst. tauto. }
      destruct (IH (acc ++ [a]) Hnd') as [H1 H2]. split; [exact H1|].
      intro x. rewrite H2, in_app_iff. simpl. tauto.
Qed.

Lemma uniqZ_spec (xs : list Z) :
  NoDup (uniqZ xs) /\ (forall x, In x (uniqZ xs) <-> In x xs).
Proof.
  destruct (uniqZ_acc_spec xs [] (NoDup_nil Z)) as [H1 H2].
  split; [exact H1|]. intro x. unfold uniqZ. rewrite H2. simpl. tauto.
Qed.

Lemma insert_asc_in (a : Z) (l : list Z) (x : Z) :
  In x (insert_asc a l) <-> x = a \/ In x l.
Proof.
  induction l as [|y l IH]; simpl.
  - intuition.
  - destruct (a <=? y); simpl; [intuition|]. rewrite IH. intuition.
Qed.

Lemma insert_asc_sorted (a : Z) (l : list Z) :
  StronglySorted Z.lt l -> ~ In a l -> StronglySorted Z.lt (insert_asc a l).
Proof.
  induction l as [|y l IH]; intros Hs Hn; simpl.
  - repeat constructor.
  - inversion Hs as [|y' l' Hs' Hall]; subst.
    destruct (Z.leb_spec a y) as [Hle|Hgt].
    + assert (a < y) by (assert (a <> y) by (intro; subst; apply Hn; left; reflexivity); lia).
      constructor; [exact Hs|].
      constructor; [assumption|].
      eapply Forall_impl; [|exact Hall]. simpl. intros; lia.
    + constructor.
      * apply IH; [exact Hs'|]. intro; apply Hn; right; assumption.
      * apply Forall_forall. intros x Hx. apply insert_asc_in in Hx.
        destruct Hx as [->|Hx]; [lia|].
        rewrite Forall_forall in Hall. apply Hall; exact Hx.
Qed.

Lemma sort_asc_spec (l : list Z) :
  NoDup l ->
  StronglySorted Z.lt (sort_asc l) /\ (forall x, In x (sort_asc l) <-> In x l).
Proof.
  induction l as [|a l IH]; intro Hnd; simpl.
  - split; [constructor|]. intro; tauto.
  - inversion Hnd as [|a' l' Hna Hnd']; subst.
    destruct (IH Hnd') as [Hs Hin]. split.
    + apply insert_asc_sorted; [exact Hs|]. rewrite Hin. exact Hna.
    + intro x. rewrite insert_asc_in, Hin. intuition.
Qed.

Lemma levels_spec (vals : list Z) :
  let levels := sort_asc (uniqZ (filter (fun amt => 0 <? amt) vals)) in
  StronglySorted Z.lt (0 :: levels)
  /\ (forall v, In v levels <-> In v vals /\ 0 < v).
Proof.
  intro levels.
  destruct (uniqZ_spec (filter (fun amt => 0 <? amt) vals)) as [Hnd Hu].
  destruct (sort_asc_spec _ Hnd) as [Hs Hin].
  assert (Hiff : forall v, In v levels <-> In v vals /\ 0 < v).
  { intro v. unfold levels. rewrite Hin, Hu, filter_In, Z.ltb_lt. tauto. }
  split; [|exact Hiff].
  constructor; [exact Hs|].
  apply Forall_forall. intros x Hx. apply Hiff in Hx. tauto.
Qed.

(** ** Collecting one level *)

Lemma get_set_fresh_prefix (R1 R2 : JsMap.t Z) (k : string) (v v' : Z) :
  ~ In k (JsMap.keys R1) ->
  JsMap.getOr (R1 ++ (k, v) :: R2) k 0 = v
  /\ JsMap.set (R1 ++ (k, v) :: R2) k v' = R1 ++ (k, v') :: R2.
Proof.
  unfold JsMap.getOr, JsMap.keys.
  induction R1 as [|[k1 v1] R1 IH]; intro Hn; simpl.
  - rewrite String.eqb_refl. split; reflexivity.
  - destruct (String.eqb_spec k1 k) as [->|Hne].
    + exfalso. apply Hn. left. reflexivity.
    + destruct IH as [IH1 IH2].
      * intro H. apply Hn. right. exact H.
      * split; [exact IH1|]. rewrite IH2. reflexivity.
Qed.

(** The ledger of what is left to contribute, after the inner loop. *)
Lemma collectContributions_ok (amt : Z) (ids : list string) (pot : Pot.t) (R : JsMap.t Z) :
  0 < amt ->
  exists pot',
    PotManager.collectContributions amt ids (pot, R)
    = Ok (pot', fold_left (fun R id => JsMap.set R id (JsMap.getOr R id 0 - amt)) ids R)
    /\ Pot.total pot' = Pot.total pot + amt * Z.of_nat (length ids).
Proof.
  intro Ha. revert pot R.
  induction ids as [|id ids IH]; intros pot R.
  - exists pot. split; [reflexivity|]. simpl. lia.
  - destruct (addContribution_ok pot id amt Ha) as [p1 [E1 [T1 _]]].
    destruct (IH p1 (JsMap.set R id (JsMap.getOr R id 0 - amt))) as [p2 [E2 T2]].
    exists p2. split.
    + cbn [PotManager.collectContributions]. unfold PotManager.collectOne.
      rewrite E1. cbn [bind]. exact E2.
    + rewrite T2, T1. cbn [length]. lia.
Qed.

Lemma fold_updates (amt : Z) (R2 R1 : JsMap.t Z) :
  NoDup (JsMap.keys (R1 ++ R2)) ->
  fold_left (fun R id => JsMap.set R id (JsMap.getOr R id 0 - amt))
    (map fst (filter (fun e => amt <=? snd e) R2)) (R1 ++ R2)
  = R1 ++ map (fun e => if amt <=? snd e then (fst e, snd e - amt) else e) R2.
Proof.
  revert R1. induction R2 as [|[k v] R2 IH]; intros R1 Hnd.
  - reflexivity.
  - assert (Hk : ~ In k (JsMap.keys R1)).
    { unfold JsMap.keys in *. rewrite map_app in Hnd. simpl in Hnd.
      apply NoDup_remove_2 in Hnd. intro H. apply Hnd, in_or_app. left. exact H. }
    assert (Hnd' : forall w, NoDup (JsMap.keys ((R1 ++ [(k, w)]) ++ R2))).
    { intro w. rewrite <- app_assoc. simpl.
      unfold JsMap.keys in *. rewrite map_app in *. simpl in *. exact Hnd. }
    cbn [filter map snd fst].
    destruct (amt <=? v) eqn:E.
    + cbn [map fst fold_left].
      destruct (get_set_fresh_prefix R1 R2 k v (v - amt) Hk) as [G S].
      rewrite G, S.
      change (R1 ++ (k, v - amt) :: R2) with (R1 ++ [(k, v - amt)] ++ R2).
      rewrite app_assoc, IH by apply Hnd'.
      rewrite <- app_assoc. reflexivity.
    + change (R1 ++ (k, v) :: R2) with (R1 ++ [(k, v)] ++ R2).
      rewrite app_assoc, IH by apply Hnd'.
      rewrite <- app_assoc. reflexivity.
Qed.

Lemma sum_after_level (amt : Z) (R : JsMap.t Z) :
  sumZ (JsMap.values (map (fun e => if amt <=? snd e then (fst e, snd e - amt) else e) R))
  = sumZ (JsMap.values R)
    - amt * Z.of_nat (length (filter (fun e : string * Z => amt <=? snd e) R)).
Proof.
  unfold JsMap.values.
  induction R as [|[k v] R IH]; cbn [map filter snd fst].
  - change (sumZ []) with 0. cbn [length]. lia.
  - rewrite !sumZ_cons, IH.
    destruct (amt <=? v); cbn [snd length]; lia.
Qed.

Lemma keys_after_level (amt : Z) (R : JsMap.t Z) :
  JsMap.keys (map (fun e => if amt <=? snd e then (fst e, snd e - amt) else e) R)
  = JsMap.keys R.
Proof.
  unfold JsMap.keys. rewrite map_map. apply map_ext.
  intros [k v]. simpl. destruct (amt <=? v); reflexivity.
Qed.

Lemma getTotalPotAmount_sum (pm : PotManager.t) :
  PotManager.getTotalPotAmount pm
  = Pot.total (PotManager.mainPot pm) + sumZ (map Pot.total (PotManager.sidePots pm)).
Proof.
  unfold PotManager.getTotalPotAmount.
  generalize (Pot.total (PotManager.mainPot pm)) as a.
  induction (PotManager.sidePots pm) as [|sp l IH]; intro a; simpl.
  - unfold sumZ. simpl. lia.
  - rewrite IH, sumZ_cons. lia.
Qed.

Lemma collectLevel_ok (folded : JsSet.t) (amt : Z) (R : JsMap.t Z) (pm : PotManager.t) :
  0 < amt ->
  NoDup (JsMap.keys R) ->
  exists pm',
    PotManager.collectLevel folded amt (R, pm)
    = Ok (map (fun e => if amt <=? snd e then (fst e, snd e - amt) else e) R, pm')
    /\ PotManager.getTotalPotAmount pm'
       = PotManager.getTotalPotAmount pm
         + amt * Z.of_nat (length (filter (fun e : string * Z => amt <=? snd e) R))
    /\ (Forall (fun pot => 0 <= Pot.total pot)
          (PotManager.mainPot pm :: PotManager.sidePots pm) ->
        Forall (fun pot => 0 <= Pot.total pot)
          (PotManager.mainPot pm' :: PotManager.sidePots pm')).
Proof.
  intros Ha Hnd.
  pose proof (fold_updates amt R [] Hnd) as HF. simpl in HF.
  unfold PotManager.collectLevel.
  destruct (map fst (filter (fun e => amt <=? snd e) R)) as [|id ids] eqn:Eids.
  - exists pm.
    assert (Hlen : length (filter (fun e : string * Z => amt <=? snd e) R) = 0%nat).
    { rewrite <- (length_map fst), Eids. reflexivity. }
    split; [|split; [rewrite Hlen; lia|tauto]].
    simpl in HF. rewrite <- HF. reflexivity.
  - set (elig := filter (fun id0 => negb (JsSet.has folded id0)) (id :: ids)).
    destruct (collectContributions_ok amt (id :: ids) (Pot.new elig) R Ha)
      as [pot1 [E T]].
    rewrite E. cbn [bind]. rewrite HF.
    assert (Hlen : length (filter (fun e : string * Z => amt <=? snd e) R)
                   = length (id :: ids)).
    { rewrite <- (length_map fst), Eids. reflexivity. }
    rewrite Hlen.
    assert (T0 : Pot.total (Pot.new elig) = 0) by reflexivity.
    assert (Tnn : 0 <= Pot.total
                        (fold_left Pot.removePlayerEligibility folded pot1)).
    { rewrite removeEligibility_total, T, T0. lia. }
    destruct (Pot.total (PotManager.mainPot pm) =? 0) eqn:Em.
    + eexists. split; [reflexivity|]. split.
      * apply Z.eqb_eq in Em.
        rewrite !getTotalPotAmount_sum. cbn [PotManager.mainPot PotManager.sidePots].
        rewrite removeEligibility_total, T, T0, Em. lia.
      * cbn [PotManager.mainPot PotManager.sidePots]. intro Hall.
        inversion Hall; subst. constructor; assumption.
    + eexists. split; [reflexivity|]. split.
      * rewrite !getTotalPotAmount_sum. cbn [PotManager.mainPot PotManager.sidePots].
        rewrite map_app, sumZ_app. cbn [map].
        rewrite removeEligibility_total, T, T0, sumZ_cons.
        change (sumZ []) with 0. cbn [length]. lia.
      * cbn [PotManager.mainPot PotManager.sidePots]. intro Hall.
        inversion Hall; subst. constructor; [assumption|].
        apply Forall_app. split; [assumption|]. constructor; [exact Tnn|constructor].
Qed.

(** ** The level loop and [collectBets] *)

Lemma sumZ_all_zero (l : list Z) : (forall v, In v l -> v = 0) -> sumZ l = 0.
Proof.
  induction l as [|x l IH]; intro H.
  - reflexivity.
  - rewrite sumZ_cons, IH.
    + rewrite (H x); [reflexivity | left; reflexivity].
    + intros v Hv. apply H. right. exact Hv.
Qed.

Lemma collectLevels_ok (folded : JsSet.t) (levels : list Z) :
  forall (prev : Z) (R : JsMap.t Z) (pm : PotManager.t),
    StronglySorted Z.lt (prev :: levels) ->
    NoDup (JsMap.keys R) ->
    (forall e, In e R -> snd e = 0 \/ In (snd e + prev) levels) ->
    exists R' pm',
      PotManager.collectLevels folded prev levels (R, pm) = Ok (R', pm')
      /\ PotManager.getTotalPotAmount pm'
         = PotManager.getTotalPotAmount pm + sumZ (JsMap.values R)
      /\ (Forall (fun pot => 0 <= Pot.total pot)
            (PotManager.mainPot pm :: PotManager.sidePots pm) ->
          Forall (fun pot => 0 <= Pot.total pot)
            (PotManager.mainPot pm' :: PotManager.sidePots pm')).
Proof.
  induction levels as [|L rest IH]; intros prev R pm Hs Hnd Hinv.
  - exists R, pm. split; [reflexivity|]. split; [|tauto].
    rewrite sumZ_all_zero; [lia|].
    intros v Hv. unfold JsMap.values in Hv. apply in_map_iff in Hv.
    destruct Hv as [e [<- He]]. destruct (Hinv e He) as [H|[]]. exact H.
  - inversion Hs as [|p l Hs' Hall]; subst.
    assert (HpL : prev < L) by (inversion Hall; assumption).
    assert (HLrest : forall x, In x rest -> L < x).
    { inversion Hs' as [|p l _ HallL]; subst.
      rewrite Forall_forall in HallL. exact HallL. }
    destruct (collectLevel_ok folded (L - prev) R pm ltac:(lia) Hnd) as [pm1 [E1 [T1 N1]]].
    set (R1 := map (fun e => if L - prev <=? snd e
                             then (fst e, snd e - (L - prev)) else e) R) in *.
    destruct (IH L R1 pm1 Hs') as [R' [pm' [E2 [T2 N2]]]].
    + unfold R1. rewrite keys_after_level. exact Hnd.
    + intros e' He'. unfold R1 in He'. apply in_map_iff in He'.
      destruct He' as [[k v] [<- He]]. cbn [snd fst].
      destruct (Hinv _ He) as [Hz|Hin]; cbn [snd] in *.
      * subst v. destruct (Z.leb_spec (L - prev) 0); [lia|]. left. reflexivity.
      * destruct Hin as [HL|Hr].
        -- destruct (Z.leb_spec (L - prev) v); [|lia]. left. cbn [snd]. lia.
        -- pose proof (HLrest _ Hr).
           destruct (Z.leb_spec (L - prev) v); [|lia]. right. cbn [snd].
           replace (v - (L - prev) + L) with (v + prev) by lia. exact Hr.
    + exists R', pm'. split.
      * cbn [PotManager.collectLevels]. rewrite E1. cbn [bind]. exact E2.
      * split; [|tauto]. rewrite T2, T1. unfold R1. rewrite sum_after_level. lia.
Qed.

Lemma collectBets_conserves (pm : PotManager.t) (bets : JsMap.t Z) (allIn folded : JsSet.t) :
  NoDup (JsMap.keys bets) ->
  (forall v, In v (JsMap.values bets) -> 0 <= v) ->
  exists pm',
    PotManager.collectBets pm bets allIn folded = Ok pm'
    /\ PotManager.getTotalPotAmount pm'
       = PotManager.getTotalPotAmount pm + sumZ (JsMap.values bets)
    /\ (Forall (fun pot => 0 <= Pot.total pot)
          (PotManager.mainPot pm :: PotManager.sidePots pm) ->
        Forall (fun pot => 0 <= Pot.total pot)
          (PotManager.mainPot pm' :: PotManager.sidePots pm')).
Proof.
  intros Hnd Hnn. unfold PotManager.collectBets.
  destruct (JsMap.size bets =? 0)%nat eqn:Esz.
  - exists pm. split; [reflexivity|]. split; [|tauto].
    apply Nat.eqb_eq in Esz. unfold JsMap.size in Esz.
    apply length_zero_iff_nil in Esz. subst bets.
    change (sumZ (JsMap.values [])) with 0. lia.
  - destruct (levels_spec (JsMap.values bets)) as [Hs Hin].
    destruct (sort_asc (uniqZ (filter (fun amt => 0 <? amt) (JsMap.values bets))))
      as [|L rest] eqn:El.
    + exists pm. split; [reflexivity|]. split; [|tauto].
      rewrite sumZ_all_zero; [lia|].
      intros v Hv. pose proof (Hnn v Hv).
      destruct (Z.eq_dec v 0) as [|Hne]; [assumption|].
      exfalso. apply (proj2 (Hin v)). split; [exact Hv|lia].
    + destruct (collectLevels_ok folded (L :: rest) 0 bets pm Hs Hnd) as [R' [pm' [E [T N]]]].
      * intros e He.
        assert (Hv : In (snd e) (JsMap.values bets)) by (apply in_map; exact He).
        pose proof (Hnn _ Hv).
        destruct (Z.eq_dec (snd e) 0) as [|Hne]; [left; assumption|].
        right. rewrite Z.add_0_r. apply Hin. split; [exact Hv|lia].
      * exists pm'. split; [|split; [exact T|exact N]].
        rewrite E. reflexivity.
Qed.

Lemma collectBets_no_positive (pm : PotManager.t) (bets : JsMap.t Z) (allIn folded : JsSet.t) :
  (forall v, In v (JsMap.values bets) -> v <= 0) ->
  PotManager.collectBets pm bets allIn folded = Ok pm.
Proof.
  intro H. unfold PotManager.collectBets.
  destruct (JsMap.size bets =? 0)%nat; [reflexivity|].
  assert (E : filter (fun amt => 0 <? amt) (JsMap.values bets) = []).
  { induction (JsMap.values bets) as [|v l IH]; [reflexivity|].
    cbn [filter]. destruct (Z.ltb_spec 0 v) as [Hpos|_].
    - pose proof (H v (or_introl eq_refl)). lia.
    - apply IH. intros w Hw. apply H. right. exact Hw. }
  rewrite E. reflexivity.
Qed.

Lemma collectBetsSeq_conserves (calls : list (JsMap.t Z * JsSet.t * JsSet.t)) :
  forall pm,
    Forall (fun c => NoDup (JsMap.keys (fst (fst c)))
                     /\ forall v, In v (JsMap.values (fst (fst c))) -> 0 <= v) calls ->
    exists pm',
      PotManager.collectBetsSeq pm calls = Ok pm'
      /\ PotManager.getTotalPotAmount pm'
         = PotManager.getTotalPotAmount pm
           + sumZ (map (fun c => sumZ (JsMap.values (fst (fst c)))) calls)
      /\ (Forall (fun pot => 0 <= Pot.total pot)
            (PotManager.mainPot pm :: PotManager.sidePots pm) ->
          Forall (fun pot => 0 <= Pot.total pot)
            (PotManager.mainPot pm' :: PotManager.sidePots pm')).
Proof.
  induction calls as [|[[bets allIn] folded] calls IH]; intros pm Hall.
  - exists pm. split; [reflexivity|]. split; [|tauto].
    change (sumZ (map _ [])) with 0. lia.
  - inversion Hall as [|c l [Hnd Hnn] Hrest]; subst. cbn [fst] in *.
    destruct (collectBets_conserves pm bets allIn folded Hnd Hnn) as [pm1 [E1 [T1 N1]]].
    destruct (IH pm1 Hrest) as [pm' [E2 [T2 N2]]].
    exists pm'. split.
    + cbn [PotManager.collectBetsSeq]. rewrite E1. cbn [bind]. exact E2.
    + split; [|tauto]. rewrite T2, T1. cbn [map fst]. rewrite sumZ_cons. lia.
Qed.

(** ** Paying out a pot *)

Lemma getOr_set (w : JsMap.t Z) (k p : string) (v d : Z) :
  JsMap.getOr (JsMap.set w k v) p d = if String.eqb k p then v else JsMap.getOr w p d.
Proof.
  unfold JsMap.getOr.
  induction w as [|[k' v'] w IH]; simpl.
  - destruct (String.eqb k p); reflexivity.
  - destruct (String.eqb_spec k' k) as [->|Hne]; simpl.
    + destruct (String.eqb k p); reflexivity.
    + destruct (String.eqb_spec k' p) as [->|Hne'].
      * destruct (String.eqb_spec k p) as [->|_]; [congruence|reflexivity].
      * exact IH.
Qed.

Lemma creditWinners_get (q r : Z) (ew : list string) :
  forall (i : nat) (w : JsMap.t Z) (p : string),
    JsMap.getOr (PotManager.creditWinners q r i ew w) p 0
    = JsMap.getOr w p 0
      + q * Z.of_nat (count_occ string_dec ew p)
      + match i, ew with
        | O, first :: _ => if String.eqb p first then r else 0
        | _, _ => 0
        end.
Proof.
  induction ew as [|x ew IH]; intros i w p.
  - simpl. destruct i; lia.
  - cbn [PotManager.creditWinners]. rewrite IH, getOr_set.
    cbn [count_occ].
    destruct (string_dec x p) as [->|Hne].
    + rewrite !String.eqb_refl. destruct i; cbn [Nat.eqb]; lia.
    + destruct (String.eqb_spec x p) as [|_]; [congruence|].
      destruct (String.eqb_spec p x) as [|_]; [congruence|].
      destruct i; lia.
Qed.

Lemma creditWinners_sum (q r : Z) (ew : list string) :
  forall (i : nat) (w : JsMap.t Z),
    sumZ (JsMap.values (PotManager.creditWinners q r i ew w))
    = sumZ (JsMap.values w)
      + q * Z.of_nat (length ew)
      + match i, ew with
        | O, _ :: _ => r
        | _, _ => 0
        end.
Proof.
  induction ew as [|x ew IH]; intros i w.
  - simpl. destruct i; lia.
  - cbn [PotManager.creditWinners]. rewrite IH, sum_values_set.
    cbn [length]. destruct i; cbn [Nat.eqb]; lia.
Qed.

Lemma split_exact (T : Z) (n : nat) :
  0 <= T -> (0 < n)%nat ->
  Z.rem T (Z.of_nat n) = T mod Z.of_nat n
  /\ T / Z.of_nat n * Z.of_nat n + Z.rem T (Z.of_nat n) = T.
Proof.
  intros HT Hn.
  assert (E : Z.rem T (Z.of_nat n) = T mod Z.of_nat n)
    by (apply Z.rem_mod_nonneg; lia).
  split; [exact E|].
  rewrite E. pose proof (Z.div_mod T (Z.of_nat n) ltac:(lia)). lia.
Qed.

Lemma distributeSinglePot_spec (pot : Pot.t) (winners : list string)
    (winnings : JsMap.t Z) (first : string) (others : list string) :
  0 <= Pot.total pot ->
  filter (Pot.isPlayerEligible pot) winners = first :: others ->
  let T := Pot.total pot in
  let n := Z.of_nat (length (first :: others)) in
  let w' := PotManager.distributeSinglePot pot winners winnings in
  (forall p,
      JsMap.getOr w' p 0
      = JsMap.getOr winnings p 0
        + T / n * Z.of_nat (count_occ string_dec (first :: others) p)
        + (if String.eqb p first then T mod n else 0))
  /\ sumZ (JsMap.values w') = sumZ (JsMap.values winnings) + T.
Proof.
  intros HT Hf T n w'.
  destruct (split_exact T (length (first :: others)) HT ltac:(simpl; lia)) as [Hrem Hsplit].
  fold n in Hrem, Hsplit.
  unfold w', PotManager.distributeSinglePot. fold T.
  destruct (Z.eqb_spec T 0) as [E0|Hne].
  - rewrite E0 in *. rewrite Z.div_0_l, Z.mod_0_l by (unfold n; simpl; lia).
    split; [|lia]. intro p. destruct (String.eqb p first); lia.
  - rewrite Hf. fold n. split.
    + intro p. rewrite creditWinners_get, Hrem. reflexivity.
    + rewrite creditWinners_sum. fold n. lia.
Qed.

Lemma filter_nil_existsb {A : Type} (f : A -> bool) (l : list A) :
  filter f l = [] -> existsb f l = false.
Proof.
  induction l as [|x l IH]; simpl; [reflexivity|].
  destruct (f x); [discriminate|]. exact IH.
Qed.

Lemma filter_cons_existsb {A : Type} (f : A -> bool) (l : list A) (x : A) (r : list A) :
  filter f l = x :: r -> existsb f l = true.
Proof.
  revert x r. induction l as [|y l IH]; simpl; intros x r H; [discriminate|].
  destruct (f y); [reflexivity|]. exact (IH _ _ H).
Qed.

Lemma distributeSinglePot_sum (pot : Pot.t) (winners : list string) (winnings : JsMap.t Z) :
  0 <= Pot.total pot ->
  sumZ (JsMap.values (PotManager.distributeSinglePot pot winners winnings))
  = sumZ (JsMap.values winnings)
    + (if existsb (Pot.isPlayerEligible pot) winners then Pot.total pot else 0).
Proof.
  intro HT.
  destruct (filter (Pot.isPlayerEligible pot) winners) as [|first others] eqn:Hf.
  - rewrite (filter_nil_existsb _ _ Hf).
    unfold PotManager.distributeSinglePot. rewrite Hf.
    destruct (Pot.total pot =? 0); lia.
  - rewrite (filter_cons_existsb _ _ _ _ Hf).
    exact (proj2 (distributeSinglePot_spec pot winners winnings first others HT Hf)).
Qed.

Lemma distribute_side_pots_sum (winners : list string) (sps : list Pot.t) :
  forall w,
    Forall (fun pot => 0 <= Pot.total pot) sps ->
    sumZ (JsMap.values
            (fold_left (fun w sidePot => PotManager.distributeSinglePot sidePot winners w)
               sps w))
    = sumZ (JsMap.values w)
      + sumZ (map (fun pot => if existsb (Pot.isPlayerEligible pot) winners
                              then Pot.total pot else 0) sps).
Proof.
  induction sps as [|sp sps IH]; intros w Hall.
  - simpl. change (sumZ []) with 0. lia.
  - inversion Hall as [|x y Hsp Hsps]; subst.
    cbn [fold_left map]. rewrite (IH _ Hsps).
    rewrite (distributeSinglePot_sum _ _ _ Hsp), sumZ_cons. lia.
Qed.

Lemma distributePots_sum (pm : PotManager.t) (winners : list string) :
  Forall (fun pot => 0 <= Pot.total pot) (PotManager.mainPot pm :: PotManager.sidePots pm) ->
  sumZ (JsMap.values (PotManager.distributePots pm winners))
  = sumZ (map (fun pot => if existsb (Pot.isPlayerEligible pot) winners
                          then Pot.total pot else 0)
            (PotManager.mainPot pm :: PotManager.sidePots pm)).
Proof.
  intro Hall. inversion Hall as [|m l Hm Hs]; subst.
  unfold PotManager.distributePots. cbn [map].
  rewrite (distribute_side_pots_sum _ _ _ Hs), sumZ_cons.
  rewrite (distributeSinglePot_sum _ _ _ Hm).
  change (sumZ (JsMap.values [])) with 0. lia.
Qed.

Example side_pot_scenario :
  PotManager.collectBets PotManager.new
    [("p1"%string, 50); ("p2"%string, 200); ("p3"%string, 200)] ["p1"%string] []
  = Ok {| PotManager.mainPot :=
            {| Pot.contributions := [("p1"%string, 50); ("p2"%string, 50); ("p3"%string, 50)];
               Pot.eligiblePlayerIds := ["p1"%string; "p2"%string; "p3"%string] |};
          PotManager.sidePots :=
            [{| Pot.contributions := [("p2"%string, 150); ("p3"%string, 150)];
                Pot.eligiblePlayerIds := ["p2"%string; "p3"%string] |}] |}.
Proof. reflexivity. Qed.

(** ** The ledger on numbers, read on integers *)

(** [Pot] and [PotManager] are the ledger on numbers at [JsNumber.integers]. *)

Lemma ledger_uniq (xs : list Z) : Ledger.uniq JsNumber.integers xs = uniqZ xs.
Proof. reflexivity. Qed.

Lemma ledger_sort_asc (l : list Z) : Ledger.sort_asc JsNumber.integers l = sort_asc l.
Proof.
  induction l as [|x l IH]; [reflexivity|].
  cbn [Ledger.sort_asc sort_asc fold_right].
  change (fold_right (Ledger.insert_asc JsNumber.integers) [] l)
    with (Ledger.sort_asc JsNumber.integers l).
  change (fold_right insert_asc [] l) with (sort_asc l).
  rewrite IH. generalize (sort_asc l). clear IH l.
  induction l as [|y r IH]; [reflexivity|].
  cbn [Ledger.insert_asc insert_asc JsNumber.leb JsNumber.sub JsNumber.zero
       JsNumber.integers].
  rewrite IH.
  destruct (Z.leb_spec (x - y) 0), (Z.leb_spec x y); try reflexivity; lia.
Qed.

Lemma ledger_total (p : Pot.t) :
  Ledger.total JsNumber.integers (Ledger.ofPot p) = Pot.total p.
Proof. reflexivity. Qed.

Lemma ledger_addContribution (p : Pot.t) (playerId : string) (amount : Z) :
  Ledger.addContribution JsNumber.integers (Ledger.ofPot p) playerId amount
  = mapResult Ledger.ofPot (Pot.addContribution p playerId amount).
Proof.
  unfold Ledger.addContribution, Pot.addContribution.
  cbn [JsNumber.leb JsNumber.zero JsNumber.add JsNumber.integers Ledger.ofPot
       Ledger.contributions Ledger.eligiblePlayerIds].
  destruct (amount <=? 0); [reflexivity|].
  cbn [mapResult Ledger.ofPot Pot.contributions Pot.eligiblePlayerIds]. reflexivity.
Qed.

Lemma ledger_collectContributions (contributionAmount : Z) (players : list string) :
  forall (p : Pot.t) (remaining : JsMap.t Z),
    Ledger.collectContributions JsNumber.integers contributionAmount players
      (Ledger.ofPot p, remaining)
    = mapResult (fun st => (Ledger.ofPot (fst st), snd st))
        (PotManager.collectContributions contributionAmount players (p, remaining)).
Proof.
  induction players as [|playerId rest IH]; intros p remaining; [reflexivity|].
  cbn [Ledger.collectContributions PotManager.collectContributions].
  unfold Ledger.collectOne, PotManager.collectOne.
  rewrite ledger_addContribution.
  destruct (Pot.addContribution p playerId contributionAmount) as [p'|e];
    [|reflexivity].
  cbn [mapResult bind JsNumber.sub JsNumber.zero JsNumber.integers].
  apply IH.
Qed.

Lemma ledger_remove_folded (folded : JsSet.t) :
  forall p : Pot.t,
    fold_left Ledger.removePlayerEligibility folded (Ledger.ofPot p)
    = Ledger.ofPot (fold_left Pot.removePlayerEligibility folded p).
Proof.
  induction folded as [|f rest IH]; intro p; [reflexivity|].
  cbn [fold_left]. rewrite <- IH. reflexivity.
Qed.

Lemma ledger_collectLevel (folded : JsSet.t) (contributionAmount : Z)
    (remaining : JsMap.t Z) (pm : PotManager.t) :
  Ledger.collectLevel JsNumber.integers folded contributionAmount
    (remaining, Ledger.ofManager pm)
  = mapResult (fun st => (fst st, Ledger.ofManager (snd st)))
      (PotManager.collectLevel folded contributionAmount (remaining, pm)).
Proof.
  unfold Ledger.collectLevel, PotManager.collectLevel.
  cbn [JsNumber.leb JsNumber.eqb JsNumber.zero JsNumber.integers].
  destruct (map fst (filter (fun e : string * Z => contributionAmount <=? snd e) remaining))
    as [|id ids]; [reflexivity|].
  change (Ledger.newPot (N := Z) ?l) with (Ledger.ofPot (Pot.new l)).
  rewrite ledger_collectContributions.
  destruct (PotManager.collectContributions _ _ _) as [[pot1 remaining']|e];
    [|reflexivity].
  cbn [mapResult bind fst snd].
  rewrite ledger_remove_folded.
  cbn [Ledger.ofManager Ledger.mainPot Ledger.sidePots].
  rewrite ledger_total.
  destruct (Pot.total (PotManager.mainPot pm) =? 0); cbn [mapResult fst snd];
    unfold Ledger.ofManager; cbn [PotManager.mainPot PotManager.sidePots].
  - reflexivity.
  - rewrite map_app. reflexivity.
Qed.

Lemma ledger_collectLevels (folded : JsSet.t) (levels : list Z) :
  forall (previousLevel : Z) (remaining : JsMap.t Z) (pm : PotManager.t),
    Ledger.collectLevels JsNumber.integers folded previousLevel levels
      (remaining, Ledger.ofManager pm)
    = mapResult (fun st => (fst st, Ledger.ofManager (snd st)))
        (PotManager.collectLevels folded previousLevel levels (remaining, pm)).
Proof.
  induction levels as [|L rest IH]; intros prev remaining pm; [reflexivity|].
  cbn [Ledger.collectLevels PotManager.collectLevels JsNumber.sub JsNumber.integers].
  rewrite ledger_collectLevel.
  destruct (PotManager.collectLevel folded (L - prev) (remaining, pm))
    as [[remaining' pm']|e]; [|reflexivity].
  cbn [mapResult bind fst snd]. apply IH.
Qed.

(** [PotManager.collectBets] and [getTotalPotAmount] on [Z] are the ledger on
    numbers taken at the integers. *)
Lemma ledger_on_integers (pm : PotManager.t) (playerBets : JsMap.t Z)
    (allIn folded : JsSet.t) :
  Ledger.collectBets JsNumber.integers (Ledger.ofManager pm) playerBets allIn folded
  = mapResult Ledger.ofManager (PotManager.collectBets pm playerBets allIn folded)
  /\ Ledger.getTotalPotAmount JsNumber.integers (Ledger.ofManager pm)
     = PotManager.getTotalPotAmount pm.
Proof.
  split.
  - unfold Ledger.collectBets, PotManager.collectBets.
    destruct (JsMap.size playerBets =? 0)%nat; [reflexivity|].
    rewrite ledger_uniq, ledger_sort_asc.
    cbn [JsNumber.ltb JsNumber.zero JsNumber.integers].
    destruct (sort_asc _) as [|L rest]; [reflexivity|].
    rewrite ledger_collectLevels.
    destruct (PotManager.collectLevels folded 0 (L :: rest) (playerBets, pm))
      as [[remaining' pm']|e]; reflexivity.
  - unfold Ledger.getTotalPotAmount, PotManager.getTotalPotAmount.
    cbn [Ledger.ofManager Ledger.mainPot Ledger.sidePots].
    rewrite ledger_total. generalize (Pot.total (PotManager.mainPot pm)).
    induction (PotManager.sidePots pm) as [|sp rest IH]; intro acc; [reflexivity|].
    cbn [map fold_left]. rewrite ledger_total. apply IH.
Qed.

(** ** The ledger on numbers, read on binary64 *)

(** A bet of two thirds of a pot of 20, as the AI sizes it, called by a bet of
    20 and one of 30.  The levels are 13.200000000000001, 20 and 30.  After
    the first two layers the third player has
    [(30 - 13.200000000000001) - (20 - 13.200000000000001) = 9.999999999999998]
    left, the third layer asks for [30 - 20 = 10], the test
    [remaining >= contributionAmount] fails and the layer is skipped. *)
#[warnings="-inexact-float"] Lemma collectBets_on_fractional_bets :
  let playerBets :=
    [("p1"%string, (20 * 0.66)%float); ("p2"%string, 20%float); ("p3"%string, 30%float)] in
  JsMap.values playerBets = [13.200000000000001; 20; 30]%float
  /\ (forall allIn,
      Ledger.collectBets JsNumber.doubles Ledger.new playerBets allIn []
      = Ok {| Ledger.mainPot :=
               {| Ledger.contributions :=
                    [("p1"%string, 13.200000000000001%float);
                     ("p2"%string, 13.200000000000001%float);
                     ("p3"%string, 13.200000000000001%float)];
                  Ledger.eligiblePlayerIds := ["p1"; "p2"; "p3"]%string |};
             Ledger.sidePots :=
               [{| Ledger.contributions :=
                     [("p2"%string, 6.799999999999999%float);
                      ("p3"%string, 6.799999999999999%float)];
                   Ledger.eligiblePlayerIds := ["p2"; "p3"]%string |}] |})
  /\ ((30 - 13.200000000000001) - (20 - 13.200000000000001) = 9.999999999999998)%float
  /\ ((30 - 20 <=? 9.999999999999998) = false)%float.
Proof.
  cbv zeta. split; [vm_compute; reflexivity|].
  split; [intro allIn; vm_compute; reflexivity|].
  split; vm_compute; reflexivity.
Qed.

(* ================================================================== *)
(** * The pot ledger: stated properties *)
(* ================================================================== *)

(** C2.  [collectBets] is written to move everything passed in into the
    pots, and on integer amounts it does.  (1) Every call whose contribution
    map holds only strictly positive integer amounts returns normally, and
    afterwards the main pot total plus all side pot totals is the value
    before the call plus the sum of the amounts passed in.  (2) Hence,
    starting from a reset manager, after the successive calls of a hand the
    pots hold exactly everything that was ever passed in; there the amounts
    may also be 0, as they are for the players who put nothing in on a
    street.  On amounts that are not integers it does not.  (3) With the
    strictly positive amounts p1: 20 * 0.66 = 13.200000000000001, p2: 20 and
    p3: 30 passed to a new manager, with any all-in set and nobody folded,
    the call returns with a main pot and one side pot; the layer of the
    third level is never built, the pots hold 53.2 while 63.2 was passed in,
    and the last 10 chips of p3 are in no pot. *)
#[warnings="-inexact-float"] Theorem C2_collectBets_loses_chips_on_fractional_amounts :
  (forall (pm : PotManager.t) (playerBets : JsMap.t Z) (allIn folded : JsSet.t),
      NoDup (JsMap.keys playerBets) ->
      (forall v, In v (JsMap.values playerBets) -> 0 < v) ->
      exists pm',
        PotManager.collectBets pm playerBets allIn folded = Ok pm'
        /\ PotManager.getTotalPotAmount pm'
           = PotManager.getTotalPotAmount pm + sumZ (JsMap.values playerBets))
  /\
  (forall (calls : list (JsMap.t Z * JsSet.t * JsSet.t)),
      Forall (fun c => NoDup (JsMap.keys (fst (fst c)))
                       /\ forall v, In v (JsMap.values (fst (fst c))) -> 0 <= v) calls ->
      exists pm',
        PotManager.collectBetsSeq PotManager.new calls = Ok pm'
        /\ PotManager.getTotalPotAmount pm'
           = sumZ (map (fun c => sumZ (JsMap.values (fst (fst c)))) calls))
  /\
  (let playerBets :=
     [("p1"%string, (20 * 0.66)%float); ("p2"%string, 20%float); ("p3"%string, 30%float)] in
   let passedIn :=
     fold_left PrimFloat.add (JsMap.values playerBets) 0%float in
   NoDup (JsMap.keys playerBets)
   /\ Forall (fun v => (0 <? v)%float = true) (JsMap.values playerBets)
   /\ exists pm',
        (forall allIn,
            Ledger.collectBets JsNumber.doubles Ledger.new playerBets allIn [] = Ok pm')
        /\ length (Ledger.sidePots pm') = 1%nat
        /\ Ledger.getTotalPotAmount JsNumber.doubles Ledger.new = 0%float
        /\ Ledger.getTotalPotAmount JsNumber.doubles pm' = 53.2%float
        /\ passedIn = 63.2%float
        /\ (Ledger.getTotalPotAmount JsNumber.doubles pm'
            =? Ledger.getTotalPotAmount JsNumber.doubles Ledger.new + passedIn)%float
           = false
        /\ (passedIn - Ledger.getTotalPotAmount JsNumber.doubles pm' = 10)%float).
Proof.
  split; [|split].
  - intros pm bets allIn folded Hnd Hpos.
    destruct (collectBets_conserves pm bets allIn folded Hnd) as [pm' [E [T _]]].
    + intros v Hv. specialize (Hpos v Hv). lia.
    + exists pm'. split; assumption.
  - intros calls Hall.
    destruct (collectBetsSeq_conserves calls PotManager.new Hall) as [pm' [E [T _]]].
    exists pm'. split; [exact E|]. rewrite T. reflexivity.
  - cbv zeta. destruct collectBets_on_fractional_bets as (_ & E & _).
    cbv zeta in E.
    split; [repeat constructor; simpl; intuition discriminate|].
    split; [repeat constructor|].
    eexists. split; [exact E|].
    split; [reflexivity|].
    split; [vm_compute; reflexivity|].
    split; [vm_compute; reflexivity|].
    split; [vm_compute; reflexivity|].
    split; vm_compute; reflexivity.
Qed.

Lemma C2_witness :
  exists pm',
    PotManager.collectBets PotManager.new
      [("p1"%string, 50); ("p2"%string, 200); ("p3"%string, 200)] ["p1"%string] []
    = Ok pm'
    /\ PotManager.getTotalPotAmount pm'
       = PotManager.getTotalPotAmount PotManager.new + sumZ [50; 200; 200].
Proof.
  apply (proj1 C2_collectBets_loses_chips_on_fractional_amounts).
  - simpl. repeat constructor; simpl; intuition discriminate.
  - simpl. intros v [<-|[<-|[<-|[]]]]; lia.
Defined.



(** C9.  [collectBets] called with a contribution map that is empty, or that
    holds no strictly positive amount, returns normally (it does not throw,
    in particular not the invalid-contribution error) and leaves the main pot
    and every side pot exactly as they were. *)
Theorem C9_collectBets_without_positive_amount
    (pm : PotManager.t) (playerBets : JsMap.t Z) (allIn folded : JsSet.t) :
  playerBets = [] \/ (forall v, In v (JsMap.values playerBets) -> v <= 0) ->
  PotManager.collectBets pm playerBets allIn folded = Ok pm.
Proof.
  intros [->|H].
  - reflexivity.
  - apply collectBets_no_positive. exact H.
Qed.

Lemma C9_witness :
  PotManager.collectBets
    {| PotManager.mainPot :=
         {| Pot.contributions := [("p1"%string, 10); ("p2"%string, 10)];
            Pot.eligiblePlayerIds := ["p1"%string; "p2"%string] |};
       PotManager.sidePots := [] |}
    [("p1"%string, 0); ("p2"%string, 0)] [] ["p2"%string]
  = Ok {| PotManager.mainPot :=
            {| Pot.contributions := [("p1"%string, 10); ("p2"%string, 10)];
               Pot.eligiblePlayerIds := ["p1"%string; "p2"%string] |};
          PotManager.sidePots := [] |}.
Proof.
  apply C9_collectBets_without_positive_amount.
  right. simpl. intros v [<-|[<-|[]]]; lia.
Defined.

(** C10.  Removal from a pot's eligible set is not permanent: after
    [removePlayerEligibility(p)] the player is not eligible, and a following
    [addContribution(p, a)] with [a > 0] succeeds and makes
    [isPlayerEligible(p)] true again. *)
Theorem C10_contribution_restores_eligibility (pot : Pot.t) (p : string) (a : Z) :
  0 < a ->
  Pot.isPlayerEligible (Pot.removePlayerEligibility pot p) p = false
  /\ exists pot',
       Pot.addContribution (Pot.removePlayerEligibility pot p) p a = Ok pot'
       /\ Pot.isPlayerEligible pot' p = true.
Proof.
  intro Ha. split.
  - unfold Pot.isPlayerEligible, Pot.removePlayerEligibility, JsSet.has, JsSet.delete.
    cbn [Pot.eligiblePlayerIds].
    induction (Pot.eligiblePlayerIds pot) as [|x s IH]; [reflexivity|].
    cbn [filter]. destruct (String.eqb p x) eqn:E; cbn [negb].
    + exact IH.
    + cbn [existsb]. rewrite E. exact IH.
  - destruct (addContribution_ok (Pot.removePlayerEligibility pot p) p a Ha)
      as [pot' [E [_ El]]].
    exists pot'. split; assumption.
Qed.

Lemma C10_witness :
  let pot := {| Pot.contributions := [("p1"%string, 50)];
                Pot.eligiblePlayerIds := ["p1"%string] |} in
  Pot.isPlayerEligible (Pot.removePlayerEligibility pot "p1"%string) "p1"%string = false
  /\ exists pot',
       Pot.addContribution (Pot.removePlayerEligibility pot "p1"%string) "p1"%string 25
       = Ok pot'
       /\ Pot.isPlayerEligible pot' "p1"%string = true.
Proof.
  intro pot. apply C10_contribution_restores_eligibility. lia.
Defined.

(* ================================================================== *)
(** * Hand rankings: [compareTo] *)
(* ================================================================== *)

Section KickerLoop.
Import HandRanking.

Lemma compareKickers_opp (n : nat) :
  forall i a b, compareKickers n i a b = - compareKickers n i b a.
Proof.
  induction n as [|n IH]; intros i a b; cbn [compareKickers].
  - reflexivity.
  - rewrite (Z.eqb_sym (nth i b 0)).
    destruct (nth i a 0 =? nth i b 0); cbn [negb]; [apply IH | lia].
Qed.

Lemma compareKickers_zero (n : nat) :
  forall i a b,
    compareKickers n i a b = 0
    <-> (forall j, (i <= j < i + n)%nat -> nth j a 0 = nth j b 0).
Proof.
  induction n as [|n IH]; intros i a b; cbn [compareKickers].
  - split; [intros _ j Hj; lia | reflexivity].
  - destruct (Z.eqb_spec (nth i a 0) (nth i b 0)) as [E|N]; cbn [negb].
    + rewrite IH. split; intros H j Hj.
      * destruct (Nat.eq_dec j i) as [->|]; [exact E | apply H; lia].
      * apply H. lia.
    + split; [intro; lia|]. intro H. exfalso. apply N, H. lia.
Qed.

(** Past the end of both lists every kicker reads as 0, so extra
    iterations change nothing. *)
Lemma compareKickers_fuel (n : nat) :
  forall i a b m,
    (length a <= i + n)%nat -> (length b <= i + n)%nat -> (n <= m)%nat ->
    compareKickers m i a b = compareKickers n i a b.
Proof.
  induction n as [|n IH]; intros i a b m Ha Hb Hm.
  - cbn [compareKickers]. apply compareKickers_zero.
    intros j Hj. rewrite !nth_overflow by lia. reflexivity.
  - destruct m as [|m]; [lia|]. cbn [compareKickers].
    destruct (negb (nth i a 0 =? nth i b 0)); [reflexivity|].
    apply IH; lia.
Qed.

Lemma compareKickers_trans (n : nat) :
  forall i a b c,
    0 <= compareKickers n i a b ->
    0 <= compareKickers n i b c ->
    0 <= compareKickers n i a c
    /\ (0 < compareKickers n i a b \/ 0 < compareKickers n i b c ->
        0 < compareKickers n i a c).
Proof.
  induction n as [|n IH]; intros i a b c; cbn [compareKickers].
  - intros _ _. split; [lia | intros [H|H]; lia].
  - destruct (Z.eqb_spec (nth i a 0) (nth i b 0));
      destruct (Z.eqb_spec (nth i b 0) (nth i c 0));
      destruct (Z.eqb_spec (nth i a 0) (nth i c 0));
      cbn [negb]; intros H1 H2; try lia;
      try (split; [lia | intros _; lia]).
    apply IH; assumption.
Qed.
End KickerLoop.

Lemma handRankValue_inj (r1 r2 : HandRank) :
  handRankValue r1 = handRankValue r2 -> r1 = r2.
Proof. destruct r1, r2; simpl; intro H; try reflexivity; discriminate. Qed.

Lemma compareTo_opp (a b : HandRanking.t) :
  HandRanking.compareTo a b = - HandRanking.compareTo b a.
Proof.
  unfold HandRanking.compareTo.
  rewrite (Z.eqb_sym (handRankValue (HandRanking.rank b))),
          (Z.eqb_sym (HandRanking.primaryValue b)),
          (Z.eqb_sym (HandRanking.secondaryValue b)),
          (Nat.max_comm (length (HandRanking.kickers b))).
  destruct (_ =? _); cbn [negb]; [|lia].
  destruct (_ =? _); cbn [negb]; [|lia].
  destruct (_ =? _); cbn [negb]; [|lia].
  apply compareKickers_opp.
Qed.

Lemma compareTo_zero_iff (a b : HandRanking.t) :
  HandRanking.compareTo a b = 0
  <-> HandRanking.rank a = HandRanking.rank b
      /\ HandRanking.primaryValue a = HandRanking.primaryValue b
      /\ HandRanking.secondaryValue a = HandRanking.secondaryValue b
      /\ (forall i, nth i (HandRanking.kickers a) 0 = nth i (HandRanking.kickers b) 0).
Proof.
  unfold HandRanking.compareTo.
  destruct (Z.eqb_spec (handRankValue (HandRanking.rank a))
                       (handRankValue (HandRanking.rank b))) as [Er|Nr]; cbn [negb].
  2:{ split; [intro; lia|]. intros [H _]. rewrite H in Nr. congruence. }
  destruct (Z.eqb_spec (HandRanking.primaryValue a) (HandRanking.primaryValue b))
    as [Ep|Np]; cbn [negb].
  2:{ split; [intro; lia|]. intros [_ [H _]]. congruence. }
  destruct (Z.eqb_spec (HandRanking.secondaryValue a) (HandRanking.secondaryValue b))
    as [Es|Ns]; cbn [negb].
  2:{ split; [intro; lia|]. intros [_ [_ [H _]]]. congruence. }
  rewrite compareKickers_zero. apply handRankValue_inj in Er.
  split.
  - intro H. repeat split; try assumption.
    intro i.
    destruct (Nat.lt_ge_cases i
                (Nat.max (length (HandRanking.kickers a)) (length (HandRanking.kickers b))))
      as [Hlt|Hge].
    + apply H. lia.
    + rewrite !nth_overflow by lia. reflexivity.
  - intros [_ [_ [_ H]]] j _. apply H.
Qed.

Lemma compareTo_trans (a b c : HandRanking.t) :
  0 <= HandRanking.compareTo a b ->
  0 <= HandRanking.compareTo b c ->
  0 <= HandRanking.compareTo a c
  /\ (0 < HandRanking.compareTo a b \/ 0 < HandRanking.compareTo b c ->
      0 < HandRanking.compareTo a c).
Proof.
  unfold HandRanking.compareTo.
  set (N := Nat.max (length (HandRanking.kickers a))
              (Nat.max (length (HandRanking.kickers b)) (length (HandRanking.kickers c)))).
  rewrite <- (compareKickers_fuel _ 0 (HandRanking.kickers a) (HandRanking.kickers b) N)
    by lia.
  rewrite <- (compareKickers_fuel _ 0 (HandRanking.kickers b) (HandRanking.kickers c) N)
    by lia.
  rewrite <- (compareKickers_fuel _ 0 (HandRanking.kickers a) (HandRanking.kickers c) N)
    by lia.
  destruct (Z.eqb_spec (handRankValue (HandRanking.rank a)) (handRankValue (HandRanking.rank b)));
    destruct (Z.eqb_spec (handRankValue (HandRanking.rank b)) (handRankValue (HandRanking.rank c)));
    destruct (Z.eqb_spec (handRankValue (HandRanking.rank a)) (handRankValue (HandRanking.rank c)));
    cbn [negb]; try lia; try (intros; split; [lia | intros _; lia]).
  destruct (Z.eqb_spec (HandRanking.primaryValue a) (HandRanking.primaryValue b));
    destruct (Z.eqb_spec (HandRanking.primaryValue b) (HandRanking.primaryValue c));
    destruct (Z.eqb_spec (HandRanking.primaryValue a) (HandRanking.primaryValue c));
    cbn [negb]; try lia; try (intros; split; [lia | intros _; lia]).
  destruct (Z.eqb_spec (HandRanking.secondaryValue a) (HandRanking.secondaryValue b));
    destruct (Z.eqb_spec (HandRanking.secondaryValue b) (HandRanking.secondaryValue c));
    destruct (Z.eqb_spec (HandRanking.secondaryValue a) (HandRanking.secondaryValue c));
    cbn [negb]; try lia; try (intros; split; [lia | intros _; lia]).
  apply compareKickers_trans.
Qed.




(* ================================================================== *)
(** * The five-card evaluator *)
(* ================================================================== *)

(** ** Sorting the distinct values of a hand *)

Lemma uniqZ_acc_nodup (xs acc : list Z) :
  NoDup (acc ++ xs) ->
  fold_left (fun acc x => if existsb (Z.eqb x) acc then acc else acc ++ [x]) xs acc
  = acc ++ xs.
Proof.
  revert acc. induction xs as [|x xs IH]; intros acc Hnd; simpl.
  - rewrite app_nil_r. reflexivity.
  - assert (Hx : existsb (Z.eqb x) acc = false).
    { destruct (existsb (Z.eqb x) acc) eqn:E; [|reflexivity].
      apply existsb_exists in E. destruct E as [y [Hy Hxy]].
      apply Z.eqb_eq in Hxy. subst y.
      apply NoDup_remove_2 in Hnd. exfalso. apply Hnd, in_or_app. left. exact Hy. }
    rewrite Hx, IH; rewrite <- app_assoc; [reflexivity | exact Hnd].
Qed.

Lemma uniqZ_nodup (l : list Z) : NoDup l -> uniqZ l = l.
Proof. intro H. exact (uniqZ_acc_nodup l [] H). Qed.

Lemma insert_desc_in (a : Z) (l : list Z) (x : Z) :
  In x (HandEvaluator.insert_desc a l) <-> x = a \/ In x l.
Proof.
  induction l as [|y l IH]; simpl.
  - intuition.
  - destruct (y <=? a); simpl; [intuition|]. rewrite IH. intuition.
Qed.

Lemma insert_desc_sorted (a : Z) (l : list Z) :
  StronglySorted Z.gt l -> ~ In a l -> StronglySorted Z.gt (HandEvaluator.insert_desc a l).
Proof.
  induction l as [|y l IH]; intros Hs Hn; simpl.
  - repeat constructor.
  - inversion Hs as [|y' l' Hs' Hall]; subst.
    destruct (Z.leb_spec y a) as [Hle|Hgt].
    + assert (a <> y) by (intro; subst; apply Hn; left; reflexivity).
      constructor; [exact Hs|].
      constructor; [lia|].
      eapply Forall_impl; [|exact Hall]. simpl. intros; lia.
    + constructor.
      * apply IH; [exact Hs'|]. intro; apply Hn; right; assumption.
      * apply Forall_forall. intros x Hx. apply insert_desc_in in Hx.
        destruct Hx as [->|Hx]; [lia|].
        rewrite Forall_forall in Hall. apply Hall; exact Hx.
Qed.

Lemma sort_desc_spec (l : list Z) :
  NoDup l ->
  StronglySorted Z.gt (HandEvaluator.sort_desc l)
  /\ (forall x, In x (HandEvaluator.sort_desc l) <-> In x l).
Proof.
  induction l as [|a l IH]; intro Hnd; simpl.
  - split; [constructor|]. intro; tauto.
  - inversion Hnd as [|a' l' Hna Hnd']; subst.
    destruct (IH Hnd') as [Hs Hin]. split.
    + apply insert_desc_sorted; [exact Hs|]. rewrite Hin. exact Hna.
    + intro x. rewrite insert_desc_in, Hin. intuition.
Qed.

(** A strictly descending list is determined by its elements. *)
Lemma descending_unique (l1 : list Z) :
  forall l2,
    StronglySorted Z.gt l1 -> StronglySorted Z.gt l2 ->
    (forall x, In x l1 <-> In x l2) -> l1 = l2.
Proof.
  induction l1 as [|a l1 IH]; intros [|b l2] S1 S2 Hin.
  - reflexivity.
  - exfalso. apply (proj2 (Hin b)). left. reflexivity.
  - exfalso. apply (proj1 (Hin a)). left. reflexivity.
  - inversion S1 as [|? ? S1' A1]; inversion S2 as [|? ? S2' A2]; subst.
    rewrite Forall_forall in A1, A2.
    assert (Hab : a = b).
    { destruct (proj1 (Hin a) (or_introl eq_refl)) as [E|Ha]; [congruence|].
      destruct (proj2 (Hin b) (or_introl eq_refl)) as [E|Hb]; [congruence|].
      specialize (A1 _ Hb). specialize (A2 _ Ha). lia. }
    subst b. f_equal. apply IH; try assumption.
    intro x. split; intro Hx.
    + destruct (proj1 (Hin x) (or_intror Hx)) as [E|H]; [|exact H].
      specialize (A1 _ Hx). lia.
    + destruct (proj2 (Hin x) (or_intror Hx)) as [E|H]; [|exact H].
      specialize (A2 _ Hx). lia.
Qed.

Lemma sorted_distinct_values (vs target : list Z) :
  Permutation vs target -> StronglySorted Z.gt target ->
  HandEvaluator.sort_desc (uniqZ vs) = target.
Proof.
  intros Hp Ht.
  assert (Hnd : NoDup vs).
  { apply (Permutation_NoDup (Permutation_sym Hp)).
    clear Hp. induction Ht as [|a l _ IH Hall]; constructor; [|exact IH].
    intro Hin. rewrite Forall_forall in Hall. specialize (Hall _ Hin). lia. }
  rewrite (uniqZ_nodup _ Hnd).
  destruct (sort_desc_spec vs Hnd) as [Hs Hin].
  apply descending_unique; [exact Hs | exact Ht |].
  intro x. rewrite Hin. split; intro H.
  - exact (Permutation_in _ Hp H).
  - exact (Permutation_in _ (Permutation_sym Hp) H).
Qed.

Lemma insertCardDesc_perm (x : Card.t) (l : list Card.t) :
  Permutation (HandEvaluator.insertCardDesc x l) (x :: l).
Proof.
  induction l as [|y l IH]; simpl.
  - apply Permutation_refl.
  - destruct (Card.value y <=? Card.value x).
    + apply Permutation_refl.
    + eapply Permutation_trans; [apply perm_skip, IH | apply perm_swap].
Qed.

Lemma sortCardsDesc_perm (l : list Card.t) :
  Permutation (HandEvaluator.sortCardsDesc l) l.
Proof.
  induction l as [|x l IH]; simpl.
  - apply Permutation_refl.
  - eapply Permutation_trans; [apply insertCardDesc_perm | apply perm_skip, IH].
Qed.

Lemma isFlush_one_suit (s : Suit) (l : list Card.t) :
  (forall c, In c l -> Card.suit c = s) -> HandEvaluator.isFlush l = true.
Proof.
  intro H. unfold HandEvaluator.isFlush.
  destruct l as [|first rest]; [reflexivity|].
  apply forallb_forall. intros c Hc.
  rewrite (H c Hc), (H first (or_introl eq_refl)). destruct s; reflexivity.
Qed.

(** Without a straight among the values, the category is neither Straight nor
    StraightFlush. *)
Lemma no_straight_category (cards : list Card.t) (h : HandRanking.t) :
  HandEvaluator.getStraightHighCard (HandEvaluator.sortCardsDesc cards) = None ->
  HandEvaluator.evaluateHand cards = Ok h ->
  HandRanking.rank h <> Straight /\ HandRanking.rank h <> StraightFlush.
Proof.
  intros G. unfold HandEvaluator.evaluateHand.
  destruct (negb (length cards =? 5)%nat); [discriminate|].
  set (s := HandEvaluator.sortCardsDesc cards) in *.
  unfold HandEvaluator.checkRoyalFlush, HandEvaluator.checkStraightFlush,
    HandEvaluator.checkStraight.
  rewrite G. cbn [HandEvaluator.orElse].
  intro H. inversion H as [Hh]. clear H Hh.
  unfold HandEvaluator.checkFourOfAKind.
  destruct (find _ (HandEvaluator.groupByRank s)) as [[r4 g4]|];
    cbn [HandEvaluator.orElse HandRanking.rank]; [split; discriminate|].
  unfold HandEvaluator.checkFullHouse.
  destruct (fold_left _ (HandEvaluator.groupByRank s) (None, None)) as [[t3|] [p2|]];
    cbn [HandEvaluator.orElse HandRanking.rank]; try (split; discriminate).
  all: unfold HandEvaluator.checkFlush;
    destruct (HandEvaluator.isFlush s);
    cbn [HandEvaluator.orElse HandRanking.rank]; try (split; discriminate).
  all: unfold HandEvaluator.checkThreeOfAKind;
    destruct (find _ (HandEvaluator.groupByRank s)) as [[r3 g3]|];
    cbn [HandEvaluator.orElse HandRanking.rank]; try (split; discriminate).
  all: unfold HandEvaluator.checkTwoPair;
    destruct (length _ =? 2)%nat;
    cbn [HandEvaluator.orElse HandRanking.rank]; try (split; discriminate).
  all: unfold HandEvaluator.checkPair;
    destruct (find _ (HandEvaluator.groupByRank s)) as [[r2 g2]|];
    cbn [HandEvaluator.orElse HandRanking.rank]; try (split; discriminate).
Qed.

(** C6.  The wheel A,5,4,3,2 of one suit, in whatever order the five cards
    are passed, evaluates as a StraightFlush with primaryValue 5 (the Ace
    plays low); five cards of ranks Q,K,A,2,3, in whatever order and of
    whatever suits, are evaluated and the category is neither Straight nor
    StraightFlush: straights do not wrap past the Ace. *)
Theorem C6_wheel_and_no_wraparound :
  (forall (s : Suit) (cards : list Card.t),
      Permutation cards
        [Card.mk Ace s; Card.mk Five s; Card.mk Four s; Card.mk Three s; Card.mk Two s] ->
      exists h,
        HandEvaluator.evaluateHand cards = Ok h
        /\ HandRanking.rank h = StraightFlush
        /\ HandRanking.primaryValue h = 5)
  /\
  (forall cards : list Card.t,
      Permutation (map Card.rank cards) [Queen; King; Ace; Two; Three] ->
      exists h,
        HandEvaluator.evaluateHand cards = Ok h
        /\ HandRanking.rank h <> Straight
        /\ HandRanking.rank h <> StraightFlush).
Proof.
  split.
  - intros s cards Hp.
    set (base := [Card.mk Ace s; Card.mk Five s; Card.mk Four s; Card.mk Three s;
                  Card.mk Two s]) in *.
    assert (Hlen : length cards = 5%nat) by exact (Permutation_length Hp).
    pose proof (Permutation_trans (sortCardsDesc_perm cards) Hp) as Hps.
    assert (Hflush : HandEvaluator.isFlush (HandEvaluator.sortCardsDesc cards) = true).
    { apply (isFlush_one_suit s). intros c Hc.
      pose proof (Permutation_in _ Hps Hc) as Hb.
      unfold base in Hb. simpl in Hb.
      destruct Hb as [<-|[<-|[<-|[<-|[<-|[]]]]]]; reflexivity. }
    assert (Hvals : HandEvaluator.sort_desc
                      (uniqZ (map Card.value (HandEvaluator.sortCardsDesc cards)))
                    = [14; 5; 4; 3; 2]).
    { apply sorted_distinct_values.
      - exact (Permutation_map Card.value Hps).
      - repeat (constructor; [|repeat constructor; lia]). constructor. }
    assert (Hhigh : HandEvaluator.getStraightHighCard (HandEvaluator.sortCardsDesc cards)
                    = Some 5).
    { unfold HandEvaluator.getStraightHighCard. rewrite Hvals. reflexivity. }
    eexists. split.
    + unfold HandEvaluator.evaluateHand. rewrite Hlen. cbn [Nat.eqb negb].
      unfold HandEvaluator.checkRoyalFlush, HandEvaluator.checkStraightFlush.
      rewrite Hhigh, Hflush. cbn [HandRanking.primaryValue Z.eqb HandEvaluator.orElse].
      reflexivity.
    + split; reflexivity.
  - intros cards Hp.
    assert (Hlen : length cards = 5%nat).
    { rewrite <- (length_map Card.rank). exact (Permutation_length Hp). }
    assert (Hvals : HandEvaluator.sort_desc
                      (uniqZ (map Card.value (HandEvaluator.sortCardsDesc cards)))
                    = [14; 13; 12; 3; 2]).
    { apply sorted_distinct_values.
      - apply (Permutation_trans
                 (Permutation_map Card.value (sortCardsDesc_perm cards))).
        unfold Card.value. rewrite <- (map_map Card.rank RANK_VALUES).
        apply (Permutation_trans (Permutation_map RANK_VALUES Hp)).
        simpl.
        apply (Permutation_trans (l' := [14; 12; 13; 2; 3])).
        + apply Permutation_sym, Permutation_cons_app with (l1 := [12; 13]) (l2 := [2; 3]).
          apply Permutation_refl.
        + apply perm_skip.
          apply (Permutation_trans (l' := [13; 12; 2; 3])); [apply perm_swap|].
          do 2 apply perm_skip. apply perm_swap.
      - repeat (constructor; [|repeat constructor; lia]). constructor. }
    assert (Hnone : HandEvaluator.getStraightHighCard (HandEvaluator.sortCardsDesc cards)
                    = None).
    { unfold HandEvaluator.getStraightHighCard. rewrite Hvals. reflexivity. }
    assert (Hok : exists h, HandEvaluator.evaluateHand cards = Ok h).
    { unfold HandEvaluator.evaluateHand. rewrite Hlen. cbn [Nat.eqb negb].
      eexists. reflexivity. }
    destruct Hok as [h Hh]. exists h. split; [exact Hh|].
    exact (no_straight_category cards h Hnone Hh).
Qed.

Lemma C6_witness :
  (exists h,
      HandEvaluator.evaluateHand
        [Card.mk Ace Hearts; Card.mk Five Hearts; Card.mk Four Hearts;
         Card.mk Three Hearts; Card.mk Two Hearts]
      = Ok h
      /\ HandRanking.rank h = StraightFlush
      /\ HandRanking.primaryValue h = 5)
  /\ (exists h,
         HandEvaluator.evaluateHand
           [Card.mk Queen Spades; Card.mk King Hearts; Card.mk Ace Diamonds;
            Card.mk Two Clubs; Card.mk Three Spades]
         = Ok h
         /\ HandRanking.rank h <> Straight
         /\ HandRanking.rank h <> StraightFlush).
Proof.
  split.
  - apply (proj1 C6_wheel_and_no_wraparound Hearts). apply Permutation_refl.
  - apply (proj2 C6_wheel_and_no_wraparound). simpl. apply Permutation_refl.
Defined.

(* ================================================================== *)
(** * The hand life cycle *)
(* ================================================================== *)

(** C3.  The transitions that [isValidTransition] accepts are exactly those of
    the specification's graph; nothing leaves GameOver; and [setState] moves
    to the new state on a transition of the graph, while for every other
    ordered pair of states it throws the invalid-state-transition error and
    leaves the hand manager, in particular [currentState], unchanged. *)
Theorem C3_state_machine_graph :
  (forall from to, isValidTransition from to = specGraph from to)
  /\ (forall to, isValidTransition GameOver to = false)
  /\ (forall hm newState,
         HandManager.setState newState hm
         = if specGraph (HandManager.currentState hm) newState
           then Returns tt
                  (HandManager.mk (HandManager.dealer hm) (HandManager.potManager hm)
                     newState (HandManager.handNumber hm) (HandManager.bettingTracker hm))
           else Throws (InvalidStateTransition (HandManager.currentState hm) newState) hm).
Proof.
  assert (G : forall from to, isValidTransition from to = specGraph from to)
    by (intros from to; destruct from, to; reflexivity).
  split; [exact G|]. split.
  - intro to. reflexivity.
  - intros hm newState. unfold HandManager.setState. rewrite G.
    destruct (specGraph (HandManager.currentState hm) newState); reflexivity.
Qed.

(** ** [startHand] *)

Lemma setNth_length {A : Type} (l : list A) (i : nat) (x : A) :
  length (Table.setNth l i x) = length l.
Proof.
  revert i. induction l as [|y l IH]; intros [|i]; simpl; try reflexivity.
  rewrite IH. reflexivity.
Qed.

Lemma swap_length (l : list Card.t) (i j : nat) : length (Deck.swap l i j) = length l.
Proof.
  unfold Deck.swap.
  destruct (nth_error l i), (nth_error l j); try reflexivity.
  rewrite !setNth_length. reflexivity.
Qed.

Lemma shuffleFrom_length (draw : nat -> nat) (i : nat) :
  forall l, length (Deck.shuffleFrom draw i l) = length l.
Proof.
  induction i as [|i IH]; intro l; simpl.
  - reflexivity.
  - rewrite IH, swap_length. reflexivity.
Qed.

Lemma occupiedFrom_reset (l : list (option Player.t)) :
  forall k,
    map snd (Table.occupiedFrom k (map (option_map Player.resetForNewHand) l))
    = map Player.resetForNewHand (map snd (Table.occupiedFrom k l)).
Proof.
  induction l as [|[p|] l IH]; intro k; simpl.
  - reflexivity.
  - rewrite IH. reflexivity.
  - apply IH.
Qed.

Lemma getPlayers_reset (tb : Table.t) :
  Table.getPlayers (Table.resetForNewHand tb)
  = map Player.resetForNewHand (Table.getPlayers tb).
Proof. apply occupiedFrom_reset. Qed.

Lemma resetForNewHand_fresh (p : Player.t) :
  let p' := Player.resetForNewHand p in
  Player.status p' <> Folded /\ Player.status p' <> AllIn
  /\ Player.currentBet p' = 0 /\ Player.holeCards p' = []
  /\ Player.lastAction p' = None /\ Player.chipCount p' = Player.chipCount p.
Proof.
  unfold Player.resetForNewHand. simpl.
  destruct (Player.status p); simpl;
    try destruct (0 <? Player.chips p);
    repeat split; try discriminate.
Qed.

(** C8.  [startHand] is not atomic on failure.  Called in state ReadyToStart
    with fewer than two active players left once the table has been reset, it
    throws; by then the hand number has been incremented, the deck has been
    rebuilt and shuffled (52 cards, none dealt) and every seated player has
    been reset for a new hand (no hole cards, no bet, status neither Folded
    nor AllIn).  Only [currentState] still reads ReadyToStart; the pots and
    the betting tracker are untouched. *)
Theorem C8_startHand_not_atomic (draw : nat -> nat) (hm : HandManager.t) :
  HandManager.currentState hm = ReadyToStart ->
  (length (Table.getActivePlayers (Table.resetForNewHand (HandManager.table hm))) < 2)%nat ->
  exists hm',
    HandManager.startHand draw hm = Throws NeedTwoPlayersToStartHand hm'
    /\ HandManager.handNumber hm' = S (HandManager.handNumber hm)
    /\ HandManager.currentState hm' = ReadyToStart
    /\ Dealer.deck (HandManager.dealer hm') = Deck.shuffle draw Deck.reset
    /\ length (Deck.cards (Dealer.deck (HandManager.dealer hm'))) = 52%nat
    /\ Deck.dealtCards (Dealer.deck (HandManager.dealer hm')) = []
    /\ HandManager.table hm' = Table.resetForNewHand (HandManager.table hm)
    /\ (forall p, In p (Table.getPlayers (HandManager.table hm')) ->
                  Player.status p <> Folded /\ Player.status p <> AllIn
                  /\ Player.currentBet p = 0 /\ Player.holeCards p = [])
    /\ HandManager.potManager hm' = HandManager.potManager hm
    /\ HandManager.bettingTracker hm' = HandManager.bettingTracker hm.
Proof.
  intros Hst Hcount.
  unfold HandManager.startHand. rewrite Hst. cbn [GameState_beq negb].
  cbn [HandManager.dealer HandManager.potManager HandManager.currentState
       HandManager.handNumber HandManager.bettingTracker].
  unfold HandManager.table at 1.
  cbn [HandManager.dealer Dealer.prepareNewHand Dealer.table].
  fold (HandManager.table hm).
  destruct (Nat.ltb_spec
              (length (Table.getActivePlayers (Table.resetForNewHand (HandManager.table hm))))
              2) as [_|Hge]; [|lia].
  eexists. split; [reflexivity|].
  cbn [HandManager.handNumber HandManager.currentState HandManager.dealer
       HandManager.potManager HandManager.bettingTracker Dealer.deck].
  unfold HandManager.table at 1 2. cbn [HandManager.dealer Dealer.table].
  repeat (split; [reflexivity|]).
  split.
  { unfold Dealer.prepareNewHand, Deck.shuffle. cbn [Dealer.deck Deck.cards].
    rewrite shuffleFrom_length. reflexivity. }
  repeat (split; [reflexivity|]).
  split; [|split; reflexivity].
  intros p Hp.
  change (In p (Table.getPlayers (Table.resetForNewHand (HandManager.table hm)))) in Hp.
  rewrite getPlayers_reset in Hp. apply in_map_iff in Hp.
  destruct Hp as [q [<- _]].
  pose proof (resetForNewHand_fresh q) as H. cbv zeta in H. tauto.
Qed.

Lemma C8_witness :
  let tb :=
    Table.mk [Some (Player.mk "p1" [] 900 0 Active None);
              Some (Player.mk "p2" [] 0 100 AllIn (Some ActAllIn));
              None]
      0 [] (Table.mkConfig 3 5 10) in
  let hm := HandManager.mk (Dealer.new tb) PotManager.new ReadyToStart 4 None in
  exists hm',
    HandManager.startHand (fun i => i) hm = Throws NeedTwoPlayersToStartHand hm'
    /\ HandManager.handNumber hm' = 5%nat
    /\ HandManager.currentState hm' = ReadyToStart.
Proof.
  intros tb hm.
  destruct (C8_startHand_not_atomic (fun i => i) hm) as [hm' [E [Hn [Hs _]]]].
  - reflexivity.
  - vm_compute. lia.
  - exists hm'. split; [exact E|]. split; [exact Hn|exact Hs].
Defined.

(* ================================================================== *)
(** * Blinds and the preflop starting bet *)
(* ================================================================== *)

Lemma bet_inv (p p' : Player.t) (amount actual : Z) :
  Player.bet p amount = Ok (actual, p') ->
  Player.status p = Active
  /\ Player.currentBet p <= 0
  /\ 0 < amount
  /\ Player.currentBet p' = Z.min amount (Player.chips p)
  /\ (Player.status p' = Active \/ Player.status p' = AllIn).
Proof.
  unfold Player.bet, Player.removeChips.
  destruct (Player.status p) eqn:Es; cbn [status_eqb negb]; try discriminate.
  destruct (Z.ltb_spec 0 (Player.currentBet p)) as [|Hcb]; [discriminate|].
  destruct (Z.leb_spec amount 0) as [|Ham]; [discriminate|].
  cbn [bind]. unfold Player.chips. cbn [Player.chipCount Player.status].
  destruct (_ =? 0); intro Hbet; inversion Hbet; subst;
    cbn [Player.currentBet Player.status];
    repeat split; try assumption; try reflexivity; auto.
Qed.

Lemma nth_error_setNth_same {A : Type} (l : list A) (i : nat) (x y : A) :
  nth_error l i = Some y -> nth_error (Table.setNth l i x) i = Some x.
Proof.
  revert i. induction l as [|z l IH]; intros [|i]; simpl; try discriminate.
  - reflexivity.
  - apply IH.
Qed.

Lemma nth_error_setNth_other {A : Type} (l : list A) (i j : nat) (x : A) :
  i <> j -> nth_error (Table.setNth l i x) j = nth_error l j.
Proof.
  revert i j. induction l as [|z l IH]; intros [|i] [|j] Hne; simpl; try reflexivity.
  - congruence.
  - apply IH. congruence.
Qed.

Lemma occupiedFrom_setNth_length (l : list (option Player.t)) :
  forall (k i : nat) (p p' : Player.t),
    nth_error l i = Some (Some p) ->
    length (Table.occupiedFrom k (Table.setNth l i (Some p')))
    = length (Table.occupiedFrom k l).
Proof.
  induction l as [|s l IH]; intros k [|i] p p' H; simpl in *; try discriminate.
  - inversion H; subst. reflexivity.
  - destruct s; simpl; rewrite (IH _ _ _ p' H); reflexivity.
Qed.

Lemma occupiedFrom_in (l : list (option Player.t)) :
  forall (k i : nat) (p : Player.t),
    nth_error l i = Some (Some p) -> In ((k + i)%nat, p) (Table.occupiedFrom k l).
Proof.
  induction l as [|s l IH]; intros k [|i] p H; simpl in *; try discriminate.
  - inversion H; subst. rewrite Nat.add_0_r. left. reflexivity.
  - specialize (IH (S k) i p H).
    replace (k + S i)%nat with (S k + i)%nat by lia.
    destruct s; [right|]; exact IH.
Qed.

Lemma getPlayerAtSeat_inv (tb : Table.t) (i : nat) (p : Player.t) :
  Table.getPlayerAtSeat tb i = Some p <-> nth_error (Table.seats tb) i = Some (Some p).
Proof.
  unfold Table.getPlayerAtSeat.
  destruct (nth_error (Table.seats tb) i) as [[q|]|]; split; intro H;
    try discriminate; inversion H; reflexivity.
Qed.

Lemma getPlayerAtSeat_in (tb : Table.t) (i : nat) (p : Player.t) :
  Table.getPlayerAtSeat tb i = Some p -> In p (Table.getPlayers tb).
Proof.
  intro H. apply getPlayerAtSeat_inv in H.
  unfold Table.getPlayers, Table.occupied.
  apply in_map_iff. exists (i, p). split; [reflexivity|].
  exact (occupiedFrom_in _ 0 i p H).
Qed.

(** Replacing the player of an occupied seat by one that is not sitting out
    either leaves the positions of the blinds where they were. *)
Section SameGeometry.
Variables (tb : Table.t) (i : nat) (p p' : Player.t).
Hypothesis Hseat : Table.getPlayerAtSeat tb i = Some p.
Hypothesis Hp : Player.status p <> SittingOut.
Hypothesis Hp' : Player.status p' <> SittingOut.

Let tb' := Table.setPlayerAtSeat tb i p'.

Lemma seatSkipped_setPlayer (pos : nat) :
  Table.seatSkipped tb' pos = Table.seatSkipped tb pos.
Proof.
  apply getPlayerAtSeat_inv in Hseat.
  unfold Table.seatSkipped, tb', Table.setPlayerAtSeat. cbn [Table.seats].
  destruct (Nat.eq_dec i pos) as [<-|Hne].
  - rewrite (nth_error_setNth_same _ _ _ _ Hseat), Hseat.
    unfold Player.playerStatus.
    destruct (Player.status p), (Player.status p'); simpl; congruence.
  - rewrite (nth_error_setNth_other _ _ _ _ Hne). reflexivity.
Qed.

Lemma playerCount_setPlayer : Table.playerCount tb' = Table.playerCount tb.
Proof.
  apply getPlayerAtSeat_inv in Hseat.
  unfold Table.playerCount, Table.occupied, tb', Table.setPlayerAtSeat.
  cbn [Table.seats]. exact (occupiedFrom_setNth_length _ 0 i p p' Hseat).
Qed.

Lemma skipSeats_setPlayer (n : nat) :
  forall position attempts,
    Table.skipSeats tb' n position attempts = Table.skipSeats tb n position attempts.
Proof.
  induction n as [|n IH]; intros position attempts; cbn [Table.skipSeats].
  - reflexivity.
  - rewrite seatSkipped_setPlayer.
    change (Table.config tb') with (Table.config tb).
    destruct (_ && _); [apply IH | reflexivity].
Qed.

Lemma nextPlayingSeatAfter_setPlayer (from : nat) :
  Table.nextPlayingSeatAfter tb' from = Table.nextPlayingSeatAfter tb from.
Proof.
  unfold Table.nextPlayingSeatAfter.
  change (Table.config tb') with (Table.config tb).
  rewrite skipSeats_setPlayer. reflexivity.
Qed.

Lemma getSmallBlindPosition_setPlayer :
  Table.getSmallBlindPosition tb' = Table.getSmallBlindPosition tb.
Proof.
  unfold Table.getSmallBlindPosition.
  rewrite playerCount_setPlayer, nextPlayingSeatAfter_setPlayer. reflexivity.
Qed.

Lemma getBigBlindPosition_setPlayer :
  Table.getBigBlindPosition tb' = Table.getBigBlindPosition tb.
Proof.
  unfold Table.getBigBlindPosition.
  rewrite playerCount_setPlayer, getSmallBlindPosition_setPlayer,
    nextPlayingSeatAfter_setPlayer.
  destruct (Table.getSmallBlindPosition tb) as [sb|]; [|reflexivity].
  rewrite nextPlayingSeatAfter_setPlayer. reflexivity.
Qed.

Lemma getPlayerAtSeat_setPlayer_same : Table.getPlayerAtSeat tb' i = Some p'.
Proof.
  apply getPlayerAtSeat_inv in Hseat. apply getPlayerAtSeat_inv.
  unfold tb', Table.setPlayerAtSeat. cbn [Table.seats].
  exact (nth_error_setNth_same _ _ _ _ Hseat).
Qed.

Lemma getPlayerAtSeat_setPlayer_other (j : nat) :
  i <> j -> Table.getPlayerAtSeat tb' j = Table.getPlayerAtSeat tb j.
Proof.
  intro Hne. unfold Table.getPlayerAtSeat, tb', Table.setPlayerAtSeat.
  cbn [Table.seats]. rewrite (nth_error_setNth_other _ _ _ _ Hne). reflexivity.
Qed.
End SameGeometry.

Lemma betAtSeat_inv (seat : nat) (amount : Z) (tb tb' : Table.t) (p : Player.t) :
  Table.getPlayerAtSeat tb seat = Some p ->
  HandManager.betAtSeat seat amount tb = Returns tt tb' ->
  exists actual p',
    Player.bet p amount = Ok (actual, p')
    /\ tb' = Table.setPlayerAtSeat tb seat p'.
Proof.
  intros Hp. unfold HandManager.betAtSeat. rewrite Hp.
  destruct (Player.bet p amount) as [[actual p']|e]; intro H; inversion H.
  exists actual, p'. split; reflexivity.
Qed.

Lemma postBlinds_inv (tb tb' : Table.t) :
  HandManager.postBlinds tb = Returns tt tb' ->
  exists sbPos bbPos sbPlayer sbPlayer' bbPlayer bbPlayer' a1 a2,
    Table.getSmallBlindPosition tb = Some sbPos
    /\ Table.getBigBlindPosition tb = Some bbPos
    /\ sbPos <> bbPos
    /\ Table.getPlayerAtSeat tb sbPos = Some sbPlayer
    /\ Table.getPlayerAtSeat tb bbPos = Some bbPlayer
    /\ Player.bet sbPlayer
         (Z.min (Player.chips sbPlayer) (Table.smallBlind (Table.config tb)))
       = Ok (a1, sbPlayer')
    /\ Player.bet bbPlayer
         (Z.min (Player.chips bbPlayer) (Table.bigBlind (Table.config tb)))
       = Ok (a2, bbPlayer')
    /\ tb' = Table.setPlayerAtSeat (Table.setPlayerAtSeat tb sbPos sbPlayer') bbPos bbPlayer'.
Proof.
  unfold HandManager.postBlinds.
  destruct (Table.getSmallBlindPosition tb) as [sbPos|] eqn:Esb; [|discriminate].
  destruct (Table.getBigBlindPosition tb) as [bbPos|] eqn:Ebb; [|discriminate].
  destruct (Table.getPlayerAtSeat tb sbPos) as [sbPlayer|] eqn:Ps; [|discriminate].
  destruct (Table.getPlayerAtSeat tb bbPos) as [bbPlayer|] eqn:Pb; [|discriminate].
  unfold andThen.
  destruct (HandManager.betAtSeat sbPos _ tb) as [[] tb1|e tb1] eqn:B1; [|discriminate].
  destruct (betAtSeat_inv _ _ _ _ _ Ps B1) as [a1 [sbPlayer' [Hbet1 ->]]].
  destruct (bet_inv _ _ _ _ Hbet1) as [Hs1 [_ [Hpos1 [Hcb1 Hst1]]]].
  assert (Hs1' : Player.status sbPlayer <> SittingOut) by (rewrite Hs1; discriminate).
  assert (Hst1' : Player.status sbPlayer' <> SittingOut)
    by (destruct Hst1 as [-> | ->]; discriminate).
  destruct (Nat.eq_dec sbPos bbPos) as [<-|Hne].
  - (* the same seat would have to bet twice *)
    rewrite (getPlayerAtSeat_setPlayer_same tb sbPos sbPlayer sbPlayer' Ps).
    intro B2.
    destruct (betAtSeat_inv _ _ _ _ sbPlayer'
                (getPlayerAtSeat_setPlayer_same tb sbPos sbPlayer sbPlayer' Ps) B2)
      as [a2 [q [Hbet2 _]]].
    destruct (bet_inv _ _ _ _ Hbet2) as [_ [Hcb2 _]].
    exfalso. lia.
  - rewrite (getPlayerAtSeat_setPlayer_other tb sbPos sbPlayer' bbPos Hne), Pb.
    intro B2.
    assert (Pb1 : Table.getPlayerAtSeat (Table.setPlayerAtSeat tb sbPos sbPlayer') bbPos
                  = Some bbPlayer)
      by (rewrite (getPlayerAtSeat_setPlayer_other tb sbPos sbPlayer' bbPos Hne); exact Pb).
    destruct (betAtSeat_inv _ _ _ _ _ Pb1 B2) as [a2 [bbPlayer' [Hbet2 ->]]].
    exists sbPos, bbPos, sbPlayer, sbPlayer', bbPlayer, bbPlayer', a1, a2.
    repeat (split; [assumption || reflexivity|]). reflexivity.
Qed.

(** C4.  The preflop starting bet is not the configured big blind: it is read
    off the big-blind player, [bbPlayer?.currentBetAmount ?? 0].  On every
    table on which [postBlinds] has just succeeded, heads-up and with three
    or more players alike, [getActionOrder] for the Preflop street returns
    as starting bet the smaller of the big-blind player's stack before
    posting and the configured big blind.  It is the configured big blind
    exactly when the big-blind player could cover it; a short big blind
    lowers the bet to match to their all-in amount, and when their stack is
    below what the small blind has posted, the bet to match is below a bet
    that is already on the table. *)
Theorem C4_short_big_blind_lowers_the_starting_bet (tb tb' : Table.t) :
  HandManager.postBlinds tb = Returns tt tb' ->
  exists bbPlayer sbPos sbPosted,
    Table.getBigBlindPlayer tb = Some bbPlayer
    /\ ActionOrderRules.startingBet (ActionOrderRules.getActionOrder tb' StreetPreflop)
       = Z.min (Player.chips bbPlayer) (Table.bigBlind (Table.config tb))
    /\ (ActionOrderRules.startingBet (ActionOrderRules.getActionOrder tb' StreetPreflop)
        = Table.bigBlind (Table.config tb)
        <-> Table.bigBlind (Table.config tb) <= Player.chips bbPlayer)
    /\ (Player.chips bbPlayer < Table.bigBlind (Table.config tb) ->
        ActionOrderRules.startingBet (ActionOrderRules.getActionOrder tb' StreetPreflop)
        < Table.bigBlind (Table.config tb))
    /\ Table.getSmallBlindPosition tb = Some sbPos
    /\ Table.getPlayerAtSeat tb' sbPos = Some sbPosted
    /\ (Player.chips bbPlayer < Player.currentBet sbPosted ->
        ActionOrderRules.startingBet (ActionOrderRules.getActionOrder tb' StreetPreflop)
        < Player.currentBet sbPosted).
Proof.
  intro H.
  destruct (postBlinds_inv tb tb' H)
    as (sbPos & bbPos & sb & sb' & bb & bb' & a1 & a2
        & Esb & Ebb & Hne & Ps & Pb & Hbet1 & Hbet2 & ->).
  destruct (bet_inv _ _ _ _ Hbet1) as [Hs1 [_ [_ [_ Hst1]]]].
  destruct (bet_inv _ _ _ _ Hbet2) as [Hs2 [_ [_ [Hcb2 Hst2]]]].
  assert (N1 : Player.status sb <> SittingOut) by (rewrite Hs1; discriminate).
  assert (N1' : Player.status sb' <> SittingOut)
    by (destruct Hst1 as [-> | ->]; discriminate).
  assert (N2 : Player.status bb <> SittingOut) by (rewrite Hs2; discriminate).
  assert (N2' : Player.status bb' <> SittingOut)
    by (destruct Hst2 as [-> | ->]; discriminate).
  set (tb1 := Table.setPlayerAtSeat tb sbPos sb').
  assert (Pb1 : Table.getPlayerAtSeat tb1 bbPos = Some bb).
  { unfold tb1. rewrite (getPlayerAtSeat_setPlayer_other tb sbPos sb' bbPos Hne).
    exact Pb. }
  set (tb2 := Table.setPlayerAtSeat tb1 bbPos bb').
  assert (Ebb2 : Table.getBigBlindPosition tb2 = Some bbPos).
  { unfold tb2. rewrite (getBigBlindPosition_setPlayer tb1 bbPos bb bb' Pb1 N2 N2').
    unfold tb1. rewrite (getBigBlindPosition_setPlayer tb sbPos sb sb' Ps N1 N1').
    exact Ebb. }
  assert (Pb2 : Table.getPlayerAtSeat tb2 bbPos = Some bb')
    by exact (getPlayerAtSeat_setPlayer_same tb1 bbPos bb bb' Pb1).
  assert (Hstart :
            ActionOrderRules.startingBet (ActionOrderRules.getActionOrder tb2 StreetPreflop)
            = Z.min (Player.chips bb) (Table.bigBlind (Table.config tb))).
  { unfold ActionOrderRules.getActionOrder.
    destruct (Table.getActivePlayers tb2) as [|ap aps] eqn:Eact.
    - exfalso.
      assert (Hin : In bb' (Table.getActivePlayers tb2)).
      { unfold Table.getActivePlayers. apply filter_In.
        split; [exact (getPlayerAtSeat_in _ _ _ Pb2)|].
        unfold Table.activeStatus, Player.playerStatus.
        destruct Hst2 as [-> | ->]; reflexivity. }
      rewrite Eact in Hin. exact Hin.
    - unfold ActionOrderRules.getPreflopOrder. cbn [ActionOrderRules.startingBet].
      unfold Table.getBigBlindPlayer. rewrite Ebb2, Pb2.
      unfold Player.currentBetAmount. rewrite Hcb2. lia. }
  exists bb, sbPos, sb'. split.
  - unfold Table.getBigBlindPlayer. rewrite Ebb. exact Pb.
  - split; [exact Hstart|]. rewrite Hstart.
    split; [lia|]. split; [lia|]. split; [exact Esb|]. split; [|lia].
    unfold tb2. rewrite (getPlayerAtSeat_setPlayer_other tb1 bbPos bb' sbPos)
      by (intro E; apply Hne; symmetry; exact E).
    exact (getPlayerAtSeat_setPlayer_same tb sbPos sb sb' Ps).
Qed.

(** The theorem at the failing input: three-handed, blinds 5/10, button on
    seat 0, the big blind on seat 2 holding 7 chips.  Posting the blinds
    succeeds with an all-in partial blind of 7, and the preflop starting bet
    is 7, not the configured 10. *)
Lemma C4_witness :
  let tb :=
    Table.mk [Some (Player.new "p1" 1000); Some (Player.new "p2" 1000);
              Some (Player.new "p3" 7)]
      0 [] (Table.mkConfig 3 5 10) in
  exists tb',
    HandManager.postBlinds tb = Returns tt tb'
    /\ Table.getBigBlindPlayer tb = Some (Player.new "p3" 7)
    /\ Table.getBigBlindPlayer tb' = Some (Player.mk "p3" [] 0 7 AllIn (Some ActAllIn))
    /\ Table.bigBlind (Table.config tb') = 10
    /\ ActionOrderRules.startingBet (ActionOrderRules.getActionOrder tb' StreetPreflop) = 7.
Proof.
  intro tb.
  assert (E : HandManager.postBlinds tb
              = Returns tt (finalState (HandManager.postBlinds tb)))
    by (vm_compute; reflexivity).
  destruct (C4_short_big_blind_lowers_the_starting_bet tb _ E)
    as (bb & sbPos & sbPosted & Hbb & Hs & _).
  exists (finalState (HandManager.postBlinds tb)).
  split; [exact E|].
  assert (Hbb' : Table.getBigBlindPlayer tb = Some (Player.new "p3" 7))
    by (vm_compute; reflexivity).
  split; [exact Hbb'|].
  split; [vm_compute; reflexivity|].
  split; [vm_compute; reflexivity|].
  rewrite Hs. rewrite Hbb' in Hbb. injection Hbb as <-. reflexivity.
Defined.

(** Further inputs.  Heads-up, button on seat 0, blinds 5/10, the big-blind
    player holding 6 chips: the preflop starting bet is 6.  Three-handed with
    the big blind holding 3 chips: the starting bet is 3 while the small
    blind has 5 in front of them. *)
Lemma short_big_blind_examples :
  let headsUp :=
    Table.mk [Some (Player.new "p1" 1000); Some (Player.new "p2" 6)]
      0 [] (Table.mkConfig 2 5 10) in
  let threeHanded :=
    Table.mk [Some (Player.new "p1" 1000); Some (Player.new "p2" 1000);
              Some (Player.new "p3" 3)]
      0 [] (Table.mkConfig 3 5 10) in
  (exists tb',
      HandManager.postBlinds headsUp = Returns tt tb'
      /\ Table.getBigBlindPlayer tb' = Some (Player.mk "p2" [] 0 6 AllIn (Some ActAllIn))
      /\ length (Table.getActivePlayers tb') = 2%nat
      /\ ActionOrderRules.startingBet (ActionOrderRules.getActionOrder tb' StreetPreflop) = 6
      /\ ActionOrderRules.startingBet (ActionOrderRules.getActionOrder tb' StreetPreflop)
         <> Table.bigBlind (Table.config tb'))
  /\ (exists tb',
         HandManager.postBlinds threeHanded = Returns tt tb'
         /\ Table.getBigBlindPlayer tb' = Some (Player.mk "p3" [] 0 3 AllIn (Some ActAllIn))
         /\ Table.getSmallBlindPlayer tb' = Some (Player.mk "p2" [] 995 5 Active (Some ActBet))
         /\ length (Table.getActivePlayers tb') = 3%nat
         /\ ActionOrderRules.startingBet (ActionOrderRules.getActionOrder tb' StreetPreflop) = 3).
Proof.
  intros headsUp threeHanded. split.
  - eexists. split; [vm_compute; reflexivity|].
    split; [vm_compute; reflexivity|].
    split; [vm_compute; reflexivity|].
    split; [vm_compute; reflexivity|].
    vm_compute. discriminate.
  - eexists. split; [vm_compute; reflexivity|].
    split; [vm_compute; reflexivity|].
    split; [vm_compute; reflexivity|].
    split; [vm_compute; reflexivity|].
    vm_compute. reflexivity.
Qed.

(* ================================================================== *)
(** * Showdown with a side pot *)
(* ================================================================== *)

Lemma compareTo_refl (h : HandRanking.t) : HandRanking.compareTo h h = 0.
Proof. pose proof (compareTo_opp h h). lia. Qed.

(** With three hands of which the first is strictly the best, the showdown
    names the first player as the only winner. *)
Lemma strict_best_only_winner (x1 x2 x3 : nat * Player.t * HandRanking.t) :
  0 < HandRanking.compareTo (snd x1) (snd x2) ->
  0 < HandRanking.compareTo (snd x1) (snd x3) ->
  exists rest,
    Dealer.sortByHand [x1; x2; x3] = x1 :: rest
    /\ filter (fun ph => HandRanking.compareTo (snd ph) (snd x1) =? 0) (x1 :: rest) = [x1].
Proof.
  intros H12 H13.
  pose proof (compareTo_opp (snd x1) (snd x2)) as O12.
  pose proof (compareTo_opp (snd x1) (snd x3)) as O13.
  unfold Dealer.sortByHand. cbn [fold_right Dealer.insertByHand].
  destruct (HandRanking.compareTo (snd x3) (snd x2) <=? 0);
    cbn [Dealer.insertByHand].
  - destruct (Z.leb_spec (HandRanking.compareTo (snd x2) (snd x1)) 0); [|lia].
    eexists. split; [reflexivity|]. cbn [filter].
    rewrite compareTo_refl. cbn [Z.eqb].
    destruct (Z.eqb_spec (HandRanking.compareTo (snd x2) (snd x1)) 0); [lia|].
    destruct (Z.eqb_spec (HandRanking.compareTo (snd x3) (snd x1)) 0); [lia|].
    reflexivity.
  - destruct (Z.leb_spec (HandRanking.compareTo (snd x3) (snd x1)) 0); [|lia].
    eexists. split; [reflexivity|]. cbn [filter].
    rewrite compareTo_refl. cbn [Z.eqb].
    destruct (Z.eqb_spec (HandRanking.compareTo (snd x2) (snd x1)) 0); [lia|].
    destruct (Z.eqb_spec (HandRanking.compareTo (snd x3) (snd x1)) 0); [lia|].
    reflexivity.
Qed.

(** C1 (evaluated on the code).  Contributions {p1: 50 (all-in), p2: 200,
    p3: 200}, nobody folded: [collectBets] builds a main pot of 150 for which
    p1, p2 and p3 are eligible and one side pot of 300 for which only p2 and
    p3 are eligible.  When p1's hand is strictly the best at showdown, the
    dealer names p1 as the only winner; p1 is paid exactly the 150 of the main
    pot, and the 300 side pot is not paid to anybody: p2 and p3 keep the chips
    they had. *)
Theorem C1_side_pot_unpaid_when_short_stack_wins
    (a1 b1 a2 b2 a3 b3 k1 k2 k3 k4 k5 : Card.t) (h1 h2 h3 : HandRanking.t)
    (chips2 chips3 : Z) (deck : Deck.t) :
  let community := [k1; k2; k3; k4; k5] in
  let tb :=
    Table.mk [Some (Player.mk "p1" [a1; b1] 0 0 AllIn (Some ActAllIn));
              Some (Player.mk "p2" [a2; b2] chips2 0 Active None);
              Some (Player.mk "p3" [a3; b3] chips3 0 Active None)]
      0 community (Table.mkConfig 3 5 10) in
  HandEvaluator.evaluateBest7CardHand ([a1; b1] ++ community) = Ok h1 ->
  HandEvaluator.evaluateBest7CardHand ([a2; b2] ++ community) = Ok h2 ->
  HandEvaluator.evaluateBest7CardHand ([a3; b3] ++ community) = Ok h3 ->
  0 < HandRanking.compareTo h1 h2 ->
  0 < HandRanking.compareTo h1 h3 ->
  exists pm side,
    PotManager.collectBets PotManager.new
      [("p1"%string, 50); ("p2"%string, 200); ("p3"%string, 200)] ["p1"%string] []
    = Ok pm
    /\ Pot.total (PotManager.mainPot pm) = 150
    /\ Pot.getEligiblePlayers (PotManager.mainPot pm)
       = ["p1"%string; "p2"%string; "p3"%string]
    /\ PotManager.sidePots pm = [side]
    /\ Pot.total side = 300
    /\ Pot.getEligiblePlayers side = ["p2"%string; "p3"%string]
    /\ Dealer.determineWinners tb
       = Ok [(0%nat, Player.mk "p1" [a1; b1] 0 0 AllIn (Some ActAllIn), h1)]
    /\ PotManager.distributePots pm ["p1"%string] = [("p1"%string, 150)]
    /\ Dealer.distributePots pm (Dealer.mk deck tb)
       = Returns [Dealer.mkWinner 0 "p1" h1 150]
           (Dealer.mk deck
              (Table.mk [Some (Player.mk "p1" [a1; b1] 150 0 AllIn (Some ActAllIn));
                         Some (Player.mk "p2" [a2; b2] chips2 0 Active None);
                         Some (Player.mk "p3" [a3; b3] chips3 0 Active None)]
                 0 community (Table.mkConfig 3 5 10))).
Proof.
  intros community tb E1 E2 E3 H12 H13.
  eexists. eexists.
  split; [reflexivity|].
  split; [reflexivity|].
  split; [reflexivity|].
  split; [reflexivity|].
  split; [reflexivity|].
  split; [reflexivity|].
  assert (W : Dealer.determineWinners tb
              = Ok [(0%nat, Player.mk "p1" [a1; b1] 0 0 AllIn (Some ActAllIn), h1)]).
  { unfold Dealer.determineWinners, tb.
    cbn [Table.occupied Table.occupiedFrom Table.seats filter snd Player.hasFolded
         Player.status status_eqb negb Table.getCommunityCards Table.communityCards
         Dealer.evaluateAll Player.getHoleCards Player.holeCards orb].
    change (length ([a1; b1] ++ community) <? 5)%nat with false.
    change (length ([a2; b2] ++ community) <? 5)%nat with false.
    change (length ([a3; b3] ++ community) <? 5)%nat with false.
    change (length ([a1; b1] ++ community) =? 7)%nat with true.
    change (length ([a2; b2] ++ community) =? 7)%nat with true.
    change (length ([a3; b3] ++ community) =? 7)%nat with true.
    cbv iota. rewrite E1, E2, E3. cbn [bind].
    destruct (strict_best_only_winner
                (0%nat, Player.mk "p1" [a1; b1] 0 0 AllIn (Some ActAllIn), h1)
                (1%nat, Player.mk "p2" [a2; b2] chips2 0 Active None, h2)
                (2%nat, Player.mk "p3" [a3; b3] chips3 0 Active None, h3)
                H12 H13) as [rest [S F]].
    rewrite S. exact (f_equal Ok F). }
  split; [exact W|].
  split; [reflexivity|].
  unfold Dealer.distributePots. cbn [Dealer.table]. rewrite W.
  reflexivity.
Qed.

Lemma C1_witness :
  let community :=
    [Card.mk Two Diamonds; Card.mk Seven Clubs; Card.mk Nine Spades;
     Card.mk Jack Hearts; Card.mk Three Diamonds] in
  let tb :=
    Table.mk [Some (Player.mk "p1" [Card.mk Ace Spades; Card.mk Ace Hearts]
                      0 0 AllIn (Some ActAllIn));
              Some (Player.mk "p2" [Card.mk King Spades; Card.mk King Hearts]
                      800 0 Active None);
              Some (Player.mk "p3" [Card.mk Queen Spades; Card.mk Queen Hearts]
                      800 0 Active None)]
      0 community (Table.mkConfig 3 5 10) in
  exists pm h1 d',
    PotManager.collectBets PotManager.new
      [("p1"%string, 50); ("p2"%string, 200); ("p3"%string, 200)] ["p1"%string] []
    = Ok pm
    /\ PotManager.getTotalPotAmount pm = 450
    /\ Dealer.distributePots pm (Dealer.mk Deck.reset tb)
       = Returns [Dealer.mkWinner 0 "p1" h1 150] d'
    /\ map Player.chips (Table.getPlayers (Dealer.table d')) = [150; 800; 800].
Proof.
  intros community tb.
  destruct (C1_side_pot_unpaid_when_short_stack_wins
              (Card.mk Ace Spades) (Card.mk Ace Hearts)
              (Card.mk King Spades) (Card.mk King Hearts)
              (Card.mk Queen Spades) (Card.mk Queen Hearts)
              (Card.mk Two Diamonds) (Card.mk Seven Clubs) (Card.mk Nine Spades)
              (Card.mk Jack Hearts) (Card.mk Three Diamonds)
              (HandRanking.mk Pair
                 [Card.mk Ace Spades; Card.mk Ace Hearts; Card.mk Jack Hearts;
                  Card.mk Nine Spades; Card.mk Seven Clubs] 14 0 [11; 9; 7])
              (HandRanking.mk Pair
                 [Card.mk King Spades; Card.mk King Hearts; Card.mk Jack Hearts;
                  Card.mk Nine Spades; Card.mk Seven Clubs] 13 0 [11; 9; 7])
              (HandRanking.mk Pair
                 [Card.mk Queen Spades; Card.mk Queen Hearts; Card.mk Jack Hearts;
                  Card.mk Nine Spades; Card.mk Seven Clubs] 12 0 [11; 9; 7])
              800 800 Deck.reset)
    as (pm & side & Hc & Hm & _ & Hs & Ht & _ & _ & _ & Hd).
  - vm_compute. reflexivity.
  - vm_compute. reflexivity.
  - vm_compute. reflexivity.
  - vm_compute. reflexivity.
  - vm_compute. reflexivity.
  - exists pm. eexists. eexists.
    split; [exact Hc|]. split.
    + rewrite getTotalPotAmount_sum, Hs, Hm. cbn [map]. rewrite sumZ_cons, Ht.
      reflexivity.
    + split; [exact Hd|]. reflexivity.
Defined.

(* ================================================================== *)
(** * Further properties of the engine *)
(* ================================================================== *)

(** ** The normal flow through the state graph *)

(** X1.  The state that [getNextState] proposes is always a transition that
    [isValidTransition] accepts (also on the all-but-one-folded short cut),
    except out of GameOver, where it proposes GameOver itself, which is not a
    valid transition. *)
Theorem X1_getNextState_proposes_valid_transitions (s : GameState) (allButOneFolded : bool) :
  isValidTransition s (getNextState s allButOneFolded) = negb (GameState_beq s GameOver).
Proof. destruct s, allButOneFolded; reflexivity. Qed.

(** ** Betting actions of a player *)

Lemma removeChips_inv (p p1 : Player.t) (amount actual : Z) :
  Player.removeChips p amount = Ok (actual, p1) ->
  0 < amount
  /\ actual = Z.min amount (Player.chips p)
  /\ p1 = Player.mk (Player.id p) (Player.holeCards p) (Player.chipCount p - actual)
            (Player.currentBet p) (Player.status p) (Player.lastAction p).
Proof.
  unfold Player.removeChips.
  destruct (Z.leb_spec amount 0) as [|Hpos]; [discriminate|].
  intro Hr. inversion Hr; subst. repeat split. assumption.
Qed.

Lemma putIn_inv (p p' : Player.t) (target actual : Z) (action : PlayerAction) :
  Player.putIn p target action = Ok (actual, p') ->
  Player.currentBet p < target
  /\ actual = Z.min (target - Player.currentBet p) (Player.chips p)
  /\ Player.chips p' = Player.chips p - actual
  /\ Player.currentBet p' = Player.currentBet p + actual
  /\ Player.id p' = Player.id p
  /\ Player.holeCards p' = Player.holeCards p
  /\ (Player.status p' = AllIn /\ Player.chips p' = 0
      \/ Player.status p' = Player.status p /\ Player.chips p' <> 0).
Proof.
  unfold Player.putIn.
  destruct (Player.removeChips p (target - Player.currentBet p)) as [[a p1]|e] eqn:R;
    [|discriminate].
  destruct (removeChips_inv _ _ _ _ R) as [Hpos [Ha ->]].
  cbn [bind]. unfold Player.chips in *.
  cbn [Player.chipCount Player.currentBet Player.id Player.holeCards Player.status].
  destruct (Z.eqb_spec (Player.chipCount p - a) 0) as [E|N];
    intro H; inversion H; subst actual p';
    cbn [Player.chipCount Player.currentBet Player.id Player.holeCards Player.status];
    repeat split; try lia; try reflexivity; try assumption; auto.
Qed.

(** X2.  A betting action that succeeds ([bet], [call], [raise] or [allIn])
    was made by an Active player and only moves chips from the stack to the
    player's bet: the amount returned is between 0 and the stack, the stack
    shrinks and the bet grows by exactly that amount, the stack never goes
    negative, and the player ends up AllIn exactly when the stack is empty. *)
Theorem X2_betting_actions_move_chips_from_stack_to_bet
    (p p' : Player.t) (x actual : Z) :
  0 <= Player.chips p ->
  0 <= Player.currentBet p ->
  Player.bet p x = Ok (actual, p') \/ Player.call p x = Ok (actual, p')
  \/ Player.raise p x = Ok (actual, p') \/ Player.allIn p = Ok (actual, p') ->
  Player.status p = Active
  /\ 0 <= actual <= Player.chips p
  /\ Player.chips p' = Player.chips p - actual
  /\ Player.currentBet p' = Player.currentBet p + actual
  /\ 0 <= Player.chips p'
  /\ (Player.status p' = AllIn <-> Player.chips p' = 0)
  /\ (Player.status p' = AllIn \/ Player.status p' = Active)
  /\ Player.id p' = Player.id p.
Proof.
  intros Hc Hb [H|[H|[H|H]]].
  - (* bet *)
    unfold Player.bet in H.
    destruct (Player.status p) eqn:Es; cbn [status_eqb negb] in H; try discriminate.
    destruct (Z.ltb_spec 0 (Player.currentBet p)) as [|Hcb]; [discriminate|].
    destruct (Player.removeChips p x) as [[a p1]|e] eqn:R; [|discriminate].
    destruct (removeChips_inv _ _ _ _ R) as [Hpos [Ha ->]].
    cbn [bind] in H. unfold Player.chips in *.
    cbn [Player.chipCount Player.currentBet Player.id Player.holeCards Player.status] in H.
    destruct (Z.eqb_spec (Player.chipCount p - a) 0) as [E|N];
      inversion H; subst actual p';
      cbn [Player.chipCount Player.currentBet Player.id Player.status];
      rewrite ?Es; repeat split; try lia; try reflexivity; auto;
      try (intro; lia); try discriminate.
  - (* call *)
    unfold Player.call in H.
    destruct (Player.status p) eqn:Es; cbn [status_eqb negb] in H; try discriminate.
    destruct (putIn_inv _ _ _ _ _ H) as (Ht & Ha & C1 & C2 & Hid & _ & Hs).
    rewrite Es in Hs.
    repeat split; try lia; try assumption;
      destruct Hs as [[S1 S2]|[S1 S2]]; rewrite ?S1; try lia; try tauto;
      try discriminate; auto.
  - (* raise *)
    unfold Player.raise in H.
    destruct (Player.status p) eqn:Es; cbn [status_eqb negb] in H; try discriminate.
    destruct (putIn_inv _ _ _ _ _ H) as (Ht & Ha & C1 & C2 & Hid & _ & Hs).
    rewrite Es in Hs.
    repeat split; try lia; try assumption;
      destruct Hs as [[S1 S2]|[S1 S2]]; rewrite ?S1; try lia; try tauto;
      try discriminate; auto.
  - (* allIn *)
    unfold Player.allIn in H.
    destruct (Player.status p) eqn:Es; cbn [status_eqb negb] in H; try discriminate.
    destruct (Player.removeChips p (Player.chips p)) as [[a p1]|e] eqn:R; [|discriminate].
    destruct (removeChips_inv _ _ _ _ R) as [Hpos [Ha ->]].
    cbn [bind] in H. inversion H; subst actual p'.
    unfold Player.chips in *.
    cbn [Player.chipCount Player.currentBet Player.id Player.status].
    repeat split; try lia; try reflexivity; auto.
Qed.

Lemma X2_witness :
  let p := Player.mk "p1" [] 30 10 Active None in
  exists p',
    Player.call p 100 = Ok (30, p')
    /\ Player.chips p' = 0 /\ Player.currentBet p' = 40 /\ Player.status p' = AllIn.
Proof.
  intro p.
  exists (Player.mk "p1" [] 0 40 AllIn (Some ActAllIn)).
  assert (E : Player.call p 100 = Ok (30, Player.mk "p1" [] 0 40 AllIn (Some ActAllIn)))
    by reflexivity.
  destruct (X2_betting_actions_move_chips_from_stack_to_bet p _ 100 30
              ltac:(simpl; lia) ltac:(simpl; lia) (or_intror (or_introl E)))
    as (_ & _ & C1 & C2 & _ & S & _ & _).
  split; [exact E|]. split; [exact C1|]. split; [exact C2|].
  apply S. exact C1.
Defined.

(** X3.  Betting with nothing to put in, on an Active player.  [call] and
    [raise] with a target that does not exceed the player's current bet throw
    'Cannot remove zero or negative chips'; so does [allIn] with an empty
    stack, and so does [bet] with a non-positive amount when the player has
    no bet yet (with a bet in front of them [bet] throws 'Cannot bet after
    already betting' whatever the amount).  An empty stack alone stops none
    of [call], [raise] and [bet]: with 0 chips, a [call] or [raise] to a
    target above the current bet and a [bet] of a positive amount by a player
    without a bet succeed, return 0, move no chips and leave the player
    AllIn. *)
Theorem X3_betting_with_nothing_to_put_in (p : Player.t) (target : Z) :
  Player.status p = Active ->
  (target <= Player.currentBet p ->
   Player.call p target = Throw CannotRemoveNonPositiveChips
   /\ Player.raise p target = Throw CannotRemoveNonPositiveChips)
  /\ (Player.chips p <= 0 -> Player.allIn p = Throw CannotRemoveNonPositiveChips)
  /\ (target <= 0 -> Player.currentBet p <= 0 ->
      Player.bet p target = Throw CannotRemoveNonPositiveChips)
  /\ (0 < Player.currentBet p -> Player.bet p target = Throw CannotBetAfterBetting)
  /\ (Player.chips p = 0 -> Player.currentBet p < target ->
      let allIn :=
        Player.mk (Player.id p) (Player.holeCards p) 0 (Player.currentBet p) AllIn
          (Some ActAllIn) in
      Player.call p target = Ok (0, allIn) /\ Player.raise p target = Ok (0, allIn))
  /\ (Player.chips p = 0 -> 0 < target -> Player.currentBet p <= 0 ->
      Player.bet p target
      = Ok (0, Player.mk (Player.id p) (Player.holeCards p) 0 0 AllIn (Some ActAllIn))).
Proof.
  intro Hs.
  unfold Player.call, Player.raise, Player.allIn, Player.bet, Player.putIn,
    Player.removeChips.
  rewrite Hs. cbn [status_eqb negb].
  split; [|split; [|split; [|split; [|split]]]].
  - intro Ht. destruct (Z.leb_spec (target - Player.currentBet p) 0); [|lia].
    split; reflexivity.
  - intro Hc. destruct (Z.leb_spec (Player.chips p) 0); [|lia]. reflexivity.
  - intros Ht Hb. destruct (Z.ltb_spec 0 (Player.currentBet p)); [lia|].
    destruct (Z.leb_spec target 0); [|lia]. reflexivity.
  - intro Hb. destruct (Z.ltb_spec 0 (Player.currentBet p)); [|lia]. reflexivity.
  - intros Hc Ht. cbv zeta.
    destruct (Z.leb_spec (target - Player.currentBet p) 0); [lia|].
    unfold Player.chips in *. cbn [bind Player.chipCount Player.id Player.holeCards
                                   Player.currentBet Player.status].
    rewrite Hc. replace (Z.min (target - Player.currentBet p) 0) with 0 by lia.
    cbn [Z.sub Z.opp Z.add Z.eqb]. rewrite Z.add_0_r. split; reflexivity.
  - intros Hc Ht Hb.
    destruct (Z.ltb_spec 0 (Player.currentBet p)); [lia|].
    destruct (Z.leb_spec target 0); [lia|].
    unfold Player.chips in *. cbn [bind Player.chipCount Player.id Player.holeCards
                                   Player.currentBet Player.status].
    rewrite Hc. replace (Z.min target 0) with 0 by lia.
    cbn [Z.sub Z.opp Z.add Z.eqb]. reflexivity.
Qed.

Lemma X3_witness :
  Player.call (Player.mk "p1" [] 0 20 Active None) 50
  = Ok (0, Player.mk "p1" [] 0 20 AllIn (Some ActAllIn))
  /\ Player.call (Player.mk "p1" [] 0 20 Active None) 20
     = Throw CannotRemoveNonPositiveChips.
Proof.
  pose proof (X3_betting_with_nothing_to_put_in (Player.mk "p1" [] 0 20 Active None) 50
                eq_refl) as (_ & _ & _ & _ & Hcall & _).
  pose proof (X3_betting_with_nothing_to_put_in (Player.mk "p1" [] 0 20 Active None) 20
                eq_refl) as (Hthrow & _).
  split.
  - apply Hcall; [reflexivity|simpl; lia].
  - apply Hthrow. simpl. lia.
Defined.

(** ** Seating *)

Lemma occupiedFrom_fill_length (l : list (option Player.t)) :
  forall (k i : nat) (p : Player.t),
    nth_error l i = Some None ->
    length (Table.occupiedFrom k (Table.setNth l i (Some p)))
    = S (length (Table.occupiedFrom k l)).
Proof.
  induction l as [|s l IH]; intros k [|i] p H; simpl in *; try discriminate.
  - inversion H; subst. reflexivity.
  - destruct s; simpl; rewrite (IH _ _ p H); reflexivity.
Qed.

(** X4.  [seatPlayer] on a table with one seat per configured position:
    it succeeds exactly for a position inside 0..maxSeats-1 whose seat is
    empty, and then that seat holds the player, every other seat is as before
    and the player count is one higher; for a position out of range it throws
    the invalid-seat error and for an occupied seat the seat-occupied error,
    so a seated player is never overwritten. *)
Theorem X4_seatPlayer_fills_only_empty_seats
    (tb : Table.t) (player : Player.t) (seatPosition : Z) :
  length (Table.seats tb) = Table.maxSeats (Table.config tb) ->
  match Table.seatPlayer tb player seatPosition with
  | Ok tb' =>
      0 <= seatPosition < Z.of_nat (Table.maxSeats (Table.config tb))
      /\ Table.getPlayerAtSeat tb (Z.to_nat seatPosition) = None
      /\ Table.getPlayerAtSeat tb' (Z.to_nat seatPosition) = Some player
      /\ (forall j, j <> Z.to_nat seatPosition ->
                    nth_error (Table.seats tb') j = nth_error (Table.seats tb) j)
      /\ Table.playerCount tb' = S (Table.playerCount tb)
      /\ length (Table.seats tb') = Table.maxSeats (Table.config tb')
      /\ Table.buttonPosition tb' = Table.buttonPosition tb
      /\ Table.config tb' = Table.config tb
  | Throw e =>
      (e = InvalidSeatPosition seatPosition
       /\ (seatPosition < 0 \/ Z.of_nat (Table.maxSeats (Table.config tb)) <= seatPosition))
      \/ (e = SeatOccupied seatPosition
          /\ 0 <= seatPosition < Z.of_nat (Table.maxSeats (Table.config tb))
          /\ Table.getPlayerAtSeat tb (Z.to_nat seatPosition) <> None)
  end.
Proof.
  intro Hwf. unfold Table.seatPlayer.
  destruct (Z.ltb_spec seatPosition 0) as [Hneg|Hnn]; cbn [orb].
  { left. split; [reflexivity|lia]. }
  destruct (Z.leb_spec (Z.of_nat (Table.maxSeats (Table.config tb))) seatPosition)
    as [Hbig|Hlt].
  { left. split; [reflexivity|lia]. }
  destruct (nth_error (Table.seats tb) (Z.to_nat seatPosition)) as [[q|]|] eqn:En.
  - right. split; [reflexivity|]. split; [lia|].
    unfold Table.getPlayerAtSeat. rewrite En. discriminate.
  - split; [lia|]. split.
    { unfold Table.getPlayerAtSeat. rewrite En. reflexivity. }
    split.
    { apply getPlayerAtSeat_inv. unfold Table.setPlayerAtSeat. cbn [Table.seats].
      exact (nth_error_setNth_same _ _ _ _ En). }
    split.
    { intros j Hj. unfold Table.setPlayerAtSeat. cbn [Table.seats].
      apply nth_error_setNth_other. congruence. }
    split.
    { unfold Table.playerCount, Table.occupied, Table.setPlayerAtSeat.
      cbn [Table.seats]. exact (occupiedFrom_fill_length _ 0 _ player En). }
    split.
    { unfold Table.setPlayerAtSeat. cbn [Table.seats Table.config].
      rewrite setNth_length. exact Hwf. }
    split; reflexivity.
  - exfalso. apply nth_error_None in En. lia.
Qed.

Lemma X4_witness :
  let tb := Table.new (Table.mkConfig 3 5 10) in
  exists tb',
    Table.seatPlayer tb (Player.new "p1" 1000) 2 = Ok tb'
    /\ Table.getPlayerAtSeat tb' 2 = Some (Player.new "p1" 1000)
    /\ Table.playerCount tb' = 1%nat.
Proof.
  intro tb.
  pose proof (X4_seatPlayer_fills_only_empty_seats tb (Player.new "p1" 1000) 2 eq_refl)
    as H.
  destruct (Table.seatPlayer tb (Player.new "p1" 1000) 2) as [tb'|e] eqn:E.
  - destruct H as (_ & _ & Hp & _ & Hc & _). exists tb'.
    split; [reflexivity|]. split; [exact Hp|exact Hc].
  - vm_compute in E. discriminate E.
Defined.

Lemma getPlayer_None_find (tb : Table.t) (playerId : string) :
  Table.getPlayer tb playerId = None
  <-> find (Table.seatHolds playerId) (Table.seats tb) = None.
Proof.
  unfold Table.getPlayer.
  destruct (find (Table.seatHolds playerId) (Table.seats tb)) as [seat|] eqn:F.
  - apply find_some in F. destruct F as [_ Hh].
    destruct seat as [p|]; [|discriminate Hh].
    split; discriminate.
  - tauto.
Qed.

Lemma vacateFirst_none (playerId : string) (l : list (option Player.t)) :
  find (Table.seatHolds playerId) l = None -> Table.vacateFirst playerId l = None.
Proof.
  induction l as [|seat l IH]; simpl; [reflexivity|].
  destruct (Table.seatHolds playerId seat); [discriminate|].
  intro H. rewrite (IH H). reflexivity.
Qed.

Lemma vacateFirst_after_fill (p : Player.t) (l : list (option Player.t)) :
  forall i,
    nth_error l i = Some None ->
    find (Table.seatHolds (Player.id p)) l = None ->
    Table.vacateFirst (Player.id p) (Table.setNth l i (Some p)) = Some l
    /\ find (Table.seatHolds (Player.id p)) (Table.setNth l i (Some p)) = Some (Some p).
Proof.
  induction l as [|seat l IH]; intros [|i] Hn Hf; simpl in *; try discriminate.
  - inversion Hn; subst. rewrite String.eqb_refl. split; reflexivity.
  - destruct (Table.seatHolds (Player.id p) seat); [discriminate|].
    destruct (IH i Hn Hf) as [V F]. rewrite V, F. split; reflexivity.
Qed.

(** X5.  Seating and removing are inverse to each other, and removing an
    unknown player does nothing: when no seated player has the id,
    [removePlayer] returns false and leaves the table as it is; and after such
    a player has been seated, [getPlayer] finds them by id and [removePlayer]
    returns true and gives back exactly the table from before the seating. *)
Theorem X5_seat_then_remove_restores_table
    (tb : Table.t) (player : Player.t) (seatPosition : Z) :
  Table.getPlayer tb (Player.id player) = None ->
  Table.removePlayer tb (Player.id player) = (false, tb)
  /\ (forall tb',
         Table.seatPlayer tb player seatPosition = Ok tb' ->
         Table.getPlayer tb' (Player.id player) = Some player
         /\ Table.removePlayer tb' (Player.id player) = (true, tb)).
Proof.
  intro Hnone. apply getPlayer_None_find in Hnone. split.
  - unfold Table.removePlayer. rewrite (vacateFirst_none _ _ Hnone). reflexivity.
  - intros tb'. unfold Table.seatPlayer.
    destruct (_ || _); [discriminate|].
    destruct (nth_error (Table.seats tb) (Z.to_nat seatPosition)) as [[q|]|] eqn:En;
      try discriminate.
    intro H. inversion H; subst tb'. clear H.
    destruct (vacateFirst_after_fill player _ _ En Hnone) as [V F].
    unfold Table.getPlayer, Table.removePlayer, Table.setPlayerAtSeat.
    cbn [Table.seats Table.buttonPosition Table.communityCards Table.config].
    rewrite V, F. split; [reflexivity|]. destruct tb; reflexivity.
Qed.

Lemma X5_witness :
  let tb :=
    Table.mk [Some (Player.new "p1" 1000); None; None] 0 [] (Table.mkConfig 3 5 10) in
  Table.removePlayer tb "p2" = (false, tb)
  /\ (forall tb',
         Table.seatPlayer tb (Player.new "p2" 500) 2 = Ok tb' ->
         Table.getPlayer tb' "p2" = Some (Player.new "p2" 500)
         /\ Table.removePlayer tb' "p2" = (true, tb)).
Proof.
  intro tb.
  exact (X5_seat_then_remove_restores_table tb (Player.new "p2" 500) 2 eq_refl).
Defined.

(** ** Moving the button *)

Lemma skipEmptySeats_spec (tb : Table.t) (n : nat) :
  let m := Table.maxSeats (Table.config tb) in
  forall pos att,
    (pos < m)%nat ->
    exists d,
      (d <= n)%nat
      /\ Table.skipEmptySeats tb n pos att = (((pos + d) mod m)%nat, (att + d)%nat)
      /\ (forall j, (j < d)%nat -> Table.seatIsEmpty tb ((pos + j) mod m)%nat = true)
      /\ (d = n \/ (m <= att + d)%nat
          \/ Table.seatIsEmpty tb ((pos + d) mod m)%nat = false).
Proof.
  intro m. induction n as [|n IH]; intros pos att Hpos.
  - exists 0%nat. rewrite !Nat.add_0_r, (Nat.mod_small _ _ Hpos).
    split; [lia|]. split; [reflexivity|]. split; [intros j Hj; lia | left; reflexivity].
  - cbn [Table.skipEmptySeats]. fold m.
    destruct (Table.seatIsEmpty tb pos) eqn:Ee; cbn [andb].
    + destruct (Nat.ltb_spec att m) as [Hatt|Hatt].
      * assert (Hm : m <> 0%nat) by lia.
        assert (Hp1 : ((pos + 1) mod m < m)%nat) by (apply Nat.mod_upper_bound; exact Hm).
        destruct (IH ((pos + 1) mod m)%nat (att + 1)%nat Hp1) as (d & Hd & E & Hall & Hstop).
        assert (Hshift : forall j, (((pos + 1) mod m + j) mod m = (pos + S j) mod m)%nat).
        { intro j. rewrite Nat.Div0.add_mod_idemp_l. f_equal. lia. }
        exists (S d). split; [lia|]. split.
        { rewrite E, Hshift. f_equal. lia. }
        split.
        { intros [|j] Hj.
          - rewrite Nat.add_0_r, (Nat.mod_small _ _ Hpos). exact Ee.
          - rewrite <- Hshift. apply Hall. lia. }
        { rewrite <- Hshift. destruct Hstop as [->|[H|H]]; [left; reflexivity | right; left; lia | right; right; exact H]. }
      * exists 0%nat. rewrite !Nat.add_0_r, (Nat.mod_small _ _ Hpos).
        split; [lia|]. split; [reflexivity|].
        split; [intros j Hj; lia | right; left; lia].
    + exists 0%nat. rewrite !Nat.add_0_r, (Nat.mod_small _ _ Hpos).
      split; [lia|]. split; [reflexivity|].
      split; [intros j Hj; lia | right; right; exact Ee].
Qed.

Lemma clockwise_reaches (m p0 k : nat) :
  (p0 < m)%nat -> (k < m)%nat ->
  exists j, (j < m)%nat /\ ((p0 + j) mod m = k)%nat.
Proof.
  intros Hp Hk. exists ((k + m - p0) mod m)%nat. split.
  - apply Nat.mod_upper_bound. lia.
  - rewrite Nat.Div0.add_mod_idemp_r.
    replace (p0 + (k + m - p0))%nat with (k + 1 * m)%nat by lia.
    rewrite Nat.Div0.mod_add. apply Nat.mod_small. exact Hk.
Qed.

Lemma occupiedFrom_nil_iff (l : list (option Player.t)) :
  forall k,
    Table.occupiedFrom k l = [] <-> (forall i, i < length l -> nth_error l i = Some None)%nat.
Proof.
  induction l as [|s l IH]; intro k; simpl.
  - split; [intros _ i Hi; lia | reflexivity].
  - destruct s as [p|].
    + split; [discriminate|]. intro H. specialize (H 0%nat ltac:(lia)). discriminate.
    + rewrite IH. split; intros H i Hi.
      * destruct i; [reflexivity|]. simpl. apply H. lia.
      * apply (H (S i)). lia.
Qed.

(** X6.  [moveButton] on a table with one seat per configured position:
    with nobody seated it throws; otherwise it
    succeeds, changes nothing but the button, and the new button seat is the
    first occupied seat met going clockwise from the seat after the old
    button (wrapping around, and coming back to the old button seat when that
    is the only occupied one). *)
Theorem X6_moveButton_goes_to_next_occupied_seat (tb : Table.t) :
  length (Table.seats tb) = Table.maxSeats (Table.config tb) ->
  let m := Table.maxSeats (Table.config tb) in
  (Table.playerCount tb = 0%nat -> Table.moveButton tb = Throw NoOccupiedSeats)
  /\ (Table.playerCount tb <> 0%nat ->
      exists d,
        (d < m)%nat
        /\ Table.moveButton tb
           = Ok (Table.mk (Table.seats tb) ((Table.buttonPosition tb + 1 + d) mod m)%nat
                   (Table.communityCards tb) (Table.config tb))
        /\ Table.getPlayerAtSeat tb ((Table.buttonPosition tb + 1 + d) mod m)%nat <> None
        /\ (forall j, (j < d)%nat ->
                      Table.getPlayerAtSeat tb ((Table.buttonPosition tb + 1 + j) mod m)%nat
                      = None)).
Proof.
  intros Hwf m.
  assert (Hempty_iff : forall i, (i < m)%nat ->
            (Table.seatIsEmpty tb i = true <-> Table.getPlayerAtSeat tb i = None)).
  { intros i Hi. unfold Table.seatIsEmpty, Table.getPlayerAtSeat.
    destruct (nth_error (Table.seats tb) i) as [[p|]|] eqn:En.
    - split; discriminate.
    - tauto.
    - apply nth_error_None in En. unfold m in Hi. lia. }
  destruct (Nat.eq_dec m 0) as [Hm0|Hm].
  { (* no seats at all *)
    assert (Hs : Table.seats tb = []).
    { apply length_zero_iff_nil. unfold m in Hm0. lia. }
    assert (Hc : Table.playerCount tb = 0%nat).
    { unfold Table.playerCount, Table.occupied. rewrite Hs. reflexivity. }
    split; [|intro H; contradiction].
    intros _. unfold Table.moveButton. fold m. rewrite Hm0. reflexivity. }
  set (p0 := ((Table.buttonPosition tb + 1) mod m)%nat).
  assert (Hp0 : (p0 < m)%nat) by (apply Nat.mod_upper_bound; exact Hm).
  destruct (skipEmptySeats_spec tb m p0 0%nat Hp0) as (d & Hd & E & Hall & Hstop).
  fold m in E, Hall, Hstop.
  assert (Hshift : forall j, ((p0 + j) mod m = (Table.buttonPosition tb + 1 + j) mod m)%nat).
  { intro j. unfold p0. apply Nat.Div0.add_mod_idemp_l. }
  assert (Hcount : Table.playerCount tb = 0%nat <-> d = m).
  { unfold Table.playerCount, Table.occupied.
    rewrite length_zero_iff_nil, occupiedFrom_nil_iff, Hwf. fold m. split.
    - intro Hnone.
      destruct Hstop as [H|[H|H]]; [exact H | lia |].
      exfalso.
      assert (Hlt : ((p0 + d) mod m < m)%nat) by (apply Nat.mod_upper_bound; exact Hm).
      unfold Table.seatIsEmpty in H. rewrite (Hnone _ Hlt) in H. discriminate.
    - intros -> i Hi.
      destruct (clockwise_reaches m p0 i Hp0 Hi) as [j [Hj <-]].
      specialize (Hall j Hj). unfold Table.seatIsEmpty in Hall.
      destruct (nth_error (Table.seats tb) ((p0 + j) mod m)) as [[q|]|];
        try discriminate. reflexivity. }
  split.
  - intro Hc. apply Hcount in Hc. subst d.
    unfold Table.moveButton. fold m. fold p0. rewrite E. cbn [Nat.add].
    destruct (Nat.leb_spec m m); [reflexivity|lia].
  - intro Hc.
    assert (Hdm : (d < m)%nat).
    { destruct (Nat.eq_dec d m) as [->|]; [|lia]. exfalso. apply Hc, Hcount. reflexivity. }
    exists d. split; [exact Hdm|]. split.
    + unfold Table.moveButton. fold m. fold p0. rewrite E. cbn [Nat.add].
      destruct (Nat.leb_spec m d); [lia|]. rewrite Hshift. reflexivity.
    + split.
      * rewrite <- Hshift. destruct Hstop as [H|[H|H]]; [lia | lia |].
        intro Hn. apply Hempty_iff in Hn; [congruence|].
        apply Nat.mod_upper_bound. exact Hm.
      * intros j Hj. rewrite <- Hshift. apply Hempty_iff.
        -- apply Nat.mod_upper_bound. exact Hm.
        -- apply Hall. exact Hj.
Qed.

Lemma X6_witness :
  let tb :=
    Table.mk [Some (Player.new "p1" 1000); None; Some (Player.new "p3" 1000); None]
      2 [] (Table.mkConfig 4 5 10) in
  exists d,
    (d < 4)%nat
    /\ Table.moveButton tb
       = Ok (Table.mk (Table.seats tb) ((2 + 1 + d) mod 4)%nat [] (Table.mkConfig 4 5 10))
    /\ Table.getPlayerAtSeat tb ((2 + 1 + d) mod 4)%nat <> None.
Proof.
  intro tb.
  destruct (proj2 (X6_moveButton_goes_to_next_occupied_seat tb eq_refl))
    as (d & Hd & E & Ho & _).
  - vm_compute. discriminate.
  - exists d. split; [exact Hd|]. split; [exact E|exact Ho].
Defined.

(** ** The deck *)

Lemma setNth_takes_place (l : list Card.t) :
  forall (j : nat) (c x : Card.t),
    nth_error l j = Some c -> Permutation (c :: Table.setNth l j x) (x :: l).
Proof.
  induction l as [|y l IH]; intros [|j] c x H; simpl in *; try discriminate.
  - inversion H; subst. apply perm_swap.
  - eapply Permutation_trans; [apply perm_swap|].
    eapply Permutation_trans; [apply perm_skip, (IH _ _ _ H)|].
    apply perm_swap.
Qed.

Lemma swap_perm (l : list Card.t) : forall i j, Permutation (Deck.swap l i j) l.
Proof.
  unfold Deck.swap.
  induction l as [|y l IH]; intros i j.
  - destruct i, j; apply Permutation_refl.
  - destruct i as [|i], j as [|j]; cbn [nth_error].
    + apply Permutation_refl.
    + destruct (nth_error l j) as [cj|] eqn:Ej; [|apply Permutation_refl].
      cbn [Table.setNth]. exact (setNth_takes_place l j cj y Ej).
    + destruct (nth_error l i) as [ci|] eqn:Ei; [|apply Permutation_refl].
      cbn [Table.setNth]. exact (setNth_takes_place l i ci y Ei).
    + specialize (IH i j).
      destruct (nth_error l i) as [ci|]; [|apply Permutation_refl].
      destruct (nth_error l j) as [cj|]; [|apply Permutation_refl].
      cbn [Table.setNth]. apply perm_skip. exact IH.
Qed.

Lemma shuffleFrom_perm (draw : nat -> nat) (i : nat) :
  forall l, Permutation (Deck.shuffleFrom draw i l) l.
Proof.
  induction i as [|i IH]; intro l; simpl.
  - apply Permutation_refl.
  - eapply Permutation_trans; [apply IH | apply swap_perm].
Qed.

Lemma reset_complete (c : Card.t) : In c (Deck.cards Deck.reset).
Proof.
  destruct c as [r su].
  destruct r, su; vm_compute; repeat (try (left; reflexivity); right).
Qed.

Lemma reset_nodup : NoDup (Deck.cards Deck.reset).
Proof.
  apply (NoDup_map_inv
           (fun c => (RANK_VALUES (Card.rank c)
                      + 100 * match Card.suit c with
                              | Spades => 0 | Hearts => 1 | Diamonds => 2 | Clubs => 3
                              end)%Z)).
  assert (Hs : StronglySorted Z.lt
                 (map (fun c => (RANK_VALUES (Card.rank c)
                                 + 100 * match Card.suit c with
                                         | Spades => 0 | Hearts => 1
                                         | Diamonds => 2 | Clubs => 3
                                         end)%Z)
                    (Deck.cards Deck.reset))).
  { vm_compute map.
    repeat (apply SSorted_cons; [|repeat (apply Forall_cons; [reflexivity|]); apply Forall_nil]).
    apply SSorted_nil. }
  revert Hs. generalize (map (fun c => (RANK_VALUES (Card.rank c)
                                        + 100 * match Card.suit c with
                                                | Spades => 0 | Hearts => 1
                                                | Diamonds => 2 | Clubs => 3
                                                end)%Z)
                           (Deck.cards Deck.reset)).
  intros l Hs. induction Hs as [|a l _ IH Hall]; constructor; [|exact IH].
  intro Hin. rewrite Forall_forall in Hall. specialize (Hall _ Hin). lia.
Qed.

(** X7.  Shuffling only reorders: whatever the random draws, the shuffled
    deck is a permutation of the deck before and the dealt pile is untouched.
    A deck that has been reset and shuffled therefore holds 52 cards, no card
    twice, and every card of the game. *)
Theorem X7_shuffle_keeps_the_cards :
  (forall (draw : nat -> nat) (d : Deck.t),
      Permutation (Deck.cards (Deck.shuffle draw d)) (Deck.cards d)
      /\ Deck.dealtCards (Deck.shuffle draw d) = Deck.dealtCards d)
  /\ (forall draw : nat -> nat,
         let d := Deck.shuffle draw Deck.reset in
         length (Deck.cards d) = 52%nat
         /\ NoDup (Deck.cards d)
         /\ (forall c : Card.t, In c (Deck.cards d))
         /\ Deck.dealtCards d = []).
Proof.
  assert (P : forall draw d, Permutation (Deck.cards (Deck.shuffle draw d)) (Deck.cards d)).
  { intros draw d. unfold Deck.shuffle. cbn [Deck.cards]. apply shuffleFrom_perm. }
  split.
  - intros draw d. split; [apply P | reflexivity].
  - intros draw d. split; [|split; [|split]].
    + unfold d. rewrite (Permutation_length (P draw Deck.reset)). reflexivity.
    + apply (Permutation_NoDup (Permutation_sym (P draw Deck.reset))). exact reset_nodup.
    + intro c. apply (Permutation_in _ (Permutation_sym (P draw Deck.reset))).
      apply reset_complete.
    + reflexivity.
Qed.

Lemma dealCard_spec (d : Deck.t) :
  match Deck.dealCard d with
  | Returns card d' =>
      Deck.cards d = Deck.cards d' ++ [card]
      /\ Deck.dealtCards d' = Deck.dealtCards d ++ [card]
  | Throws e d' => Deck.cards d = [] /\ e = CannotDealFromEmptyDeck /\ d' = d
  end.
Proof.
  unfold Deck.dealCard.
  destruct (rev (Deck.cards d)) as [|card rest] eqn:E.
  - split; [|split; reflexivity].
    apply (f_equal (@rev Card.t)) in E. rewrite rev_involutive in E. exact E.
  - cbn [Deck.cards Deck.dealtCards]. split; [|reflexivity].
    apply (f_equal (@rev Card.t)) in E. rewrite rev_involutive in E. exact E.
Qed.

Lemma dealLoop_spec (count : nat) :
  forall (dealt : list Card.t) (d : Deck.t),
    (count <= length (Deck.cards d))%nat ->
    exists more d',
      Deck.dealLoop count dealt d = Returns (dealt ++ more) d'
      /\ length more = count
      /\ Deck.cards d = Deck.cards d' ++ rev more
      /\ Deck.dealtCards d' = Deck.dealtCards d ++ more.
Proof.
  induction count as [|n IH]; intros dealt d Hlen.
  - exists [], d. cbn [Deck.dealLoop]. rewrite !app_nil_r.
    repeat split; reflexivity.
  - cbn [Deck.dealLoop]. pose proof (dealCard_spec d) as Hd.
    destruct (Deck.dealCard d) as [card d1|e d1].
    + destruct Hd as [Hc Hdl].
      assert (Hlen1 : (n <= length (Deck.cards d1))%nat).
      { rewrite Hc, length_app in Hlen. simpl in Hlen. lia. }
      destruct (IH (dealt ++ [card]) d1 Hlen1) as (more & d' & E & Hl & Hc' & Hdl').
      exists (card :: more), d'. split.
      * rewrite E, <- app_assoc. reflexivity.
      * split; [simpl; lia|]. split.
        -- rewrite Hc, Hc'. cbn [rev]. rewrite <- !app_assoc. reflexivity.
        -- rewrite Hdl', Hdl, <- app_assoc. reflexivity.
    + destruct Hd as [Hc _]. rewrite Hc in Hlen. simpl in Hlen. lia.
Qed.

(** X8.  [dealCards(count)] is all or nothing.  When the deck holds fewer than
    [count] cards it throws and the deck is untouched; otherwise it returns
    exactly [count] cards, taken one by one from the top of the deck (the end
    of the array), and appends them in that order to the dealt pile, so that
    no card is lost or duplicated. *)
Theorem X8_dealCards_all_or_nothing (count : nat) (d : Deck.t) :
  ((length (Deck.cards d) < count)%nat ->
   Deck.dealCards count d = Throws (CannotDealCount count (length (Deck.cards d))) d)
  /\ ((count <= length (Deck.cards d))%nat ->
      exists dealt d',
        Deck.dealCards count d = Returns dealt d'
        /\ length dealt = count
        /\ Deck.cards d = Deck.cards d' ++ rev dealt
        /\ Deck.dealtCards d' = Deck.dealtCards d ++ dealt).
Proof.
  unfold Deck.dealCards. split; intro H.
  - destruct (Nat.ltb_spec (length (Deck.cards d)) count); [reflexivity|lia].
  - destruct (Nat.ltb_spec (length (Deck.cards d)) count); [lia|].
    destruct (dealLoop_spec count [] d H) as (more & d' & E & Hl & Hc & Hdl).
    exists more, d'. split; [exact E|]. split; [exact Hl|]. split; assumption.
Qed.

Lemma X8_witness :
  exists dealt d',
    Deck.dealCards 3 Deck.reset = Returns dealt d'
    /\ length dealt = 3%nat
    /\ Deck.cards Deck.reset = Deck.cards d' ++ rev dealt
    /\ Deck.dealtCards d' = Deck.dealtCards Deck.reset ++ dealt.
Proof.
  apply (proj2 (X8_dealCards_all_or_nothing 3 Deck.reset)).
  vm_compute. lia.
Defined.

(** ** The best five of seven cards *)

Lemma evaluateHand_five (cards : list Card.t) :
  length cards = 5%nat -> exists h, HandEvaluator.evaluateHand cards = Ok h.
Proof.
  intro H. unfold HandEvaluator.evaluateHand. rewrite H. cbn [Nat.eqb negb].
  eexists. reflexivity.
Qed.

Lemma combinations_length (k : nat) :
  forall (cards combo : list Card.t),
    In combo (HandEvaluator.combinations k cards) -> length combo = k.
Proof.
  induction k as [|k IHk]; intros cards combo H.
  - destruct cards; simpl in H; destruct H as [<-|[]]; reflexivity.
  - induction cards as [|c rest IHc]; [destruct H|].
    cbn [HandEvaluator.combinations] in H. apply in_app_or in H.
    destruct H as [H|H].
    + apply in_map_iff in H. destruct H as [x [<- Hx]].
      simpl. f_equal. exact (IHk _ _ Hx).
    + exact (IHc H).
Qed.

Lemma bestOf_spec (combos : list (list Card.t)) :
  forall best : option HandRanking.t,
    (forall c, In c combos -> length c = 5%nat) ->
    exists r,
      HandEvaluator.bestOf combos best = Ok r
      /\ (r = best
          \/ exists c h, In c combos /\ HandEvaluator.evaluateHand c = Ok h /\ r = Some h)
      /\ match r with
         | Some h =>
             (forall c h', In c combos -> HandEvaluator.evaluateHand c = Ok h' ->
                           0 <= HandRanking.compareTo h h')
             /\ (forall b, best = Some b -> 0 <= HandRanking.compareTo h b)
         | None => combos = [] /\ best = None
         end.
Proof.
  induction combos as [|combo rest IH]; intros best Hlen.
  - exists best. split; [reflexivity|]. split; [left; reflexivity|].
    destruct best as [b|].
    + split; [intros c h' Hc; simpl in Hc; contradiction|]. intros b' E. inversion E; subst.
      rewrite compareTo_refl. lia.
    + split; reflexivity.
  - destruct (evaluateHand_five combo (Hlen combo (or_introl eq_refl))) as [hand Eh].
    assert (Hrest : forall c, In c rest -> length c = 5%nat)
      by (intros c Hc; apply Hlen; right; exact Hc).
    cbn [HandEvaluator.bestOf]. rewrite Eh. cbn [bind].
    assert (Take : forall b',
               (forall b, best = Some b -> 0 <= HandRanking.compareTo b' b) ->
               0 <= HandRanking.compareTo b' hand ->
               (b' = hand \/ best = Some b') ->
               exists r,
                 HandEvaluator.bestOf rest (Some b') = Ok r
                 /\ (r = best
                     \/ exists c h, In c (combo :: rest)
                                    /\ HandEvaluator.evaluateHand c = Ok h /\ r = Some h)
                 /\ match r with
                    | Some h =>
                        (forall c h', In c (combo :: rest) ->
                                      HandEvaluator.evaluateHand c = Ok h' ->
                                      0 <= HandRanking.compareTo h h')
                        /\ (forall b, best = Some b -> 0 <= HandRanking.compareTo h b)
                    | None => combo :: rest = [] /\ best = None
                    end).
    { intros b' Hbest Hhand Hwho.
      destruct (IH (Some b') Hrest) as (r & E & Hfrom & Hmax).
      exists r. split; [exact E|]. split.
      - destruct Hfrom as [->|(c & h & Hc & Ec & ->)].
        + destruct Hwho as [->|Hb]; [|left; symmetry; exact Hb].
          right. exists combo, hand. split; [left; reflexivity|]. split; [exact Eh|reflexivity].
        + right. exists c, h. split; [right; exact Hc|]. split; [exact Ec|reflexivity].
      - destruct r as [h|]; [|destruct Hmax as [_ Hn]; discriminate Hn].
        destruct Hmax as [Hall Hb'].
        specialize (Hb' b' eq_refl). split.
        + intros c h' [<-|Hc] Ec.
          * rewrite Eh in Ec. inversion Ec; subst h'.
            exact (proj1 (compareTo_trans h b' hand Hb' Hhand)).
          * exact (Hall c h' Hc Ec).
        + intros b Eb. exact (proj1 (compareTo_trans h b' b Hb' (Hbest b Eb))). }
    destruct best as [b|].
    + destruct (Z.ltb_spec 0 (HandRanking.compareTo hand b)) as [Hgt|Hle].
      * apply (Take hand).
        -- intros b0 Eb. inversion Eb; subst. lia.
        -- rewrite compareTo_refl. lia.
        -- left. reflexivity.
      * apply (Take b).
        -- intros b0 Eb. inversion Eb; subst. rewrite compareTo_refl. lia.
        -- rewrite (compareTo_opp b hand). lia.
        -- right. reflexivity.
    + apply (Take hand).
      * intros b0 Eb. discriminate Eb.
      * rewrite compareTo_refl. lia.
      * left. reflexivity.
Qed.

(** X9.  [evaluateBest7CardHand] throws unless it is given exactly seven
    cards.  On seven cards it always returns: there are 21 five-card
    combinations, the ranking returned is the evaluation of one of them, and
    it compares at least as good as the evaluation of every one of them. *)
Theorem X9_best_of_seven_dominates (cards : list Card.t) :
  (length cards <> 7%nat ->
   HandEvaluator.evaluateBest7CardHand cards = Throw (ExpectedSevenCards (length cards)))
  /\ (length cards = 7%nat ->
      length (HandEvaluator.get5CardCombinations cards) = 21%nat
      /\ exists h,
           HandEvaluator.evaluateBest7CardHand cards = Ok h
           /\ (exists combo,
                  In combo (HandEvaluator.get5CardCombinations cards)
                  /\ HandEvaluator.evaluateHand combo = Ok h)
           /\ (forall combo h',
                  In combo (HandEvaluator.get5CardCombinations cards) ->
                  HandEvaluator.evaluateHand combo = Ok h' ->
                  0 <= HandRanking.compareTo h h')).
Proof.
  unfold HandEvaluator.evaluateBest7CardHand. split; intro Hlen.
  - destruct (Nat.eqb_spec (length cards) 7); [contradiction|]. reflexivity.
  - rewrite Hlen. cbn [Nat.eqb negb]. split.
    + destruct cards as [|c1 [|c2 [|c3 [|c4 [|c5 [|c6 [|c7 [|c8 rest]]]]]]]];
        try discriminate Hlen. reflexivity.
    + destruct (bestOf_spec (HandEvaluator.get5CardCombinations cards) None)
        as (r & E & Hfrom & Hmax).
      { intros c Hc. exact (combinations_length 5 cards c Hc). }
      rewrite E. cbn [bind].
      destruct r as [h|].
      * exists h. split; [reflexivity|]. split.
        -- destruct Hfrom as [Hn|(c & h0 & Hc & Ec & Er)]; [discriminate Hn|].
           inversion Er; subst h0. exists c. split; assumption.
        -- exact (proj1 Hmax).
      * exfalso. destruct Hmax as [Hnil _].
        destruct cards as [|c1 [|c2 [|c3 [|c4 [|c5 [|c6 [|c7 [|c8 rest]]]]]]]];
          try discriminate Hlen. discriminate Hnil.
Qed.

Lemma X9_witness :
  exists h,
    HandEvaluator.evaluateBest7CardHand
      [Card.mk Ace Spades; Card.mk Ace Hearts; Card.mk Two Diamonds; Card.mk Seven Clubs;
       Card.mk Nine Spades; Card.mk Jack Hearts; Card.mk Three Diamonds]
    = Ok h
    /\ HandRanking.rank h = Pair.
Proof.
  destruct (proj2 (X9_best_of_seven_dominates
                     [Card.mk Ace Spades; Card.mk Ace Hearts; Card.mk Two Diamonds;
                      Card.mk Seven Clubs; Card.mk Nine Spades; Card.mk Jack Hearts;
                      Card.mk Three Diamonds]) eq_refl)
    as (_ & h & E & _ & _).
  exists h. split; [exact E|].
  vm_compute in E. inversion E. reflexivity.
Defined.

(** ** The evaluator does not depend on the order of the cards *)

Lemma values_insertCardDesc (x : Card.t) (l : list Card.t) :
  map Card.value (HandEvaluator.insertCardDesc x l)
  = HandEvaluator.insert_desc (Card.value x) (map Card.value l).
Proof.
  induction l as [|y l IH]; simpl; [reflexivity|].
  destruct (Card.value y <=? Card.value x); simpl; [reflexivity|].
  rewrite IH. reflexivity.
Qed.

Lemma values_sortCardsDesc (l : list Card.t) :
  map Card.value (HandEvaluator.sortCardsDesc l)
  = HandEvaluator.sort_desc (map Card.value l).
Proof.
  induction l as [|x l IH]; simpl; [reflexivity|].
  rewrite values_insertCardDesc, IH. reflexivity.
Qed.

Lemma insert_desc_perm (a : Z) (l : list Z) :
  Permutation (HandEvaluator.insert_desc a l) (a :: l).
Proof.
  induction l as [|y l IH]; simpl.
  - apply Permutation_refl.
  - destruct (y <=? a).
    + apply Permutation_refl.
    + eapply Permutation_trans; [apply perm_skip, IH | apply perm_swap].
Qed.

Lemma sort_desc_perm (l : list Z) : Permutation (HandEvaluator.sort_desc l) l.
Proof.
  induction l as [|x l IH]; simpl.
  - apply Permutation_refl.
  - eapply Permutation_trans; [apply insert_desc_perm | apply perm_skip, IH].
Qed.

Lemma insert_desc_ge_sorted (a : Z) (l : list Z) :
  StronglySorted Z.ge l -> StronglySorted Z.ge (HandEvaluator.insert_desc a l).
Proof.
  induction l as [|y l IH]; intro Hs; simpl.
  - repeat constructor.
  - inversion Hs as [|y' l' Hs' Hall]; subst.
    destruct (Z.leb_spec y a) as [Hle|Hgt].
    + constructor; [exact Hs|].
      constructor; [lia|].
      eapply Forall_impl; [|exact Hall]. simpl. intros; lia.
    + constructor; [apply IH; exact Hs'|].
      apply Forall_forall. intros x Hx.
      apply (Permutation_in _ (insert_desc_perm a l)) in Hx.
      destruct Hx as [<-|Hx]; [lia|].
      rewrite Forall_forall in Hall. apply Hall; exact Hx.
Qed.

Lemma sort_desc_ge_sorted (l : list Z) : StronglySorted Z.ge (HandEvaluator.sort_desc l).
Proof.
  induction l as [|x l IH]; simpl; [constructor|].
  apply insert_desc_ge_sorted. exact IH.
Qed.

Lemma ge_sorted_unique (l1 : list Z) :
  forall l2,
    StronglySorted Z.ge l1 -> StronglySorted Z.ge l2 -> Permutation l1 l2 -> l1 = l2.
Proof.
  induction l1 as [|a l1 IH]; intros l2 S1 S2 P.
  - apply Permutation_nil in P. subst. reflexivity.
  - destruct l2 as [|b l2]; [apply Permutation_sym, Permutation_nil in P; discriminate|].
    inversion S1 as [|? ? S1' A1]; inversion S2 as [|? ? S2' A2]; subst.
    rewrite Forall_forall in A1, A2.
    assert (Hab : a = b).
    { assert (Ha : In a (b :: l2)) by (apply (Permutation_in _ P); left; reflexivity).
      assert (Hb : In b (a :: l1))
        by (apply (Permutation_in _ (Permutation_sym P)); left; reflexivity).
      destruct Ha as [E|Ha]; [congruence|].
      destruct Hb as [E|Hb]; [congruence|].
      specialize (A1 _ Hb). specialize (A2 _ Ha). lia. }
    subst b. f_equal. apply IH; try assumption.
    exact (Permutation_cons_inv P).
Qed.

Lemma sort_desc_of_perm (l l' : list Z) :
  Permutation l l' -> HandEvaluator.sort_desc l = HandEvaluator.sort_desc l'.
Proof.
  intro P. apply ge_sorted_unique; try apply sort_desc_ge_sorted.
  eapply Permutation_trans; [apply sort_desc_perm|].
  eapply Permutation_trans; [exact P|]. apply Permutation_sym, sort_desc_perm.
Qed.

Lemma suit_eqb_eq (a b : Suit) : suit_eqb a b = true <-> a = b.
Proof. destruct a, b; simpl; split; intro H; try reflexivity; discriminate. Qed.

Lemma isFlush_iff (l : list Card.t) :
  HandEvaluator.isFlush l = true
  <-> (forall c d, In c l -> In d l -> Card.suit c = Card.suit d).
Proof.
  unfold HandEvaluator.isFlush. destruct l as [|first rest].
  - split; [intros _ c d []|reflexivity].
  - rewrite forallb_forall. split.
    + intros H c d Hc Hd.
      apply H, suit_eqb_eq in Hc. apply H, suit_eqb_eq in Hd. congruence.
    + intros H c Hc. apply suit_eqb_eq. apply H; [exact Hc|left; reflexivity].
Qed.

Lemma isFlush_perm (l l' : list Card.t) :
  Permutation l l' -> HandEvaluator.isFlush l = HandEvaluator.isFlush l'.
Proof.
  intro P.
  assert (H : HandEvaluator.isFlush l = true <-> HandEvaluator.isFlush l' = true).
  { rewrite !isFlush_iff. split; intros H c d Hc Hd; apply H.
    - exact (Permutation_in _ (Permutation_sym P) Hc).
    - exact (Permutation_in _ (Permutation_sym P) Hd).
    - exact (Permutation_in _ P Hc).
    - exact (Permutation_in _ P Hd). }
  destruct (HandEvaluator.isFlush l), (HandEvaluator.isFlush l'); try reflexivity.
  - symmetry. apply H. reflexivity.
  - apply H. reflexivity.
Qed.

Section GroupShapes.
Import HandEvaluator.

Lemma groupGet_shape (a1 : list (Z * list Card.t)) :
  forall a2 k,
    map groupShape a1 = map groupShape a2 ->
    option_map (@length Card.t) (groupGet a1 k) = option_map (@length Card.t) (groupGet a2 k).
Proof.
  induction a1 as [|[k1 c1] a1 IH]; intros [|[k2 c2] a2] k H; simpl in *;
    try discriminate; [reflexivity|].
  inversion H as [[Hk Hl Hrest]]. subst k2.
  destruct (k1 =? k); simpl; [f_equal; exact Hl | apply IH; exact Hrest].
Qed.

Lemma groupSet_shape (a1 : list (Z * list Card.t)) :
  forall a2 k x1 x2,
    map groupShape a1 = map groupShape a2 ->
    length x1 = length x2 ->
    map groupShape (groupSet a1 k x1) = map groupShape (groupSet a2 k x2).
Proof.
  induction a1 as [|[k1 c1] a1 IH]; intros [|[k2 c2] a2] k x1 x2 H Hx; simpl in *;
    try discriminate.
  - unfold groupShape. simpl. rewrite Hx. reflexivity.
  - inversion H as [[Hk Hl Hrest]]. subst k2.
    destruct (k1 =? k); simpl.
    + unfold groupShape at 1 3. simpl. rewrite Hx, Hrest. reflexivity.
    + unfold groupShape at 1 3. simpl. rewrite Hl. f_equal. apply IH; assumption.
Qed.

Lemma groupByRank_shape (s1 s2 : list Card.t) :
  map Card.value s1 = map Card.value s2 ->
  map groupShape (groupByRank s1) = map groupShape (groupByRank s2).
Proof.
  unfold groupByRank.
  assert (G : forall s1 s2 a1 a2,
             map Card.value s1 = map Card.value s2 ->
             map groupShape a1 = map groupShape a2 ->
             map groupShape
               (fold_left
                  (fun groups card =>
                     groupSet groups (Card.value card)
                       (match groupGet groups (Card.value card) with
                        | Some cs => cs
                        | None => []
                        end ++ [card])) s1 a1)
             = map groupShape
                 (fold_left
                    (fun groups card =>
                       groupSet groups (Card.value card)
                         (match groupGet groups (Card.value card) with
                          | Some cs => cs
                          | None => []
                          end ++ [card])) s2 a2)).
  { clear. induction s1 as [|c1 s1 IH]; intros [|c2 s2] a1 a2 Hv Ha; simpl in *;
      try discriminate; [exact Ha|].
    inversion Hv as [[Hc Hrest]]. apply IH; [exact Hrest|].
    rewrite Hc. apply groupSet_shape; [exact Ha|].
    pose proof (groupGet_shape a1 a2 (Card.value c2) Ha) as Hg.
    rewrite !length_app. simpl.
    destruct (groupGet a1 (Card.value c2)), (groupGet a2 (Card.value c2));
      simpl in Hg; try discriminate; [inversion Hg; lia | reflexivity]. }
  intro Hv. apply G; [exact Hv|reflexivity].
Qed.

Lemma find_size_shape (n : nat) (a1 : list (Z * list Card.t)) :
  forall a2,
    map groupShape a1 = map groupShape a2 ->
    option_map fst (find (fun g => (length (snd g) =? n)%nat) a1)
    = option_map fst (find (fun g => (length (snd g) =? n)%nat) a2).
Proof.
  induction a1 as [|[k1 c1] a1 IH]; intros [|[k2 c2] a2] H; simpl in *;
    try discriminate; [reflexivity|].
  inversion H as [[Hk Hl Hrest]]. subst k2. rewrite Hl.
  destruct (length c2 =? n)%nat; simpl; [reflexivity | apply IH; exact Hrest].
Qed.

Lemma filter_size_shape (n : nat) (a1 : list (Z * list Card.t)) :
  forall a2,
    map groupShape a1 = map groupShape a2 ->
    map fst (filter (fun g => (length (snd g) =? n)%nat) a1)
    = map fst (filter (fun g => (length (snd g) =? n)%nat) a2).
Proof.
  induction a1 as [|[k1 c1] a1 IH]; intros [|[k2 c2] a2] H; simpl in *;
    try discriminate; [reflexivity|].
  inversion H as [[Hk Hl Hrest]]. subst k2. rewrite Hl.
  destruct (length c2 =? n)%nat; simpl; rewrite (IH a2 Hrest); reflexivity.
Qed.

Lemma fullHouse_fold_shape (a1 : list (Z * list Card.t)) :
  forall a2 acc,
    map groupShape a1 = map groupShape a2 ->
    fold_left
      (fun (acc : option Z * option Z) g =>
         if (length (snd g) =? 3)%nat then (Some (fst g), snd acc)
         else if (length (snd g) =? 2)%nat then (fst acc, Some (fst g))
         else acc) a1 acc
    = fold_left
        (fun (acc : option Z * option Z) g =>
           if (length (snd g) =? 3)%nat then (Some (fst g), snd acc)
           else if (length (snd g) =? 2)%nat then (fst acc, Some (fst g))
           else acc) a2 acc.
Proof.
  induction a1 as [|[k1 c1] a1 IH]; intros [|[k2 c2] a2] acc H; simpl in *;
    try discriminate; [reflexivity|].
  inversion H as [[Hk Hl Hrest]]. subst k2. rewrite Hl. apply IH. exact Hrest.
Qed.

Lemma firstValueWhere_values (q : Z -> bool) (s1 : list Card.t) :
  forall s2,
    map Card.value s1 = map Card.value s2 ->
    firstValueWhere (fun c => q (Card.value c)) s1
    = firstValueWhere (fun c => q (Card.value c)) s2.
Proof.
  unfold firstValueWhere.
  induction s1 as [|c1 s1 IH]; intros [|c2 s2] H; simpl in *; try discriminate;
    [reflexivity|].
  inversion H as [[Hc Hrest]]. rewrite Hc.
  destruct (q (Card.value c2)); [exact Hc | apply IH; exact Hrest].
Qed.

Lemma otherValuesDesc_values (rank : Z) (s1 : list Card.t) :
  forall s2,
    map Card.value s1 = map Card.value s2 ->
    otherValuesDesc rank s1 = otherValuesDesc rank s2.
Proof.
  unfold otherValuesDesc. intros s2 H. f_equal. revert s2 H.
  induction s1 as [|c1 s1 IH]; intros [|c2 s2] H; simpl in *; try discriminate;
    [reflexivity|].
  inversion H as [[Hc Hrest]]. rewrite Hc.
  destruct (negb (Card.value c2 =? rank)); simpl; rewrite (IH s2 Hrest);
    [rewrite Hc|]; reflexivity.
Qed.

Lemma orElse_fields (a1 a2 : option HandRanking.t) (b1 b2 : HandRanking.t) :
  option_map HandRanking.comparedFields a1 = option_map HandRanking.comparedFields a2 ->
  HandRanking.comparedFields b1 = HandRanking.comparedFields b2 ->
  HandRanking.comparedFields (orElse a1 b1) = HandRanking.comparedFields (orElse a2 b2).
Proof.
  destruct a1, a2; simpl; intros Ha Hb; try discriminate.
  - unfold HandRanking.comparedFields in *. congruence.
  - exact Hb.
Qed.

Variables s1 s2 : list Card.t.
Hypothesis Hvalues : map Card.value s1 = map Card.value s2.
Hypothesis Hflush : isFlush s1 = isFlush s2.

Lemma getStraightHighCard_same : getStraightHighCard s1 = getStraightHighCard s2.
Proof. unfold getStraightHighCard. rewrite Hvalues. reflexivity. Qed.

Lemma checkStraightFlush_same :
  option_map HandRanking.comparedFields (checkStraightFlush s1)
  = option_map HandRanking.comparedFields (checkStraightFlush s2).
Proof.
  unfold checkStraightFlush. rewrite getStraightHighCard_same, Hflush.
  destruct (getStraightHighCard s2); [|reflexivity].
  destruct (isFlush s2); reflexivity.
Qed.

Lemma checkRoyalFlush_same :
  option_map HandRanking.comparedFields (checkRoyalFlush s1)
  = option_map HandRanking.comparedFields (checkRoyalFlush s2).
Proof.
  unfold checkRoyalFlush. pose proof checkStraightFlush_same as H.
  destruct (checkStraightFlush s1) as [h1|], (checkStraightFlush s2) as [h2|];
    simpl in H; try discriminate; [|reflexivity].
  inversion H as [[Hr Hp Hs Hk]]. rewrite Hp.
  destruct (HandRanking.primaryValue h2 =? 14); reflexivity.
Qed.

Lemma checkFourOfAKind_same :
  option_map HandRanking.comparedFields (checkFourOfAKind s1)
  = option_map HandRanking.comparedFields (checkFourOfAKind s2).
Proof.
  unfold checkFourOfAKind.
  pose proof (find_size_shape 4 _ _ (groupByRank_shape s1 s2 Hvalues)) as H.
  destruct (find _ (groupByRank s1)) as [[r1 g1]|], (find _ (groupByRank s2)) as [[r2 g2]|];
    simpl in H; try discriminate; [|reflexivity].
  inversion H; subst r2. simpl. unfold HandRanking.comparedFields. simpl.
  rewrite (firstValueWhere_values (fun v => negb (v =? r1)) s1 s2 Hvalues). reflexivity.
Qed.

Lemma checkFullHouse_same :
  option_map HandRanking.comparedFields (checkFullHouse s1)
  = option_map HandRanking.comparedFields (checkFullHouse s2).
Proof.
  unfold checkFullHouse.
  rewrite (fullHouse_fold_shape _ _ (None, None) (groupByRank_shape s1 s2 Hvalues)).
  destruct (fold_left _ (groupByRank s2) (None, None)) as [[t|] [p|]]; reflexivity.
Qed.

Lemma checkFlush_same :
  option_map HandRanking.comparedFields (checkFlush s1)
  = option_map HandRanking.comparedFields (checkFlush s2).
Proof.
  unfold checkFlush. rewrite Hflush, Hvalues.
  destruct (isFlush s2); reflexivity.
Qed.

Lemma checkStraight_same :
  option_map HandRanking.comparedFields (checkStraight s1)
  = option_map HandRanking.comparedFields (checkStraight s2).
Proof.
  unfold checkStraight. rewrite getStraightHighCard_same.
  destruct (getStraightHighCard s2); reflexivity.
Qed.

Lemma checkThreeOfAKind_same :
  option_map HandRanking.comparedFields (checkThreeOfAKind s1)
  = option_map HandRanking.comparedFields (checkThreeOfAKind s2).
Proof.
  unfold checkThreeOfAKind.
  pose proof (find_size_shape 3 _ _ (groupByRank_shape s1 s2 Hvalues)) as H.
  destruct (find _ (groupByRank s1)) as [[r1 g1]|], (find _ (groupByRank s2)) as [[r2 g2]|];
    simpl in H; try discriminate; [|reflexivity].
  inversion H; subst r2. simpl. unfold HandRanking.comparedFields. simpl.
  rewrite (otherValuesDesc_values r1 s1 s2 Hvalues). reflexivity.
Qed.

Lemma checkTwoPair_same :
  option_map HandRanking.comparedFields (checkTwoPair s1)
  = option_map HandRanking.comparedFields (checkTwoPair s2).
Proof.
  unfold checkTwoPair.
  rewrite (filter_size_shape 2 _ _ (groupByRank_shape s1 s2 Hvalues)).
  destruct (length _ =? 2)%nat; [|reflexivity].
  simpl. unfold HandRanking.comparedFields. simpl.
  set (sorted := sort_desc _).
  rewrite (firstValueWhere_values (fun v => negb (existsb (Z.eqb v) sorted)) s1 s2 Hvalues).
  reflexivity.
Qed.

Lemma checkPair_same :
  option_map HandRanking.comparedFields (checkPair s1)
  = option_map HandRanking.comparedFields (checkPair s2).
Proof.
  unfold checkPair.
  pose proof (find_size_shape 2 _ _ (groupByRank_shape s1 s2 Hvalues)) as H.
  destruct (find _ (groupByRank s1)) as [[r1 g1]|], (find _ (groupByRank s2)) as [[r2 g2]|];
    simpl in H; try discriminate; [|reflexivity].
  inversion H; subst r2. simpl. unfold HandRanking.comparedFields. simpl.
  rewrite (otherValuesDesc_values r1 s1 s2 Hvalues). reflexivity.
Qed.

Lemma checkHighCard_same :
  HandRanking.comparedFields (checkHighCard s1) = HandRanking.comparedFields (checkHighCard s2).
Proof. unfold checkHighCard. rewrite Hvalues. reflexivity. Qed.
End GroupShapes.

(** X11.  The evaluation of a five-card hand does not depend on the order in
    which the cards are passed: two hands that are permutations of each other
    get rankings with the same category, primaryValue, secondaryValue and
    kickers, so they compare as equal.  (Only the [cards] field, the sorted
    hand, may list cards of equal value in a different order.) *)
Theorem X11_evaluateHand_ignores_card_order (cards1 cards2 : list Card.t)
    (h1 h2 : HandRanking.t) :
  Permutation cards1 cards2 ->
  HandEvaluator.evaluateHand cards1 = Ok h1 ->
  HandEvaluator.evaluateHand cards2 = Ok h2 ->
  HandRanking.comparedFields h1 = HandRanking.comparedFields h2
  /\ HandRanking.compareTo h1 h2 = 0.
Proof.
  intros P E1 E2.
  assert (F : HandRanking.comparedFields h1 = HandRanking.comparedFields h2).
  { unfold HandEvaluator.evaluateHand in E1, E2.
    destruct (negb (length cards1 =? 5)%nat); [discriminate|].
    destruct (negb (length cards2 =? 5)%nat); [discriminate|].
    inversion E1 as [E1']; inversion E2 as [E2']. clear E1 E2 E1' E2'.
    assert (Hv : map Card.value (HandEvaluator.sortCardsDesc cards1)
                 = map Card.value (HandEvaluator.sortCardsDesc cards2)).
    { rewrite !values_sortCardsDesc. apply sort_desc_of_perm.
      apply Permutation_map. exact P. }
    assert (Hf : HandEvaluator.isFlush (HandEvaluator.sortCardsDesc cards1)
                 = HandEvaluator.isFlush (HandEvaluator.sortCardsDesc cards2)).
    { apply isFlush_perm.
      eapply Permutation_trans; [apply sortCardsDesc_perm|].
      eapply Permutation_trans; [exact P|]. apply Permutation_sym, sortCardsDesc_perm. }
    repeat (apply orElse_fields;
            [first [ exact (checkRoyalFlush_same _ _ Hv Hf)
                   | exact (checkStraightFlush_same _ _ Hv Hf)
                   | exact (checkFourOfAKind_same _ _ Hv)
                   | exact (checkFullHouse_same _ _ Hv)
                   | exact (checkFlush_same _ _ Hv Hf)
                   | exact (checkStraight_same _ _ Hv)
                   | exact (checkThreeOfAKind_same _ _ Hv)
                   | exact (checkTwoPair_same _ _ Hv)
                   | exact (checkPair_same _ _ Hv) ]|]).
    exact (checkHighCard_same _ _ Hv). }
  split; [exact F|].
  apply compareTo_zero_iff. unfold HandRanking.comparedFields in F.
  injection F as Hr Hp Hs Hk.
  split; [exact Hr|]. split; [exact Hp|]. split; [exact Hs|].
  intro i. rewrite Hk. reflexivity.
Qed.

Lemma X11_witness :
  exists h1 h2,
    HandEvaluator.evaluateHand
      [Card.mk King Hearts; Card.mk Two Clubs; Card.mk King Spades; Card.mk Nine Hearts;
       Card.mk Two Spades] = Ok h1
    /\ HandEvaluator.evaluateHand
         [Card.mk Two Spades; Card.mk King Spades; Card.mk Nine Hearts; Card.mk King Hearts;
          Card.mk Two Clubs] = Ok h2
    /\ HandRanking.compareTo h1 h2 = 0.
Proof.
  destruct (evaluateHand_five
              [Card.mk King Hearts; Card.mk Two Clubs; Card.mk King Spades;
               Card.mk Nine Hearts; Card.mk Two Spades] eq_refl) as [h1 E1].
  destruct (evaluateHand_five
              [Card.mk Two Spades; Card.mk King Spades; Card.mk Nine Hearts;
               Card.mk King Hearts; Card.mk Two Clubs] eq_refl) as [h2 E2].
  exists h1, h2. split; [exact E1|]. split; [exact E2|].
  refine (proj2 (X11_evaluateHand_ignores_card_order _ _ h1 h2 _ E1 E2)).
  apply Permutation_sym.
  apply (Permutation_cons_app [Card.mk King Hearts; Card.mk Two Clubs; Card.mk King Spades;
                               Card.mk Nine Hearts] []).
  rewrite app_nil_r.
  apply (Permutation_cons_app [Card.mk King Hearts; Card.mk Two Clubs] [Card.mk Nine Hearts]).
  simpl.
  apply (Permutation_cons_app [Card.mk King Hearts; Card.mk Two Clubs] []).
  rewrite app_nil_r. apply Permutation_refl.
Defined.

(** ** Straights *)

Lemma groupGet_absent (g : list (Z * list Card.t)) (k : Z) :
  ~ In k (map fst g) -> HandEvaluator.groupGet g k = None.
Proof.
  induction g as [|[k' cs] g IH]; simpl; intro H; [reflexivity|].
  destruct (Z.eqb_spec k' k) as [->|_]; [exfalso; apply H; left; reflexivity|].
  apply IH. intro Hin. apply H. right. exact Hin.
Qed.

Lemma groupSet_absent (g : list (Z * list Card.t)) (k : Z) (cs : list Card.t) :
  ~ In k (map fst g) -> HandEvaluator.groupSet g k cs = g ++ [(k, cs)].
Proof.
  induction g as [|[k' cs'] g IH]; simpl; intro H; [reflexivity|].
  destruct (Z.eqb_spec k' k) as [->|_]; [exfalso; apply H; left; reflexivity|].
  rewrite IH; [reflexivity|]. intro Hin. apply H. right. exact Hin.
Qed.

(** With five different values every group holds one card. *)
Lemma groupByRank_distinct (cards : list Card.t) :
  NoDup (map Card.value cards) ->
  HandEvaluator.groupByRank cards = map (fun c => (Card.value c, [c])) cards.
Proof.
  unfold HandEvaluator.groupByRank.
  assert (G : forall cs pre,
             NoDup (map Card.value (pre ++ cs)) ->
             fold_left
               (fun groups card =>
                  HandEvaluator.groupSet groups (Card.value card)
                    (match HandEvaluator.groupGet groups (Card.value card) with
                     | Some cs => cs
                     | None => []
                     end ++ [card]))
               cs (map (fun c => (Card.value c, [c])) pre)
             = map (fun c => (Card.value c, [c])) (pre ++ cs)).
  { induction cs as [|c cs IH]; intros pre Hnd; simpl.
    - rewrite app_nil_r. reflexivity.
    - assert (Hc : ~ In (Card.value c) (map fst (map (fun c => (Card.value c, [c])) pre))).
      { rewrite map_map. simpl. rewrite map_app in Hnd. simpl in Hnd.
        apply NoDup_remove_2 in Hnd. intro Hin. apply Hnd, in_or_app. left. exact Hin. }
      rewrite (groupGet_absent _ _ Hc), (groupSet_absent _ _ _ Hc). simpl.
      replace (map (fun c0 => (Card.value c0, [c0])) pre ++ [(Card.value c, [c])])
        with (map (fun c0 => (Card.value c0, [c0])) (pre ++ [c]))
        by (rewrite map_app; reflexivity).
      rewrite IH; rewrite <- app_assoc; [reflexivity | exact Hnd]. }
  intro Hnd. exact (G cards [] Hnd).
Qed.

Lemma no_multiples_when_distinct (cards : list Card.t) :
  NoDup (map Card.value cards) ->
  HandEvaluator.checkFourOfAKind cards = None
  /\ HandEvaluator.checkFullHouse cards = None.
Proof.
  intro Hnd.
  unfold HandEvaluator.checkFourOfAKind, HandEvaluator.checkFullHouse.
  rewrite (groupByRank_distinct cards Hnd).
  clear Hnd. split.
  - assert (F : find (fun g : Z * list Card.t => (length (snd g) =? 4)%nat)
                  (map (fun c => (Card.value c, [c])) cards) = None).
    { induction cards as [|c l IH]; simpl; [reflexivity | exact IH]. }
    rewrite F. reflexivity.
  - assert (F : forall acc,
               fold_left
                 (fun (acc : option Z * option Z) g =>
                    if (length (snd g) =? 3)%nat then (Some (fst g), snd acc)
                    else if (length (snd g) =? 2)%nat then (fst acc, Some (fst g))
                    else acc)
                 (map (fun c => (Card.value c, [c])) cards) acc = acc).
    { induction cards as [|c cards IH]; intro acc; simpl; [reflexivity | apply IH]. }
    rewrite F. reflexivity.
Qed.

(** X10.  Five cards whose values are five consecutive numbers, passed in any
    order, always evaluate as a straight with primaryValue the top value,
    secondaryValue 0 and no kickers: category Straight when the suits differ,
    StraightFlush when all five share a suit, and RoyalFlush when they share a
    suit and the top value is the Ace (14). *)
Theorem X10_consecutive_values_make_a_straight (cards : list Card.t) (high : Z) :
  Permutation (map Card.value cards) [high; high - 1; high - 2; high - 3; high - 4] ->
  exists h,
    HandEvaluator.evaluateHand cards = Ok h
    /\ HandRanking.rank h
       = (if HandEvaluator.isFlush cards
          then (if high =? 14 then RoyalFlush else StraightFlush)
          else Straight)
    /\ HandRanking.primaryValue h = high
    /\ HandRanking.secondaryValue h = 0
    /\ HandRanking.kickers h = [].
Proof.
  intro P.
  set (target := [high; high - 1; high - 2; high - 3; high - 4]) in *.
  assert (Hlen : length cards = 5%nat).
  { rewrite <- (length_map Card.value). exact (Permutation_length P). }
  set (s := HandEvaluator.sortCardsDesc cards).
  assert (Ps : Permutation (map Card.value s) target).
  { eapply Permutation_trans; [|exact P].
    apply Permutation_map, sortCardsDesc_perm. }
  assert (St : StronglySorted Z.gt target).
  { unfold target.
    repeat (apply SSorted_cons; [|repeat (apply Forall_cons; [lia|]); apply Forall_nil]).
    apply SSorted_nil. }
  assert (Hvals : HandEvaluator.sort_desc (uniqZ (map Card.value s)) = target)
    by exact (sorted_distinct_values _ _ Ps St).
  assert (Hnd : NoDup (map Card.value s)).
  { apply (Permutation_NoDup (Permutation_sym Ps)).
    clear -St. induction St as [|a l _ IH Hall]; constructor; [|exact IH].
    intro Hin. rewrite Forall_forall in Hall. specialize (Hall _ Hin). lia. }
  assert (Hhigh : HandEvaluator.getStraightHighCard s = Some high).
  { unfold HandEvaluator.getStraightHighCard. rewrite Hvals. unfold target.
    cbn [length Nat.eqb negb HandEvaluator.isConsecutive HandEvaluator.consecutiveAfter].
    repeat (rewrite (proj2 (Z.eqb_eq _ _)) by lia). reflexivity. }
  assert (Hfl : HandEvaluator.isFlush s = HandEvaluator.isFlush cards)
    by (apply isFlush_perm, sortCardsDesc_perm).
  destruct (no_multiples_when_distinct s Hnd) as [H4 Hfh].
  eexists. split.
  - unfold HandEvaluator.evaluateHand. rewrite Hlen. cbn [Nat.eqb negb]. reflexivity.
  - fold s.
    unfold HandEvaluator.checkRoyalFlush, HandEvaluator.checkStraightFlush,
      HandEvaluator.checkFlush, HandEvaluator.checkStraight.
    rewrite H4, Hfh, Hhigh, Hfl.
    destruct (HandEvaluator.isFlush cards).
    + cbn [HandRanking.primaryValue].
      destruct (Z.eqb_spec high 14) as [E|N]; cbn [HandEvaluator.orElse];
        repeat split; try reflexivity. cbn [HandRanking.primaryValue]. lia.
    + cbn [HandEvaluator.orElse]. repeat split; reflexivity.
Qed.

Lemma X10_witness :
  exists h,
    HandEvaluator.evaluateHand
      [Card.mk Nine Hearts; Card.mk Jack Clubs; Card.mk Ten Hearts; Card.mk Queen Spades;
       Card.mk Eight Diamonds] = Ok h
    /\ HandRanking.rank h = Straight
    /\ HandRanking.primaryValue h = 12.
Proof.
  destruct (X10_consecutive_values_make_a_straight
              [Card.mk Nine Hearts; Card.mk Jack Clubs; Card.mk Ten Hearts;
               Card.mk Queen Spades; Card.mk Eight Diamonds] 12)
    as (h & E & Hr & Hp & _).
  - simpl.
    apply Permutation_sym.
    apply (Permutation_cons_app [9; 11; 10] [8]). simpl.
    apply (Permutation_cons_app [9] [10; 8]). simpl.
    apply (Permutation_cons_app [9] [8]). simpl.
    apply Permutation_refl.
  - exists h. split; [exact E|]. split; [exact Hr|exact Hp].
Defined.

(** ** Who is in the action order *)

Section ActionOrder.
Import ActionOrderRules.

Lemma findIndexFrom_found (allPlayers : list Player.t) :
  forall (k : Z) (p : Player.t),
    In p allPlayers ->
    exists j q,
      findIndexFrom k allPlayers (Player.id p) = k + Z.of_nat j
      /\ nth_error allPlayers j = Some q
      /\ Player.id q = Player.id p.
Proof.
  induction allPlayers as [|x l IH]; intros k p Hin; [destruct Hin|].
  cbn [findIndexFrom].
  destruct (String.eqb_spec (Player.id x) (Player.id p)) as [E|N].
  - exists 0%nat, x. split; [simpl; lia|]. split; [reflexivity|exact E].
  - destruct Hin as [->|Hin]; [congruence|].
    destruct (IH (k + 1) p Hin) as (j & q & Hf & Hn & Hq).
    exists (S j), q. split; [rewrite Hf; lia|]. split; assumption.
Qed.

Lemma ids_of_active_positions (allPlayers activePlayers : list Player.t) :
  (forall p, In p activePlayers -> In p allPlayers) ->
  idsAt allPlayers (activePositions allPlayers activePlayers)
  = map Player.id activePlayers.
Proof.
  unfold activePositions.
  induction activePlayers as [|p l IH]; intro Hsub; [reflexivity|].
  cbn [map filter].
  destruct (findIndexFrom_found allPlayers 0 p (Hsub p (or_introl eq_refl)))
    as (j & q & Hf & Hn & Hq).
  rewrite Hf.
  destruct (Z.eqb_spec (0 + Z.of_nat j) (-1)) as [E|_]; [lia|].
  cbn [negb idsAt flat_map].
  replace (Z.to_nat (0 + Z.of_nat j)) with j by lia.
  rewrite Hn, Hq. cbn [app]. f_equal.
  apply IH. intros p' Hp'. apply Hsub. right. exact Hp'.
Qed.

Lemma insertByDistance_perm (startPos : option nat) (maxSeats : nat) (x : Z) (l : list Z) :
  Permutation (insertByDistance startPos maxSeats x l) (x :: l).
Proof.
  induction l as [|y l IH]; cbn [insertByDistance].
  - apply Permutation_refl.
  - destruct (_ <=? 0).
    + apply Permutation_refl.
    + eapply Permutation_trans; [apply perm_skip, IH | apply perm_swap].
Qed.

Lemma sortByDistance_perm (positions : list Z) (startPos : option nat) (maxSeats : nat) :
  Permutation (sortByDistanceFromPosition positions startPos maxSeats) positions.
Proof.
  unfold sortByDistanceFromPosition.
  induction positions as [|x l IH]; cbn [fold_right].
  - apply Permutation_refl.
  - eapply Permutation_trans; [apply insertByDistance_perm | apply perm_skip, IH].
Qed.

Lemma rotateFirstToEnd_perm (l : list Z) : Permutation (rotateFirstToEnd l) l.
Proof.
  destruct l as [|x l]; [apply Permutation_refl|].
  cbn [rotateFirstToEnd]. apply Permutation_sym, Permutation_cons_append.
Qed.
End ActionOrder.

(** X12.  On every table and for every street, the action order lists the
    ids of exactly the active players (Active or AllIn), each as often as
    they are seated: nobody who has folded, is sitting out or is eliminated
    is asked to act and no active player is left out.  After the flop the
    starting bet is always 0. *)
Theorem X12_action_order_lists_the_active_players (tb : Table.t) (street : BettingStreet) :
  Permutation
    (ActionOrderRules.playerOrder (ActionOrderRules.getActionOrder tb street))
    (map Player.id (Table.getActivePlayers tb))
  /\ (street <> StreetPreflop ->
      ActionOrderRules.startingBet (ActionOrderRules.getActionOrder tb street) = 0).
Proof.
  assert (Hsub : forall p, In p (Table.getActivePlayers tb) -> In p (Table.getPlayers tb)).
  { intros p Hp. unfold Table.getActivePlayers in Hp. apply filter_In in Hp. tauto. }
  pose proof (ids_of_active_positions _ _ Hsub) as Hids.
  unfold ActionOrderRules.getActionOrder.
  destruct (Table.getActivePlayers tb) as [|a l] eqn:Eact.
  - split; [apply Permutation_refl | reflexivity].
  - assert (Hperm : forall ordered,
               Permutation ordered
                 (ActionOrderRules.activePositions (Table.getPlayers tb) (a :: l)) ->
               Permutation (ActionOrderRules.idsAt (Table.getPlayers tb) ordered)
                 (map Player.id (a :: l))).
    { intros ordered P. rewrite <- Hids.
      unfold ActionOrderRules.idsAt. apply Permutation_flat_map. exact P. }
    split.
    + destruct street;
        unfold ActionOrderRules.getPreflopOrder, ActionOrderRules.getPostFlopOrder;
        cbn [ActionOrderRules.playerOrder]; apply Hperm.
      * destruct (length (a :: l) =? 2)%nat.
        -- apply sortByDistance_perm.
        -- destruct (ActionOrderRules.isFirst _ _).
           ++ eapply Permutation_trans;
                [apply rotateFirstToEnd_perm | apply sortByDistance_perm].
           ++ apply sortByDistance_perm.
      * destruct (_ && _);
          [eapply Permutation_trans; [apply rotateFirstToEnd_perm|]|];
          apply sortByDistance_perm.
      * destruct (_ && _);
          [eapply Permutation_trans; [apply rotateFirstToEnd_perm|]|];
          apply sortByDistance_perm.
      * destruct (_ && _);
          [eapply Permutation_trans; [apply rotateFirstToEnd_perm|]|];
          apply sortByDistance_perm.
    + intro Hs. destruct street; [contradiction| | |]; reflexivity.
Qed.

Lemma X12_witness :
  let tb :=
    Table.mk [Some (Player.new "p1" 1000);
              Some (Player.mk "p2" [] 1000 0 Folded (Some ActFold));
              Some (Player.new "p3" 1000)]
      0 [] (Table.mkConfig 3 5 10) in
  Permutation
    (ActionOrderRules.playerOrder (ActionOrderRules.getActionOrder tb StreetFlop))
    ["p1"%string; "p3"%string]
  /\ ActionOrderRules.startingBet (ActionOrderRules.getActionOrder tb StreetFlop) = 0.
Proof.
  intro tb.
  destruct (X12_action_order_lists_the_active_players tb StreetFlop) as [P S].
  split; [exact P|]. apply S. discriminate.
Defined.

(** ** Whose turn it is *)

Lemma getPlayer_spec (tb : Table.t) (playerId : string) (p : Player.t) :
  Table.getPlayer tb playerId = Some p ->
  Player.id p = playerId /\ In (Some p) (Table.seats tb).
Proof.
  unfold Table.getPlayer. destruct (find _ _) as [seat|] eqn:F; [|discriminate].
  intros ->. apply find_some in F. destruct F as [Hin Hh].
  split; [|exact Hin]. simpl in Hh. apply String.eqb_eq. exact Hh.
Qed.

Lemma getPlayer_again (tb : Table.t) (playerId : string) (p : Player.t) :
  Table.getPlayer tb playerId = Some p -> Table.getPlayer tb (Player.id p) = Some p.
Proof.
  intro H. destruct (getPlayer_spec _ _ _ H) as [-> _]. exact H.
Qed.

Lemma findNextIn_spec (tb : Table.t) (cb : Z) (ids : list string) (p : Player.t) :
  BettingRoundTracker.findNextIn tb cb ids = Some p ->
  In (Player.id p) ids
  /\ Table.getPlayer tb (Player.id p) = Some p
  /\ BettingRoundTracker.canStillAct p = true
  /\ Player.currentBetAmount p < cb.
Proof.
  induction ids as [|x l IH]; [discriminate|].
  cbn [BettingRoundTracker.findNextIn].
  destruct (Table.getPlayer tb x) as [q|] eqn:G.
  - destruct (Player.hasFolded q || Player.isAllIn q) eqn:S.
    + intro H. destruct (IH H) as (A & B). split; [right; exact A | exact B].
    + destruct (Player.currentBetAmount q <? cb) eqn:L.
      * intro H. injection H as ->.
        destruct (getPlayer_spec _ _ _ G) as [E _].
        split; [left; symmetry; exact E|]. split; [rewrite E; exact G|].
        split; [unfold BettingRoundTracker.canStillAct; rewrite S; reflexivity|].
        apply Z.ltb_lt. exact L.
      * intro H. destruct (IH H) as (A & B). split; [right; exact A | exact B].
  - intro H. destruct (IH H) as (A & B). split; [right; exact A | exact B].
Qed.

Lemma findNextIn_none (tb : Table.t) (cb : Z) (ids : list string) :
  BettingRoundTracker.findNextIn tb cb ids = None ->
  forall playerId p,
    In playerId ids ->
    Table.getPlayer tb playerId = Some p ->
    BettingRoundTracker.canStillAct p = true ->
    cb <= Player.currentBetAmount p.
Proof.
  unfold BettingRoundTracker.canStillAct.
  induction ids as [|x l IH]; intros H playerId p Hin G C; [destruct Hin|].
  cbn [BettingRoundTracker.findNextIn] in H.
  destruct Hin as [->|Hin].
  - rewrite G in H. destruct (Player.hasFolded p || Player.isAllIn p); [discriminate|].
    destruct (Player.currentBetAmount p <? cb) eqn:L; [discriminate|].
    apply Z.ltb_ge. exact L.
  - apply (IH) with (playerId := playerId); try assumption.
    destruct (Table.getPlayer tb x) as [q|]; [|exact H].
    destruct (Player.hasFolded q || Player.isAllIn q); [exact H|].
    destruct (Player.currentBetAmount q <? cb); [discriminate|exact H].
Qed.

Lemma indexOf_in (playerId : string) (l : list string) :
  In playerId l ->
  exists i, BettingRoundTracker.indexOf playerId l = Some i /\ nth_error l i = Some playerId.
Proof.
  induction l as [|x l IH]; intro Hin; [destruct Hin|].
  cbn [BettingRoundTracker.indexOf].
  destruct (String.eqb_spec x playerId) as [->|N].
  - exists 0%nat. split; reflexivity.
  - destruct Hin as [E|Hin]; [contradiction|].
    destruct (IH Hin) as (i & -> & Hn). exists (S i). split; [reflexivity|exact Hn].
Qed.

Lemma playerInTurn_some (tb : Table.t) (tr : BettingRoundTracker.t) (p : Player.t) :
  BettingRoundTracker.playerInTurn tb tr = Some p ->
  nth_error (BettingRoundTracker.playerIdOrder tr) (BettingRoundTracker.currentActionIndex tr)
  = Some (Player.id p)
  /\ Table.getPlayer tb (Player.id p) = Some p
  /\ BettingRoundTracker.canStillAct p = true
  /\ (Player.currentBetAmount p < BettingRoundTracker.currentBetAmount tr
      \/ JsSet.has (BettingRoundTracker.playersActed tr) (Player.id p) = false).
Proof.
  unfold BettingRoundTracker.playerInTurn, BettingRoundTracker.canStillAct.
  destruct (nth_error _ _) as [playerId|]; [|discriminate].
  destruct (Table.getPlayer tb playerId) as [q|] eqn:G; [|discriminate].
  destruct (Player.hasFolded q || Player.isAllIn q) eqn:S; [discriminate|].
  destruct (_ <=? _) eqn:L; cbn [andb].
  - destruct (JsSet.has _ _) eqn:A; [discriminate|].
    intro H. injection H as ->.
    destruct (getPlayer_spec _ _ _ G) as [E _]. subst playerId. rewrite S.
    split; [reflexivity|]. split; [exact G|]. split; [reflexivity|]. right. exact A.
  - intro H. injection H as ->.
    destruct (getPlayer_spec _ _ _ G) as [E _]. subst playerId. rewrite S.
    split; [reflexivity|]. split; [exact G|]. split; [reflexivity|].
    left. apply Z.leb_gt. exact L.
Qed.

Lemma playerInTurn_none (tb : Table.t) (tr : BettingRoundTracker.t)
    (playerId : string) (p : Player.t) :
  BettingRoundTracker.playerInTurn tb tr = None ->
  nth_error (BettingRoundTracker.playerIdOrder tr) (BettingRoundTracker.currentActionIndex tr)
  = Some playerId ->
  Table.getPlayer tb playerId = Some p ->
  BettingRoundTracker.canStillAct p = true ->
  BettingRoundTracker.currentBetAmount tr <= Player.currentBetAmount p
  /\ JsSet.has (BettingRoundTracker.playersActed tr) (Player.id p) = true.
Proof.
  unfold BettingRoundTracker.playerInTurn, BettingRoundTracker.canStillAct.
  intros H N G C. rewrite N, G in H.
  destruct (Player.hasFolded p || Player.isAllIn p); [discriminate|].
  destruct (_ <=? _) eqn:L; cbn [andb] in H; [|discriminate].
  destruct (JsSet.has _ _); [|discriminate].
  split; [apply Z.leb_le; exact L | reflexivity].
Qed.

(** What a call of [getCurrentPlayer] gives, by induction on the number of
    ids left in the order. *)
Lemma getCurrentPlayer_spec (tb : Table.t) :
  forall (k : nat) (tr : BettingRoundTracker.t) (fuel : nat),
    (length (BettingRoundTracker.playerIdOrder tr)
     - BettingRoundTracker.currentActionIndex tr <= k)%nat ->
    (k < fuel)%nat ->
    exists r index',
      let tr' :=
        BettingRoundTracker.mk (BettingRoundTracker.round tr)
          (BettingRoundTracker.currentBetAmount tr)
          (BettingRoundTracker.lastRaiserPosition tr)
          (BettingRoundTracker.playerIdOrder tr) index'
          (BettingRoundTracker.playersActed tr) in
      BettingRoundTracker.getCurrentPlayerFuel fuel tb tr = Some (r, tr')
      /\ match r with
         | Some p =>
             nth_error (BettingRoundTracker.playerIdOrder tr) index' = Some (Player.id p)
             /\ Table.getPlayer tb (Player.id p) = Some p
             /\ BettingRoundTracker.canStillAct p = true
             /\ (Player.currentBetAmount p < BettingRoundTracker.currentBetAmount tr
                 \/ JsSet.has (BettingRoundTracker.playersActed tr) (Player.id p) = false)
         | None =>
             (forall playerId p,
                 In playerId (BettingRoundTracker.playerIdOrder tr) ->
                 Table.getPlayer tb playerId = Some p ->
                 BettingRoundTracker.canStillAct p = true ->
                 BettingRoundTracker.currentBetAmount tr <= Player.currentBetAmount p)
             /\ (forall i playerId p,
                    (BettingRoundTracker.currentActionIndex tr <= i)%nat ->
                    nth_error (BettingRoundTracker.playerIdOrder tr) i = Some playerId ->
                    Table.getPlayer tb playerId = Some p ->
                    BettingRoundTracker.canStillAct p = true ->
                    JsSet.has (BettingRoundTracker.playersActed tr) (Player.id p) = true)
         end.
Proof.
  induction k as [|k IH]; intros tr fuel Hk Hf;
    (destruct fuel as [|fuel]; [lia|]);
    destruct tr as [rd cb lr order index acted];
    cbn [BettingRoundTracker.playerIdOrder BettingRoundTracker.currentActionIndex
         BettingRoundTracker.round BettingRoundTracker.currentBetAmount
         BettingRoundTracker.lastRaiserPosition BettingRoundTracker.playersActed] in *;
    cbn [BettingRoundTracker.getCurrentPlayerFuel];
    unfold BettingRoundTracker.lookBack, BettingRoundTracker.findNextPlayerToAct;
    cbn [BettingRoundTracker.playerIdOrder BettingRoundTracker.currentActionIndex
         BettingRoundTracker.round BettingRoundTracker.currentBetAmount
         BettingRoundTracker.lastRaiserPosition BettingRoundTracker.playersActed].
  - (* the index has run past the order *)
    destruct (Nat.leb_spec (length order) index) as [Hpast|Hin]; [|lia].
    destruct (BettingRoundTracker.findNextIn tb cb order) as [np|] eqn:F.
    + destruct (findNextIn_spec _ _ _ _ F) as (Hino & G & C & L).
      destruct (indexOf_in _ _ Hino) as (i & -> & Hn).
      unfold BettingRoundTracker.playerInTurn;
        cbn [BettingRoundTracker.playerIdOrder BettingRoundTracker.currentActionIndex
             BettingRoundTracker.currentBetAmount BettingRoundTracker.playersActed].
      rewrite Hn, G.
      pose proof C as C'. unfold BettingRoundTracker.canStillAct in C'.
      destruct (Player.hasFolded np || Player.isAllIn np); [discriminate|].
      destruct (Z.leb_spec cb (Player.currentBetAmount np)) as [Hle|_]; [lia|].
      cbn [andb]. exists (Some np), i. cbn zeta. split; [reflexivity|].
      split; [exact Hn|]. split; [exact G|]. split; [exact C|left; exact L].
    + exists None, index. cbn zeta. split; [reflexivity|]. split.
      * intros playerId p Hi G C. exact (findNextIn_none _ _ _ F _ _ Hi G C).
      * intros i playerId p Hi Hn. exfalso.
        assert (nth_error order i = None) by (apply nth_error_None; lia). congruence.
  - destruct (Nat.leb_spec (length order) index) as [Hpast|Hin].
    + destruct (BettingRoundTracker.findNextIn tb cb order) as [np|] eqn:F.
      * destruct (findNextIn_spec _ _ _ _ F) as (Hino & G & C & L).
        destruct (indexOf_in _ _ Hino) as (i & -> & Hn).
        unfold BettingRoundTracker.playerInTurn;
          cbn [BettingRoundTracker.playerIdOrder BettingRoundTracker.currentActionIndex
               BettingRoundTracker.currentBetAmount BettingRoundTracker.playersActed].
        rewrite Hn, G.
        pose proof C as C'. unfold BettingRoundTracker.canStillAct in C'.
        destruct (Player.hasFolded np || Player.isAllIn np); [discriminate|].
        destruct (Z.leb_spec cb (Player.currentBetAmount np)) as [Hle|_]; [lia|].
        cbn [andb]. exists (Some np), i. cbn zeta. split; [reflexivity|].
        split; [exact Hn|]. split; [exact G|]. split; [exact C|left; exact L].
      * exists None, index. cbn zeta. split; [reflexivity|]. split.
        -- intros playerId p Hi G C. exact (findNextIn_none _ _ _ F _ _ Hi G C).
        -- intros i playerId p Hi Hn. exfalso.
           assert (nth_error order i = None) by (apply nth_error_None; lia). congruence.
    + destruct (BettingRoundTracker.playerInTurn tb
                  (BettingRoundTracker.mk rd cb lr order index acted)) as [p|] eqn:T.
      * exists (Some p), index. cbn zeta. split; [reflexivity|].
        exact (playerInTurn_some _ _ _ T).
      * destruct (IH (BettingRoundTracker.advanceToNextPlayer
                        (BettingRoundTracker.mk rd cb lr order index acted)) fuel)
          as (r & index' & Hrun & Hpost).
        { cbn. lia. }
        { lia. }
        cbn zeta in Hrun.
        cbn [BettingRoundTracker.advanceToNextPlayer BettingRoundTracker.playerIdOrder
             BettingRoundTracker.currentActionIndex BettingRoundTracker.round
             BettingRoundTracker.currentBetAmount BettingRoundTracker.lastRaiserPosition
             BettingRoundTracker.playersActed] in Hrun, Hpost.
        exists r, index'. cbn zeta. split; [exact Hrun|].
        destruct r as [p|]; [exact Hpost|].
        destruct Hpost as [Hall Hfrom]. split; [exact Hall|].
        intros i playerId p Hi Hn G C.
        destruct (Nat.eq_dec i index) as [->|Hne].
        -- exact (proj2 (playerInTurn_none _ _ _ _ T Hn G C)).
        -- apply (Hfrom i playerId p); try assumption. lia.
Qed.

(** X13.  [getCurrentPlayer] always comes to an end after at most one call
    per id of the action order plus one, and changes nothing of the tracker
    but the index.  A player it returns stands at the new index of the order,
    is seated, has neither folded nor gone all-in, and either owes chips or
    has not acted yet.  It returns null only when no player of the order who
    can still act owes chips and every such player from the old index on has
    acted. *)
Theorem X13_getCurrentPlayer_returns_who_must_act
    (tb : Table.t) (tr : BettingRoundTracker.t) :
  exists r index',
    let tr' :=
      BettingRoundTracker.mk (BettingRoundTracker.round tr)
        (BettingRoundTracker.currentBetAmount tr)
        (BettingRoundTracker.lastRaiserPosition tr)
        (BettingRoundTracker.playerIdOrder tr) index'
        (BettingRoundTracker.playersActed tr) in
    BettingRoundTracker.getCurrentPlayer tb tr = Some (r, tr')
    /\ (forall fuel,
           (length (BettingRoundTracker.playerIdOrder tr) < fuel)%nat ->
           BettingRoundTracker.getCurrentPlayerFuel fuel tb tr = Some (r, tr'))
    /\ match r with
       | Some p =>
           nth_error (BettingRoundTracker.playerIdOrder tr) index' = Some (Player.id p)
           /\ Table.getPlayer tb (Player.id p) = Some p
           /\ Player.hasFolded p = false
           /\ Player.isAllIn p = false
           /\ (Player.currentBetAmount p < BettingRoundTracker.currentBetAmount tr
               \/ JsSet.has (BettingRoundTracker.playersActed tr) (Player.id p) = false)
       | None =>
           (forall playerId p,
               In playerId (BettingRoundTracker.playerIdOrder tr) ->
               Table.getPlayer tb playerId = Some p ->
               Player.hasFolded p = false -> Player.isAllIn p = false ->
               BettingRoundTracker.currentBetAmount tr <= Player.currentBetAmount p)
           /\ (forall i playerId p,
                  (BettingRoundTracker.currentActionIndex tr <= i)%nat ->
                  nth_error (BettingRoundTracker.playerIdOrder tr) i = Some playerId ->
                  Table.getPlayer tb playerId = Some p ->
                  Player.hasFolded p = false -> Player.isAllIn p = false ->
                  JsSet.has (BettingRoundTracker.playersActed tr) (Player.id p) = true)
       end.
Proof.
  assert (Hcan : forall p, BettingRoundTracker.canStillAct p = true
                           <-> Player.hasFolded p = false /\ Player.isAllIn p = false).
  { intro p. unfold BettingRoundTracker.canStillAct.
    destruct (Player.hasFolded p), (Player.isAllIn p); cbn; intuition congruence. }
  destruct (getCurrentPlayer_spec tb (length (BettingRoundTracker.playerIdOrder tr)) tr
              (S (length (BettingRoundTracker.playerIdOrder tr))))
    as (r & index' & Hrun & Hpost); [lia|lia|].
  exists r, index'. cbn zeta in *. split; [exact Hrun|]. split.
  - intros fuel Hf.
    destruct (getCurrentPlayer_spec tb (length (BettingRoundTracker.playerIdOrder tr)) tr fuel)
      as (r2 & index2 & Hrun2 & _); [lia|lia|].
    cbn zeta in Hrun2. rewrite Hrun2.
    (* both runs are the same computation: compare through a common fuel *)
    clear Hpost.
    revert Hrun Hrun2. unfold BettingRoundTracker.getCurrentPlayer.
    generalize (S (length (BettingRoundTracker.playerIdOrder tr))) as f1.
    intros f1 H1 H2.
    assert (Hmono : forall f t res,
               BettingRoundTracker.getCurrentPlayerFuel f tb t = Some res ->
               forall f', (f <= f')%nat ->
                          BettingRoundTracker.getCurrentPlayerFuel f' tb t = Some res).
    { induction f as [|f IHf]; intros t res Hres f' Hle; [discriminate|].
      destruct f' as [|f']; [lia|].
      cbn [BettingRoundTracker.getCurrentPlayerFuel] in *.
      destruct (BettingRoundTracker.lookBack tb t) as [ret|t1]; [exact Hres|].
      destruct (BettingRoundTracker.playerInTurn tb t1); [exact Hres|].
      apply IHf; [exact Hres|lia]. }
    pose proof (Hmono _ _ _ H1 (f1 + fuel)%nat ltac:(lia)) as A.
    pose proof (Hmono _ _ _ H2 (f1 + fuel)%nat ltac:(lia)) as B.
    congruence.
  - destruct r as [p|].
    + destruct Hpost as (A & B & C & D). apply Hcan in C. tauto.
    + destruct Hpost as [A B]. split.
      * intros playerId p Hi G F1 F2. apply (A playerId p Hi G). apply Hcan. tauto.
      * intros i playerId p Hi Hn G F1 F2. apply (B i playerId p Hi Hn G). apply Hcan. tauto.
Qed.

Lemma find_seat_of_member (p : Player.t) :
  forall (seats : list (option Player.t)) (i : nat),
    NoDup (map Player.id (map snd (Table.occupiedFrom i seats))) ->
    In p (map snd (Table.occupiedFrom i seats)) ->
    find (Table.seatHolds (Player.id p)) seats = Some (Some p).
Proof.
  induction seats as [|[q|] r IH]; intros i Hnd Hin; cbn [Table.occupiedFrom map snd] in *.
  - destruct Hin.
  - cbn [find Table.seatHolds]. inversion Hnd as [|x l Hnotin Hnd']; subst.
    destruct Hin as [->|Hin].
    + rewrite String.eqb_refl. reflexivity.
    + destruct (String.eqb_spec (Player.id q) (Player.id p)) as [E|N].
      * exfalso. apply Hnotin. rewrite E. apply in_map. exact Hin.
      * apply (IH (S i)); assumption.
  - cbn [find Table.seatHolds]. apply (IH (S i)); assumption.
Qed.

Lemma getPlayer_of_member (tb : Table.t) (p : Player.t) :
  NoDup (map Player.id (Table.getPlayers tb)) ->
  In p (Table.getPlayers tb) ->
  Table.getPlayer tb (Player.id p) = Some p.
Proof.
  intros Hnd Hin. unfold Table.getPlayer.
  rewrite (find_seat_of_member p (Table.seats tb) 0 Hnd Hin). reflexivity.
Qed.

(** X14.  A betting round that is not complete has a player to act.  On a
    table whose seated players have distinct ids, with a tracker whose action
    order contains every active player who can still act and in which the
    players standing before the current index have acted (as is the case for
    a fresh tracker), [isRoundComplete() = false] implies that
    [getCurrentPlayer()] returns a player and not null. *)
Theorem X14_incomplete_round_has_a_player_to_act
    (tb : Table.t) (tr : BettingRoundTracker.t) :
  NoDup (map Player.id (Table.getPlayers tb)) ->
  (forall p, In p (Table.getActivePlayers tb) ->
             BettingRoundTracker.canStillAct p = true ->
             In (Player.id p) (BettingRoundTracker.playerIdOrder tr)) ->
  (forall i p,
      (i < BettingRoundTracker.currentActionIndex tr)%nat ->
      nth_error (BettingRoundTracker.playerIdOrder tr) i = Some (Player.id p) ->
      In p (Table.getActivePlayers tb) ->
      BettingRoundTracker.canStillAct p = true ->
      JsSet.has (BettingRoundTracker.playersActed tr) (Player.id p) = true) ->
  BettingRoundTracker.isRoundComplete tb tr = false ->
  exists p tr',
    BettingRoundTracker.getCurrentPlayer tb tr = Some (Some p, tr')
    /\ Table.getPlayer tb (Player.id p) = Some p
    /\ BettingRoundTracker.canStillAct p = true.
Proof.
  intros Hnd Hord Hbefore Hinc.
  (* somebody who can act owes chips or has not acted *)
  assert (Hwho : exists p,
             In p (Table.getActivePlayers tb)
             /\ BettingRoundTracker.canStillAct p = true
             /\ (Player.currentBetAmount p < BettingRoundTracker.currentBetAmount tr
                 \/ JsSet.has (BettingRoundTracker.playersActed tr) (Player.id p) = false)).
  { unfold BettingRoundTracker.isRoundComplete in Hinc.
    destruct (_ <=? 1)%nat; [discriminate|].
    destruct (existsb _ _) eqn:E1.
    - apply existsb_exists in E1. destruct E1 as (p & Hin & Hp).
      apply andb_true_iff in Hp. destruct Hp as [C L].
      exists p. split; [exact Hin|]. split; [exact C|]. left. apply Z.ltb_lt. exact L.
    - destruct (existsb _ _) eqn:E2 in Hinc; [|discriminate].
      apply existsb_exists in E2. destruct E2 as (p & Hin & Hp).
      apply andb_true_iff in Hp. destruct Hp as [C A].
      exists p. split; [exact Hin|]. split; [exact C|]. right.
      apply negb_true_iff. exact A. }
  destruct Hwho as (p & Hact & Hcan & Hneeds).
  assert (Hseated : In p (Table.getPlayers tb)).
  { unfold Table.getActivePlayers in Hact. apply filter_In in Hact. tauto. }
  pose proof (getPlayer_of_member tb p Hnd Hseated) as Hget.
  pose proof (Hord p Hact Hcan) as Hino.
  destruct (getCurrentPlayer_spec tb (length (BettingRoundTracker.playerIdOrder tr)) tr
              (S (length (BettingRoundTracker.playerIdOrder tr))))
    as (r & index' & Hrun & Hpost); [lia|lia|].
  cbn zeta in Hrun.
  destruct r as [q|].
  - exists q. eexists. split; [exact Hrun|]. tauto.
  - exfalso. destruct Hpost as [Hall Hfrom].
    pose proof (Hall _ _ Hino Hget Hcan) as Hmatched.
    destruct Hneeds as [Howes|Hnot]; [lia|].
    apply In_nth_error in Hino. destruct Hino as [i Hi].
    destruct (Nat.lt_ge_cases i (BettingRoundTracker.currentActionIndex tr)) as [Hlt|Hge].
    + rewrite (Hbefore i p Hlt Hi Hact Hcan) in Hnot. discriminate.
    + rewrite (Hfrom i _ p Hge Hi Hget Hcan) in Hnot. discriminate.
Qed.

Lemma X14_witness :
  let tb :=
    Table.mk [Some (Player.new "p1" 1000); Some (Player.new "p2" 1000);
              Some (Player.new "p3" 1000)]
      0 [] (Table.mkConfig 3 5 10) in
  exists p tr',
    BettingRoundTracker.getCurrentPlayer tb (BettingRoundTracker.new tb RoundFlop)
    = Some (Some p, tr')
    /\ Table.getPlayer tb (Player.id p) = Some p
    /\ BettingRoundTracker.canStillAct p = true.
Proof.
  intro tb.
  apply (X14_incomplete_round_has_a_player_to_act tb (BettingRoundTracker.new tb RoundFlop)).
  - vm_compute. repeat constructor; simpl; intuition discriminate.
  - intros p Hin _. vm_compute in Hin. vm_compute.
    destruct Hin as [<-|[<-|[<-|[]]]]; cbn; tauto.
  - intros i p Hlt. vm_compute in Hlt. lia.
  - vm_compute. reflexivity.
Defined.

(** X15.  [recordAction] for an id that is not seated throws and for a seated
    player always succeeds, whether or not it is that player's turn.  It moves
    the index on by one, keeps the action order, marks the player as having
    acted without forgetting anyone, and never lowers the bet to match: the
    new bet to match is the larger of the old one and the amount passed, so
    no player's call amount goes down. *)
Theorem X15_recordAction_never_lowers_the_bet
    (tb : Table.t) (tr : BettingRoundTracker.t) (playerId : string)
    (raisedAmount : option Z) :
  (Table.getPlayer tb playerId = None ->
   BettingRoundTracker.recordAction tb tr playerId raisedAmount
   = Throw (PlayerNotFound playerId))
  /\ (Table.getPlayer tb playerId <> None ->
      exists tr',
        BettingRoundTracker.recordAction tb tr playerId raisedAmount = Ok tr'
        /\ BettingRoundTracker.currentBetAmount tr'
           = Z.max (BettingRoundTracker.currentBetAmount tr)
               (match raisedAmount with
                | Some amount => amount
                | None => BettingRoundTracker.currentBetAmount tr
                end)
        /\ BettingRoundTracker.currentActionIndex tr'
           = S (BettingRoundTracker.currentActionIndex tr)
        /\ BettingRoundTracker.playerIdOrder tr' = BettingRoundTracker.playerIdOrder tr
        /\ JsSet.has (BettingRoundTracker.playersActed tr') playerId = true
        /\ (forall q, JsSet.has (BettingRoundTracker.playersActed tr) q = true ->
                      JsSet.has (BettingRoundTracker.playersActed tr') q = true)
        /\ (forall p, BettingRoundTracker.getCallAmount tr p
                      <= BettingRoundTracker.getCallAmount tr' p)).
Proof.
  unfold BettingRoundTracker.recordAction. split.
  - intros ->. reflexivity.
  - intro Hseated. destruct (Table.getPlayer tb playerId) as [player|]; [|congruence].
    eexists. split; [reflexivity|].
    assert (Hacted :
              JsSet.has (JsSet.add (BettingRoundTracker.playersActed tr) playerId) playerId
              = true
              /\ forall q, JsSet.has (BettingRoundTracker.playersActed tr) q = true ->
                           JsSet.has (JsSet.add (BettingRoundTracker.playersActed tr)
                                        playerId) q = true).
    { split; [apply has_add_same|].
      intros q Hq. unfold JsSet.add.
      destruct (JsSet.has (BettingRoundTracker.playersActed tr) playerId); [exact Hq|].
      unfold JsSet.has in *. rewrite existsb_app, Hq. reflexivity. }
    destruct Hacted as [Hself Hkeep].
    unfold BettingRoundTracker.getCallAmount.
    destruct raisedAmount as [amount|].
    + destruct (Z.ltb_spec (BettingRoundTracker.currentBetAmount tr) amount) as [Hlt|Hge];
        cbn [BettingRoundTracker.advanceToNextPlayer BettingRoundTracker.currentBetAmount
             BettingRoundTracker.currentActionIndex BettingRoundTracker.playerIdOrder
             BettingRoundTracker.playersActed BettingRoundTracker.round
             BettingRoundTracker.lastRaiserPosition];
        (split; [lia|]); (split; [reflexivity|]); (split; [reflexivity|]);
        (split; [exact Hself|]); (split; [exact Hkeep|]); intro p; lia.
    + cbn [BettingRoundTracker.advanceToNextPlayer BettingRoundTracker.currentBetAmount
           BettingRoundTracker.currentActionIndex BettingRoundTracker.playerIdOrder
           BettingRoundTracker.playersActed BettingRoundTracker.round
           BettingRoundTracker.lastRaiserPosition].
      (split; [lia|]); (split; [reflexivity|]); (split; [reflexivity|]);
      (split; [exact Hself|]); (split; [exact Hkeep|]); intro p; lia.
Qed.

Lemma X15_witness :
  let tb :=
    Table.mk [Some (Player.new "p1" 1000); Some (Player.new "p2" 1000)]
      0 [] (Table.mkConfig 2 5 10) in
  let tr := BettingRoundTracker.new tb RoundFlop in
  BettingRoundTracker.recordAction tb tr "p9" None = Throw (PlayerNotFound "p9")
  /\ exists tr',
       BettingRoundTracker.recordAction tb tr "p2" (Some 40) = Ok tr'
       /\ BettingRoundTracker.currentBetAmount tr' = 40
       /\ BettingRoundTracker.currentActionIndex tr' = 1%nat.
Proof.
  intros tb tr. split.
  - apply (proj1 (X15_recordAction_never_lowers_the_bet tb tr "p9" None)). reflexivity.
  - destruct (proj2 (X15_recordAction_never_lowers_the_bet tb tr "p2" (Some 40)))
      as (tr' & Hrun & Hbet & Hidx & _).
    + vm_compute. discriminate.
    + exists tr'. split; [exact Hrun|]. split; [exact Hbet|exact Hidx].
Defined.

(** ** The layers that [collectBets] builds *)

Lemma has_add (s : JsSet.t) (k q : string) :
  JsSet.has (JsSet.add s k) q = JsSet.has s q || String.eqb q k.
Proof.
  unfold JsSet.add. destruct (JsSet.has s k) eqn:Hk.
  - destruct (String.eqb_spec q k) as [->|_].
    + rewrite Hk. reflexivity.
    + rewrite orb_false_r. reflexivity.
  - unfold JsSet.has. rewrite existsb_app. cbn [existsb]. rewrite orb_false_r. reflexivity.
Qed.

Lemma has_of_list (l : list string) (q : string) :
  forall acc, JsSet.has (fold_left JsSet.add l acc) q
              = JsSet.has acc q || existsb (String.eqb q) l.
Proof.
  induction l as [|k l IH]; intro acc; cbn [fold_left existsb].
  - rewrite orb_false_r. reflexivity.
  - rewrite IH, has_add, orb_assoc. reflexivity.
Qed.

Lemma has_delete (s : JsSet.t) (k q : string) :
  JsSet.has (JsSet.delete s k) q = JsSet.has s q && negb (String.eqb q k).
Proof.
  unfold JsSet.has, JsSet.delete.
  induction s as [|x s IH]; [reflexivity|].
  cbn [filter existsb].
  destruct (String.eqb_spec k x) as [->|Hkx]; cbn [negb existsb].
  - rewrite IH. destruct (String.eqb q x), (existsb (String.eqb q) s); reflexivity.
  - rewrite IH. destruct (String.eqb_spec q x) as [->|_]; cbn [orb].
    + destruct (String.eqb_spec x k) as [->|_]; [contradiction|reflexivity].
    + reflexivity.
Qed.

Lemma remove_all_eligibility (folded : JsSet.t) (q : string) :
  forall p,
    Pot.isPlayerEligible (fold_left Pot.removePlayerEligibility folded p) q
    = Pot.isPlayerEligible p q && negb (JsSet.has folded q)
    /\ Pot.contributions (fold_left Pot.removePlayerEligibility folded p)
       = Pot.contributions p.
Proof.
  induction folded as [|k r IH]; intro p; cbn [fold_left].
  - split; [|reflexivity]. unfold JsSet.has. cbn. rewrite andb_true_r. reflexivity.
  - destruct (IH (Pot.removePlayerEligibility p k)) as [E C]. split; [|exact C].
    rewrite E. unfold Pot.isPlayerEligible, Pot.removePlayerEligibility.
    cbn [Pot.eligiblePlayerIds]. rewrite has_delete.
    change (JsSet.has (k :: r) q) with (String.eqb q k || JsSet.has r q).
    destruct (JsSet.has (Pot.eligiblePlayerIds p) q), (String.eqb q k), (JsSet.has r q);
      reflexivity.
Qed.

Lemma addContribution_pointwise (p p' : Pot.t) (id : string) (a : Z) :
  Pot.addContribution p id a = Ok p' ->
  forall q,
    Pot.getPlayerContribution p' q
    = Pot.getPlayerContribution p q + (if String.eqb q id then a else 0)
    /\ Pot.isPlayerEligible p' q = Pot.isPlayerEligible p q || String.eqb q id.
Proof.
  unfold Pot.addContribution. destruct (a <=? 0); [discriminate|].
  intros H q. injection H as <-.
  unfold Pot.getPlayerContribution, Pot.isPlayerEligible.
  cbn [Pot.contributions Pot.eligiblePlayerIds]. split.
  - rewrite getOr_set, (String.eqb_sym q id).
    destruct (String.eqb_spec id q) as [->|_]; lia.
  - destruct (JsSet.has (Pot.eligiblePlayerIds p) id) eqn:Hid; cbn [negb].
    + destruct (String.eqb_spec q id) as [->|_].
      * rewrite Hid. reflexivity.
      * rewrite orb_false_r. reflexivity.
    + apply has_add.
Qed.

Lemma collectContributions_pointwise (amt : Z) (ids : list string) :
  forall (pot : Pot.t) (R : JsMap.t Z) (pot' : Pot.t) (R' : JsMap.t Z),
    PotManager.collectContributions amt ids (pot, R) = Ok (pot', R') ->
    NoDup ids ->
    forall q,
      Pot.getPlayerContribution pot' q
      = Pot.getPlayerContribution pot q + (if existsb (String.eqb q) ids then amt else 0)
      /\ Pot.isPlayerEligible pot' q
         = Pot.isPlayerEligible pot q || existsb (String.eqb q) ids.
Proof.
  induction ids as [|id ids IH]; intros pot R pot' R' H Hnd q.
  - cbn in H. injection H as <- <-. cbn [existsb]. rewrite orb_false_r. split; [lia|reflexivity].
  - cbn [PotManager.collectContributions] in H. unfold PotManager.collectOne in H.
    destruct (Pot.addContribution pot id amt) as [p1|e] eqn:E1; [|discriminate].
    cbn [bind] in H. inversion Hnd as [|x l Hnotin Hnd']; subst.
    destruct (IH _ _ _ _ H Hnd' q) as [C2 E2].
    destruct (addContribution_pointwise _ _ _ _ E1 q) as [C1 E1'].
    rewrite C2, E2, C1, E1'. cbn [existsb].
    destruct (String.eqb_spec q id) as [->|_]; cbn [orb].
    + assert (Hno : existsb (String.eqb id) ids = false).
      { destruct (existsb (String.eqb id) ids) eqn:Ex; [|reflexivity].
        apply existsb_exists in Ex. destruct Ex as (x & Hx & Hq).
        apply String.eqb_eq in Hq. subst x. contradiction. }
      rewrite Hno. split; [lia|].
      destruct (Pot.isPlayerEligible pot id); reflexivity.
    + split; [lia|]. rewrite orb_false_r. reflexivity.
Qed.

Lemma getOr_absent (R : JsMap.t Z) (q : string) :
  ~ In q (JsMap.keys R) -> JsMap.getOr R q 0 = 0.
Proof.
  unfold JsMap.getOr, JsMap.keys.
  induction R as [|[k v] R IH]; intro Hno; [reflexivity|].
  cbn [JsMap.get]. cbn [map fst] in Hno.
  destruct (String.eqb_spec k q) as [->|_].
  - exfalso. apply Hno. left. reflexivity.
  - apply IH. intro H. apply Hno. right. exact H.
Qed.

Lemma contributors_of_level (amt : Z) (q : string) (R : JsMap.t Z) :
  0 < amt ->
  NoDup (JsMap.keys R) ->
  existsb (String.eqb q) (map fst (filter (fun e => amt <=? snd e) R))
  = (amt <=? JsMap.getOr R q 0).
Proof.
  intros Ha. induction R as [|[k v] R IH]; intro Hnd.
  - cbn. symmetry. apply Z.leb_gt. exact Ha.
  - unfold JsMap.keys in Hnd. cbn [map fst] in Hnd.
    inversion Hnd as [|x l Hnotin Hnd']; subst.
    specialize (IH Hnd').
    unfold JsMap.getOr in *. cbn [JsMap.get filter snd].
    destruct (String.eqb_spec k q) as [->|Hkq].
    + pose proof (getOr_absent R q Hnotin) as Habs. unfold JsMap.getOr in Habs.
      rewrite Habs in IH.
      destruct (amt <=? v) eqn:E; cbn [map fst existsb].
      * rewrite String.eqb_refl. reflexivity.
      * rewrite IH. apply Z.leb_gt. exact Ha.
    + destruct (amt <=? v); cbn [map fst existsb]; [|exact IH].
      destruct (String.eqb_spec q k) as [->|_]; [contradiction|]. exact IH.
Qed.

Lemma contributors_distinct (f : string * Z -> bool) (R : JsMap.t Z) :
  NoDup (JsMap.keys R) -> NoDup (map fst (filter f R)).
Proof.
  unfold JsMap.keys. induction R as [|e R IH]; intro Hnd; [constructor|].
  cbn [map] in Hnd. inversion Hnd as [|x l Hnotin Hnd']; subst.
  cbn [filter]. destruct (f e); [|apply IH; exact Hnd'].
  cbn [map]. constructor; [|apply IH; exact Hnd'].
  intro Hin. apply Hnotin. apply in_map_iff in Hin. destruct Hin as (e' & <- & He').
  apply in_map. apply filter_In in He'. tauto.
Qed.

Lemma existsb_filter_absorbed (q : string) (f : string -> bool) (l : list string) :
  existsb (String.eqb q) (filter f l) || existsb (String.eqb q) l
  = existsb (String.eqb q) l.
Proof.
  induction l as [|x l IH]; [reflexivity|].
  cbn [filter]. destruct (f x); cbn [existsb].
  - destruct (String.eqb q x); [reflexivity|exact IH].
  - destruct (String.eqb q x); [apply orb_true_r|exact IH].
Qed.

(** One pass of the level loop that finds a contributor: the pot it builds
    and where it puts it. *)
Lemma collectLevel_layer (folded : JsSet.t) (amt : Z) (R : JsMap.t Z) (pm : PotManager.t) :
  0 < amt ->
  NoDup (JsMap.keys R) ->
  filter (fun e : string * Z => amt <=? snd e) R <> [] ->
  exists pot,
    PotManager.collectLevel folded amt (R, pm)
    = Ok (map (fun e => if amt <=? snd e then (fst e, snd e - amt) else e) R,
          if Pot.total (PotManager.mainPot pm) =? 0
          then {| PotManager.mainPot := pot; PotManager.sidePots := PotManager.sidePots pm |}
          else {| PotManager.mainPot := PotManager.mainPot pm;
                  PotManager.sidePots := PotManager.sidePots pm ++ [pot] |})
    /\ Pot.total pot
       = amt * Z.of_nat (length (filter (fun e : string * Z => amt <=? snd e) R))
    /\ forall q,
         Pot.getPlayerContribution pot q = (if amt <=? JsMap.getOr R q 0 then amt else 0)
         /\ Pot.isPlayerEligible pot q
            = (amt <=? JsMap.getOr R q 0) && negb (JsSet.has folded q).
Proof.
  intros Ha Hnd Hne.
  pose proof (fold_updates amt R [] Hnd) as HF. simpl in HF.
  pose proof (contributors_distinct (fun e => amt <=? snd e) R Hnd) as Hdist.
  assert (Hmem : forall q,
             existsb (String.eqb q) (map fst (filter (fun e => amt <=? snd e) R))
             = (amt <=? JsMap.getOr R q 0))
    by (intro q; apply contributors_of_level; assumption).
  assert (Hlen : length (map fst (filter (fun e : string * Z => amt <=? snd e) R))
                 = length (filter (fun e : string * Z => amt <=? snd e) R))
    by apply length_map.
  unfold PotManager.collectLevel.
  destruct (map fst (filter (fun e => amt <=? snd e) R)) as [|id ids] eqn:Eids.
  - exfalso. apply Hne. destruct (filter _ R); [reflexivity|discriminate].
  - set (elig := filter (fun id0 => negb (JsSet.has folded id0)) (id :: ids)).
    destruct (collectContributions_ok amt (id :: ids) (Pot.new elig) R Ha)
      as [pot1 [E T]].
    rewrite E. cbn [bind]. rewrite HF.
    exists (fold_left Pot.removePlayerEligibility folded pot1).
    split; [destruct (Pot.total (PotManager.mainPot pm) =? 0); reflexivity|].
    split.
    + rewrite removeEligibility_total, T, <- Hlen.
      change (Pot.total (Pot.new elig)) with 0. lia.
    + intro q.
      destruct (collectContributions_pointwise _ _ _ _ _ _ E Hdist q) as [C1 E1].
      destruct (remove_all_eligibility folded q pot1) as [E2 C2].
      rewrite Hmem in C1, E1. split.
      * unfold Pot.getPlayerContribution in *. rewrite C2, C1.
        cbn [Pot.new Pot.contributions]. unfold JsMap.getOr. cbn [JsMap.get]. lia.
      * rewrite E2, E1. f_equal.
        unfold Pot.isPlayerEligible, Pot.new, JsSet.of_list. cbn [Pot.eligiblePlayerIds].
        rewrite has_of_list. unfold JsSet.has at 1. cbn [existsb orb].
        unfold elig. rewrite <- Hmem. apply existsb_filter_absorbed.
Qed.

Lemma getOr_after_levels (bets : JsMap.t Z) (prev : Z) (q : string) :
  0 <= prev ->
  JsMap.getOr (map (fun e : string * Z => (fst e, Z.max 0 (snd e - prev))) bets) q 0
  = Z.max 0 (JsMap.getOr bets q 0 - prev).
Proof.
  intro Hp. unfold JsMap.getOr.
  induction bets as [|[k v] bets IH]; cbn [map fst snd JsMap.get].
  - lia.
  - destruct (String.eqb k q); [reflexivity|exact IH].
Qed.

Section Layers.
Variable bets : JsMap.t Z.
Variable folded : JsSet.t.
Hypothesis bets_distinct : NoDup (JsMap.keys bets).
Hypothesis bets_nonneg : forall v, In v (JsMap.values bets) -> 0 <= v.

(** What is left to contribute once the levels up to [prev] are done. *)
Let leftAfter (prev : Z) : JsMap.t Z :=
  map (fun e : string * Z => (fst e, Z.max 0 (snd e - prev))) bets.

Lemma leftAfter_zero : leftAfter 0 = bets.
Proof.
  unfold leftAfter. rewrite <- (map_id bets) at 2. apply map_ext_in.
  intros [k v] He. cbn [fst snd].
  assert (0 <= v) by (apply bets_nonneg; apply (in_map snd) in He; exact He).
  f_equal. lia.
Qed.

Lemma leftAfter_step (prev L : Z) :
  0 <= prev -> prev < L ->
  (forall v, In v (JsMap.values bets) -> v <= prev \/ L <= v) ->
  map (fun e => if L - prev <=? snd e then (fst e, snd e - (L - prev)) else e)
    (leftAfter prev)
  = leftAfter L
  /\ filter (fun e : string * Z => L - prev <=? snd e) (leftAfter prev)
     = map (fun e : string * Z => (fst e, Z.max 0 (snd e - prev)))
         (filter (fun e : string * Z => L <=? snd e) bets).
Proof.
  intros Hp HL Hgap. unfold leftAfter. split.
  - rewrite map_map. apply map_ext_in. intros [k v] He. cbn [fst snd].
    assert (Hv : v <= prev \/ L <= v)
      by (apply Hgap; apply (in_map snd) in He; exact He).
    destruct (Z.leb_spec (L - prev) (Z.max 0 (v - prev))); f_equal; lia.
  - rewrite filter_map_swap. f_equal. apply filter_ext. intros [k v]. cbn [fst snd].
    destruct (Z.leb_spec (L - prev) (Z.max 0 (v - prev))), (Z.leb_spec L v);
      try reflexivity; lia.
Qed.

(** The level loop on a manager whose main pot already holds chips: every
    level adds one side pot. *)
Lemma collectLevels_layers :
  forall (levels : list Z) (prev : Z) (pm : PotManager.t),
    0 <= prev ->
    StronglySorted Z.lt (prev :: levels) ->
    (forall v, In v (JsMap.values bets) -> v <= prev \/ In v levels) ->
    (forall L, In L levels -> In L (JsMap.values bets)) ->
    Pot.total (PotManager.mainPot pm) <> 0 ->
    exists R' layers,
      PotManager.collectLevels folded prev levels (leftAfter prev, pm)
      = Ok (R', {| PotManager.mainPot := PotManager.mainPot pm;
                   PotManager.sidePots := PotManager.sidePots pm ++ layers |})
      /\ Forall2
           (fun pot pl =>
              Pot.total pot
              = (snd pl - fst pl)
                * Z.of_nat (length (filter (fun e : string * Z => snd pl <=? snd e) bets))
              /\ forall q,
                   Pot.getPlayerContribution pot q
                   = (if snd pl <=? JsMap.getOr bets q 0 then snd pl - fst pl else 0)
                   /\ Pot.isPlayerEligible pot q
                      = (snd pl <=? JsMap.getOr bets q 0) && negb (JsSet.has folded q))
           layers (combine (prev :: levels) levels).
Proof.
  induction levels as [|L rest IH]; intros prev pm Hp Hs Hcover Hreal Hmain.
  - exists (leftAfter prev), []. split; [|constructor].
    cbn [PotManager.collectLevels]. rewrite app_nil_r. destruct pm; reflexivity.
  - inversion Hs as [|p l Hs' Hall]; subst.
    assert (HpL : prev < L) by (inversion Hall; assumption).
    assert (HLrest : forall x, In x rest -> L < x).
    { inversion Hs' as [|p l _ HallL]; subst.
      rewrite Forall_forall in HallL. exact HallL. }
    assert (Hgap : forall v, In v (JsMap.values bets) -> v <= prev \/ L <= v).
    { intros v Hv. destruct (Hcover v Hv) as [H|[<-|H]]; [left; exact H|right; lia|].
      right. pose proof (HLrest v H). lia. }
    destruct (leftAfter_step prev L Hp HpL Hgap) as [Hnext Hwho].
    destruct (collectLevel_layer folded (L - prev) (leftAfter prev) pm) as (pot & E & T & Hq).
    + lia.
    + unfold leftAfter, JsMap.keys. rewrite map_map. cbn [fst]. exact bets_distinct.
    + rewrite Hwho. pose proof (Hreal L (or_introl eq_refl)) as HinL.
      unfold JsMap.values in HinL. apply in_map_iff in HinL.
      destruct HinL as ([k v] & Hv & He). cbn [snd] in Hv. subst v.
      intro Hnil. apply map_eq_nil in Hnil.
      assert (Hin : In (k, L) (filter (fun e : string * Z => L <=? snd e) bets)).
      { apply filter_In. split; [exact He|]. cbn [snd]. apply Z.leb_refl. }
      rewrite Hnil in Hin. destruct Hin.
    + rewrite Hnext in E.
      destruct (Pot.total (PotManager.mainPot pm) =? 0) eqn:Em;
        [apply Z.eqb_eq in Em; contradiction|].
      destruct (IH L {| PotManager.mainPot := PotManager.mainPot pm;
                        PotManager.sidePots := PotManager.sidePots pm ++ [pot] |})
        as (R' & layers & E2 & F2).
      * lia.
      * exact Hs'.
      * intros v Hv. destruct (Hcover v Hv) as [H|[<-|H]]; [left; lia|left; lia|right; exact H].
      * intros L' HL'. apply Hreal. right. exact HL'.
      * exact Hmain.
      * exists R', (pot :: layers). split.
        -- cbn [PotManager.collectLevels]. rewrite E. cbn [bind].
           eapply eq_trans; [exact E2|].
           cbn [PotManager.mainPot PotManager.sidePots].
           rewrite <- app_assoc. reflexivity.
        -- cbn [combine]. constructor; [|exact F2]. cbn [fst snd]. split.
           ++ rewrite T, Hwho, length_map. reflexivity.
           ++ intro q. destruct (Hq q) as [C El].
              pose proof (getOr_after_levels bets prev q Hp) as Hleft.
              change (map (fun e : string * Z => (fst e, Z.max 0 (snd e - prev))) bets)
                with (leftAfter prev) in Hleft.
              rewrite Hleft in C, El.
              assert (Hsame : (L - prev <=? Z.max 0 (JsMap.getOr bets q 0 - prev))
                              = (L <=? JsMap.getOr bets q 0)).
              { destruct (Z.leb_spec (L - prev) (Z.max 0 (JsMap.getOr bets q 0 - prev))),
                  (Z.leb_spec L (JsMap.getOr bets q 0)); try reflexivity; lia. }
              rewrite Hsame in C, El. split; assumption.
Qed.

(** The level loop on any manager: the first layer becomes the main pot when
    the main pot is empty. *)
Lemma collectLevels_from_zero (L : Z) (rest : list Z) (pm : PotManager.t) :
  StronglySorted Z.lt (0 :: L :: rest) ->
  (forall v, In v (L :: rest) <-> In v (JsMap.values bets) /\ 0 < v) ->
  exists R' first layers,
    PotManager.collectLevels folded 0 (L :: rest) (bets, pm)
    = Ok (R',
          if Pot.total (PotManager.mainPot pm) =? 0
          then {| PotManager.mainPot := first;
                  PotManager.sidePots := PotManager.sidePots pm ++ layers |}
          else {| PotManager.mainPot := PotManager.mainPot pm;
                  PotManager.sidePots := PotManager.sidePots pm ++ first :: layers |})
    /\ Forall2
         (fun pot pl =>
            Pot.total pot
            = (snd pl - fst pl)
              * Z.of_nat (length (filter (fun e : string * Z => snd pl <=? snd e) bets))
            /\ forall q,
                 Pot.getPlayerContribution pot q
                 = (if snd pl <=? JsMap.getOr bets q 0 then snd pl - fst pl else 0)
                 /\ Pot.isPlayerEligible pot q
                    = (snd pl <=? JsMap.getOr bets q 0) && negb (JsSet.has folded q))
         (first :: layers) (combine (0 :: L :: rest) (L :: rest)).
Proof.
  intros Hs Hlev.
  inversion Hs as [|p l Hs' Hall]; subst.
  assert (HL : 0 < L) by (inversion Hall; assumption).
  assert (HLrest : forall x, In x rest -> L < x).
  { inversion Hs' as [|p l _ HallL]; subst.
    rewrite Forall_forall in HallL. exact HallL. }
  assert (Hgap : forall v, In v (JsMap.values bets) -> v <= 0 \/ L <= v).
  { intros v Hv. pose proof (bets_nonneg v Hv).
    destruct (Z.eq_dec v 0) as [->|Hne]; [left; lia|].
    assert (Hpos : 0 < v) by lia.
    destruct (proj2 (Hlev v) (conj Hv Hpos)) as [<-|Hin]; [right; lia|].
    right. pose proof (HLrest v Hin). lia. }
  destruct (leftAfter_step 0 L ltac:(lia) HL Hgap) as [Hnext Hwho].
  rewrite leftAfter_zero in Hnext, Hwho. rewrite Z.sub_0_r in Hnext, Hwho.
  assert (Hsome : filter (fun e : string * Z => L <=? snd e) bets <> []).
  { destruct (proj1 (Hlev L) (or_introl eq_refl)) as [HinL _].
    unfold JsMap.values in HinL. apply in_map_iff in HinL.
    destruct HinL as ([k v] & Hv & He). cbn [snd] in Hv. subst v.
    intro Hnil.
    assert (Hin : In (k, L) (filter (fun e : string * Z => L <=? snd e) bets)).
    { apply filter_In. split; [exact He|]. cbn [snd]. apply Z.leb_refl. }
    rewrite Hnil in Hin. destruct Hin. }
  destruct (collectLevel_layer folded L bets pm HL bets_distinct Hsome) as (pot & E & T & Hq).
  rewrite Hnext in E.
  assert (Hpos : Pot.total pot <> 0).
  { rewrite T. destruct (filter (fun e : string * Z => L <=? snd e) bets);
      [contradiction|cbn [length]; lia]. }
  set (pm1 := if Pot.total (PotManager.mainPot pm) =? 0
              then {| PotManager.mainPot := pot;
                      PotManager.sidePots := PotManager.sidePots pm |}
              else {| PotManager.mainPot := PotManager.mainPot pm;
                      PotManager.sidePots := PotManager.sidePots pm ++ [pot] |}) in *.
  destruct (collectLevels_layers rest L pm1) as (R' & layers & E2 & F2).
  - lia.
  - exact Hs'.
  - intros v Hv. destruct (Hgap v Hv) as [H|H].
    + left. lia.
    + assert (Hvpos : 0 < v) by lia.
      destruct (proj2 (Hlev v) (conj Hv Hvpos)) as [<-|Hin]; [left; lia|right; exact Hin].
  - intros L' HL'. apply (proj1 (Hlev L')). right. exact HL'.
  - unfold pm1. destruct (Z.eqb_spec (Pot.total (PotManager.mainPot pm)) 0) as [Ez|Enz];
      cbn [PotManager.mainPot]; assumption.
  - exists R', pot, layers. split.
    + cbn [PotManager.collectLevels]. rewrite Z.sub_0_r, E. cbn [bind].
      eapply eq_trans; [exact E2|].
      unfold pm1. destruct (Pot.total (PotManager.mainPot pm) =? 0);
        cbn [PotManager.mainPot PotManager.sidePots]; [reflexivity|].
      rewrite <- app_assoc. reflexivity.
    + cbn [combine]. constructor; [|exact F2]. cbn [fst snd]. rewrite Z.sub_0_r.
      split; [exact T|]. intro q. exact (Hq q).
Qed.
End Layers.

(** [PotManager.collectBets] returns normally on every input: the amounts it
    passes to [addContribution] are differences of ascending levels. *)
Lemma collectBets_never_throws (pm : PotManager.t) (bets : JsMap.t Z)
    (allIn folded : JsSet.t) :
  exists pm', PotManager.collectBets pm bets allIn folded = Ok pm'.
Proof.
  unfold PotManager.collectBets.
  destruct (JsMap.size bets =? 0)%nat; [exists pm; reflexivity|].
  destruct (levels_spec (JsMap.values bets)) as [Hs _].
  destruct (sort_asc _) as [|L rest]; [exists pm; reflexivity|].
  assert (Hloop : forall levels prev st,
             StronglySorted Z.lt (prev :: levels) ->
             exists st', PotManager.collectLevels folded prev levels st = Ok st').
  { induction levels as [|L' rest' IH]; intros prev st Hsorted.
    - exists st. reflexivity.
    - inversion Hsorted as [|p l Hs' Hall]; subst.
      assert (prev < L') by (inversion Hall; assumption).
      assert (Hstep : exists st1, PotManager.collectLevel folded (L' - prev) st = Ok st1).
      { destruct st as [R pm0]. unfold PotManager.collectLevel.
        destruct (map fst (filter _ R)) as [|id ids]; [eexists; reflexivity|].
        destruct (collectContributions_ok (L' - prev) (id :: ids)
                    (Pot.new (filter (fun id0 => negb (JsSet.has folded id0)) (id :: ids)))
                    R ltac:(lia)) as [pot1 [E _]].
        rewrite E. cbn [bind].
        destruct (Pot.total (PotManager.mainPot pm0) =? 0); eexists; reflexivity. }
      destruct Hstep as [st1 E1]. destruct (IH L' st1 Hs') as [st' E2].
      exists st'. cbn [PotManager.collectLevels]. rewrite E1. cbn [bind]. exact E2. }
  destruct (Hloop (L :: rest) 0 (bets, pm) Hs) as [[R' pm'] E].
  exists pm'. rewrite E. reflexivity.
Qed.

(** X16.  The layers of [collectBets].  (1) For a Map with distinct ids and
    non-negative integer amounts, let the levels be the distinct positive
    amounts in ascending order.  [collectBets] builds exactly one pot per
    level: the pot of level L (after level P, or 0) holds L - P chips from
    every player whose bet is at least L and nothing from anybody else, and
    its eligible players are those contributors who have not folded (an
    all-in player is eligible exactly for the levels up to their bet).  When
    the main pot of the manager is empty, the first layer becomes the main
    pot and the others are appended to the side pots; otherwise the main pot
    is left alone and every layer becomes a new side pot, all-in or not.
    (2) The integrality matters.  On the binary64 amounts p1: 20 * 0.66 =
    13.200000000000001, p2: 20, p3: 30 there are three levels and the same
    code builds two pots: after two layers p3 has 9.999999999999998 left,
    below the 10 that the third level asks for, and that layer is skipped. *)
#[warnings="-inexact-float"] Theorem X16_collectBets_builds_one_layer_per_level :
  (forall (pm : PotManager.t) (bets : JsMap.t Z) (allIn folded : JsSet.t),
      NoDup (JsMap.keys bets) ->
      (forall v, In v (JsMap.values bets) -> 0 <= v) ->
      exists levels layers,
        StronglySorted Z.lt (0 :: levels)
        /\ (forall v, In v levels <-> In v (JsMap.values bets) /\ 0 < v)
        /\ PotManager.collectBets pm bets allIn folded
           = Ok (match layers with
                 | [] => pm
                 | first :: others =>
                     if Pot.total (PotManager.mainPot pm) =? 0
                     then {| PotManager.mainPot := first;
                             PotManager.sidePots := PotManager.sidePots pm ++ others |}
                     else {| PotManager.mainPot := PotManager.mainPot pm;
                             PotManager.sidePots := PotManager.sidePots pm ++ layers |}
                 end)
        /\ Forall2
             (fun pot pl =>
                Pot.total pot
                = (snd pl - fst pl)
                  * Z.of_nat (length (filter (fun e : string * Z => snd pl <=? snd e) bets))
                /\ forall q,
                     Pot.getPlayerContribution pot q
                     = (if snd pl <=? JsMap.getOr bets q 0 then snd pl - fst pl else 0)
                     /\ Pot.isPlayerEligible pot q
                        = (snd pl <=? JsMap.getOr bets q 0) && negb (JsSet.has folded q))
             layers (combine (0 :: levels) levels))
  /\
  (let bets :=
     [("p1"%string, (20 * 0.66)%float); ("p2"%string, 20%float); ("p3"%string, 30%float)] in
   Ledger.sort_asc JsNumber.doubles
     (Ledger.uniq JsNumber.doubles
        (filter (fun amt => (0 <? amt)%float) (JsMap.values bets)))
   = [13.200000000000001; 20; 30]%float
   /\ exists main side,
        (forall allIn,
            Ledger.collectBets JsNumber.doubles Ledger.new bets allIn []
            = Ok {| Ledger.mainPot := main; Ledger.sidePots := [side] |})
        /\ Ledger.contributions main
           = [("p1"%string, 13.200000000000001%float);
              ("p2"%string, 13.200000000000001%float);
              ("p3"%string, 13.200000000000001%float)]
        /\ Ledger.contributions side
           = [("p2"%string, 6.799999999999999%float);
              ("p3"%string, 6.799999999999999%float)]
        /\ ((30 - 13.200000000000001) - (20 - 13.200000000000001)
            = 9.999999999999998)%float
        /\ ((30 - 20 <=? 9.999999999999998) = false)%float).
Proof.
  split.
  - intros pm bets allIn folded Hnd Hnn.
    destruct (levels_spec (JsMap.values bets)) as [Hs Hin].
    exists (sort_asc (uniqZ (filter (fun amt => 0 <? amt) (JsMap.values bets)))).
    unfold PotManager.collectBets.
    destruct (sort_asc (uniqZ (filter (fun amt => 0 <? amt) (JsMap.values bets))))
      as [|L rest] eqn:El.
    + exists []. split; [exact Hs|]. split; [exact Hin|]. split; [|constructor].
      destruct (JsMap.size bets =? 0)%nat; reflexivity.
    + destruct (collectLevels_from_zero bets folded Hnd Hnn L rest pm Hs Hin)
        as (R' & first & layers & E & F).
      exists (first :: layers). split; [exact Hs|]. split; [exact Hin|]. split; [|exact F].
      destruct (JsMap.size bets =? 0)%nat eqn:Esz.
      * exfalso. apply Nat.eqb_eq in Esz. unfold JsMap.size in Esz.
        apply length_zero_iff_nil in Esz. subst bets.
        destruct (proj1 (Hin L) (or_introl eq_refl)) as [[] _].
      * rewrite E. cbn [bind snd]. reflexivity.
  - cbv zeta. destruct collectBets_on_fractional_bets as (_ & E & R1 & R2).
    cbv zeta in E.
    split; [vm_compute; reflexivity|].
    eexists. eexists. split; [exact E|].
    split; [reflexivity|]. split; [reflexivity|]. split; [exact R1|exact R2].
Qed.

Lemma X16_witness :
  let bets := [("p1", 50); ("p2", 200); ("p3", 200); ("p4", 120)]%string in
  exists levels layers,
    StronglySorted Z.lt (0 :: levels)
    /\ (forall v, In v levels <-> In v (JsMap.values bets) /\ 0 < v)
    /\ PotManager.collectBets PotManager.new bets ["p1"%string] ["p4"%string]
       = Ok (match layers with
             | [] => PotManager.new
             | first :: others =>
                 if Pot.total (PotManager.mainPot PotManager.new) =? 0
                 then {| PotManager.mainPot := first;
                         PotManager.sidePots :=
                           PotManager.sidePots PotManager.new ++ others |}
                 else {| PotManager.mainPot := PotManager.mainPot PotManager.new;
                         PotManager.sidePots :=
                           PotManager.sidePots PotManager.new ++ layers |}
             end)
    /\ Forall2
         (fun pot pl =>
            Pot.total pot
            = (snd pl - fst pl)
              * Z.of_nat (length (filter (fun e : string * Z => snd pl <=? snd e) bets))
            /\ forall q,
                 Pot.getPlayerContribution pot q
                 = (if snd pl <=? JsMap.getOr bets q 0 then snd pl - fst pl else 0)
                 /\ Pot.isPlayerEligible pot q
                    = (snd pl <=? JsMap.getOr bets q 0)
                      && negb (JsSet.has ["p4"%string] q))
         layers (combine (0 :: levels) levels).
Proof.
  intro bets.
  apply (proj1 X16_collectBets_builds_one_layer_per_level PotManager.new bets
           ["p1"%string] ["p4"%string]).
  - vm_compute. repeat constructor; simpl; intuition discriminate.
  - intros v Hv. vm_compute in Hv. intuition lia.
Defined.

(** ** The end of a betting round *)

Lemma set_fresh (m : JsMap.t Z) (k : string) (v : Z) :
  ~ In k (JsMap.keys m) -> JsMap.set m k v = m ++ [(k, v)].
Proof.
  unfold JsMap.keys. induction m as [|[k' v'] m IH]; intro Hno; [reflexivity|].
  cbn [JsMap.set]. cbn [map fst] in Hno.
  destruct (String.eqb_spec k' k) as [->|_].
  - exfalso. apply Hno. left. reflexivity.
  - cbn [app]. f_equal. apply IH. intro H. apply Hno. right. exact H.
Qed.

Lemma playerBets_entries (players : list Player.t) :
  forall acc : JsMap.t Z,
    NoDup (JsMap.keys acc ++ map Player.id players) ->
    fold_left
      (fun m player => JsMap.set m (Player.id player) (Player.currentBetAmount player))
      players acc
    = acc ++ map (fun p => (Player.id p, Player.currentBetAmount p)) players.
Proof.
  induction players as [|p players IH]; intros acc Hnd; cbn [fold_left map].
  - rewrite app_nil_r. reflexivity.
  - cbn [map] in Hnd.
    rewrite set_fresh.
    + rewrite IH.
      * rewrite <- app_assoc. reflexivity.
      * unfold JsMap.keys in *. rewrite map_app. cbn [map fst].
        rewrite <- app_assoc. exact Hnd.
    + intro Hin. apply NoDup_remove_2 in Hnd. apply Hnd.
      apply in_or_app. left. exact Hin.
Qed.

Lemma occupiedFrom_resetBet (l : list (option Player.t)) :
  forall k,
    map snd (Table.occupiedFrom k (map (option_map Player.resetBet) l))
    = map Player.resetBet (map snd (Table.occupiedFrom k l)).
Proof.
  induction l as [|[p|] l IH]; intro k; simpl.
  - reflexivity.
  - rewrite IH. reflexivity.
  - apply IH.
Qed.

(** X17.  [HandManager.collectBets] on a table whose seated players have
    distinct ids and non-negative integer bets always returns, and moves
    exactly the bets on the table into the pots: the total of the pots grows
    by the sum of the players' current bets, every player's current bet is
    reset to 0 (last action cleared) with chips, cards and status untouched,
    and the state, hand number, deck, button, community cards and tracker
    stay as they are.  (The bets are reset whatever the pot manager took;
    for bets that are not integers it can take less, see C2.) *)
Theorem X17_collectBets_moves_the_bets_into_the_pots (hm : HandManager.t) :
  let players := Table.getPlayers (HandManager.table hm) in
  NoDup (map Player.id players) ->
  (forall p, In p players -> 0 <= Player.currentBetAmount p) ->
  exists potManager' tb',
    HandManager.collectBets hm
    = Returns tt
        (HandManager.mk (Dealer.mk (Dealer.deck (HandManager.dealer hm)) tb') potManager'
           (HandManager.currentState hm) (HandManager.handNumber hm)
           (HandManager.bettingTracker hm))
    /\ PotManager.getTotalPotAmount potManager'
       = PotManager.getTotalPotAmount (HandManager.potManager hm)
         + sumZ (map Player.currentBetAmount players)
    /\ Table.getPlayers tb' = map Player.resetBet players
    /\ (forall p, In p (Table.getPlayers tb') -> Player.currentBetAmount p = 0)
    /\ map Player.chips (Table.getPlayers tb') = map Player.chips players
    /\ Table.buttonPosition tb' = Table.buttonPosition (HandManager.table hm)
    /\ Table.communityCards tb' = Table.communityCards (HandManager.table hm).
Proof.
  intros players Hnd Hnn.
  assert (Hbets : HandManager.playerBetsOf players
                  = map (fun p => (Player.id p, Player.currentBetAmount p)) players).
  { unfold HandManager.playerBetsOf. rewrite playerBets_entries; [reflexivity|exact Hnd]. }
  destruct (collectBets_conserves (HandManager.potManager hm)
              (HandManager.playerBetsOf players)
              (HandManager.allInPlayersOf players) (HandManager.foldedPlayersOf players))
    as (pm' & E & T & _).
  { rewrite Hbets. unfold JsMap.keys. rewrite map_map. cbn [fst]. exact Hnd. }
  { rewrite Hbets. unfold JsMap.values. rewrite map_map. cbn [snd].
    intros v Hv. apply in_map_iff in Hv. destruct Hv as (p & <- & Hp). apply Hnn. exact Hp. }
  unfold HandManager.collectBets. fold players. rewrite E.
  eexists. eexists. split; [reflexivity|].
  assert (Hplayers :
            Table.getPlayers
              (Table.mk (map (option_map Player.resetBet)
                           (Table.seats (HandManager.table hm)))
                 (Table.buttonPosition (HandManager.table hm))
                 (Table.communityCards (HandManager.table hm))
                 (Table.config (HandManager.table hm)))
            = map Player.resetBet players).
  { unfold Table.getPlayers, Table.occupied. cbn [Table.seats].
    apply occupiedFrom_resetBet. }
  split.
  - rewrite T, Hbets. unfold JsMap.values. rewrite map_map. cbn [snd]. reflexivity.
  - split; [exact Hplayers|]. split; [|split; [|split; reflexivity]].
    + intros p Hp. rewrite Hplayers in Hp. apply in_map_iff in Hp.
      destruct Hp as (p0 & <- & _). reflexivity.
    + rewrite Hplayers, map_map. reflexivity.
Qed.

Lemma X17_witness :
  let tb :=
    Table.mk [Some (Player.mk "p1" [] 950 50 AllIn (Some ActAllIn));
              Some (Player.mk "p2" [] 800 200 Active (Some ActBet));
              None;
              Some (Player.mk "p3" [] 900 100 Folded (Some ActFold))]
      0 [] (Table.mkConfig 4 5 10) in
  let hm := HandManager.mk (Dealer.new tb) PotManager.new PreflopBetting 1 None in
  exists potManager' tb',
    HandManager.collectBets hm
    = Returns tt
        (HandManager.mk (Dealer.mk (Dealer.deck (HandManager.dealer hm)) tb') potManager'
           PreflopBetting 1 None)
    /\ PotManager.getTotalPotAmount potManager' = 350.
Proof.
  intros tb hm.
  destruct (X17_collectBets_moves_the_bets_into_the_pots hm)
    as (pm' & tb' & E & T & _).
  - vm_compute. repeat constructor; simpl; intuition discriminate.
  - intros p Hp. vm_compute in Hp.
    destruct Hp as [<-|[<-|[<-|[]]]]; vm_compute; discriminate.
  - exists pm', tb'. split; [exact E|]. rewrite T. reflexivity.
Defined.

(** ** Between two hands *)

Lemma vacateFirst_at (p : Player.t) (rest : list (option Player.t)) :
  forall d : list (option Player.t),
    (forall seat, In seat d -> Table.seatHolds (Player.id p) seat = false) ->
    Table.vacateFirst (Player.id p) (d ++ Some p :: rest) = Some (d ++ None :: rest).
Proof.
  induction d as [|seat d IH]; intro Hd; cbn [app Table.vacateFirst].
  - cbn [Table.seatHolds]. rewrite String.eqb_refl. reflexivity.
  - rewrite (Hd seat (or_introl eq_refl)).
    rewrite IH; [reflexivity|]. intros seat' Hin. apply Hd. right. exact Hin.
Qed.

Lemma removePlayer_at (p : Player.t) (d rest : list (option Player.t))
    (b : nat) (c : list Card.t) (cfg : Table.TableConfig) :
  (forall seat, In seat d -> Table.seatHolds (Player.id p) seat = false) ->
  Table.removePlayer (Table.mk (d ++ Some p :: rest) b c cfg) (Player.id p)
  = (true, Table.mk (d ++ None :: rest) b c cfg).
Proof.
  intro Hd. unfold Table.removePlayer. cbn [Table.seats].
  rewrite (vacateFirst_at p rest d Hd). reflexivity.
Qed.

Lemma removeEliminated_seats (b : nat) (c : list Card.t) (cfg : Table.TableConfig) :
  forall (rest d : list (option Player.t)) (i : nat),
    NoDup (map Player.id (map snd (Table.occupiedFrom i rest))) ->
    (forall seat p,
        In seat d -> In p (map snd (Table.occupiedFrom i rest)) ->
        Table.seatHolds (Player.id p) seat = false) ->
    HandManager.removeEliminated (map snd (Table.occupiedFrom i rest))
      (Table.mk (d ++ rest) b c cfg)
    = Table.mk
        (d ++ map (fun seat : option Player.t =>
                     match seat with
                     | Some p => if Player.isEliminated p then None else Some p
                     | None => None
                     end) rest)
        b c cfg.
Proof.
  unfold HandManager.removeEliminated.
  induction rest as [|[p|] rest IH]; intros d i Hnd Hd;
    cbn [Table.occupiedFrom map snd fold_left] in *.
  - reflexivity.
  - inversion Hnd as [|x l Hnotin Hnd']; subst.
    assert (Hothers : forall q, In q (map snd (Table.occupiedFrom (S i) rest)) ->
                                Table.seatHolds (Player.id q) (Some p) = false).
    { intros q Hq. cbn [Table.seatHolds].
      destruct (String.eqb_spec (Player.id p) (Player.id q)) as [E|_]; [|reflexivity].
      exfalso. apply Hnotin. rewrite E. apply in_map. exact Hq. }
    destruct (Player.isEliminated p) eqn:El.
    + rewrite removePlayer_at
        by (intros seat Hin; apply (Hd seat p Hin); left; reflexivity).
      cbn [snd].
      change (d ++ None :: rest) with (d ++ [None] ++ rest).
      rewrite app_assoc, (IH (d ++ [None]) (S i) Hnd').
      * rewrite <- app_assoc. reflexivity.
      * intros seat q Hin Hq. apply in_app_or in Hin. destruct Hin as [Hin|[<-|[]]].
        -- apply (Hd seat q Hin). right. exact Hq.
        -- reflexivity.
    + change (d ++ Some p :: rest) with (d ++ [Some p] ++ rest).
      rewrite app_assoc, (IH (d ++ [Some p]) (S i) Hnd').
      * rewrite <- app_assoc. reflexivity.
      * intros seat q Hin Hq. apply in_app_or in Hin. destruct Hin as [Hin|[<-|[]]].
        -- apply (Hd seat q Hin). right. exact Hq.
        -- apply Hothers. exact Hq.
  - change (d ++ None :: rest) with (d ++ [None] ++ rest).
    rewrite app_assoc, (IH (d ++ [None]) (S i) Hnd).
    + rewrite <- app_assoc. reflexivity.
    + intros seat q Hin Hq. apply in_app_or in Hin. destruct Hin as [Hin|[<-|[]]].
      * apply (Hd seat q Hin Hq).
      * reflexivity.
Qed.

Lemma occupiedFrom_without_eliminated (l : list (option Player.t)) :
  forall k,
    map snd
      (Table.occupiedFrom k
         (map (fun seat : option Player.t =>
                 match seat with
                 | Some p => if Player.isEliminated p then None else Some p
                 | None => None
                 end) l))
    = filter (fun p => negb (Player.isEliminated p)) (map snd (Table.occupiedFrom k l)).
Proof.
  induction l as [|[p|] l IH]; intro k; cbn [map Table.occupiedFrom snd filter].
  - reflexivity.
  - destruct (Player.isEliminated p); cbn [negb Table.occupiedFrom map snd].
    + apply IH.
    + rewrite IH. reflexivity.
  - apply IH.
Qed.

(** X18.  [prepareNextHand] in state HandComplete, on a table whose seated
    players have distinct ids and on which [moveButton] finds a seat: it
    returns, empties exactly the seats of the eliminated players (no chips
    left) and leaves every other seat as it is, resets the pots to nothing,
    keeps hand number, community cards and tracker, and goes to GameOver when
    fewer than two players remain and to ReadyToStart otherwise.  The button
    is moved before the eliminated players leave: it is where [moveButton]
    puts it on the table from before the removal, so when the player there is
    eliminated the button ends on an empty seat. *)
Theorem X18_prepareNextHand_removes_the_eliminated (hm : HandManager.t) (tb1 : Table.t) :
  HandManager.currentState hm = HandComplete ->
  NoDup (map Player.id (Table.getPlayers (HandManager.table hm))) ->
  Table.moveButton (HandManager.table hm) = Ok tb1 ->
  let tb := HandManager.table hm in
  let remaining := filter (fun p => negb (Player.isEliminated p)) (Table.getPlayers tb) in
  let tb' :=
    Table.mk
      (map (fun seat : option Player.t =>
              match seat with
              | Some p => if Player.isEliminated p then None else Some p
              | None => None
              end) (Table.seats tb))
      (Table.buttonPosition tb1) (Table.communityCards tb) (Table.config tb) in
  HandManager.prepareNextHand hm
  = Returns tt
      (HandManager.mk (Dealer.mk (Dealer.deck (HandManager.dealer hm)) tb')
         PotManager.reset
         (if (length remaining <? 2)%nat then GameOver else ReadyToStart)
         (HandManager.handNumber hm) (HandManager.bettingTracker hm))
  /\ Table.getPlayers tb' = remaining
  /\ PotManager.getTotalPotAmount PotManager.reset = 0
  /\ (forall p,
         Table.getPlayerAtSeat tb1 (Table.buttonPosition tb1) = Some p ->
         Player.isEliminated p = true ->
         Table.getPlayerAtSeat tb' (Table.buttonPosition tb') = None).
Proof.
  intros Hstate Hnd Hmove tb remaining tb'.
  assert (Htb1 : tb1 = Table.mk (Table.seats tb) (Table.buttonPosition tb1)
                         (Table.communityCards tb) (Table.config tb)).
  { unfold Table.moveButton in Hmove. fold tb in Hmove.
    destruct (Table.skipEmptySeats _ _ _ _) as [nextPosition attempts].
    destruct (_ <=? _)%nat; [discriminate|]. injection Hmove as <-. reflexivity. }
  assert (Hplayers : Table.getPlayers tb' = remaining).
  { unfold tb', Table.getPlayers, Table.occupied. cbn [Table.seats].
    apply occupiedFrom_without_eliminated. }
  assert (Hremoved : HandManager.removeEliminated (Table.getPlayers tb1) tb1 = tb').
  { rewrite Htb1 at 2.
    replace (Table.getPlayers tb1) with (map snd (Table.occupiedFrom 0 (Table.seats tb)))
      by (rewrite Htb1; reflexivity).
    apply (removeEliminated_seats _ _ _ (Table.seats tb) [] 0%nat).
    - exact Hnd.
    - intros seat p []. }
  split; [|split; [exact Hplayers|split; [reflexivity|]]].
  - unfold HandManager.prepareNextHand. rewrite Hstate. cbn [GameState_beq negb].
    unfold andThen, HandManager.onDealer, Dealer.moveButton.
    change (Dealer.table (HandManager.dealer hm)) with (HandManager.table hm).
    rewrite Hmove.
    cbn [HandManager.table HandManager.dealer Dealer.table Dealer.deck
         HandManager.potManager HandManager.currentState HandManager.handNumber
         HandManager.bettingTracker].
    rewrite Hremoved, Hplayers, Hstate.
    destruct (length remaining <? 2)%nat; reflexivity.
  - intros p Hat Hel. unfold Table.getPlayerAtSeat in *.
    unfold tb'. cbn [Table.seats Table.buttonPosition].
    rewrite Htb1 in Hat. cbn [Table.seats Table.buttonPosition] in Hat.
    rewrite nth_error_map.
    destruct (nth_error (Table.seats tb) (Table.buttonPosition tb1)) as [[q|]|];
      cbn [option_map]; try reflexivity.
    injection Hat as ->. rewrite Hel. reflexivity.
Qed.

Lemma X18_witness :
  let tb :=
    Table.mk [Some (Player.mk "p1" [] 1500 0 Active None);
              Some (Player.mk "p2" [] 0 0 AllIn None);
              Some (Player.mk "p3" [] 1500 0 Active None)]
      0 [] (Table.mkConfig 3 5 10) in
  let hm := HandManager.mk (Dealer.new tb) PotManager.new HandComplete 1 None in
  exists hm',
    HandManager.prepareNextHand hm = Returns tt hm'
    /\ HandManager.currentState hm' = ReadyToStart
    /\ Table.buttonPosition (HandManager.table hm') = 1%nat
    /\ Table.getPlayerAtSeat (HandManager.table hm') 1 = None.
Proof.
  intros tb hm.
  destruct (X18_prepareNextHand_removes_the_eliminated hm
              (Table.mk (Table.seats tb) 1 [] (Table.mkConfig 3 5 10)))
    as (E & _ & _ & Hbutton).
  - reflexivity.
  - vm_compute. repeat constructor; simpl; intuition discriminate.
  - reflexivity.
  - eexists. split; [exact E|]. split; [reflexivity|]. split; [reflexivity|].
    apply (Hbutton (Player.mk "p2" [] 0 0 AllIn None)); reflexivity.
Defined.

(** ** Dealing the board *)

Lemma dealCard_top (rest dealt : list Card.t) (card : Card.t) :
  Deck.dealCard (Deck.mk (rest ++ [card]) dealt)
  = Returns card (Deck.mk rest (dealt ++ [card])).
Proof.
  unfold Deck.dealCard. cbn [Deck.cards Deck.dealtCards].
  rewrite rev_app_distr. cbn [rev app]. rewrite rev_involutive. reflexivity.
Qed.

Lemma burnCard_top (rest dealt : list Card.t) (card : Card.t) (tb : Table.t) :
  Dealer.burnCard (Dealer.mk (Deck.mk (rest ++ [card]) dealt) tb)
  = Returns tt (Dealer.mk (Deck.mk rest (dealt ++ [card])) tb).
Proof.
  unfold Dealer.burnCard, Dealer.onDeck, Deck.burnCard. cbn [Dealer.deck Dealer.table].
  rewrite dealCard_top. reflexivity.
Qed.

Lemma dealCards_three (rest dealt : list Card.t) (c1 c2 c3 : Card.t) :
  Deck.dealCards 3 (Deck.mk (rest ++ [c3; c2; c1]) dealt)
  = Returns [c1; c2; c3] (Deck.mk rest (dealt ++ [c1; c2; c3])).
Proof.
  unfold Deck.dealCards. cbn [Deck.cards].
  destruct (Nat.ltb_spec (length (rest ++ [c3; c2; c1])) 3) as [Hlt|_].
  - rewrite length_app in Hlt. cbn [length] in Hlt. lia.
  - change (rest ++ [c3; c2; c1]) with (rest ++ [c3] ++ [c2] ++ [c1]).
    rewrite !app_assoc. cbn [Deck.dealLoop].
    rewrite dealCard_top, dealCard_top, dealCard_top.
    cbn [app]. rewrite <- !app_assoc. reflexivity.
Qed.

Lemma dealFlop_top (rest dealt : list Card.t) (b f1 f2 f3 : Card.t) (tb : Table.t) :
  Dealer.dealFlop (Dealer.mk (Deck.mk (rest ++ [f3; f2; f1; b]) dealt) tb)
  = Returns [f1; f2; f3]
      (Dealer.mk (Deck.mk rest (dealt ++ [b; f1; f2; f3]))
         (Table.setCommunityCards tb [f1; f2; f3])).
Proof.
  unfold Dealer.dealFlop, andThen.
  change (rest ++ [f3; f2; f1; b]) with (rest ++ [f3; f2; f1] ++ [b]).
  rewrite app_assoc, burnCard_top.
  unfold Dealer.onDeck. cbn [Dealer.deck Dealer.table].
  rewrite dealCards_three. cbn [Dealer.deck Dealer.table].
  rewrite <- app_assoc. reflexivity.
Qed.

Lemma dealTurn_top (rest dealt : list Card.t) (b t : Card.t) (tb : Table.t) :
  Dealer.dealTurn (Dealer.mk (Deck.mk (rest ++ [t; b]) dealt) tb)
  = Returns t
      (Dealer.mk (Deck.mk rest (dealt ++ [b; t]))
         (Table.setCommunityCards tb (Table.getCommunityCards tb ++ [t]))).
Proof.
  unfold Dealer.dealTurn, andThen.
  change (rest ++ [t; b]) with (rest ++ [t] ++ [b]).
  rewrite app_assoc, burnCard_top.
  unfold Dealer.onDeck. cbn [Dealer.deck Dealer.table].
  rewrite dealCard_top. cbn [Dealer.deck Dealer.table].
  rewrite <- app_assoc. reflexivity.
Qed.

Lemma dealRiver_top (rest dealt : list Card.t) (b r : Card.t) (tb : Table.t) :
  Dealer.dealRiver (Dealer.mk (Deck.mk (rest ++ [r; b]) dealt) tb)
  = Returns r
      (Dealer.mk (Deck.mk rest (dealt ++ [b; r]))
         (Table.setCommunityCards tb (Table.getCommunityCards tb ++ [r]))).
Proof.
  unfold Dealer.dealRiver, andThen.
  change (rest ++ [r; b]) with (rest ++ [r] ++ [b]).
  rewrite app_assoc, burnCard_top.
  unfold Dealer.onDeck. cbn [Dealer.deck Dealer.table].
  rewrite dealCard_top. cbn [Dealer.deck Dealer.table].
  rewrite <- app_assoc. reflexivity.
Qed.

(** The run-out, card by card. *)
Lemma dealRemainingCards_at
    (hm : HandManager.t) (rest dealt : list Card.t) (x1 x2 x3 x4 x5 x6 x7 x8 : Card.t) :
  Dealer.deck (HandManager.dealer hm)
  = Deck.mk (rest ++ [x8; x7; x6; x5; x4; x3; x2; x1]) dealt ->
  let tb := HandManager.table hm in
  let community := Table.getCommunityCards tb in
  let c := length community in
  let community' :=
    if (c <? 3)%nat then [x2; x3; x4; x6; x8]
    else if (c <? 4)%nat then community ++ [x2; x4]
    else if (c <? 5)%nat then community ++ [x2]
    else community in
  let deck' :=
    if (c <? 3)%nat then Deck.mk rest (dealt ++ [x1; x2; x3; x4; x5; x6; x7; x8])
    else if (c <? 4)%nat
    then Deck.mk (rest ++ [x8; x7; x6; x5]) (dealt ++ [x1; x2; x3; x4])
    else if (c <? 5)%nat
    then Deck.mk (rest ++ [x8; x7; x6; x5; x4; x3]) (dealt ++ [x1; x2])
    else Deck.mk (rest ++ [x8; x7; x6; x5; x4; x3; x2; x1]) dealt in
  HandManager.dealRemainingCards hm
  = Returns tt
      (HandManager.mk
         (Dealer.mk deck'
            (Table.mk (Table.seats tb) (Table.buttonPosition tb) community'
               (Table.config tb)))
         (HandManager.potManager hm) (HandManager.currentState hm)
         (HandManager.handNumber hm) (HandManager.bettingTracker hm)).
Proof.
  destruct hm as [[deck tb0] pm st hn tr]. intro Hdeck.
  cbn [HandManager.dealer Dealer.deck] in Hdeck. subst deck.
  intros tb community c community' deck'.
  unfold HandManager.table in tb. cbn [HandManager.dealer Dealer.table] in tb.
  destruct tb0 as [seats button cards cfg].
  assert (Hc : c = length cards) by reflexivity.
  unfold HandManager.dealRemainingCards, andThen, HandManager.when, HandManager.discard,
    HandManager.onDealer, HandManager.table.
  cbn [HandManager.dealer Dealer.table Table.getCommunityCards Table.communityCards
       HandManager.potManager HandManager.currentState HandManager.handNumber
       HandManager.bettingTracker].
  unfold community', deck', community, tb.
  cbn [Table.getCommunityCards Table.communityCards Table.seats Table.buttonPosition
       Table.config].
  rewrite Hc.
  destruct (Nat.ltb_spec (length cards) 3) as [H3|H3].
  - destruct (Nat.ltb_spec (length cards) 4) as [_|H4]; [|lia].
    destruct (Nat.ltb_spec (length cards) 5) as [_|H5]; [|lia].
    change (rest ++ [x8; x7; x6; x5; x4; x3; x2; x1])
      with (rest ++ [x8; x7; x6; x5] ++ [x4; x3; x2; x1]).
    rewrite app_assoc, dealFlop_top.
    cbn [HandManager.dealer HandManager.potManager HandManager.currentState
         HandManager.handNumber HandManager.bettingTracker].
    change ((rest ++ [x8; x7; x6; x5])) with (rest ++ [x8; x7] ++ [x6; x5]).
    rewrite app_assoc, dealTurn_top.
    cbn [HandManager.dealer HandManager.potManager HandManager.currentState
         HandManager.handNumber HandManager.bettingTracker].
    rewrite dealRiver_top.
    cbn [Table.setCommunityCards Table.getCommunityCards Table.communityCards Table.seats
         Table.buttonPosition Table.config app].
    rewrite <- !app_assoc. reflexivity.
  - destruct (Nat.ltb_spec (length cards) 4) as [H4|H4].
    + destruct (Nat.ltb_spec (length cards) 5) as [_|H5]; [|lia].
      cbn [HandManager.dealer HandManager.potManager HandManager.currentState
           HandManager.handNumber HandManager.bettingTracker].
      change (rest ++ [x8; x7; x6; x5; x4; x3; x2; x1])
        with (rest ++ [x8; x7; x6; x5; x4; x3] ++ [x2; x1]).
      rewrite app_assoc, dealTurn_top.
      cbn [HandManager.dealer HandManager.potManager HandManager.currentState
           HandManager.handNumber HandManager.bettingTracker].
      change (rest ++ [x8; x7; x6; x5; x4; x3])
        with (rest ++ [x8; x7; x6; x5] ++ [x4; x3]).
      rewrite app_assoc, dealRiver_top.
      cbn [Table.setCommunityCards Table.getCommunityCards Table.communityCards Table.seats
           Table.buttonPosition Table.config].
      rewrite <- !app_assoc. reflexivity.
    + destruct (Nat.ltb_spec (length cards) 5) as [H5|H5]; [|reflexivity].
      cbn [HandManager.dealer HandManager.potManager HandManager.currentState
           HandManager.handNumber HandManager.bettingTracker].
      change (rest ++ [x8; x7; x6; x5; x4; x3; x2; x1])
        with (rest ++ [x8; x7; x6; x5; x4; x3] ++ [x2; x1]).
      rewrite app_assoc, dealRiver_top.
      cbn [Table.setCommunityCards Table.getCommunityCards Table.communityCards Table.seats
           Table.buttonPosition Table.config].
      reflexivity.
Qed.

(** X19.  [dealRemainingCards] runs the board out to five cards.  With the
    top eight cards of the deck being x1 (top), x2, ..., x8 and c community
    cards on the table: for c < 3 it burns x1, replaces the community cards by
    the flop x2 x3 x4, burns x5, adds x6, burns x7 and adds x8; for c = 3 it
    burns x1, adds x2, burns x3 and adds x4; for c = 4 it burns x1 and adds
    x2; for c >= 5 it does nothing.  Burnt and dealt cards all go to the
    dealt pile, in that order, and seats, pots, state and tracker are not
    touched. *)
Theorem X19_dealRemainingCards_runs_out_the_board
    (hm : HandManager.t) (rest dealt : list Card.t) (x1 x2 x3 x4 x5 x6 x7 x8 : Card.t) :
  Dealer.deck (HandManager.dealer hm)
  = Deck.mk (rest ++ [x8; x7; x6; x5; x4; x3; x2; x1]) dealt ->
  let tb := HandManager.table hm in
  let community := Table.getCommunityCards tb in
  let c := length community in
  let community' :=
    if (c <? 3)%nat then [x2; x3; x4; x6; x8]
    else if (c <? 4)%nat then community ++ [x2; x4]
    else if (c <? 5)%nat then community ++ [x2]
    else community in
  let deck' :=
    if (c <? 3)%nat then Deck.mk rest (dealt ++ [x1; x2; x3; x4; x5; x6; x7; x8])
    else if (c <? 4)%nat
    then Deck.mk (rest ++ [x8; x7; x6; x5]) (dealt ++ [x1; x2; x3; x4])
    else if (c <? 5)%nat
    then Deck.mk (rest ++ [x8; x7; x6; x5; x4; x3]) (dealt ++ [x1; x2])
    else Deck.mk (rest ++ [x8; x7; x6; x5; x4; x3; x2; x1]) dealt in
  HandManager.dealRemainingCards hm
  = Returns tt
      (HandManager.mk
         (Dealer.mk deck'
            (Table.mk (Table.seats tb) (Table.buttonPosition tb) community'
               (Table.config tb)))
         (HandManager.potManager hm) (HandManager.currentState hm)
         (HandManager.handNumber hm) (HandManager.bettingTracker hm))
  /\ ((c <= 5)%nat -> length community' = 5%nat).
Proof.
  intros Hdeck tb community c community' deck'. split.
  - exact (dealRemainingCards_at hm rest dealt x1 x2 x3 x4 x5 x6 x7 x8 Hdeck).
  - intro Hle. unfold community'.
    destruct (Nat.ltb_spec c 3); [reflexivity|].
    destruct (Nat.ltb_spec c 4); [rewrite length_app; cbn [length]; fold c; lia|].
    destruct (Nat.ltb_spec c 5); [rewrite length_app; cbn [length]; fold c; lia|].
    fold c. lia.
Qed.

Lemma X19_witness :
  let tb :=
    Table.mk [Some (Player.new "p1" 0); Some (Player.new "p2" 500)] 0
      [Card.mk Ace Spades; Card.mk King Spades; Card.mk Two Hearts]
      (Table.mkConfig 2 5 10) in
  let deck :=
    Deck.mk [Card.mk Nine Clubs; Card.mk Eight Clubs; Card.mk Seven Clubs;
             Card.mk Six Clubs; Card.mk Five Clubs; Card.mk Four Clubs;
             Card.mk Three Clubs; Card.mk Two Clubs; Card.mk Ten Clubs] [] in
  let hm := HandManager.mk (Dealer.mk deck tb) PotManager.new FlopBetting 1 None in
  Table.getCommunityCards (HandManager.table (finalState (HandManager.dealRemainingCards hm)))
  = [Card.mk Ace Spades; Card.mk King Spades; Card.mk Two Hearts;
     Card.mk Two Clubs; Card.mk Four Clubs].
Proof.
  intros tb deck hm.
  destruct (X19_dealRemainingCards_runs_out_the_board hm [Card.mk Nine Clubs] []
              (Card.mk Ten Clubs) (Card.mk Two Clubs) (Card.mk Three Clubs)
              (Card.mk Four Clubs) (Card.mk Five Clubs) (Card.mk Six Clubs)
              (Card.mk Seven Clubs) (Card.mk Eight Clubs) eq_refl) as [E _].
  rewrite E. reflexivity.
Defined.

(** ** Completing a betting round *)

Lemma top_eight (l : list Card.t) :
  (8 <= length l)%nat ->
  exists rest x1 x2 x3 x4 x5 x6 x7 x8, l = rest ++ [x8; x7; x6; x5; x4; x3; x2; x1].
Proof.
  intro Hlen. rewrite <- (rev_involutive l). rewrite <- length_rev in Hlen.
  destruct (rev l) as [|x1 [|x2 [|x3 [|x4 [|x5 [|x6 [|x7 [|x8 r]]]]]]]];
    cbn [length] in Hlen; try lia.
  exists (rev r), x1, x2, x3, x4, x5, x6, x7, x8.
  cbn [rev]. rewrite <- !app_assoc. reflexivity.
Qed.

Lemma active_after_resetBet (seats : list (option Player.t)) (button : nat)
    (community : list Card.t) (cfg : Table.TableConfig) :
  Table.getActivePlayers
    (Table.mk (map (option_map Player.resetBet) seats) button community cfg)
  = map Player.resetBet (Table.getActivePlayers (Table.mk seats button community cfg)).
Proof.
  unfold Table.getActivePlayers, Table.getPlayers, Table.occupied. cbn [Table.seats].
  rewrite occupiedFrom_resetBet, filter_map_swap. reflexivity.
Qed.

Lemma collectBets_returns (hm : HandManager.t) :
  exists potManager',
    HandManager.collectBets hm
    = Returns tt
        (HandManager.mk
           (Dealer.mk (Dealer.deck (HandManager.dealer hm))
              (Table.mk
                 (map (option_map Player.resetBet) (Table.seats (HandManager.table hm)))
                 (Table.buttonPosition (HandManager.table hm))
                 (Table.communityCards (HandManager.table hm))
                 (Table.config (HandManager.table hm))))
           potManager' (HandManager.currentState hm) (HandManager.handNumber hm)
           (HandManager.bettingTracker hm)).
Proof.
  unfold HandManager.collectBets.
  destruct (collectBets_never_throws (HandManager.potManager hm)
              (HandManager.playerBetsOf (Table.getPlayers (HandManager.table hm)))
              (HandManager.allInPlayersOf (Table.getPlayers (HandManager.table hm)))
              (HandManager.foldedPlayersOf (Table.getPlayers (HandManager.table hm))))
    as [pm' E].
  rewrite E. exists pm'. reflexivity.
Qed.

Lemma setState_valid (d : Dealer.t) (pm : PotManager.t) (st st' : GameState) (hn : nat)
    (tr : option BettingRoundTracker.t) :
  isValidTransition st st' = true ->
  HandManager.setState st' (HandManager.mk d pm st hn tr)
  = Returns tt (HandManager.mk d pm st' hn tr).
Proof.
  intro Hv. unfold HandManager.setState. cbn [HandManager.currentState].
  rewrite Hv. reflexivity.
Qed.

Lemma postflop_tracker_bet (tb : Table.t) (round : BettingRound) :
  round <> RoundPreflop ->
  BettingRoundTracker.getCurrentBet (BettingRoundTracker.new tb round) = 0.
Proof.
  intro Hr. unfold BettingRoundTracker.getCurrentBet, BettingRoundTracker.new.
  destruct round; [contradiction| | | |reflexivity];
    cbn [toStreet]; unfold ActionOrderRules.getActionOrder;
    destruct (Table.getActivePlayers tb); reflexivity.
Qed.

(** X20.  [completeBettingRound] in a betting state with at least eight cards
    in the deck always returns, with every player's bet reset.  With at most
    one active player left it goes to HandComplete and deals nothing.  With
    two or more active players of whom at most one is not all-in it runs the
    board out (to five cards) and goes to Showdown.  Otherwise it goes to the
    next street: from PreflopBetting to FlopBetting with three community
    cards, from FlopBetting to TurnBetting and from TurnBetting to
    RiverBetting with one more card each, with a fresh tracker for that
    street whose bet to match is 0; from RiverBetting it goes to Showdown
    with no tracker.  In the first two cases the tracker of the finished
    round is left in place. *)
Theorem X20_completeBettingRound_advances_the_hand (hm : HandManager.t) :
  isBettingState (HandManager.currentState hm) = true ->
  (8 <= length (Deck.cards (Dealer.deck (HandManager.dealer hm))))%nat ->
  let active := Table.getActivePlayers (HandManager.table hm) in
  let notAllIn := filter (fun p => negb (Player.isAllIn p)) active in
  let community := Table.getCommunityCards (HandManager.table hm) in
  exists hm',
    HandManager.completeBettingRound hm = Returns tt hm'
    /\ Table.seats (HandManager.table hm')
       = map (option_map Player.resetBet) (Table.seats (HandManager.table hm))
    /\ ((length active <= 1)%nat ->
        HandManager.currentState hm' = HandComplete
        /\ Table.getCommunityCards (HandManager.table hm') = community
        /\ HandManager.bettingTracker hm' = HandManager.bettingTracker hm)
    /\ ((1 < length active)%nat -> (length notAllIn <= 1)%nat ->
        HandManager.currentState hm' = Showdown
        /\ ((length community <= 5)%nat ->
            length (Table.getCommunityCards (HandManager.table hm')) = 5%nat)
        /\ HandManager.bettingTracker hm' = HandManager.bettingTracker hm)
    /\ ((1 < length active)%nat -> (1 < length notAllIn)%nat ->
        HandManager.getCurrentBet hm' = 0
        /\ match HandManager.currentState hm with
           | PreflopBetting =>
               HandManager.currentState hm' = FlopBetting
               /\ length (Table.getCommunityCards (HandManager.table hm')) = 3%nat
               /\ HandManager.bettingTracker hm'
                  = Some (BettingRoundTracker.new (HandManager.table hm') RoundFlop)
           | FlopBetting =>
               HandManager.currentState hm' = TurnBetting
               /\ (exists card,
                      Table.getCommunityCards (HandManager.table hm') = community ++ [card])
               /\ HandManager.bettingTracker hm'
                  = Some (BettingRoundTracker.new (HandManager.table hm') RoundTurn)
           | TurnBetting =>
               HandManager.currentState hm' = RiverBetting
               /\ (exists card,
                      Table.getCommunityCards (HandManager.table hm') = community ++ [card])
               /\ HandManager.bettingTracker hm'
                  = Some (BettingRoundTracker.new (HandManager.table hm') RoundRiver)
           | _ =>
               HandManager.currentState hm' = Showdown
               /\ Table.getCommunityCards (HandManager.table hm') = community
               /\ HandManager.bettingTracker hm' = None
           end).
Proof.
  intros Hbet Hdeck active notAllIn community.
  destruct (collectBets_returns hm) as [pm' Hcollect].
  destruct hm as [[[cardsD dealtD] [seats button comm cfg]] pm st hn tr].
  unfold HandManager.table in *.
  cbn [HandManager.dealer HandManager.currentState HandManager.handNumber
       HandManager.bettingTracker HandManager.potManager Dealer.deck Dealer.table
       Deck.cards Table.seats Table.buttonPosition Table.communityCards Table.config
       Table.getCommunityCards] in *.
  destruct (top_eight cardsD Hdeck) as (rest & x1 & x2 & x3 & x4 & x5 & x6 & x7 & x8 & ->).
  assert (Hact : length (Table.getActivePlayers
                           (Table.mk (map (option_map Player.resetBet) seats) button comm cfg))
                 = length active).
  { rewrite active_after_resetBet, length_map. reflexivity. }
  assert (Hnot : length (filter (fun p => negb (Player.isAllIn p))
                           (Table.getActivePlayers
                              (Table.mk (map (option_map Player.resetBet) seats) button comm
                                 cfg)))
                 = length notAllIn).
  { rewrite active_after_resetBet, filter_map_swap, length_map. reflexivity. }
  unfold HandManager.completeBettingRound, andThen. rewrite Hcollect.
  unfold HandManager.table.
  cbn [HandManager.dealer HandManager.currentState Dealer.table].
  rewrite Hact, Hnot.
  destruct (Nat.leb_spec (length active) 1) as [Hone|Hmany].
  - (* at most one active player *)
    rewrite setState_valid by (destruct st; try discriminate Hbet; reflexivity).
    eexists. split; [reflexivity|]. split; [reflexivity|].
    split; [intros _; repeat split; reflexivity|].
    split; [intros ?; lia | intros ?; lia].
  - destruct (Nat.leb_spec (length notAllIn) 1) as [Hrun|Hplay].
    + (* the board is run out *)
      assert (Hcond : ((length notAllIn =? 0)%nat
                       || ((length notAllIn =? 1)%nat && (1 <? length active)%nat)) = true).
      { destruct (Nat.eqb_spec (length notAllIn) 0) as [|N0]; [reflexivity|].
        destruct (Nat.eqb_spec (length notAllIn) 1) as [|N1]; [|lia].
        destruct (Nat.ltb_spec 1 (length active)); [reflexivity|lia]. }
      rewrite Hcond.
      pose proof (dealRemainingCards_at
                    (HandManager.mk
                       (Dealer.mk (Deck.mk (rest ++ [x8; x7; x6; x5; x4; x3; x2; x1]) dealtD)
                          (Table.mk (map (option_map Player.resetBet) seats) button comm cfg))
                       pm' st hn tr)
                    rest dealtD x1 x2 x3 x4 x5 x6 x7 x8 eq_refl) as Hdeal.
      cbn zeta in Hdeal. unfold HandManager.table in Hdeal.
      cbn [HandManager.dealer HandManager.currentState HandManager.handNumber
           HandManager.bettingTracker HandManager.potManager Dealer.deck Dealer.table
           Table.seats Table.buttonPosition Table.communityCards Table.config
           Table.getCommunityCards] in Hdeal.
      rewrite Hdeal.
      rewrite setState_valid by (destruct st; try discriminate Hbet; reflexivity).
      eexists. split; [reflexivity|]. split; [reflexivity|].
      split; [intros ?; lia|]. split; [|intros ? ?; lia].
      intros _ _. split; [reflexivity|]. split; [|reflexivity].
      intro Hc. cbn [HandManager.dealer Dealer.table Table.getCommunityCards
                       Table.communityCards].
      fold community.
      destruct (Nat.ltb_spec (length community) 3); [reflexivity|].
      destruct (Nat.ltb_spec (length community) 4); [rewrite length_app; cbn [length]; lia|].
      destruct (Nat.ltb_spec (length community) 5); [rewrite length_app; cbn [length]; lia|].
      lia.
    + (* on to the next street *)
      assert (Hcond : ((length notAllIn =? 0)%nat
                       || ((length notAllIn =? 1)%nat && (1 <? length active)%nat)) = false).
      { destruct (Nat.eqb_spec (length notAllIn) 0) as [|N0]; [lia|].
        destruct (Nat.eqb_spec (length notAllIn) 1) as [|N1]; [lia|reflexivity]. }
      rewrite Hcond.
      destruct st; try discriminate Hbet;
        cbn [getNextState andb isBettingState];
        rewrite setState_valid by reflexivity;
        unfold HandManager.discard, HandManager.onDealer, HandManager.setBettingTracker;
        cbn [HandManager.dealer HandManager.currentState HandManager.handNumber
             HandManager.bettingTracker HandManager.potManager].
      * (* PreflopBetting *)
        change (rest ++ [x8; x7; x6; x5; x4; x3; x2; x1])
          with (rest ++ [x8; x7; x6; x5] ++ [x4; x3; x2; x1]).
        rewrite app_assoc, dealFlop_top.
        rewrite setState_valid by reflexivity.
        cbn [HandManager.dealer HandManager.currentState HandManager.handNumber
             HandManager.bettingTracker HandManager.potManager].
        eexists. split; [reflexivity|]. split; [reflexivity|].
        split; [intros ?; lia|]. split; [intros ? ?; lia|].
        intros _ _. split; [apply postflop_tracker_bet; discriminate|].
        split; [reflexivity|]. split; reflexivity.
      * (* FlopBetting *)
        change (rest ++ [x8; x7; x6; x5; x4; x3; x2; x1])
          with (rest ++ [x8; x7; x6; x5; x4; x3] ++ [x2; x1]).
        rewrite app_assoc, dealTurn_top.
        rewrite setState_valid by reflexivity.
        cbn [HandManager.dealer HandManager.currentState HandManager.handNumber
             HandManager.bettingTracker HandManager.potManager].
        eexists. split; [reflexivity|]. split; [reflexivity|].
        split; [intros ?; lia|]. split; [intros ? ?; lia|].
        intros _ _. split; [apply postflop_tracker_bet; discriminate|].
        split; [reflexivity|]. split; [exists x2; reflexivity|reflexivity].
      * (* TurnBetting *)
        change (rest ++ [x8; x7; x6; x5; x4; x3; x2; x1])
          with (rest ++ [x8; x7; x6; x5; x4; x3] ++ [x2; x1]).
        rewrite app_assoc, dealRiver_top.
        rewrite setState_valid by reflexivity.
        cbn [HandManager.dealer HandManager.currentState HandManager.handNumber
             HandManager.bettingTracker HandManager.potManager].
        eexists. split; [reflexivity|]. split; [reflexivity|].
        split; [intros ?; lia|]. split; [intros ? ?; lia|].
        intros _ _. split; [apply postflop_tracker_bet; discriminate|].
        split; [reflexivity|]. split; [exists x2; reflexivity|reflexivity].
      * (* RiverBetting *)
        eexists. split; [reflexivity|]. split; [reflexivity|].
        split; [intros ?; lia|]. split; [intros ? ?; lia|].
        intros _ _. split; [reflexivity|]. split; [reflexivity|]. split; reflexivity.
Qed.

Lemma X20_witness :
  let tb :=
    Table.mk [Some (Player.mk "p1" [] 990 10 Active (Some ActCall));
              Some (Player.mk "p2" [] 990 10 Active (Some ActCall));
              Some (Player.mk "p3" [] 990 10 Active (Some ActCheck))]
      0 [] (Table.mkConfig 3 5 10) in
  let hm := HandManager.mk (Dealer.new tb) PotManager.new PreflopBetting 1 None in
  exists hm',
    HandManager.completeBettingRound hm = Returns tt hm'
    /\ HandManager.currentState hm' = FlopBetting
    /\ length (Table.getCommunityCards (HandManager.table hm')) = 3%nat
    /\ HandManager.getCurrentBet hm' = 0.
Proof.
  intros tb hm.
  destruct (X20_completeBettingRound_advances_the_hand hm)
    as (hm' & E & _ & _ & _ & Hnext).
  - reflexivity.
  - vm_compute. lia.
  - exists hm'. split; [exact E|].
    destruct Hnext as (Hbet & Hst & Hlen & _).
    + vm_compute. lia.
    + vm_compute. lia.
    + split; [exact Hst|]. split; [exact Hlen|exact Hbet].
Defined.

(** ** The showdown *)

Lemma chips_after_set (l : list (option Player.t)) :
  forall (k i : nat) (cur new : Player.t),
    nth_error l i = Some (Some cur) ->
    sumZ (map Player.chips (map snd (Table.occupiedFrom k (Table.setNth l i (Some new)))))
    = sumZ (map Player.chips (map snd (Table.occupiedFrom k l)))
      - Player.chips cur + Player.chips new.
Proof.
  induction l as [|[q|] l IH]; intros k i cur new Hn.
  - destruct i; discriminate.
  - destruct i as [|i]; cbn [Table.setNth Table.occupiedFrom map snd]; cbn in Hn.
    + injection Hn as ->. rewrite !sumZ_cons. lia.
    + rewrite !sumZ_cons, (IH (S k) i cur new Hn). lia.
  - destruct i as [|i]; cbn [Table.setNth Table.occupiedFrom map snd]; cbn in Hn.
    + discriminate.
    + apply IH. exact Hn.
Qed.

Lemma addChips_ok (p : Player.t) (amount : Z) :
  0 < amount ->
  exists p', Player.addChips p amount = Ok p'
             /\ Player.chips p' = Player.chips p + amount.
Proof.
  intro Ha. unfold Player.addChips.
  destruct (Z.leb_spec amount 0); [lia|]. eexists. split; reflexivity.
Qed.

(** The loop that pays the winners, seat by seat. *)
Lemma award_spec (winnings : JsMap.t Z) :
  forall (ws : list (nat * Player.t * HandRanking.t)) (tb tb' : Table.t)
         (results : list Dealer.WinnerResult),
    NoDup (map (fun w => fst (fst w)) ws) ->
    (forall w, In w ws -> Table.getPlayerAtSeat tb (fst (fst w)) <> None) ->
    Dealer.award winnings ws tb = (tb', results) ->
    sumZ (map Player.chips (Table.getPlayers tb'))
    = sumZ (map Player.chips (Table.getPlayers tb)) + sumZ (map Dealer.amountWon results)
    /\ sumZ (map Dealer.amountWon results)
       = sumZ (map (fun w => Z.max 0 (JsMap.getOr winnings (Player.id (snd (fst w))) 0)) ws)
    /\ Forall (fun r => 0 < Dealer.amountWon r) results.
Proof.
  induction ws as [|[[seat player] hand] ws IH]; intros tb tb' results Hnd Hseated Haward.
  - cbn in Haward. injection Haward as <- <-. cbn [map]. change (sumZ []) with 0.
    split; [lia|]. split; [reflexivity|constructor].
  - cbn [Dealer.award] in Haward. cbn [map fst snd] in *.
    inversion Hnd as [|x l Hnotin Hnd']; subst.
    rewrite sumZ_cons.
    destruct (Z.ltb_spec 0 (JsMap.getOr winnings (Player.id player) 0)) as [Hpos|Hnon].
    + destruct (Table.getPlayerAtSeat tb seat) as [cur|] eqn:G;
        [|exfalso; apply (Hseated (seat, player, hand)); [left; reflexivity|exact G]].
      destruct (addChips_ok cur _ Hpos) as (cur' & Eadd & Hchips).
      rewrite Eadd in Haward.
      destruct (Dealer.award winnings ws (Table.setPlayerAtSeat tb seat cur'))
        as [tb2 res] eqn:A.
      injection Haward as <- <-.
      assert (Hrest : forall w, In w ws ->
                                Table.getPlayerAtSeat (Table.setPlayerAtSeat tb seat cur')
                                  (fst (fst w)) <> None).
      { intros w Hw.
        rewrite getPlayerAtSeat_setPlayer_other.
        - apply Hseated. right. exact Hw.
        - intro E. apply Hnotin. rewrite E.
          apply (in_map (fun w0 : nat * Player.t * HandRanking.t => fst (fst w0))).
          exact Hw. }
      destruct (IH _ _ _ Hnd' Hrest A) as (S1 & S2 & S3).
      assert (Hset : sumZ (map Player.chips
                             (Table.getPlayers (Table.setPlayerAtSeat tb seat cur')))
                     = sumZ (map Player.chips (Table.getPlayers tb))
                       + JsMap.getOr winnings (Player.id player) 0).
      { unfold Table.getPlayers, Table.occupied, Table.setPlayerAtSeat. cbn [Table.seats].
        rewrite (chips_after_set _ 0 seat cur cur'); [lia|].
        apply getPlayerAtSeat_inv. exact G. }
      cbn [map Dealer.amountWon]. rewrite sumZ_cons.
      split; [lia|]. split; [lia|]. constructor; [exact Hpos|exact S3].
    + assert (Hrest : forall w, In w ws -> Table.getPlayerAtSeat tb (fst (fst w)) <> None)
        by (intros w Hw; apply Hseated; right; exact Hw).
      destruct (IH _ _ _ Hnd' Hrest Haward) as (S1 & S2 & S3).
      split; [exact S1|]. split; [lia|exact S3].
Qed.

Lemma NoDup_map_filter {A B : Type} (f : A -> B) (g : A -> bool) (l : list A) :
  NoDup (map f l) -> NoDup (map f (filter g l)).
Proof.
  induction l as [|x l IH]; intro Hnd; [constructor|].
  cbn [map] in Hnd. inversion Hnd as [|y l' Hnotin Hnd']; subst.
  cbn [filter]. destruct (g x); [|apply IH; exact Hnd'].
  cbn [map]. constructor; [|apply IH; exact Hnd'].
  intro Hin. apply Hnotin. apply in_map_iff in Hin. destruct Hin as (x' & <- & Hx').
  apply in_map. apply filter_In in Hx'. tauto.
Qed.

Lemma evaluateAll_fst (communityCards : list Card.t) :
  forall (players : list (nat * Player.t)) (hands : list (nat * Player.t * HandRanking.t)),
    Dealer.evaluateAll communityCards players = Ok hands -> map fst hands = players.
Proof.
  induction players as [|[seat player] players IH]; intros hands H.
  - cbn in H. injection H as <-. reflexivity.
  - cbn [Dealer.evaluateAll] in H.
    destruct (_ <? 5)%nat; [discriminate|].
    destruct (if (_ =? 7)%nat then _ else _) as [hand|]; cbn [bind] in H; [|discriminate].
    destruct (Dealer.evaluateAll communityCards players) as [rest|]; cbn [bind] in H;
      [|discriminate].
    injection H as <-. cbn [map fst]. rewrite (IH rest eq_refl). reflexivity.
Qed.

Lemma insertByHand_perm (x : nat * Player.t * HandRanking.t)
    (l : list (nat * Player.t * HandRanking.t)) :
  Permutation (Dealer.insertByHand x l) (x :: l).
Proof.
  induction l as [|y l IH]; cbn [Dealer.insertByHand].
  - apply Permutation_refl.
  - destruct (_ <=? 0).
    + apply Permutation_refl.
    + eapply Permutation_trans; [apply perm_skip, IH | apply perm_swap].
Qed.

Lemma sortByHand_perm (l : list (nat * Player.t * HandRanking.t)) :
  Permutation (Dealer.sortByHand l) l.
Proof.
  unfold Dealer.sortByHand. induction l as [|x l IH]; cbn [fold_right].
  - apply Permutation_refl.
  - eapply Permutation_trans; [apply insertByHand_perm | apply perm_skip, IH].
Qed.

(** The winners are seated players, each taken once. *)
Lemma determineWinners_sub {B : Type} (f : nat * Player.t -> B) (tb : Table.t)
    (ws : list (nat * Player.t * HandRanking.t)) :
  Dealer.determineWinners tb = Ok ws ->
  NoDup (map f (Table.occupied tb)) ->
  NoDup (map (fun w => f (fst w)) ws)
  /\ forall w, In w ws -> In (fst w) (Table.occupied tb).
Proof.
  unfold Dealer.determineWinners.
  intros H Hnd.
  assert (Hp : NoDup (map f (filter (fun sp => negb (Player.hasFolded (snd sp)))
                                (Table.occupied tb))))
    by (apply NoDup_map_filter; exact Hnd).
  assert (Hin : forall x, In x (filter (fun sp => negb (Player.hasFolded (snd sp)))
                                  (Table.occupied tb)) ->
                          In x (Table.occupied tb))
    by (intros x Hx; apply filter_In in Hx; tauto).
  destruct (filter (fun sp => negb (Player.hasFolded (snd sp))) (Table.occupied tb))
    as [|[seat winner] [|second more]].
  - injection H as <-. split; [constructor | intros w []].
  - destruct (5 <=? _)%nat.
    + destruct (HandEvaluator.evaluateHand _) as [dummy|]; cbn [bind] in H; [|discriminate].
      injection H as <-. split; [exact Hp|].
      intros w [<-|[]]. apply Hin. left. reflexivity.
    + injection H as <-. split; [exact Hp|].
      intros w [<-|[]]. apply Hin. left. reflexivity.
  - destruct (Dealer.evaluateAll _ _) as [hands|] eqn:E; cbn [bind] in H; [|discriminate].
    pose proof (evaluateAll_fst _ _ _ E) as Hfst.
    pose proof (sortByHand_perm hands) as Hperm.
    destruct (Dealer.sortByHand hands) as [|best sorted'].
    + injection H as <-. split; [constructor | intros w []].
    + injection H as <-. split.
      * apply (NoDup_map_filter (fun w : nat * Player.t * HandRanking.t => f (fst w))
                 (fun ph => HandRanking.compareTo (snd ph) (snd best) =? 0)
                 (best :: sorted')).
        eapply Permutation_NoDup.
        -- apply Permutation_map, Permutation_sym, Hperm.
        -- rewrite <- (map_map fst f), Hfst. exact Hp.
      * intros w Hw.
        pose proof (proj1 (filter_In
                             (fun ph : nat * Player.t * HandRanking.t =>
                                HandRanking.compareTo (snd ph) (snd best) =? 0)
                             w (best :: sorted')) Hw) as [Hw' _].
        clear Hw. rename Hw' into Hw.
        apply Hin. rewrite <- Hfst. apply in_map.
        eapply Permutation_in; [exact Hperm|exact Hw].
Qed.

Lemma occupiedFrom_at (l : list (option Player.t)) :
  forall (k seat : nat) (p : Player.t),
    In (seat, p) (Table.occupiedFrom k l) ->
    (k <= seat)%nat /\ nth_error l (seat - k) = Some (Some p).
Proof.
  induction l as [|[q|] l IH]; intros k seat p Hin; cbn [Table.occupiedFrom] in Hin.
  - destruct Hin.
  - destruct Hin as [E|Hin].
    + injection E as <- <-. split; [lia|]. rewrite Nat.sub_diag. reflexivity.
    + destruct (IH (S k) seat p Hin) as [Hle Hn]. split; [lia|].
      replace (seat - k)%nat with (S (seat - S k)) by lia. exact Hn.
  - destruct (IH (S k) seat p Hin) as [Hle Hn]. split; [lia|].
    replace (seat - k)%nat with (S (seat - S k)) by lia. exact Hn.
Qed.

Lemma occupied_seats_distinct (l : list (option Player.t)) :
  forall k, NoDup (map fst (Table.occupiedFrom k l)).
Proof.
  induction l as [|[q|] l IH]; intro k; cbn [Table.occupiedFrom map fst].
  - constructor.
  - constructor; [|apply IH].
    intro Hin. apply in_map_iff in Hin. destruct Hin as ([seat p] & E & Hin).
    cbn [fst] in E. subst seat. apply occupiedFrom_at in Hin. lia.
  - apply IH.
Qed.

Lemma set_keys (m : JsMap.t Z) (k : string) (v : Z) :
  NoDup (JsMap.keys m) ->
  NoDup (JsMap.keys (JsMap.set m k v))
  /\ forall x, In x (JsMap.keys (JsMap.set m k v)) -> x = k \/ In x (JsMap.keys m).
Proof.
  unfold JsMap.keys. induction m as [|[k' v'] m IH]; intro Hnd; cbn [JsMap.set].
  - split; [repeat constructor; intros []|]. intros x [<-|[]]. left. reflexivity.
  - cbn [map fst] in Hnd. inversion Hnd as [|y l Hnotin Hnd']; subst.
    destruct (String.eqb_spec k' k) as [->|Hne]; cbn [map fst].
    + split; [exact Hnd|]. intros x Hx. right. exact Hx.
    + destruct (IH Hnd') as [Hnd2 Hin2]. split.
      * constructor; [|exact Hnd2]. intro Hin. destruct (Hin2 _ Hin) as [E|Hk'].
        -- apply Hne. exact E.
        -- apply Hnotin. exact Hk'.
      * intros x [<-|Hx]; [right; left; reflexivity|].
        destruct (Hin2 x Hx) as [->|H]; [left; reflexivity|right; right; exact H].
Qed.

Lemma creditWinners_ok (L : list string) (q r : Z) :
  0 <= q -> 0 <= r ->
  forall (ew : list string) (i : nat) (w : JsMap.t Z),
    (forall x, In x ew -> In x L) ->
    winningsOk L w ->
    winningsOk L (PotManager.creditWinners q r i ew w).
Proof.
  intros Hq Hr. induction ew as [|e ew IH]; intros i w Hew Hw; [exact Hw|].
  cbn [PotManager.creditWinners]. apply IH.
  - intros x Hx. apply Hew. right. exact Hx.
  - destruct Hw as (Hnd & Hsub & Hnn).
    destruct (set_keys w e
                (JsMap.getOr w e 0 + (if (i =? 0)%nat then q + r else q)) Hnd)
      as [Hnd' Hin'].
    split; [exact Hnd'|]. split.
    + intros x Hx. destruct (Hin' x Hx) as [->|H]; [apply Hew; left; reflexivity|].
      apply Hsub. exact H.
    + intro p. rewrite getOr_set. destruct (String.eqb e p).
      * pose proof (Hnn e). destruct (i =? 0)%nat; lia.
      * apply Hnn.
Qed.

Lemma distributeSinglePot_ok (L : list string) (pot : Pot.t) (w : JsMap.t Z) :
  0 <= Pot.total pot ->
  winningsOk L w ->
  winningsOk L (PotManager.distributeSinglePot pot L w).
Proof.
  intros HT Hw. unfold PotManager.distributeSinglePot.
  destruct (Pot.total pot =? 0); [exact Hw|].
  destruct (filter (Pot.isPlayerEligible pot) L) as [|first others] eqn:Ef; [exact Hw|].
  apply creditWinners_ok.
  - apply Z.div_pos; [exact HT|]. cbn [length]. lia.
  - apply Z.rem_nonneg; [|exact HT]. cbn [length]. lia.
  - intros x Hx. rewrite <- Ef in Hx. apply filter_In in Hx. tauto.
  - exact Hw.
Qed.

Lemma distributePots_ok (L : list string) (pm : PotManager.t) :
  Forall (fun pot => 0 <= Pot.total pot) (PotManager.mainPot pm :: PotManager.sidePots pm) ->
  winningsOk L (PotManager.distributePots pm L).
Proof.
  intro Hall. inversion Hall as [|x l Hmain Hsides]; subst.
  unfold PotManager.distributePots.
  assert (H0 : winningsOk L (PotManager.distributeSinglePot (PotManager.mainPot pm) L [])).
  { apply distributeSinglePot_ok; [exact Hmain|].
    split; [constructor|]. split; [intros x []|]. intro p. cbn. lia. }
  revert H0. generalize (PotManager.distributeSinglePot (PotManager.mainPot pm) L []).
  clear Hall Hmain.
  induction Hsides as [|sp sps Hsp Hsps IH]; intros w Hw; cbn [fold_left]; [exact Hw|].
  apply IH. apply distributeSinglePot_ok; assumption.
Qed.

Lemma sum_getOr_cons (k0 : string) (v0 : Z) (w : JsMap.t Z) :
  ~ In k0 (JsMap.keys w) ->
  forall L : list string,
    NoDup L -> In k0 L ->
    sumZ (map (fun k => JsMap.getOr ((k0, v0) :: w) k 0) L)
    = v0 + sumZ (map (fun k => JsMap.getOr w k 0) L).
Proof.
  intros Hfresh.
  assert (Hother : forall L : list string,
             ~ In k0 L ->
             map (fun k => JsMap.getOr ((k0, v0) :: w) k 0) L
             = map (fun k => JsMap.getOr w k 0) L).
  { intros L Hno. apply map_ext_in. intros k Hk. unfold JsMap.getOr. cbn [JsMap.get].
    destruct (String.eqb_spec k0 k) as [->|_]; [contradiction|reflexivity]. }
  induction L as [|k L IH]; intros Hnd Hin; [destruct Hin|].
  inversion Hnd as [|x l Hnotin Hnd']; subst.
  cbn [map]. rewrite !sumZ_cons.
  destruct (String.eqb_spec k0 k) as [->|Hne].
  - rewrite (Hother L Hnotin). rewrite (getOr_absent w k Hfresh).
    unfold JsMap.getOr at 1. cbn [JsMap.get]. rewrite String.eqb_refl. lia.
  - destruct Hin as [E|Hin]; [congruence|].
    rewrite (IH Hnd' Hin).
    unfold JsMap.getOr at 1. cbn [JsMap.get].
    destruct (String.eqb_spec k0 k) as [E|_]; [contradiction|].
    fold (JsMap.getOr w k 0). lia.
Qed.

Lemma sum_over_winners (L : list string) (w : JsMap.t Z) :
  NoDup L ->
  NoDup (JsMap.keys w) ->
  (forall x, In x (JsMap.keys w) -> In x L) ->
  sumZ (map (fun k => JsMap.getOr w k 0) L) = sumZ (JsMap.values w).
Proof.
  intro HL. induction w as [|[k0 v0] w IH]; intros Hnd Hsub.
  - apply sumZ_all_zero. intros v Hv. apply in_map_iff in Hv.
    destruct Hv as (k & <- & _). reflexivity.
  - unfold JsMap.keys in Hnd. cbn [map fst] in Hnd.
    inversion Hnd as [|x l Hnotin Hnd']; subst.
    rewrite sum_getOr_cons.
    + unfold JsMap.values. cbn [map snd]. rewrite sumZ_cons.
      unfold JsMap.values in IH. rewrite IH; [reflexivity|exact Hnd'|].
      intros x Hx. apply Hsub. right. exact Hx.
    + exact Hnotin.
    + exact HL.
    + apply Hsub. left. reflexivity.
Qed.

Lemma eligible_part_le_total (winners : list string) (pots : list Pot.t) :
  Forall (fun pot => 0 <= Pot.total pot) pots ->
  sumZ (map (fun pot => if existsb (Pot.isPlayerEligible pot) winners
                        then Pot.total pot else 0) pots)
  <= sumZ (map Pot.total pots).
Proof.
  induction 1 as [|pot pots Hpot Hpots IH]; cbn [map].
  - lia.
  - rewrite !sumZ_cons. destruct (existsb _ _); lia.
Qed.

Lemma distributePots_as_award (pm : PotManager.t) (d : Dealer.t)
    (ws : list (nat * Player.t * HandRanking.t)) :
  Dealer.determineWinners (Dealer.table d) = Ok ws ->
  Dealer.distributePots pm d
  = (let '(tb1, results) :=
       Dealer.award
         (PotManager.distributePots pm (map (fun w => Player.id (snd (fst w))) ws))
         ws (Dealer.table d) in
     Returns results (Dealer.mk (Dealer.deck d) tb1)).
Proof.
  intro Ew. unfold Dealer.distributePots. rewrite Ew.
  destruct ws as [|w0 ws']; [destruct d; reflexivity|reflexivity].
Qed.

(** X21.  The accounts of a showdown.  When [performShowdown] returns, on a
    table whose seated players have distinct ids and with pots that hold no
    negative total: the state is HandComplete, the total reported is the
    total of the pots before, every result carries a positive amount, the
    chips of the seated players grow by exactly the sum of the amounts won,
    and that sum is the total of those pots in which at least one of the
    winners named by [determineWinners] is eligible; it never
    exceeds the total of the pots.  The pots themselves are not emptied: the
    pot manager is the same after the showdown as before. *)
Theorem X21_showdown_pays_the_pots_with_an_eligible_winner
    (hm hm' : HandManager.t) (result : HandManager.HandResult) :
  NoDup (map Player.id (Table.getPlayers (HandManager.table hm))) ->
  Forall (fun pot => 0 <= Pot.total pot)
    (PotManager.mainPot (HandManager.potManager hm)
     :: PotManager.sidePots (HandManager.potManager hm)) ->
  HandManager.performShowdown hm = Returns result hm' ->
  let paid := sumZ (map Dealer.amountWon (HandManager.winners result)) in
  HandManager.currentState hm' = HandComplete
  /\ HandManager.potManager hm' = HandManager.potManager hm
  /\ HandManager.totalPot result = PotManager.getTotalPotAmount (HandManager.potManager hm)
  /\ Forall (fun r => 0 < Dealer.amountWon r) (HandManager.winners result)
  /\ sumZ (map Player.chips (Table.getPlayers (HandManager.table hm')))
     = sumZ (map Player.chips (Table.getPlayers (HandManager.table hm))) + paid
  /\ paid <= HandManager.totalPot result
  /\ (forall ws,
         Dealer.determineWinners (HandManager.table hm) = Ok ws ->
         paid
         = sumZ (map (fun pot =>
                        if existsb (Pot.isPlayerEligible pot)
                             (map (fun w => Player.id (snd (fst w))) ws)
                        then Pot.total pot else 0)
                   (PotManager.mainPot (HandManager.potManager hm)
                    :: PotManager.sidePots (HandManager.potManager hm)))).
Proof.
  intros Hnd Hpots Hrun paid.
  destruct hm as [[deck tb] pm st hn tr].
  unfold HandManager.table in *.
  cbn [HandManager.dealer HandManager.potManager Dealer.table] in *.
  unfold HandManager.performShowdown in Hrun. cbn [HandManager.currentState] in Hrun.
  destruct (negb (GameState_beq st Showdown) && negb (GameState_beq st HandComplete)) eqn:Eg;
    [discriminate|].
  unfold andThen, HandManager.onDealer in Hrun.
  cbn [HandManager.dealer HandManager.potManager HandManager.currentState
       HandManager.handNumber HandManager.bettingTracker] in Hrun.
  (* the state after the payout *)
  assert (Hstate :
            forall d,
              (if negb (GameState_beq st HandComplete)
               then HandManager.setState HandComplete (HandManager.mk d pm st hn tr)
               else Returns tt (HandManager.mk d pm st hn tr))
              = Returns tt (HandManager.mk d pm HandComplete hn tr)).
  { intro d. destruct st; try discriminate Eg; reflexivity. }
  destruct (Dealer.determineWinners tb) as [ws|e] eqn:Ew.
  2:{ unfold Dealer.distributePots in Hrun. cbn [Dealer.table] in Hrun.
      rewrite Ew in Hrun. discriminate. }
  rewrite (distributePots_as_award pm (Dealer.mk deck tb) ws Ew) in Hrun.
  cbn [Dealer.table Dealer.deck] in Hrun.
  set (winnings := PotManager.distributePots pm (map (fun w => Player.id (snd (fst w))) ws))
    in *.
  destruct (Dealer.award winnings ws tb) as [tb1 results] eqn:Ea.
  cbn [HandManager.currentState] in Hrun. rewrite Hstate in Hrun.
  injection Hrun as <- <-.
  (* the winners are seated, each once *)
  destruct (determineWinners_sub fst tb ws Ew) as [Hseats Hseated];
    [apply occupied_seats_distinct|].
  destruct (determineWinners_sub (fun sp => Player.id (snd sp)) tb ws Ew) as [Hids _].
  { unfold Table.getPlayers in Hnd. rewrite map_map in Hnd. exact Hnd. }
  assert (Hocc : forall w, In w ws -> Table.getPlayerAtSeat tb (fst (fst w)) <> None).
  { intros w Hw. specialize (Hseated w Hw).
    destruct w as [[seat p] h]. cbn [fst] in *.
    unfold Table.occupied in Hseated. apply occupiedFrom_at in Hseated.
    destruct Hseated as [_ Hn]. rewrite Nat.sub_0_r in Hn.
    apply getPlayerAtSeat_inv in Hn. rewrite Hn. discriminate. }
  destruct (award_spec winnings ws tb tb1 results Hseats Hocc Ea) as (S1 & S2 & S3).
  destruct (distributePots_ok (map (fun w => Player.id (snd (fst w))) ws) pm Hpots)
    as (Hk1 & Hk2 & Hk3).
  fold winnings in Hk1, Hk2, Hk3.
  assert (Hpaid : sumZ (map Dealer.amountWon results) = sumZ (JsMap.values winnings)).
  { rewrite S2.
    rewrite <- (sum_over_winners (map (fun w => Player.id (snd (fst w))) ws) winnings
                  Hids Hk1 Hk2).
    rewrite map_map. f_equal. apply map_ext. intro w.
    pose proof (Hk3 (Player.id (snd (fst w)))). lia. }
  pose proof (distributePots_sum pm (map (fun w => Player.id (snd (fst w))) ws) Hpots)
    as Hdist.
  fold winnings in Hdist.
  pose proof (eligible_part_le_total (map (fun w => Player.id (snd (fst w))) ws) _ Hpots)
    as Hle.
  assert (Hsum0 : sumZ (map Pot.total (PotManager.mainPot pm :: PotManager.sidePots pm))
                  = PotManager.getTotalPotAmount pm).
  { rewrite getTotalPotAmount_sum. cbn [map]. rewrite sumZ_cons. reflexivity. }
  unfold paid. cbn [HandManager.winners HandManager.totalPot HandManager.currentState
                      HandManager.potManager HandManager.dealer Dealer.table].
  split; [reflexivity|]. split; [reflexivity|]. split; [reflexivity|].
  split; [exact S3|]. split; [exact S1|]. split.
  - rewrite Hpaid, Hdist. lia.
  - intros ws2 E2. injection E2 as <-. rewrite Hpaid. exact Hdist.
Qed.

Lemma X21_witness :
  let community :=
    [Card.mk Two Diamonds; Card.mk Seven Clubs; Card.mk Nine Spades;
     Card.mk Jack Hearts; Card.mk Three Diamonds] in
  let tb :=
    Table.mk [Some (Player.mk "p1" [Card.mk Ace Spades; Card.mk Ace Hearts]
                      0 0 AllIn (Some ActAllIn));
              Some (Player.mk "p2" [Card.mk King Spades; Card.mk King Hearts]
                      800 0 Active None);
              Some (Player.mk "p3" [Card.mk Queen Spades; Card.mk Queen Hearts]
                      800 0 Active None)]
      0 community (Table.mkConfig 3 5 10) in
  let pm :=
    {| PotManager.mainPot :=
         Pot.mk [("p1", 50); ("p2", 50); ("p3", 50)]%string ["p1"; "p2"; "p3"]%string;
       PotManager.sidePots :=
         [Pot.mk [("p2", 150); ("p3", 150)]%string ["p2"; "p3"]%string] |} in
  let hm := HandManager.mk (Dealer.mk Deck.reset tb) pm Showdown 1 None in
  exists result hm',
    HandManager.performShowdown hm = Returns result hm'
    /\ HandManager.totalPot result = 450
    /\ sumZ (map Dealer.amountWon (HandManager.winners result)) <= 450
    /\ sumZ (map Player.chips (Table.getPlayers (HandManager.table hm')))
       = 1600 + sumZ (map Dealer.amountWon (HandManager.winners result))
    /\ HandManager.potManager hm' = pm.
Proof.
  intros community tb pm hm.
  destruct (HandManager.performShowdown hm) as [result hm'|e hm'] eqn:E.
  - exists result, hm'. split; [reflexivity|].
    destruct (X21_showdown_pays_the_pots_with_an_eligible_winner hm hm' result)
      as (_ & Hpm & Htotal & _ & Hchips & Hle & _).
    + vm_compute. repeat constructor; simpl; intuition discriminate.
    + repeat constructor; vm_compute; discriminate.
    + exact E.
    + split; [exact Htotal|]. split; [|split; [exact Hchips|exact Hpm]].
      rewrite Htotal in Hle. exact Hle.
  - exfalso. vm_compute in E. discriminate.
Defined.

(** ** A second showdown *)

Lemma sameSeat_refl (a : option Player.t) : sameSeat a a.
Proof. destruct a; cbn; [repeat split|exact I]. Qed.

Lemma sameSeats_refl (l : list (option Player.t)) : Forall2 sameSeat l l.
Proof. induction l; constructor; [apply sameSeat_refl|assumption]. Qed.

Lemma sameSeats_trans (l1 l2 l3 : list (option Player.t)) :
  Forall2 sameSeat l1 l2 -> Forall2 sameSeat l2 l3 -> Forall2 sameSeat l1 l3.
Proof.
  intro H12. revert l3. induction H12 as [|a b l1 l2 Hab _ IH]; intros l3 H23.
  - inversion H23. constructor.
  - inversion H23 as [|b' c l2' l3' Hbc H23']; subst. constructor; [|apply IH; exact H23'].
    destruct a as [p|], b as [q|], c as [r|]; cbn in *; try contradiction; try exact I.
    unfold sameHand in *. intuition congruence.
Qed.

Lemma sameSeats_setNth (l : list (option Player.t)) :
  forall (i : nat) (cur new : Player.t),
    nth_error l i = Some (Some cur) ->
    sameHand cur new ->
    Forall2 sameSeat l (Table.setNth l i (Some new)).
Proof.
  induction l as [|a l IH]; intros i cur new Hn Hs.
  - destruct i; discriminate.
  - destruct i as [|i]; cbn [Table.setNth]; cbn in Hn.
    + injection Hn as ->. constructor; [exact Hs|apply sameSeats_refl].
    + constructor; [apply sameSeat_refl|]. apply (IH i cur new Hn Hs).
Qed.

Lemma addChips_sameHand (p p' : Player.t) (amount : Z) :
  Player.addChips p amount = Ok p' -> sameHand p p'.
Proof.
  unfold Player.addChips. destruct (amount <=? 0); [discriminate|].
  intro H. injection H as <-. unfold sameHand, Player.hasFolded, Player.getHoleCards.
  cbn [Player.id Player.holeCards Player.status].
  split; [reflexivity|].
  destruct (Player.status p); cbn; try (split; reflexivity).
  destruct (0 <? _); split; reflexivity.
Qed.

(** Paying the winners changes nobody's id, cards or folded flag. *)
Lemma award_sameSeats (winnings : JsMap.t Z) :
  forall (ws : list (nat * Player.t * HandRanking.t)) (tb : Table.t),
    Forall2 sameSeat (Table.seats tb) (Table.seats (fst (Dealer.award winnings ws tb)))
    /\ Table.communityCards (fst (Dealer.award winnings ws tb)) = Table.communityCards tb.
Proof.
  induction ws as [|[[seat player] hand] ws IH]; intro tb.
  - cbn. split; [apply sameSeats_refl|reflexivity].
  - cbn [Dealer.award].
    destruct (0 <? JsMap.getOr winnings (Player.id player) 0); [|apply IH].
    set (tb1 := match Table.getPlayerAtSeat tb seat with
                | Some current =>
                    match Player.addChips current
                            (JsMap.getOr winnings (Player.id player) 0) with
                    | Ok current' => Table.setPlayerAtSeat tb seat current'
                    | Throw _ => tb
                    end
                | None => tb
                end).
    assert (H1 : Forall2 sameSeat (Table.seats tb) (Table.seats tb1)
                 /\ Table.communityCards tb1 = Table.communityCards tb).
    { unfold tb1. destruct (Table.getPlayerAtSeat tb seat) as [cur|] eqn:G;
        [|split; [apply sameSeats_refl|reflexivity]].
      destruct (Player.addChips cur _) as [cur'|] eqn:Ea;
        [|split; [apply sameSeats_refl|reflexivity]].
      split; [|reflexivity]. cbn [Table.setPlayerAtSeat Table.seats].
      apply (sameSeats_setNth _ seat cur cur').
      - apply getPlayerAtSeat_inv. exact G.
      - exact (addChips_sameHand _ _ _ Ea). }
    destruct (IH tb1) as [H2 C2].
    destruct (Dealer.award winnings ws tb1) as [tb2 results]. cbn [fst] in *.
    destruct H1 as [H1 C1]. split; [|congruence].
    exact (sameSeats_trans _ _ _ H1 H2).
Qed.

Lemma occupied_related (l l' : list (option Player.t)) :
  Forall2 sameSeat l l' ->
  forall k,
    Forall2 (fun x y : nat * Player.t => fst x = fst y /\ sameHand (snd x) (snd y))
      (Table.occupiedFrom k l) (Table.occupiedFrom k l').
Proof.
  induction 1 as [|a b l l' Hab _ IH]; intro k; cbn [Table.occupiedFrom].
  - constructor.
  - destruct a as [p|], b as [q|]; cbn in Hab; try contradiction.
    + constructor; [split; [reflexivity|exact Hab]|apply IH].
    + apply IH.
Qed.

Lemma Forall2_filter {A B : Type} (R : A -> B -> Prop) (f : A -> bool) (g : B -> bool)
    (l : list A) (l' : list B) :
  (forall x y, R x y -> f x = g y) ->
  Forall2 R l l' -> Forall2 R (filter f l) (filter g l').
Proof.
  intros Hfg. induction 1 as [|x y l l' Hxy _ IH]; cbn [filter]; [constructor|].
  rewrite (Hfg x y Hxy). destruct (g y); [constructor; assumption|assumption].
Qed.

Lemma evaluateAll_related (communityCards : list Card.t)
    (players players' : list (nat * Player.t)) :
  Forall2 (fun x y : nat * Player.t => fst x = fst y /\ sameHand (snd x) (snd y))
    players players' ->
  match Dealer.evaluateAll communityCards players,
        Dealer.evaluateAll communityCards players' with
  | Ok hands, Ok hands' => Forall2 sameWinner hands hands'
  | Throw e, Throw e' => e = e'
  | _, _ => False
  end.
Proof.
  induction 1 as [|[seat p] [seat' q] l l' [Hseat Hsame] _ IH]; cbn [Dealer.evaluateAll].
  - constructor.
  - cbn [fst snd] in Hseat, Hsame. subst seat'.
    destruct Hsame as (Hid & Hcards & Hf). rewrite <- Hcards, <- Hid.
    destruct (_ <? 5)%nat; [reflexivity|].
    destruct (if (_ =? 7)%nat then _ else _) as [hand|e]; cbn [bind]; [|reflexivity].
    destruct (Dealer.evaluateAll communityCards l) as [hands|e],
             (Dealer.evaluateAll communityCards l') as [hands'|e'];
      cbn [bind]; try contradiction; try exact IH.
    constructor; [|exact IH].
    split; [reflexivity|]. split; [|reflexivity]. cbn [fst snd].
    split; [exact Hid|]. split; [exact Hcards|exact Hf].
Qed.

Lemma insertByHand_related (x y : nat * Player.t * HandRanking.t)
    (l l' : list (nat * Player.t * HandRanking.t)) :
  sameWinner x y -> Forall2 sameWinner l l' ->
  Forall2 sameWinner (Dealer.insertByHand x l) (Dealer.insertByHand y l').
Proof.
  intros Hxy. induction 1 as [|a b l l' Hab Hl IH]; cbn [Dealer.insertByHand].
  - constructor; [exact Hxy|constructor].
  - pose proof Hxy as (Hx1 & Hx2 & Hh). pose proof Hab as (Ha1 & Ha2 & Hah).
    rewrite <- Hh, <- Hah.
    destruct (_ <=? 0).
    + constructor; [exact Hxy|]. constructor; [exact Hab|exact Hl].
    + constructor; [exact Hab|exact IH].
Qed.

Lemma sortByHand_related (l l' : list (nat * Player.t * HandRanking.t)) :
  Forall2 sameWinner l l' ->
  Forall2 sameWinner (Dealer.sortByHand l) (Dealer.sortByHand l').
Proof.
  unfold Dealer.sortByHand. induction 1 as [|x y l l' Hxy _ IH]; cbn [fold_right].
  - constructor.
  - apply insertByHand_related; assumption.
Qed.

(** [determineWinners] depends only on ids, hole cards, folded flags and the
    community cards. *)
Lemma determineWinners_related (tb tb' : Table.t) :
  Forall2 sameSeat (Table.seats tb) (Table.seats tb') ->
  Table.communityCards tb' = Table.communityCards tb ->
  match Dealer.determineWinners tb, Dealer.determineWinners tb' with
  | Ok ws, Ok ws' => Forall2 sameWinner ws ws'
  | Throw e, Throw e' => e = e'
  | _, _ => False
  end.
Proof.
  intros Hseats Hcc. unfold Dealer.determineWinners, Table.getCommunityCards.
  rewrite Hcc.
  assert (Hplayers :
            Forall2 (fun x y : nat * Player.t => fst x = fst y /\ sameHand (snd x) (snd y))
              (filter (fun sp => negb (Player.hasFolded (snd sp))) (Table.occupied tb))
              (filter (fun sp => negb (Player.hasFolded (snd sp))) (Table.occupied tb'))).
  { apply Forall2_filter.
    - intros x y (_ & _ & _ & Hf). rewrite Hf. reflexivity.
    - apply occupied_related. exact Hseats. }
  pose proof (evaluateAll_related (Table.communityCards tb) _ _ Hplayers) as Heval.
  destruct Hplayers as [|[seat p] [seat' q] l l' [Hseat Hsame] Hrest].
  - constructor.
  - cbn [fst snd] in Hseat, Hsame. subst seat'.
    destruct Hrest as [|second second' more more' Hsecond Hmore].
    + destruct Hsame as (Hid & Hcards & Hf). rewrite <- Hcards.
      destruct (5 <=? _)%nat.
      * destruct (HandEvaluator.evaluateHand _) as [dummy|e]; cbn [bind]; [|reflexivity].
        constructor; [|constructor]. split; [reflexivity|]. split; [|reflexivity].
        split; [exact Hid|]. split; [exact Hcards|exact Hf].
      * constructor; [|constructor]. split; [reflexivity|]. split; [|reflexivity].
        split; [exact Hid|]. split; [exact Hcards|exact Hf].
    + destruct (Dealer.evaluateAll (Table.communityCards tb) ((seat, p) :: second :: more))
        as [hands|e],
        (Dealer.evaluateAll (Table.communityCards tb) ((seat, q) :: second' :: more'))
        as [hands'|e']; cbn [bind]; try contradiction; try exact Heval.
      pose proof (sortByHand_related _ _ Heval) as Hsorted.
      destruct Hsorted as [|best best' sorted sorted' Hbest Hsorted]; [constructor|].
      apply Forall2_filter.
      * intros x y (_ & _ & Hh). destruct Hbest as (_ & _ & Hb). rewrite Hh, Hb. reflexivity.
      * constructor; assumption.
Qed.

Lemma award_results_related (winnings : JsMap.t Z) :
  forall (ws ws' : list (nat * Player.t * HandRanking.t)) (tb tb' : Table.t),
    Forall2 sameWinner ws ws' ->
    snd (Dealer.award winnings ws tb) = snd (Dealer.award winnings ws' tb').
Proof.
  intros ws ws' tb tb' H. revert tb tb'.
  induction H as [|[[seat p] h] [[seat' q] h'] ws ws' Hw _ IH]; intros tb tb'.
  - reflexivity.
  - destruct Hw as (Hseat & (Hid & _ & _) & Hh). cbn [fst snd] in *. subst seat' h'.
    cbn [Dealer.award]. rewrite <- Hid.
    destruct (0 <? JsMap.getOr winnings (Player.id p) 0); [|apply IH].
    match goal with
    | |- snd (let '(_, _) := Dealer.award winnings ws ?t1 in _)
         = snd (let '(_, _) := Dealer.award winnings ws' ?t2 in _) =>
        specialize (IH t1 t2);
        destruct (Dealer.award winnings ws t1) as [ta ra];
        destruct (Dealer.award winnings ws' t2) as [tb2 rb]
    end.
    cbn [snd] in *. rewrite IH. reflexivity.
Qed.

Lemma winner_ids_related (ws ws' : list (nat * Player.t * HandRanking.t)) :
  Forall2 sameWinner ws ws' ->
  map (fun w => Player.id (snd (fst w))) ws' = map (fun w => Player.id (snd (fst w))) ws.
Proof.
  induction 1 as [|x y ws ws' (_ & (Hid & _) & _) _ IH]; [reflexivity|].
  cbn [map]. rewrite IH, Hid. reflexivity.
Qed.

Lemma winners_are_seated (tb : Table.t) (ws : list (nat * Player.t * HandRanking.t)) :
  Dealer.determineWinners tb = Ok ws ->
  NoDup (map (fun w => fst (fst w)) ws)
  /\ forall w, In w ws -> Table.getPlayerAtSeat tb (fst (fst w)) <> None.
Proof.
  intro Ew.
  destruct (determineWinners_sub fst tb ws Ew) as [Hseats Hseated];
    [apply occupied_seats_distinct|].
  split; [exact Hseats|].
  intros w Hw. specialize (Hseated w Hw).
  destruct w as [[seat p] h]. cbn [fst] in *.
  unfold Table.occupied in Hseated. apply occupiedFrom_at in Hseated.
  destruct Hseated as [_ Hn]. rewrite Nat.sub_0_r in Hn.
  apply getPlayerAtSeat_inv in Hn. rewrite Hn. discriminate.
Qed.

(** X22.  A showdown can be run twice, and then pays twice.  Whenever
    [performShowdown] returns, the manager is in state HandComplete with the
    pots still full, a state in which [performShowdown] is accepted again: a
    second call returns the very same result (same winners, hands and
    amounts) and credits the same amounts once more, so that the seated
    players then hold the chips from before the first call plus twice the
    amounts won. *)
Theorem X22_second_showdown_pays_again
    (hm hm1 : HandManager.t) (result : HandManager.HandResult) :
  HandManager.performShowdown hm = Returns result hm1 ->
  let paid := sumZ (map Dealer.amountWon (HandManager.winners result)) in
  exists hm2,
    HandManager.performShowdown hm1 = Returns result hm2
    /\ sumZ (map Player.chips (Table.getPlayers (HandManager.table hm1)))
       = sumZ (map Player.chips (Table.getPlayers (HandManager.table hm))) + paid
    /\ sumZ (map Player.chips (Table.getPlayers (HandManager.table hm2)))
       = sumZ (map Player.chips (Table.getPlayers (HandManager.table hm))) + 2 * paid
    /\ HandManager.potManager hm2 = HandManager.potManager hm.
Proof.
  intros Hrun paid.
  destruct hm as [[deck tb] pm st hn tr].
  unfold HandManager.table in *.
  cbn [HandManager.dealer HandManager.potManager Dealer.table] in *.
  unfold HandManager.performShowdown in Hrun. cbn [HandManager.currentState] in Hrun.
  destruct (negb (GameState_beq st Showdown) && negb (GameState_beq st HandComplete)) eqn:Eg;
    [discriminate|].
  unfold andThen, HandManager.onDealer in Hrun.
  cbn [HandManager.dealer HandManager.potManager HandManager.currentState
       HandManager.handNumber HandManager.bettingTracker] in Hrun.
  assert (Hstate :
            forall d,
              (if negb (GameState_beq st HandComplete)
               then HandManager.setState HandComplete (HandManager.mk d pm st hn tr)
               else Returns tt (HandManager.mk d pm st hn tr))
              = Returns tt (HandManager.mk d pm HandComplete hn tr)).
  { intro d. destruct st; try discriminate Eg; reflexivity. }
  destruct (Dealer.determineWinners tb) as [ws|e] eqn:Ew.
  2:{ unfold Dealer.distributePots in Hrun. cbn [Dealer.table] in Hrun.
      rewrite Ew in Hrun. discriminate. }
  rewrite (distributePots_as_award pm (Dealer.mk deck tb) ws Ew) in Hrun.
  cbn [Dealer.table Dealer.deck] in Hrun.
  set (winnings := PotManager.distributePots pm (map (fun w => Player.id (snd (fst w))) ws))
    in *.
  destruct (Dealer.award winnings ws tb) as [tb1 results] eqn:Ea.
  cbn [HandManager.currentState] in Hrun. rewrite Hstate in Hrun.
  injection Hrun as <- <-.
  (* the table after the first payout looks the same to [determineWinners] *)
  pose proof (award_sameSeats winnings ws tb) as [Hsame Hcc].
  rewrite Ea in Hsame, Hcc. cbn [fst] in Hsame, Hcc.
  pose proof (determineWinners_related tb tb1 Hsame Hcc) as Hrel.
  rewrite Ew in Hrel.
  destruct (Dealer.determineWinners tb1) as [ws1|e1] eqn:Ew1; [|contradiction].
  pose proof (winner_ids_related ws ws1 Hrel) as Hids.
  pose proof (award_results_related winnings ws ws1 tb tb1 Hrel) as Hres.
  rewrite Ea in Hres. cbn [snd] in Hres.
  destruct (Dealer.award winnings ws1 tb1) as [tb2 results2] eqn:Ea2.
  cbn [snd] in Hres. subst results2.
  destruct (winners_are_seated tb ws Ew) as [Hseats Hocc].
  destruct (winners_are_seated tb1 ws1 Ew1) as [Hseats1 Hocc1].
  destruct (award_spec winnings ws tb tb1 results Hseats Hocc Ea) as (S1 & _ & _).
  destruct (award_spec winnings ws1 tb1 tb2 results Hseats1 Hocc1 Ea2) as (S2 & _ & _).
  exists (HandManager.mk (Dealer.mk deck tb2) pm HandComplete hn tr).
  unfold paid.
  cbn [HandManager.winners HandManager.dealer HandManager.potManager Dealer.table].
  split; [|split; [exact S1|split; [lia|reflexivity]]].
  unfold HandManager.performShowdown. cbn [HandManager.currentState GameState_beq negb andb].
  unfold andThen, HandManager.onDealer.
  cbn [HandManager.dealer HandManager.potManager HandManager.currentState
       HandManager.handNumber HandManager.bettingTracker].
  rewrite (distributePots_as_award pm (Dealer.mk deck tb1) ws1 Ew1).
  cbn [Dealer.table Dealer.deck]. rewrite Hids. fold winnings. rewrite Ea2.
  reflexivity.
Qed.

Lemma X22_witness :
  let community :=
    [Card.mk Two Diamonds; Card.mk Seven Clubs; Card.mk Nine Spades;
     Card.mk Jack Hearts; Card.mk Three Diamonds] in
  let tb :=
    Table.mk [Some (Player.mk "p1" [Card.mk Ace Spades; Card.mk Ace Hearts]
                      0 0 AllIn (Some ActAllIn));
              Some (Player.mk "p2" [Card.mk King Spades; Card.mk King Hearts]
                      800 0 Folded (Some ActFold))]
      0 community (Table.mkConfig 2 5 10) in
  let pm :=
    {| PotManager.mainPot := Pot.mk [("p1", 200); ("p2", 200)]%string ["p1"]%string;
       PotManager.sidePots := [] |} in
  let hm := HandManager.mk (Dealer.mk Deck.reset tb) pm HandComplete 1 None in
  exists result hm1 hm2,
    HandManager.performShowdown hm = Returns result hm1
    /\ HandManager.performShowdown hm1 = Returns result hm2
    /\ map Dealer.amountWon (HandManager.winners result) = [400]
    /\ sumZ (map Player.chips (Table.getPlayers (HandManager.table hm2))) = 1600.
Proof.
  intros community tb pm hm.
  destruct (HandManager.performShowdown hm) as [result hm1|e hm1] eqn:E.
  - destruct (X22_second_showdown_pays_again hm hm1 result E) as (hm2 & E2 & _ & H2 & _).
    exists result, hm1, hm2. split; [reflexivity|]. split; [exact E2|].
    assert (Hwon : map Dealer.amountWon (HandManager.winners result) = [400]).
    { vm_compute in E. injection E as <- _. reflexivity. }
    split; [exact Hwon|]. rewrite H2, Hwon. reflexivity.
  - exfalso. vm_compute in E. discriminate.
Defined.

(** ** The action order as a rotation of the players *)

Lemma findIndexFrom_at (pre : list Player.t) (p : Player.t) (rest : list Player.t) :
  forall k,
    (forall q, In q pre -> Player.id q <> Player.id p) ->
    ActionOrderRules.findIndexFrom k (pre ++ p :: rest) (Player.id p)
    = k + Z.of_nat (length pre).
Proof.
  induction pre as [|q pre IH]; intros k Hpre; cbn [app ActionOrderRules.findIndexFrom length].
  - rewrite String.eqb_refl. lia.
  - destruct (String.eqb_spec (Player.id q) (Player.id p)) as [E|_].
    + exfalso. apply (Hpre q); [left; reflexivity|exact E].
    + rewrite IH by (intros q' Hq'; apply Hpre; right; exact Hq'). lia.
Qed.

Lemma positions_of_all (allPlayers : list Player.t) :
  NoDup (map Player.id allPlayers) ->
  ActionOrderRules.activePositions allPlayers allPlayers
  = map Z.of_nat (seq 0 (length allPlayers)).
Proof.
  intro Hnd. unfold ActionOrderRules.activePositions.
  assert (Hsuffix : forall suf pre,
             allPlayers = pre ++ suf ->
             map (fun p => ActionOrderRules.findIndexFrom 0 allPlayers (Player.id p)) suf
             = map Z.of_nat (seq (length pre) (length suf))).
  { induction suf as [|p suf IH]; intros pre E; [reflexivity|].
    cbn [map length seq]. f_equal.
    - rewrite E. rewrite findIndexFrom_at; [lia|].
      intros q Hq Hid. rewrite E, map_app in Hnd. cbn [map] in Hnd.
      apply NoDup_remove_2 in Hnd. apply Hnd. apply in_or_app. left.
      rewrite <- Hid. apply in_map. exact Hq.
    - specialize (IH (pre ++ [p])). rewrite length_app in IH. cbn [length] in IH.
      replace (S (length pre)) with (length pre + 1)%nat by lia.
      apply IH. rewrite <- app_assoc. exact E. }
  rewrite (Hsuffix allPlayers [] eq_refl). cbn [length].
  apply forallb_filter_id. apply forallb_forall. intros z Hz.
  apply in_map_iff in Hz. destruct Hz as (i & <- & _).
  destruct (Z.eqb_spec (Z.of_nat i) (-1)); [lia|reflexivity].
Qed.

Section Rotation.
Variables maxSeats n start : nat.
Hypothesis start_lt : (start < n)%nat.
Hypothesis n_le : (n <= maxSeats)%nat.

Lemma distance_from (a : nat) :
  (a < n)%nat ->
  ActionOrderRules.distance (Some start) maxSeats (Z.of_nat a)
  = if (start <=? a)%nat then Z.of_nat a - Z.of_nat start
    else Z.of_nat a - Z.of_nat start + Z.of_nat maxSeats.
Proof.
  intro Ha. unfold ActionOrderRules.distance, ActionOrderRules.numberOf.
  rewrite Z.rem_mod_nonneg by lia.
  destruct (Nat.leb_spec start a).
  - rewrite <- (Z_mod_plus_full _ (-1)).
    replace (Z.of_nat a - Z.of_nat start + Z.of_nat maxSeats + -1 * Z.of_nat maxSeats)
      with (Z.of_nat a - Z.of_nat start) by lia.
    apply Z.mod_small. lia.
  - apply Z.mod_small. lia.
Qed.

Lemma insertByDistance_past (x : Z) (l1 l2 : list Z) :
  (forall y, In y l1 ->
             0 < ActionOrderRules.distance (Some start) maxSeats x
                 - ActionOrderRules.distance (Some start) maxSeats y) ->
  ActionOrderRules.insertByDistance (Some start) maxSeats x (l1 ++ l2)
  = l1 ++ ActionOrderRules.insertByDistance (Some start) maxSeats x l2.
Proof.
  induction l1 as [|y l1 IH]; intro Hall; [reflexivity|].
  cbn [app ActionOrderRules.insertByDistance].
  pose proof (Hall y (or_introl eq_refl)).
  destruct (Z.leb_spec (ActionOrderRules.distance (Some start) maxSeats x
                        - ActionOrderRules.distance (Some start) maxSeats y) 0); [lia|].
  rewrite IH; [reflexivity|]. intros y' Hy'. apply Hall. right. exact Hy'.
Qed.

(** Sorting the positions [a .. n-1] by distance from [start]. *)
Lemma sort_positions :
  forall (len a : nat),
    (a + len = n)%nat ->
    ActionOrderRules.sortByDistanceFromPosition (map Z.of_nat (seq a len)) (Some start)
      maxSeats
    = map Z.of_nat
        (if (start <=? a)%nat then seq a len
         else seq start (n - start) ++ seq a (start - a)).
Proof.
  unfold ActionOrderRules.sortByDistanceFromPosition.
  induction len as [|len IH]; intros a Ha.
  - destruct (Nat.leb_spec start a); [reflexivity|lia].
  - cbn [seq map fold_right]. rewrite (IH (S a)) by lia.
    destruct (Nat.leb_spec start a) as [Hsa|Has].
    + destruct (Nat.leb_spec start (S a)); [|lia].
      destruct len as [|len]; [reflexivity|].
      cbn [seq map ActionOrderRules.insertByDistance].
      rewrite !distance_from by lia.
      destruct (Nat.leb_spec start a); [|lia].
      destruct (Nat.leb_spec start (S a)); [|lia].
      destruct (Z.leb_spec (Z.of_nat a - Z.of_nat start
                            - (Z.of_nat (S a) - Z.of_nat start)) 0); [reflexivity|lia].
    + assert (Hpast : forall y, In y (map Z.of_nat (seq start (n - start))) ->
                                0 < ActionOrderRules.distance (Some start) maxSeats
                                      (Z.of_nat a)
                                    - ActionOrderRules.distance (Some start) maxSeats y).
      { intros y Hy. apply in_map_iff in Hy. destruct Hy as (j & <- & Hj).
        apply in_seq in Hj. rewrite !distance_from by lia.
        destruct (Nat.leb_spec start a); [lia|].
        destruct (Nat.leb_spec start j); lia. }
      destruct (Nat.leb_spec start (S a)) as [Hs1|Hs1].
      * replace (seq (S a) len) with (seq start (n - start)) by (f_equal; lia).
        rewrite <- (app_nil_r (map Z.of_nat (seq start (n - start)))) at 1.
        rewrite insertByDistance_past by exact Hpast.
        replace (start - a)%nat with 1%nat by lia.
        rewrite map_app. reflexivity.
      * rewrite map_app, insertByDistance_past by exact Hpast.
        replace (start - a)%nat with (S (start - S a)) by lia.
        rewrite map_app. f_equal.
        destruct (start - S a)%nat as [|k] eqn:Ek; [lia|].
        cbn [seq map ActionOrderRules.insertByDistance].
        rewrite !distance_from by lia.
        destruct (Nat.leb_spec start a); [lia|].
        destruct (Nat.leb_spec start (S a)); [lia|].
        destruct (Z.leb_spec (Z.of_nat a - Z.of_nat start + Z.of_nat maxSeats
                              - (Z.of_nat (S a) - Z.of_nat start + Z.of_nat maxSeats)) 0);
          [reflexivity|lia].
Qed.

Lemma sort_all_positions :
  ActionOrderRules.sortByDistanceFromPosition (map Z.of_nat (seq 0 n)) (Some start) maxSeats
  = map Z.of_nat (seq start (n - start) ++ seq 0 start).
Proof.
  rewrite (sort_positions n 0) by lia.
  destruct (Nat.leb_spec start 0) as [H0|H0].
  - assert (start = 0)%nat by lia. subst start.
    rewrite Nat.sub_0_r. cbn [seq]. rewrite app_nil_r. reflexivity.
  - rewrite Nat.sub_0_r. reflexivity.
Qed.
End Rotation.

Lemma skipn_cons_nth {A : Type} (l : list A) :
  forall (a : nat) (x : A), nth_error l a = Some x -> skipn a l = x :: skipn (S a) l.
Proof.
  induction l as [|y l IH]; intros a x Hn; [destruct a; discriminate|].
  destruct a as [|a]; cbn in Hn.
  - injection Hn as ->. reflexivity.
  - cbn [skipn]. rewrite (IH a x Hn). reflexivity.
Qed.

Lemma idsAt_seq (allPlayers : list Player.t) :
  forall (len a : nat),
    ActionOrderRules.idsAt allPlayers (map Z.of_nat (seq a len))
    = firstn len (skipn a (map Player.id allPlayers)).
Proof.
  unfold ActionOrderRules.idsAt.
  induction len as [|len IH]; intro a; [reflexivity|].
  cbn [seq map flat_map]. rewrite Nat2Z.id, IH.
  destruct (nth_error allPlayers a) as [p|] eqn:Hn.
  - rewrite (skipn_cons_nth (map Player.id allPlayers) a (Player.id p)).
    + reflexivity.
    + rewrite nth_error_map, Hn. reflexivity.
  - apply nth_error_None in Hn.
    rewrite !skipn_all2 by (rewrite length_map; lia).
    rewrite !firstn_nil. reflexivity.
Qed.

Lemma ids_rotated (allPlayers : list Player.t) (k : nat) :
  (k <= length allPlayers)%nat ->
  ActionOrderRules.idsAt allPlayers
    (map Z.of_nat (seq k (length allPlayers - k) ++ seq 0 k))
  = skipn k (map Player.id allPlayers) ++ firstn k (map Player.id allPlayers).
Proof.
  intro Hk. rewrite map_app. unfold ActionOrderRules.idsAt. rewrite flat_map_app.
  fold (ActionOrderRules.idsAt allPlayers (map Z.of_nat (seq k (length allPlayers - k)))).
  fold (ActionOrderRules.idsAt allPlayers (map Z.of_nat (seq 0 k))).
  rewrite !idsAt_seq. cbn [skipn]. f_equal.
  apply firstn_all2. rewrite length_skipn, length_map. lia.
Qed.

Lemma getActionOrder_nonempty (tb : Table.t) (street : BettingStreet) :
  Table.getActivePlayers tb <> [] ->
  ActionOrderRules.getActionOrder tb street
  = match street with
    | StreetPreflop => ActionOrderRules.getPreflopOrder tb (Table.getActivePlayers tb)
    | _ => ActionOrderRules.getPostFlopOrder tb (Table.getActivePlayers tb)
    end.
Proof.
  intro Hne. unfold ActionOrderRules.getActionOrder.
  destruct (Table.getActivePlayers tb); [contradiction|reflexivity].
Qed.

Lemma rotate_sorted_positions (n k : nat) :
  (k < n)%nat ->
  ActionOrderRules.rotateFirstToEnd (map Z.of_nat (seq k (n - k) ++ seq 0 k))
  = map Z.of_nat (seq (S k) (n - S k) ++ seq 0 (S k))
  /\ ActionOrderRules.isFirst (map Z.of_nat (seq k (n - k) ++ seq 0 k)) (Some k) = true.
Proof.
  intro Hk. replace (n - k)%nat with (S (n - S k)) by lia.
  change (seq k (S (n - S k))) with (k :: seq (S k) (n - S k)).
  cbn [app map ActionOrderRules.rotateFirstToEnd ActionOrderRules.isFirst].
  split; [|apply Z.eqb_refl].
  rewrite seq_S, !map_app, <- app_assoc. reflexivity.
Qed.

(** X24.  The action order, spelled out, on a table where every seated
    player is active and the ids are distinct.  With the players listed in
    seat order and k the button position: after the flop the order is that
    list rotated so that the player at index k+1 acts first and the one at
    index k (the button) last; heads-up before the flop the player at index k
    acts first; with three or more players before the flop the list is
    rotated in the same way around the big-blind position, so that the big
    blind acts last.  The button and the big-blind position are seat numbers
    but are used as indices into the list of seated players, so this is the
    clockwise order of the seats when the players sit in seats 0..n-1. *)
Theorem X24_action_order_is_a_rotation (tb : Table.t) (street : BettingStreet) :
  let players := Table.getPlayers tb in
  let ids := map Player.id players in
  let order := ActionOrderRules.playerOrder (ActionOrderRules.getActionOrder tb street) in
  NoDup ids ->
  Table.getActivePlayers tb = players ->
  (length players <= Table.maxSeats (Table.config tb))%nat ->
  (street <> StreetPreflop ->
   (2 <= length players)%nat ->
   (Table.buttonPosition tb < length players)%nat ->
   order = skipn (S (Table.buttonPosition tb)) ids ++ firstn (S (Table.buttonPosition tb)) ids)
  /\ (street = StreetPreflop ->
      length players = 2%nat ->
      (Table.buttonPosition tb < 2)%nat ->
      order = skipn (Table.buttonPosition tb) ids ++ firstn (Table.buttonPosition tb) ids)
  /\ (street = StreetPreflop ->
      (3 <= length players)%nat ->
      forall bb,
        Table.getBigBlindPosition tb = Some bb ->
        (bb < length players)%nat ->
        order = skipn (S bb) ids ++ firstn (S bb) ids).
Proof.
  intros players ids order. subst order ids players.
  intros Hnd Hactive Hseats.
  pose proof (positions_of_all (Table.getPlayers tb) Hnd) as Hpos.
  assert (Hne : (1 <= length (Table.getPlayers tb))%nat -> Table.getActivePlayers tb <> []).
  { intros Hlen E. rewrite Hactive in E. rewrite E in Hlen. cbn in Hlen. lia. }
  split; [|split].
  - intros Hstreet Hn Hb.
    rewrite getActionOrder_nonempty by (apply Hne; lia). rewrite Hactive.
    assert (Hgoal : ActionOrderRules.playerOrder
                      (ActionOrderRules.getPostFlopOrder tb (Table.getPlayers tb))
                    = skipn (S (Table.buttonPosition tb)) (map Player.id (Table.getPlayers tb))
                      ++ firstn (S (Table.buttonPosition tb))
                           (map Player.id (Table.getPlayers tb))).
    { unfold ActionOrderRules.getPostFlopOrder, Table.getButtonPosition.
      cbn [ActionOrderRules.playerOrder]. rewrite Hpos.
      rewrite (sort_all_positions _ _ _ Hb Hseats).
      destruct (rotate_sorted_positions _ _ Hb) as [Hr Hf]. rewrite Hf, Hr.
      assert (Hlen : (1 <? length (map Z.of_nat
                                     (seq (Table.buttonPosition tb)
                                        (length (Table.getPlayers tb)
                                         - Table.buttonPosition tb)
                                      ++ seq 0 (Table.buttonPosition tb))))%nat = true).
      { apply Nat.ltb_lt. rewrite length_map, length_app, !length_seq. lia. }
      rewrite Hlen. cbn [andb]. apply ids_rotated. lia. }
    destruct street; [contradiction| | |]; exact Hgoal.
  - intros Hstreet Hn Hb. subst street.
    rewrite getActionOrder_nonempty by (apply Hne; lia). rewrite Hactive.
    unfold ActionOrderRules.getPreflopOrder, Table.getButtonPosition.
    cbn [ActionOrderRules.playerOrder]. rewrite Hpos.
    destruct (Nat.eqb_spec (length (Table.getPlayers tb)) 2) as [_|N]; [|contradiction].
    assert (Hb' : (Table.buttonPosition tb < length (Table.getPlayers tb))%nat) by lia.
    rewrite (sort_all_positions _ _ _ Hb' Hseats).
    apply ids_rotated. lia.
  - intros Hstreet Hn bb Hbb Hb. subst street.
    rewrite getActionOrder_nonempty by (apply Hne; lia). rewrite Hactive.
    unfold ActionOrderRules.getPreflopOrder.
    cbn [ActionOrderRules.playerOrder]. rewrite Hpos, Hbb.
    destruct (Nat.eqb_spec (length (Table.getPlayers tb)) 2) as [E|_]; [lia|].
    rewrite (sort_all_positions _ _ _ Hb Hseats).
    destruct (rotate_sorted_positions _ _ Hb) as [Hr Hf]. rewrite Hf, Hr.
    apply ids_rotated. lia.
Qed.

Lemma X24_witness :
  let tb :=
    Table.mk [Some (Player.new "p0" 1000); Some (Player.new "p1" 1000);
              Some (Player.new "p2" 1000); Some (Player.new "p3" 1000); None; None]
      1 [] (Table.mkConfig 6 5 10) in
  ActionOrderRules.playerOrder (ActionOrderRules.getActionOrder tb StreetFlop)
  = ["p2"; "p3"; "p0"; "p1"]%string
  /\ ActionOrderRules.playerOrder (ActionOrderRules.getActionOrder tb StreetPreflop)
     = ["p0"; "p1"; "p2"; "p3"]%string.
Proof.
  intro tb.
  assert (Hnd : NoDup (map Player.id (Table.getPlayers tb)))
    by (vm_compute; repeat constructor; simpl; intuition discriminate).
  assert (Hact : Table.getActivePlayers tb = Table.getPlayers tb) by reflexivity.
  assert (Hlen : (length (Table.getPlayers tb) <= Table.maxSeats (Table.config tb))%nat)
    by (vm_compute; lia).
  split.
  - destruct (X24_action_order_is_a_rotation tb StreetFlop Hnd Hact Hlen) as (H & _ & _).
    rewrite H; [reflexivity|discriminate|vm_compute; lia|vm_compute; lia].
  - destruct (X24_action_order_is_a_rotation tb StreetPreflop Hnd Hact Hlen) as (_ & _ & H).
    rewrite (H eq_refl ltac:(vm_compute; lia) 3%nat); [reflexivity|reflexivity|].
    vm_compute. lia.
Defined.

(** ** Heads-up with the button on an empty seat *)

Lemma playerCount_reset (tb : Table.t) :
  Table.playerCount (Table.resetForNewHand tb) = Table.playerCount tb.
Proof.
  unfold Table.playerCount, Table.occupied, Table.resetForNewHand. cbn [Table.seats].
  pose proof (f_equal (@length Player.t) (occupiedFrom_reset (Table.seats tb) 0)) as H.
  rewrite !length_map in H. exact H.
Qed.

Lemma empty_seat_reset (tb : Table.t) (position : nat) :
  Table.getPlayerAtSeat tb position = None ->
  Table.getPlayerAtSeat (Table.resetForNewHand tb) position = None.
Proof.
  unfold Table.getPlayerAtSeat, Table.resetForNewHand. cbn [Table.seats].
  rewrite nth_error_map.
  destruct (nth_error (Table.seats tb) position) as [[p|]|]; cbn [option_map];
    [discriminate|reflexivity|reflexivity].
Qed.

(** X23.  With exactly two players seated, the small blind is whoever sits
    at the button seat, occupied or not.  So when the button points at an
    empty seat (which is where [prepareNextHand] leaves it when the player it
    moved the button to was eliminated), [startHand] from ReadyToStart, with
    two active players, throws 'Cannot determine blind players': by then the
    hand number has been incremented, the deck shuffled and the table reset,
    and the manager is left in state PostingBlinds. *)
Theorem X23_heads_up_with_button_on_empty_seat_cannot_start
    (draw : nat -> nat) (hm : HandManager.t) :
  HandManager.currentState hm = ReadyToStart ->
  Table.playerCount (HandManager.table hm) = 2%nat ->
  Table.getPlayerAtSeat (HandManager.table hm)
    (Table.buttonPosition (HandManager.table hm)) = None ->
  (2 <= length (Table.getActivePlayers (Table.resetForNewHand (HandManager.table hm))))%nat ->
  Table.getSmallBlindPlayer (Table.resetForNewHand (HandManager.table hm)) = None
  /\ HandManager.startHand draw hm
     = Throws CannotDetermineBlindPlayers
         (HandManager.mk
            (Dealer.mk (Deck.shuffle draw Deck.reset)
               (Table.resetForNewHand (HandManager.table hm)))
            (HandManager.potManager hm) PostingBlinds (S (HandManager.handNumber hm))
            (HandManager.bettingTracker hm)).
Proof.
  intros Hstate Hcount Hempty Hactive.
  destruct hm as [[deck tb] pm st hn tr].
  unfold HandManager.table in *.
  cbn [HandManager.dealer HandManager.currentState HandManager.handNumber
       HandManager.potManager HandManager.bettingTracker Dealer.table] in *.
  subst st.
  assert (Hsb : Table.getSmallBlindPosition (Table.resetForNewHand tb)
                = Some (Table.buttonPosition tb)).
  { unfold Table.getSmallBlindPosition. rewrite playerCount_reset, Hcount. reflexivity. }
  assert (Hnone : Table.getPlayerAtSeat (Table.resetForNewHand tb) (Table.buttonPosition tb)
                  = None) by (apply empty_seat_reset; exact Hempty).
  split.
  - unfold Table.getSmallBlindPlayer. rewrite Hsb. exact Hnone.
  - unfold HandManager.startHand.
    cbn [HandManager.currentState GameState_beq negb HandManager.dealer
         HandManager.potManager HandManager.handNumber HandManager.bettingTracker].
    unfold Dealer.prepareNewHand, HandManager.table.
    cbn [HandManager.dealer Dealer.table Dealer.deck].
    destruct (Nat.ltb_spec (length (Table.getActivePlayers (Table.resetForNewHand tb))) 2)
      as [Hlt|_]; [lia|].
    unfold andThen at 1.
    rewrite setState_valid by reflexivity.
    unfold andThen at 1.
    unfold HandManager.onDealer, HandManager.onTable, HandManager.postBlinds.
    cbn [HandManager.dealer Dealer.table Dealer.deck HandManager.potManager
         HandManager.currentState HandManager.handNumber HandManager.bettingTracker].
    rewrite Hsb.
    destruct (Table.getBigBlindPosition (Table.resetForNewHand tb)) as [bbPos|];
      [rewrite Hnone|]; reflexivity.
Qed.

Lemma X23_witness :
  let tb :=
    Table.mk [Some (Player.mk "p1" [] 1500 0 Active None); None;
              Some (Player.mk "p3" [] 1500 0 Active None)]
      1 [] (Table.mkConfig 3 5 10) in
  let hm := HandManager.mk (Dealer.new tb) PotManager.reset ReadyToStart 1 None in
  exists hm',
    HandManager.startHand (fun _ => 0%nat) hm = Throws CannotDetermineBlindPlayers hm'
    /\ HandManager.currentState hm' = PostingBlinds
    /\ HandManager.handNumber hm' = 2%nat.
Proof.
  intros tb hm.
  destruct (X23_heads_up_with_button_on_empty_seat_cannot_start (fun _ => 0%nat) hm)
    as [_ E].
  - reflexivity.
  - reflexivity.
  - reflexivity.
  - vm_compute. lia.
  - eexists. split; [exact E|]. split; reflexivity.
Defined.

(** ** A complete round has nobody left to act *)

Lemma existsb_false_all {A : Type} (f : A -> bool) (l : list A) :
  existsb f l = false -> forall x, In x l -> f x = false.
Proof.
  intros H x Hin. destruct (f x) eqn:E; [|reflexivity].
  rewrite <- H. symmetry. apply existsb_exists. exists x. split; assumption.
Qed.

(** X25.  The converse of X14.  When at least two active players can still
    act and every player of the action order who can still act is one of the
    table's active players, [isRoundComplete() = true] implies that
    [getCurrentPlayer()] returns null: the two tests agree on such a round.
    (With at most one player able to act [isRoundComplete] is true whatever
    that player owes.) *)
Theorem X25_complete_round_has_nobody_to_act
    (tb : Table.t) (tr : BettingRoundTracker.t) :
  (2 <= length (filter (fun p => negb (Player.isAllIn p) && negb (Player.hasFolded p))
                  (Table.getActivePlayers tb)))%nat ->
  (forall playerId p,
      In playerId (BettingRoundTracker.playerIdOrder tr) ->
      Table.getPlayer tb playerId = Some p ->
      BettingRoundTracker.canStillAct p = true ->
      In p (Table.getActivePlayers tb)) ->
  BettingRoundTracker.isRoundComplete tb tr = true ->
  exists tr',
    BettingRoundTracker.getCurrentPlayer tb tr = Some (None, tr')
    /\ (forall p, In p (Table.getActivePlayers tb) ->
                  BettingRoundTracker.canStillAct p = true ->
                  BettingRoundTracker.getCallAmount tr p = 0
                  /\ JsSet.has (BettingRoundTracker.playersActed tr) (Player.id p) = true).
Proof.
  intros Htwo Horder Hcomplete.
  assert (Hall : forall p, In p (Table.getActivePlayers tb) ->
                           BettingRoundTracker.canStillAct p = true ->
                           BettingRoundTracker.currentBetAmount tr
                           <= Player.currentBetAmount p
                           /\ JsSet.has (BettingRoundTracker.playersActed tr) (Player.id p)
                              = true).
  { unfold BettingRoundTracker.isRoundComplete in Hcomplete.
    destruct (Nat.leb_spec
                (length (filter (fun p => negb (Player.isAllIn p) && negb (Player.hasFolded p))
                           (Table.getActivePlayers tb))) 1) as [Hle|_]; [lia|].
    destruct (existsb _ _) eqn:E1 in Hcomplete; [discriminate|].
    destruct (existsb _ _) eqn:E2 in Hcomplete; [discriminate|].
    intros p Hin Hcan.
    pose proof (existsb_false_all _ _ E1 p Hin) as N1.
    pose proof (existsb_false_all _ _ E2 p Hin) as N2.
    cbv beta in N1, N2. rewrite Hcan in N1, N2. cbn [andb] in N1, N2.
    split.
    - apply Z.ltb_ge. exact N1.
    - apply negb_false_iff. exact N2. }
  destruct (getCurrentPlayer_spec tb (length (BettingRoundTracker.playerIdOrder tr)) tr
              (S (length (BettingRoundTracker.playerIdOrder tr))))
    as (r & index' & Hrun & Hpost); [lia|lia|].
  cbn zeta in Hrun.
  destruct r as [p|].
  - exfalso. destruct Hpost as (Hn & Hget & Hcan & Hneeds).
    assert (Hin : In p (Table.getActivePlayers tb)).
    { apply (Horder (Player.id p) p); [|exact Hget|exact Hcan].
      apply nth_error_In in Hn. exact Hn. }
    destruct (Hall p Hin Hcan) as [Hmatched Hacted].
    destruct Hneeds as [Howes|Hnot]; [lia|congruence].
  - eexists. split; [exact Hrun|].
    intros p Hin Hcan. destruct (Hall p Hin Hcan) as [Hmatched Hacted].
    split; [|exact Hacted]. unfold BettingRoundTracker.getCallAmount. lia.
Qed.

Lemma X25_witness :
  let tb :=
    Table.mk [Some (Player.mk "p1" [] 900 100 Active (Some ActBet));
              Some (Player.mk "p2" [] 900 100 Active (Some ActCall));
              Some (Player.mk "p3" [] 1000 0 Folded (Some ActFold))]
      0 [] (Table.mkConfig 3 5 10) in
  let tr :=
    BettingRoundTracker.mk RoundFlop 100 0 ["p1"; "p2"; "p3"]%string 3
      ["p1"; "p2"; "p3"]%string in
  exists tr', BettingRoundTracker.getCurrentPlayer tb tr = Some (None, tr').
Proof.
  intros tb tr.
  destruct (X25_complete_round_has_nobody_to_act tb tr) as (tr' & E & _).
  - vm_compute. lia.
  - intros playerId p Hin Hget Hcan. vm_compute in Hin.
    destruct Hin as [<-|[<-|[<-|[]]]]; vm_compute in Hget; injection Hget as <-;
      vm_compute; try tauto; vm_compute in Hcan; discriminate.
  - vm_compute. reflexivity.
  - exists tr'. exact E.
Defined.

(** ** Who posts the blinds *)

Lemma skipSeats_spec (tb : Table.t) (n : nat) :
  let m := Table.maxSeats (Table.config tb) in
  forall pos att,
    (pos < m)%nat ->
    exists d,
      (d <= n)%nat
      /\ Table.skipSeats tb n pos att = (((pos + d) mod m)%nat, (att + d)%nat)
      /\ (forall j, (j < d)%nat -> Table.seatSkipped tb ((pos + j) mod m)%nat = true)
      /\ (d = n \/ (m <= att + d)%nat
          \/ Table.seatSkipped tb ((pos + d) mod m)%nat = false).
Proof.
  intro m. induction n as [|n IH]; intros pos att Hpos.
  - exists 0%nat. rewrite !Nat.add_0_r, (Nat.mod_small _ _ Hpos).
    split; [lia|]. split; [reflexivity|]. split; [intros j Hj; lia | left; reflexivity].
  - cbn [Table.skipSeats]. fold m.
    destruct (Table.seatSkipped tb pos) eqn:Ee; cbn [andb].
    + destruct (Nat.ltb_spec att m) as [Hatt|Hatt].
      * assert (Hm : m <> 0%nat) by lia.
        assert (Hp1 : ((pos + 1) mod m < m)%nat) by (apply Nat.mod_upper_bound; exact Hm).
        destruct (IH ((pos + 1) mod m)%nat (att + 1)%nat Hp1) as (d & Hd & E & Hall & Hstop).
        assert (Hshift : forall j, (((pos + 1) mod m + j) mod m = (pos + S j) mod m)%nat).
        { intro j. rewrite Nat.Div0.add_mod_idemp_l. f_equal. lia. }
        exists (S d). split; [lia|]. split.
        { rewrite E, Hshift. f_equal. lia. }
        split.
        { intros [|j] Hj.
          - rewrite Nat.add_0_r, (Nat.mod_small _ _ Hpos). exact Ee.
          - rewrite <- Hshift. apply Hall. lia. }
        { rewrite <- Hshift.
          destruct Hstop as [->|[H|H]];
            [left; reflexivity | right; left; lia | right; right; exact H]. }
      * exists 0%nat. rewrite !Nat.add_0_r, (Nat.mod_small _ _ Hpos).
        split; [lia|]. split; [reflexivity|].
        split; [intros j Hj; lia | right; left; lia].
    + exists 0%nat. rewrite !Nat.add_0_r, (Nat.mod_small _ _ Hpos).
      split; [lia|]. split; [reflexivity|].
      split; [intros j Hj; lia | right; right; exact Ee].
Qed.

(** The first seat, clockwise from the seat after [from], that is neither
    empty nor held by a player who sits out. *)
Lemma nextPlayingSeatAfter_spec (tb : Table.t) (from k : nat) :
  let m := Table.maxSeats (Table.config tb) in
  (k < m)%nat ->
  Table.seatSkipped tb k = false ->
  exists d,
    (d < m)%nat
    /\ Table.nextPlayingSeatAfter tb from = Some ((from + 1 + d) mod m)%nat
    /\ Table.seatSkipped tb ((from + 1 + d) mod m)%nat = false
    /\ (forall j, (j < d)%nat -> Table.seatSkipped tb ((from + 1 + j) mod m)%nat = true)
    /\ (k <> from -> (from < m)%nat -> ((from + 1 + d) mod m)%nat <> from).
Proof.
  intros m Hk Hplay.
  assert (Hm : m <> 0%nat) by lia.
  assert (Hpos : ((from + 1) mod m < m)%nat) by (apply Nat.mod_upper_bound; exact Hm).
  destruct (skipSeats_spec tb m ((from + 1) mod m)%nat 0%nat Hpos)
    as (d & Hd & E & Hall & Hstop).
  fold m in E, Hall, Hstop.
  assert (Hshift : forall j, (((from + 1) mod m + j) mod m = (from + 1 + j) mod m)%nat).
  { intro j. rewrite Nat.Div0.add_mod_idemp_l. reflexivity. }
  destruct (clockwise_reaches m ((from + 1) mod m)%nat k Hpos Hk) as (j & Hj & Hjk).
  assert (Hdj : (d <= j)%nat).
  { destruct (Nat.le_gt_cases d j) as [H|H]; [exact H|].
    specialize (Hall j H). rewrite Hjk in Hall. congruence. }
  exists d. split; [lia|].
  assert (Hfound : Table.seatSkipped tb ((from + 1 + d) mod m)%nat = false).
  { rewrite <- Hshift. destruct Hstop as [H|[H|H]]; [lia|lia|exact H]. }
  split.
  { unfold Table.nextPlayingSeatAfter. fold m. rewrite E, Hshift. cbn [Nat.add].
    destruct (Nat.ltb_spec d m); [reflexivity|lia]. }
  split; [exact Hfound|]. split.
  { intros i Hi. rewrite <- Hshift. apply Hall. exact Hi. }
  intros Hne Hfrom Heq.
  (* d = m - 1 would need j = m - 1, that is k = from *)
  assert (Hd1 : d = (m - 1)%nat).
  { destruct (Nat.lt_ge_cases (from + 1 + d) m) as [Hs|Hs].
    - rewrite Nat.mod_small in Heq by exact Hs. lia.
    - replace (from + 1 + d)%nat with ((from + 1 + d - m) + 1 * m)%nat in Heq by lia.
      rewrite Nat.Div0.mod_add, Nat.mod_small in Heq by lia. lia. }
  assert (Hj1 : j = (m - 1)%nat) by lia.
  apply Hne. rewrite <- Hjk, Hshift, Hj1.
  replace (from + 1 + (m - 1))%nat with (from + 1 * m)%nat by lia.
  rewrite Nat.Div0.mod_add. apply Nat.mod_small. exact Hfrom.
Qed.

Lemma playing_seat_has_player (tb : Table.t) (position : nat) :
  (position < length (Table.seats tb))%nat ->
  Table.seatSkipped tb position = false ->
  exists p, Table.getPlayerAtSeat tb position = Some p
            /\ Player.playerStatus p <> SittingOut.
Proof.
  intros Hlt Hplay. unfold Table.seatSkipped in Hplay. unfold Table.getPlayerAtSeat.
  destruct (nth_error (Table.seats tb) position) as [[p|]|] eqn:Hn.
  - exists p. split; [reflexivity|]. intro E. rewrite E in Hplay. discriminate.
  - discriminate.
  - apply nth_error_None in Hn. lia.
Qed.

(** X26.  The blinds on a table with one seat per configured position and
    two different seats whose players are not sitting out.  With three or
    more players seated, the small blind is the first such seat clockwise
    after the button and the big blind the first such seat clockwise after
    the small blind; they are two different seats and both hold a player.
    With exactly two players seated and the button on one of the two seats,
    the small blind is the button and the big blind the other seat. *)
Theorem X26_blinds_are_two_different_players (tb : Table.t) (k1 k2 : nat) :
  let m := Table.maxSeats (Table.config tb) in
  length (Table.seats tb) = m ->
  (k1 < m)%nat -> (k2 < m)%nat -> k1 <> k2 ->
  Table.seatSkipped tb k1 = false ->
  Table.seatSkipped tb k2 = false ->
  (2 <= Table.playerCount tb)%nat ->
  (Table.playerCount tb = 2%nat ->
   Table.seatSkipped tb (Table.buttonPosition tb) = false
   /\ (Table.buttonPosition tb < m)%nat) ->
  exists sb bb sbPlayer bbPlayer,
    Table.getSmallBlindPosition tb = Some sb
    /\ Table.getBigBlindPosition tb = Some bb
    /\ sb <> bb
    /\ Table.getSmallBlindPlayer tb = Some sbPlayer
    /\ Table.getBigBlindPlayer tb = Some bbPlayer
    /\ Player.playerStatus sbPlayer <> SittingOut
    /\ Player.playerStatus bbPlayer <> SittingOut
    /\ (Table.playerCount tb = 2%nat -> sb = Table.buttonPosition tb)
    /\ ((3 <= Table.playerCount tb)%nat ->
        exists d,
          sb = ((Table.buttonPosition tb + 1 + d) mod m)%nat
          /\ forall j, (j < d)%nat ->
                       Table.seatSkipped tb ((Table.buttonPosition tb + 1 + j) mod m)%nat
                       = true)
    /\ (exists d,
           bb = ((sb + 1 + d) mod m)%nat
           /\ forall j, (j < d)%nat ->
                        Table.seatSkipped tb ((sb + 1 + j) mod m)%nat = true).
Proof.
  intros m Hwf Hk1 Hk2 Hne Hp1 Hp2 Hcount Hheads.
  assert (Hm : m <> 0%nat) by lia.
  (* the seat that opens the blinds *)
  assert (Hsb : exists sb,
             Table.getSmallBlindPosition tb = Some sb
             /\ (sb < m)%nat
             /\ Table.seatSkipped tb sb = false
             /\ (Table.playerCount tb = 2%nat -> sb = Table.buttonPosition tb)
             /\ ((3 <= Table.playerCount tb)%nat ->
                 exists d,
                   sb = ((Table.buttonPosition tb + 1 + d) mod m)%nat
                   /\ forall j, (j < d)%nat ->
                                Table.seatSkipped tb
                                  ((Table.buttonPosition tb + 1 + j) mod m)%nat = true)).
  { unfold Table.getSmallBlindPosition.
    destruct (Nat.ltb_spec (Table.playerCount tb) 2) as [Hlt|_]; [lia|].
    destruct (Nat.eqb_spec (Table.playerCount tb) 2) as [E2|N2].
    - destruct (Hheads E2) as [Hb Hbm].
      exists (Table.buttonPosition tb). split; [reflexivity|]. split; [exact Hbm|].
      split; [exact Hb|]. split; [reflexivity|]. intro H3. lia.
    - destruct (nextPlayingSeatAfter_spec tb (Table.buttonPosition tb) k1 Hk1 Hp1)
        as (d & Hd & E & Hplay & Hbefore & _).
      fold m in E, Hplay, Hbefore.
      exists ((Table.buttonPosition tb + 1 + d) mod m)%nat.
      split; [exact E|]. split; [apply Nat.mod_upper_bound; exact Hm|].
      split; [exact Hplay|]. split; [intro E2; contradiction|].
      intros _. exists d. split; [reflexivity|exact Hbefore]. }
  destruct Hsb as (sb & Esb & Hsbm & Hsbplay & Hsb2 & Hsb3).
  (* another playing seat than the small blind *)
  assert (Hother : exists k, (k < m)%nat /\ Table.seatSkipped tb k = false /\ k <> sb).
  { destruct (Nat.eq_dec k1 sb) as [E|N].
    - exists k2. split; [exact Hk2|]. split; [exact Hp2|]. congruence.
    - exists k1. split; [exact Hk1|]. split; [exact Hp1|exact N]. }
  destruct Hother as (k & Hk & Hkplay & Hksb).
  destruct (nextPlayingSeatAfter_spec tb sb k Hk Hkplay)
    as (d & Hd & E & Hplay & Hbefore & Hdiff).
  fold m in E, Hplay, Hbefore, Hdiff.
  assert (Hbb : Table.getBigBlindPosition tb = Some ((sb + 1 + d) mod m)%nat).
  { unfold Table.getBigBlindPosition.
    destruct (Nat.ltb_spec (Table.playerCount tb) 2) as [Hlt|_]; [lia|].
    destruct (Nat.eqb_spec (Table.playerCount tb) 2) as [E2|N2].
    - rewrite <- (Hsb2 E2). exact E.
    - rewrite Esb. exact E. }
  assert (Hbbm : ((sb + 1 + d) mod m < m)%nat) by (apply Nat.mod_upper_bound; exact Hm).
  assert (Hsbl : (sb < length (Table.seats tb))%nat) by (rewrite Hwf; exact Hsbm).
  assert (Hbbl : ((sb + 1 + d) mod m < length (Table.seats tb))%nat)
    by (rewrite Hwf; exact Hbbm).
  destruct (playing_seat_has_player tb sb Hsbl Hsbplay) as (sbPlayer & Gsb & Ssb).
  destruct (playing_seat_has_player tb _ Hbbl Hplay) as (bbPlayer & Gbb & Sbb).
  exists sb, ((sb + 1 + d) mod m)%nat, sbPlayer, bbPlayer.
  split; [exact Esb|]. split; [exact Hbb|].
  split; [intro E'; apply (Hdiff Hksb Hsbm); symmetry; exact E'|].
  split; [unfold Table.getSmallBlindPlayer; rewrite Esb; exact Gsb|].
  split; [unfold Table.getBigBlindPlayer; rewrite Hbb; exact Gbb|].
  split; [exact Ssb|]. split; [exact Sbb|]. split; [exact Hsb2|]. split; [exact Hsb3|].
  exists d. split; [reflexivity|exact Hbefore].
Qed.

Lemma X26_witness :
  let tb :=
    Table.mk [Some (Player.new "p0" 1000); None;
              Some (Player.mk "p2" [] 1000 0 SittingOut None);
              Some (Player.new "p3" 1000); Some (Player.new "p4" 1000); None]
      4 [] (Table.mkConfig 6 5 10) in
  exists sb bb,
    Table.getSmallBlindPosition tb = Some sb
    /\ Table.getBigBlindPosition tb = Some bb
    /\ sb <> bb.
Proof.
  intro tb.
  destruct (X26_blinds_are_two_different_players tb 0 3)
    as (sb & bb & _ & _ & E1 & E2 & Hne & _).
  - reflexivity.
  - vm_compute. lia.
  - vm_compute. lia.
  - discriminate.
  - reflexivity.
  - reflexivity.
  - vm_compute. lia.
  - intro H. vm_compute in H. discriminate.
  - exists sb, bb. split; [exact E1|]. split; [exact E2|exact Hne].
Defined.

(** ** Dealing the hole cards *)

Lemma dealTo_top (seat : nat) (p : Player.t) (tb : Table.t) (rest dealt : list Card.t)
    (card : Card.t) :
  Table.getPlayerAtSeat tb seat = Some p ->
  Dealer.dealTo seat (Dealer.mk (Deck.mk (rest ++ [card]) dealt) tb)
  = Returns tt
      (Dealer.mk (Deck.mk rest (dealt ++ [card]))
         (Table.setPlayerAtSeat tb seat
            (Player.receiveCards p (Player.getHoleCards p ++ [card])))).
Proof.
  intro G. unfold Dealer.dealTo. cbn [Dealer.deck Dealer.table].
  rewrite dealCard_top, G. reflexivity.
Qed.

(** One round of the deal: the i-th seat of the list receives the i-th card
    from the top. *)
Lemma dealRound_spec :
  forall (seats : list nat) (cs : list Card.t) (tb : Table.t) (rest dealt : list Card.t),
    length cs = length seats ->
    NoDup seats ->
    (forall seat, In seat seats -> Table.getPlayerAtSeat tb seat <> None) ->
    exists tb',
      Dealer.dealRound seats (Dealer.mk (Deck.mk (rest ++ rev cs) dealt) tb)
      = Returns tt (Dealer.mk (Deck.mk rest (dealt ++ cs)) tb')
      /\ (forall i seat card p,
             nth_error seats i = Some seat ->
             nth_error cs i = Some card ->
             Table.getPlayerAtSeat tb seat = Some p ->
             Table.getPlayerAtSeat tb' seat
             = Some (Player.receiveCards p (Player.getHoleCards p ++ [card])))
      /\ (forall seat, ~ In seat seats ->
                       Table.getPlayerAtSeat tb' seat = Table.getPlayerAtSeat tb seat).
Proof.
  induction seats as [|s seats IH]; intros cs tb rest dealt Hlen Hnd Hocc.
  - destruct cs; [|discriminate]. exists tb. cbn [rev Dealer.dealRound].
    rewrite !app_nil_r. split; [reflexivity|]. split; [|reflexivity].
    intros [|i] seat card p Hn; discriminate.
  - destruct cs as [|c cs]; [discriminate|]. cbn [length] in Hlen.
    inversion Hnd as [|x l Hnotin Hnd']; subst.
    destruct (Table.getPlayerAtSeat tb s) as [p0|] eqn:G0;
      [|exfalso; apply (Hocc s); [left; reflexivity|exact G0]].
    set (tb1 := Table.setPlayerAtSeat tb s
                  (Player.receiveCards p0 (Player.getHoleCards p0 ++ [c]))).
    assert (Hother : forall seat, seat <> s ->
                                  Table.getPlayerAtSeat tb1 seat
                                  = Table.getPlayerAtSeat tb seat).
    { intros seat Hne. apply getPlayerAtSeat_setPlayer_other. congruence. }
    destruct (IH cs tb1 rest (dealt ++ [c])) as (tb' & E & Hgot & Hframe).
    + lia.
    + exact Hnd'.
    + intros seat Hin. rewrite Hother.
      * apply Hocc. right. exact Hin.
      * intro E. subst seat. contradiction.
    + exists tb'. split; [|split].
      * cbn [Dealer.dealRound rev]. unfold andThen.
        rewrite app_assoc, (dealTo_top s p0 tb _ dealt c G0).
        fold tb1. rewrite E, <- app_assoc. reflexivity.
      * intros [|i] seat card p Hn Hc G; cbn in Hn, Hc.
        -- injection Hn as <-. injection Hc as <-.
           rewrite Hframe by exact Hnotin.
           rewrite G0 in G. injection G as <-.
           apply (getPlayerAtSeat_setPlayer_same tb s p0). exact G0.
        -- assert (Hne : seat <> s).
           { intro E'. subst seat. apply Hnotin. eapply nth_error_In. exact Hn. }
           apply (Hgot i seat card p Hn Hc). rewrite Hother by exact Hne. exact G.
      * intros seat Hno. rewrite Hframe.
        -- apply Hother. intro E'. apply Hno. left. symmetry. exact E'.
        -- intro Hin. apply Hno. right. exact Hin.
Qed.

(** Two rounds of the deal. *)
Lemma dealHoleCards_deals (d : Dealer.t) (rest dealt cs1 cs2 : list Card.t) :
  let players :=
    filter (fun sp => Table.activeStatus (snd sp)) (Table.occupied (Dealer.table d)) in
  (2 <= length players)%nat ->
  length cs1 = length players ->
  length cs2 = length players ->
  Dealer.deck d = Deck.mk (rest ++ rev (cs1 ++ cs2)) dealt ->
  exists tb',
    Dealer.dealHoleCards d
    = Returns tt (Dealer.mk (Deck.mk rest (dealt ++ cs1 ++ cs2)) tb')
    /\ (forall i seat p c1 c2,
           nth_error players i = Some (seat, p) ->
           nth_error cs1 i = Some c1 ->
           nth_error cs2 i = Some c2 ->
           Table.getPlayerAtSeat tb' seat
           = Some (Player.receiveCards p (Player.getHoleCards p ++ [c1; c2])))
    /\ (forall seat, ~ In seat (map fst players) ->
                     Table.getPlayerAtSeat tb' seat
                     = Table.getPlayerAtSeat (Dealer.table d) seat).
Proof.
  intros players Hn H1 H2 Hdeck.
  destruct d as [deck tb]. cbn [Dealer.deck Dealer.table] in *. subst deck.
  assert (Hseated : forall seat p, In (seat, p) players ->
                                   Table.getPlayerAtSeat tb seat = Some p
                                   /\ Table.activeStatus p = true).
  { intros seat p Hin. unfold players in Hin. apply filter_In in Hin.
    destruct Hin as [Hocc Hact]. split; [|exact Hact].
    unfold Table.occupied in Hocc. apply occupiedFrom_at in Hocc.
    destruct Hocc as [_ Hnth]. rewrite Nat.sub_0_r in Hnth.
    apply getPlayerAtSeat_inv. exact Hnth. }
  assert (Hnd : NoDup (map fst players)).
  { unfold players. apply NoDup_map_filter. apply occupied_seats_distinct. }
  assert (Hocc : forall seat, In seat (map fst players) ->
                              Table.getPlayerAtSeat tb seat <> None).
  { intros seat Hin. apply in_map_iff in Hin. destruct Hin as ([seat' p] & <- & Hin).
    destruct (Hseated _ _ Hin) as [G _]. cbn [fst]. rewrite G. discriminate. }
  rewrite rev_app_distr, app_assoc.
  destruct (dealRound_spec (map fst players) cs1 tb (rest ++ rev cs2) dealt)
    as (tb1 & E1 & Hgot1 & Hframe1);
    [rewrite length_map; exact H1|exact Hnd|exact Hocc|].
  assert (Hocc1 : forall seat, In seat (map fst players) ->
                               Table.getPlayerAtSeat tb1 seat <> None).
  { intros seat Hin. destruct (In_nth_error _ _ Hin) as [i Hi].
    assert (Hi1 : (i < length cs1)%nat).
    { rewrite H1, <- (length_map fst). apply nth_error_Some. rewrite Hi. discriminate. }
    destruct (nth_error cs1 i) as [c|] eqn:Hc; [|apply nth_error_None in Hc; lia].
    destruct (Table.getPlayerAtSeat tb seat) as [p|] eqn:G;
      [|exfalso; exact (Hocc seat Hin G)].
    rewrite (Hgot1 i seat c p Hi Hc G). discriminate. }
  destruct (dealRound_spec (map fst players) cs2 tb1 rest (dealt ++ cs1))
    as (tb2 & E2 & Hgot2 & Hframe2);
    [rewrite length_map; exact H2|exact Hnd|exact Hocc1|].
  exists tb2. split; [|split].
  - unfold Dealer.dealHoleCards. cbn [Dealer.table]. fold players.
    destruct (Nat.ltb_spec (length players) 2); [lia|].
    unfold andThen. rewrite E1, E2, <- app_assoc. reflexivity.
  - intros i seat p c1 c2 Hi Hc1 Hc2.
    assert (Hin : In (seat, p) players) by (eapply nth_error_In; exact Hi).
    destruct (Hseated _ _ Hin) as [G Hact].
    assert (Hs : nth_error (map fst players) i = Some seat).
    { rewrite nth_error_map, Hi. reflexivity. }
    rewrite (Hgot2 i seat c2 _ Hs Hc2 (Hgot1 i seat c1 p Hs Hc1 G)).
    f_equal. unfold Player.receiveCards, Player.getHoleCards.
    cbn [Player.id Player.holeCards Player.chipCount Player.currentBet Player.status
         Player.lastAction].
    unfold Table.activeStatus, Player.playerStatus in Hact.
    destruct (Player.status p); cbn in Hact; try discriminate;
      cbn; rewrite <- app_assoc; reflexivity.
  - intros seat Hno. rewrite Hframe2, Hframe1 by exact Hno. reflexivity.
Qed.

(** X27.  [dealHoleCards] throws with fewer than two active players and
    touches nothing.  Otherwise, with n active players and at least 2n cards
    in the deck, it deals one card to each active player in seat order and
    then a second one in the same order: the i-th active player ends with the
    i-th and the (n+i)-th card from the top added to their hole cards.  All
    other seats are untouched and the 2n cards go to the dealt pile in the
    order dealt. *)
Theorem X27_dealHoleCards_one_card_each_then_another
    (d : Dealer.t) (rest dealt cs1 cs2 : list Card.t) :
  let players :=
    filter (fun sp => Table.activeStatus (snd sp)) (Table.occupied (Dealer.table d)) in
  ((length players < 2)%nat -> Dealer.dealHoleCards d = Throws NeedTwoPlayersToDeal d)
  /\ ((2 <= length players)%nat ->
      length cs1 = length players ->
      length cs2 = length players ->
      Dealer.deck d = Deck.mk (rest ++ rev (cs1 ++ cs2)) dealt ->
      exists tb',
        Dealer.dealHoleCards d
        = Returns tt (Dealer.mk (Deck.mk rest (dealt ++ cs1 ++ cs2)) tb')
        /\ (forall i seat p c1 c2,
               nth_error players i = Some (seat, p) ->
               nth_error cs1 i = Some c1 ->
               nth_error cs2 i = Some c2 ->
               Table.getPlayerAtSeat tb' seat
               = Some (Player.receiveCards p (Player.getHoleCards p ++ [c1; c2])))
        /\ (forall seat, ~ In seat (map fst players) ->
                         Table.getPlayerAtSeat tb' seat
                         = Table.getPlayerAtSeat (Dealer.table d) seat)).
Proof.
  intro players. split.
  - intro Hlt. unfold Dealer.dealHoleCards. fold players.
    destruct (Nat.ltb_spec (length players) 2); [reflexivity|lia].
  - intros Hn H1 H2 Hdeck.
    destruct (dealHoleCards_deals d rest dealt cs1 cs2 Hn H1 H2 Hdeck)
      as (tb' & E & Hgot & Hframe).
    exists tb'. split; [exact E|]. split; [exact Hgot|exact Hframe].
Qed.

Lemma X27_witness :
  let tb :=
    Table.mk [Some (Player.new "p1" 1000); None; Some (Player.new "p3" 1000)]
      0 [] (Table.mkConfig 3 5 10) in
  let d :=
    Dealer.mk (Deck.mk [Card.mk Two Clubs; Card.mk King Hearts; Card.mk Queen Hearts;
                        Card.mk Jack Hearts; Card.mk Ace Spades] []) tb in
  exists tb',
    Dealer.dealHoleCards d
    = Returns tt
        (Dealer.mk (Deck.mk [Card.mk Two Clubs]
                      [Card.mk Ace Spades; Card.mk Jack Hearts; Card.mk Queen Hearts;
                       Card.mk King Hearts]) tb')
    /\ Table.getPlayerAtSeat tb' 0
       = Some (Player.receiveCards (Player.new "p1" 1000)
                 [Card.mk Ace Spades; Card.mk Queen Hearts])
    /\ Table.getPlayerAtSeat tb' 2
       = Some (Player.receiveCards (Player.new "p3" 1000)
                 [Card.mk Jack Hearts; Card.mk King Hearts]).
Proof.
  intros tb d.
  destruct (proj2 (X27_dealHoleCards_one_card_each_then_another d [Card.mk Two Clubs] []
                     [Card.mk Ace Spades; Card.mk Jack Hearts]
                     [Card.mk Queen Hearts; Card.mk King Hearts]))
    as (tb' & E & Hgot & _).
  - vm_compute. lia.
  - reflexivity.
  - reflexivity.
  - reflexivity.
  - exists tb'. split; [exact E|]. split.
    + apply (Hgot 0%nat 0%nat (Player.new "p1" 1000)); reflexivity.
    + apply (Hgot 1%nat 2%nat (Player.new "p3" 1000)); reflexivity.
Defined.

(** ** Starting a hand *)

Lemma active_count_after_set (l : list (option Player.t)) :
  forall (k i : nat) (p p' : Player.t),
    nth_error l i = Some (Some p) ->
    Table.activeStatus p' = Table.activeStatus p ->
    length (filter (fun sp => Table.activeStatus (snd sp))
              (Table.occupiedFrom k (Table.setNth l i (Some p'))))
    = length (filter (fun sp => Table.activeStatus (snd sp)) (Table.occupiedFrom k l)).
Proof.
  induction l as [|[q|] l IH]; intros k i p p' Hn Hact.
  - destruct i; discriminate.
  - destruct i as [|i]; cbn [Table.setNth Table.occupiedFrom filter snd]; cbn in Hn.
    + injection Hn as ->. rewrite Hact. destruct (Table.activeStatus p); reflexivity.
    + destruct (Table.activeStatus q); cbn [length]; rewrite (IH (S k) i p p' Hn Hact);
        reflexivity.
  - destruct i as [|i]; cbn [Table.setNth Table.occupiedFrom]; cbn in Hn.
    + discriminate.
    + apply (IH (S k) i p p' Hn Hact).
Qed.

Lemma bet_keeps_cards (p p' : Player.t) (amount actual : Z) :
  Player.bet p amount = Ok (actual, p') ->
  Player.holeCards p' = Player.holeCards p
  /\ Table.activeStatus p = true /\ Table.activeStatus p' = true.
Proof.
  intro H. destruct (bet_inv _ _ _ _ H) as (Hs & _ & _ & _ & Hs').
  split.
  - unfold Player.bet in H. rewrite Hs in H. cbn [status_eqb negb] in H.
    destruct (0 <? Player.currentBet p); [discriminate|].
    destruct (Player.removeChips p amount) as [[a p1]|e] eqn:Er; cbn [bind] in H;
      [|discriminate].
    destruct (removeChips_inv _ _ _ _ Er) as (_ & _ & ->).
    cbn [Player.chips Player.chipCount Player.id Player.holeCards Player.status] in H.
    destruct (_ =? 0); injection H as _ <-; reflexivity.
  - unfold Table.activeStatus, Player.playerStatus. rewrite Hs.
    split; [reflexivity|]. destruct Hs' as [->| ->]; reflexivity.
Qed.

Lemma split_top (l : list Card.t) (k : nat) :
  (2 * k <= length l)%nat ->
  exists rest cs1 cs2,
    l = rest ++ rev (cs1 ++ cs2)
    /\ length cs1 = k /\ length cs2 = k
    /\ length rest = (length l - 2 * k)%nat.
Proof.
  intro Hk.
  exists (firstn (length l - 2 * k) l),
         (firstn k (rev (skipn (length l - 2 * k) l))),
         (skipn k (rev (skipn (length l - 2 * k) l))).
  rewrite firstn_skipn, rev_involutive, firstn_skipn.
  split; [reflexivity|].
  rewrite length_firstn, length_skipn, length_rev, length_skipn, length_firstn. lia.
Qed.

(** X28.  [startHand] when the blinds can be posted.  From ReadyToStart, with
    between 2 and 26 active players on the reset table and [postBlinds]
    returning on it, [startHand] returns: the state is PreflopBetting, the
    hand number is one higher, the pots are untouched, the tracker is a fresh
    Preflop tracker on the final table, 2n of the 52 shuffled cards have gone
    from the deck to the dealt pile, every active player holds exactly two
    hole cards (chips, bet and status as the blinds left them), and the
    players who are not active are as the blinds left them. *)
Theorem X28_startHand_deals_a_new_hand
    (draw : nat -> nat) (hm : HandManager.t) (tb1 : Table.t) :
  HandManager.currentState hm = ReadyToStart ->
  let tb0 := Table.resetForNewHand (HandManager.table hm) in
  let n := length (Table.getActivePlayers tb0) in
  (2 <= n)%nat -> (n <= 26)%nat ->
  HandManager.postBlinds tb0 = Returns tt tb1 ->
  exists deck2 tb2,
    HandManager.startHand draw hm
    = Returns tt
        (HandManager.mk (Dealer.mk deck2 tb2) (HandManager.potManager hm) PreflopBetting
           (S (HandManager.handNumber hm))
           (Some (BettingRoundTracker.new tb2 RoundPreflop)))
    /\ length (Deck.cards deck2) = (52 - 2 * n)%nat
    /\ length (Deck.dealtCards deck2) = (2 * n)%nat
    /\ (forall seat p,
           Table.getPlayerAtSeat tb1 seat = Some p ->
           Table.activeStatus p = true ->
           exists c1 c2,
             Table.getPlayerAtSeat tb2 seat = Some (Player.receiveCards p [c1; c2]))
    /\ (forall seat p,
           Table.getPlayerAtSeat tb1 seat = Some p ->
           Table.activeStatus p = false ->
           Table.getPlayerAtSeat tb2 seat = Some p).
Proof.
  intros Hstate tb0 n Hn2 Hn26 Hpost.
  destruct hm as [[deck tb] pm st hn tr].
  unfold HandManager.table in tb0.
  cbn [HandManager.dealer HandManager.currentState HandManager.handNumber
       HandManager.potManager HandManager.bettingTracker Dealer.table] in *.
  subst st.
  (* what the blinds did *)
  destruct (postBlinds_inv tb0 tb1 Hpost)
    as (sbPos & bbPos & sbPlayer & sbPlayer' & bbPlayer & bbPlayer' & a1 & a2
        & _ & _ & Hdiff & Gsb & Gbb & Bsb & Bbb & Htb1).
  destruct (bet_keeps_cards _ _ _ _ Bsb) as (Csb & Asb & Asb').
  destruct (bet_keeps_cards _ _ _ _ Bbb) as (Cbb & Abb & Abb').
  set (tbs := Table.setPlayerAtSeat tb0 sbPos sbPlayer') in *.
  assert (Gbb' : Table.getPlayerAtSeat tbs bbPos = Some bbPlayer).
  { unfold tbs. rewrite getPlayerAtSeat_setPlayer_other by exact Hdiff. exact Gbb. }
  assert (Hcount : length (filter (fun sp => Table.activeStatus (snd sp)) (Table.occupied tb1))
                   = n).
  { rewrite Htb1. unfold Table.occupied, Table.setPlayerAtSeat at 1. cbn [Table.seats].
    rewrite (active_count_after_set _ 0 bbPos bbPlayer bbPlayer');
      [|apply getPlayerAtSeat_inv; exact Gbb'|congruence].
    unfold tbs, Table.setPlayerAtSeat. cbn [Table.seats].
    rewrite (active_count_after_set _ 0 sbPos sbPlayer sbPlayer');
      [|apply getPlayerAtSeat_inv; exact Gsb|congruence].
    unfold n, Table.getActivePlayers, Table.getPlayers, Table.occupied.
    rewrite filter_map_swap, length_map. reflexivity. }
  assert (Hcards : forall seat p, Table.getPlayerAtSeat tb1 seat = Some p ->
                                  Player.getHoleCards p = []).
  { assert (H0 : forall seat p, Table.getPlayerAtSeat tb0 seat = Some p ->
                                Player.holeCards p = []).
    { intros seat p G. apply getPlayerAtSeat_in in G. unfold tb0 in G.
      rewrite getPlayers_reset in G. apply in_map_iff in G. destruct G as (q & <- & _).
      reflexivity. }
    assert (Hh : forall seat p, Table.getPlayerAtSeat tb1 seat = Some p ->
                                Player.holeCards p = []).
    { intros seat p G. rewrite Htb1 in G.
      destruct (Nat.eq_dec bbPos seat) as [<-|Nb].
      - rewrite (getPlayerAtSeat_setPlayer_same tbs bbPos bbPlayer bbPlayer' Gbb') in G.
        injection G as <-. rewrite Cbb. exact (H0 _ _ Gbb).
      - rewrite getPlayerAtSeat_setPlayer_other in G by exact Nb.
        destruct (Nat.eq_dec sbPos seat) as [<-|Ns].
        + unfold tbs in G.
          rewrite (getPlayerAtSeat_setPlayer_same tb0 sbPos sbPlayer sbPlayer' Gsb) in G.
          injection G as <-. rewrite Csb. exact (H0 _ _ Gsb).
        + unfold tbs in G. rewrite getPlayerAtSeat_setPlayer_other in G by exact Ns.
          exact (H0 _ _ G). }
    intros seat p G. unfold Player.getHoleCards. rewrite (Hh seat p G).
    destruct (_ || _); reflexivity. }
  (* the shuffled deck *)
  assert (H52 : length (Deck.cards (Deck.shuffle draw Deck.reset)) = 52%nat).
  { unfold Deck.shuffle. cbn [Deck.cards]. rewrite shuffleFrom_length. reflexivity. }
  assert (Hdealt0 : Deck.dealtCards (Deck.shuffle draw Deck.reset) = []) by reflexivity.
  destruct (Deck.shuffle draw Deck.reset) as [cards0 dealt0] eqn:Eshuffle.
  cbn [Deck.cards Deck.dealtCards] in H52, Hdealt0. subst dealt0.
  destruct (split_top cards0 n) as (rest & cs1 & cs2 & Ecards & L1 & L2 & Lrest); [lia|].
  destruct (dealHoleCards_deals (Dealer.mk (Deck.mk cards0 []) tb1) rest [] cs1 cs2)
    as (tb2 & Edeal & Hgot & Hframe).
  { cbn [Dealer.table]. rewrite Hcount. exact Hn2. }
  { cbn [Dealer.table]. rewrite Hcount. exact L1. }
  { cbn [Dealer.table]. rewrite Hcount. exact L2. }
  { cbn [Dealer.deck]. rewrite Ecards. reflexivity. }
  cbn [Dealer.table app] in Edeal, Hgot, Hframe.
  exists (Deck.mk rest (cs1 ++ cs2)), tb2.
  split; [|split; [|split; [|split]]].
  - unfold HandManager.startHand.
    cbn [HandManager.currentState GameState_beq negb HandManager.dealer
         HandManager.potManager HandManager.handNumber HandManager.bettingTracker].
    unfold Dealer.prepareNewHand, HandManager.table.
    cbn [HandManager.dealer Dealer.table Dealer.deck].
    fold tb0. rewrite Eshuffle. fold n.
    destruct (Nat.ltb_spec n 2) as [Hlt|_]; [lia|].
    unfold andThen at 1. rewrite setState_valid by reflexivity.
    unfold andThen at 1. unfold HandManager.onDealer at 1, HandManager.onTable.
    cbn [HandManager.dealer Dealer.table Dealer.deck HandManager.potManager
         HandManager.currentState HandManager.handNumber HandManager.bettingTracker].
    rewrite Hpost.
    unfold andThen at 1. rewrite setState_valid by reflexivity.
    unfold andThen at 1. unfold HandManager.onDealer.
    cbn [HandManager.dealer HandManager.potManager HandManager.currentState
         HandManager.handNumber HandManager.bettingTracker].
    rewrite Edeal.
    unfold andThen. rewrite setState_valid by reflexivity.
    reflexivity.
  - cbn [Deck.cards]. rewrite Lrest, H52. reflexivity.
  - cbn [Deck.dealtCards]. rewrite length_app, L1, L2. lia.
  - intros seat p G Hact.
    assert (Hin : In (seat, p)
                    (filter (fun sp => Table.activeStatus (snd sp)) (Table.occupied tb1))).
    { apply filter_In. split; [|exact Hact].
      apply getPlayerAtSeat_inv in G.
      exact (occupiedFrom_in (Table.seats tb1) 0 seat p G). }
    destruct (In_nth_error _ _ Hin) as [i Hi].
    assert (Hilt : (i < n)%nat).
    { rewrite <- Hcount. apply nth_error_Some. rewrite Hi. discriminate. }
    destruct (nth_error cs1 i) as [c1|] eqn:E1; [|apply nth_error_None in E1; lia].
    destruct (nth_error cs2 i) as [c2|] eqn:E2; [|apply nth_error_None in E2; lia].
    exists c1, c2. rewrite (Hgot i seat p c1 c2 Hi E1 E2), (Hcards seat p G). reflexivity.
  - intros seat p G Hact. rewrite Hframe; [exact G|].
    intro Hin. apply in_map_iff in Hin. destruct Hin as ([seat' q] & Es & Hq).
    cbn [fst] in Es. subst seat'. apply filter_In in Hq. destruct Hq as [Hocc Hq].
    unfold Table.occupied in Hocc. apply occupiedFrom_at in Hocc.
    destruct Hocc as [_ Hnth]. rewrite Nat.sub_0_r in Hnth.
    apply getPlayerAtSeat_inv in Hnth. rewrite G in Hnth. injection Hnth as ->.
    cbn [snd] in Hq. congruence.
Qed.

Lemma X28_witness :
  let tb :=
    Table.mk [Some (Player.new "p1" 1000); Some (Player.new "p2" 1000);
              Some (Player.new "p3" 7)]
      0 [] (Table.mkConfig 3 5 10) in
  let hm := HandManager.mk (Dealer.new tb) PotManager.new ReadyToStart 0 None in
  exists hm',
    HandManager.startHand (fun i => i) hm = Returns tt hm'
    /\ HandManager.currentState hm' = PreflopBetting
    /\ HandManager.handNumber hm' = 1%nat
    /\ length (Deck.cards (Dealer.deck (HandManager.dealer hm'))) = 46%nat.
Proof.
  intros tb hm.
  destruct (HandManager.postBlinds (Table.resetForNewHand (HandManager.table hm)))
    as [[] tb1|e tb1] eqn:Epost.
  - destruct (X28_startHand_deals_a_new_hand (fun i => i) hm tb1)
      as (deck2 & tb2 & E & Hlen & _).
    + reflexivity.
    + vm_compute. lia.
    + vm_compute. lia.
    + exact Epost.
    + eexists. split; [exact E|]. split; [reflexivity|]. split; [reflexivity|].
      cbn [HandManager.dealer Dealer.deck]. rewrite Hlen. reflexivity.
  - exfalso. vm_compute in Epost. discriminate.
Defined.
